(* ===== verification/_CoqProject ===== *)
-Q . S2P
Prelude.v
Bus.v
Framebuf.v
Display.v
Rotate.v
Canvas.v
Input.v
Grid.v
Game2048.v
Klotski.v
Minesweeper.v
Launcher.v
Font.v
TextScreens.v
Render2048.v
RenderKlotski.v
RenderMines.v
Frogger.v
FroggerText.v
FroggerDraw.v
Splash.v
Asteroids.v
AsteroidsDraw.v
DonkeyKong.v
DonkeyKongDraw.v
Galaga.v
GalagaDraw.v
Dino.v
