(* ===== verification/Prelude.v ===== *)
(** * A verification development of the Pico-Games handheld console

    The repository is a MicroPython program for a Raspberry Pi Pico: a
    launcher ([src/main.py]) that lists games and starts one, a clone-friendly
    SSD1306 OLED driver ([src/ssd1306.py]) and eight games ([src/2048.py],
    [src/klotski.py], [src/minesweeper.py], [src/dino.py], [src/asteroids.py],
    [src/frogger.py], [src/galaga.py], [src/donkey_kong.py]).  Every game
    drives a 128x64 landscape panel as a 64x128 portrait surface and reads
    four active-low push buttons.

    How the parts interact.  A game draws pixels into a framebuffer (the
    MicroPython [framebuf] module over a [bytearray]), either through a
    per-pixel rotation ([draw_pixel] in 2048, Klotski, Minesweeper), or by
    composing in a scratch buffer and rotating it as a whole ([show_virtual]
    in Dino, [show_centered_sideways] and [blit_pbm] in Asteroids, Frogger,
    Galaga, Donkey Kong).  The driver's [show] turns the framebuffer into one
    bus transaction per page, padded to the controller's 132 RAM columns.
    Input is sampled once per tick by [EdgeButtons.update]; screen changes go
    through [wait_released]; two-button chords go through [detect_ud_action]
    and [detect_action_chords].  The launcher shows a PBM image per game and
    runs the chosen game's module, catching what it raises.

    Files, in dependency order (see [_CoqProject]), and what they model:
    - [Prelude.v] (this file): the [pico_scope] notations for Python's bit
      operators, Python's [range] over integers ([zrange]), bytearray slices
      and slice assignment, single-bit set/clear on bytes, Python's
      [random.randint]/[choice]/[getrandbits] over an explicit stream of raw
      draws ([rnd : nat -> Z], the k-th draw, and a draw counter), a
      state-and-trace monad [sw] for code that threads a state and emits
      events, the [pico] hint database, the tactics [zbool] and [case_ifs]
      that turn Python's conditions into [lia] facts, and the generic lemmas
      on bits, bytes, lists and folds.
    - [Bus.v]: [write_cmd]/[write_data] as events, the typeclass
      [BusTransport] of what the driver needs, and the [SSD1306_I2C]
      instance (one [writeto] per event, control byte first).
    - [Framebuf.v]: the typeclass [PixelSurface] with the MONO_VLSB and
      MONO_HLSB instances ([framebuf] is MicroPython's C module, modelled
      from the spec).
    - [Display.v]: the driver of [src/ssd1306.py] (state record, every
      method) and its reachable-state invariant.
    - [Rotate.v]: [draw_pixel], Dino's [show_virtual] and the sideways pass.
    - [Canvas.v]: the calls a game makes on a [framebuf] surface
      ([fill_rect], [pixel], [hline], [vline], [text], [fill]) as data, the
      pixels each asks for, and the boxes of the collision tests.
    - [Input.v]: [EdgeButtons] (four- and eight-result [update]), the clock
      [ticks_ms]/[ticks_diff]/[ticks_add] with its 2^30 period, the wait
      loops and chord detectors, Frogger's [read_move].
    - [Grid.v]: the [b[r][c]] idiom of the board games.
    - [Game2048.v], [Klotski.v], [Minesweeper.v]: the rules and one turn of
      the main loop of the three board games, with reachability relations.
    - [Launcher.v]: [src/main.py]: the PBM reader, [draw_pbm_to_display],
      the menu loop and [launch_game] with the exceptions a game raises.
    - [Font.v]: the 3x5 text renderer the board games copy;
      [Render2048.v], [RenderKlotski.v], [RenderMines.v]: what each of them
      draws, as the list of [draw_pixel] calls.
    - [TextScreens.v]: the centred text screens of the sideways games
      ([show_centered_sideways], Galaga's [show_centered_portrait]), their
      game-over screens and the UP/DOWN retry loop after them.
    - [Frogger.v], [FroggerText.v], [FroggerDraw.v]: Frogger's lanes,
      collisions and one pass of its loop; its word wrapping and the
      placement of its text screens; [draw_game].
    - [Splash.v]: [blit_pbm] and the title screens of the four sideways
      games, with their text fallbacks.
    - [Asteroids.v]: Asteroids' fixed-point physics and one pass of its
      loop, with the collision pass's in-place bullet updates;
      [AsteroidsDraw.v]: its ship and asteroid outlines (as [line] calls),
      the HUD and the frame of its draw block.
    - [DonkeyKong.v]: Donkey Kong's platforms and ladders, the barrels,
      Mario's movement, the hammer, and one pass of the inner loop of its
      [play_once], with the stage restart; [DonkeyKongDraw.v]: its sprites,
      the platforms and ladders and the frame of its draw block.
    - [Galaga.v]: Galaga's enemies (waves, dives, returns, the boss beam,
      the challenge stage), and one pass of the loop of its [play_once]
      phase by phase (ship, fire, bomb, hover, dives, bullets, shooting,
      hits, capture, lost lives, stage end), the three life-losing blocks
      over a [fight] record; [GalagaDraw.v]: its sprites, the HUD and the
      frame of its draw block.
    - [Dino.v]: Dino's sprites and hitboxes, its obstacles and the three
      loops of its [play_game] (title, game, game over) as one step
      function, over the class [PyFloat] of Python's float operations with
      the Pico's single precision ([binary32], Stdlib's [SpecFloat]) as
      its instance.

    What the theorems show (the manifest lists the claims).
    - Driver and bus: [show] refines its page-by-page specification and
      always sends full 132-byte lines with zero hidden columns; every
      reachable driver state is well formed; over I2C each call is one
      transaction carrying the control byte and the payload.
    - Rendering pipelines: per-pixel rotation and Dino's virtual buffer
      give the same frame; what 2048, Klotski and Minesweeper draw is on
      the surface, with the exceptions found (labels that spill out of a
      cell, labels below row 127, a cursor side at x = -1, missing glyphs).
    - Input: edges are exactly released-to-pressed transitions; the chord
      detectors terminate within their thresholds or, for Minesweeper's
      flag chord, block for as long as it is held.
    - Games: every state Dino reaches is well formed for any float
      implementation; the sprites of Dino, Donkey Kong and Galaga lie in
      the boxes their collision tests use (but Dino's tail tip), Galaga's
      HUD is never cut in a reachable state, Frogger counts a road hit
      exactly when a drawn car and the drawn frog share a pixel, and the
      game-over screens of
      the sideways games fit their buffer for every score; their title
      screens show the launcher's P4 images turned a quarter; for Klotski,
      Minesweeper, Frogger, Asteroids, Donkey Kong and Galaga, one turn of the main loop from any reachable state keeps an
      invariant of the game (and for the last four loses at most one life
      and never lowers the score); Donkey Kong's hammer smash, popping indices in
      reverse, is a filter; the 2048 moves keep the sum of the tiles and slide
      as specified; [move_piece] refines the move of one rectangle;
      [flood_reveal] terminates within its fuel; [place_mines] keeps the
      first cell's neighbourhood free.  The findings are theorems too:
      Frogger's log carry is lost, Asteroids' friction never stops a drift
      left or up, one Asteroids bullet destroys several asteroids, a new
      Asteroids game can start invulnerable or on an asteroid, Mario can
      fall through a platform to a place under the bottom one where the
      game can neither be won nor lost, a Donkey Kong stage can start
      with the hammer active, the hammer Donkey Kong draws beside Mario
      never smashes the barrel it touches, a bullet on the drawn corner of
      an Asteroids rock misses it, Galaga's formation never hovers (it is as
      wide as the screen), its enemy-collision block can never fire (no
      enemy goes below row 108), its enemy bullet cap is checked once per
      pass and can be exceeded, its ship can be invulnerable from the
      start, Dino's middle bird is harmless on the ground while its low bird
      cannot be ducked, and a restarted Dino round starts at score 1.
    - Launcher: the PBM reader round-trips every image, drawing an image
      lights exactly its pixels, missing images fall back to a placeholder,
      and the launcher as a whole raises nothing but a game's [SystemExit].

    Bounds and fuel.  Integers are [Z] as in Python, with the wrap-around of
    the 30-bit tick counter written out ([ticks_ms], [ticks_diff]); indices
    are converted with [Z.to_nat] after the code's own bound checks.  A
    [for] over a [range] is a fold over [zrange].  Loops that wait on the
    buttons read an environment [env : Z -> levels] at the program's own
    time (which only its sleeps advance) and take fuel; the theorems show
    the fuel they need is enough (a chord hold needs at most 71 polls of
    10 ms; the game-over retry loop answers at the first poll that sees a
    button within its fuel).  Donkey Kong's ladder rungs ([while y < y1])
    take as fuel the ladder's height, and more fuel changes nothing.
    The comment loop of [blit_pbm] takes one turn per byte of the file and
    stops at a line that is no comment.  Minesweeper's flood fill takes [FLOOD_FUEL] = 65 turns, one
    more than its 64 cells can use; the PBM header loop is given more turns
    than the file has bytes, so more than it has lines.  Random draws are an argument, so every theorem holds
    for every sequence of draws.  Floats (Dino only) are abstract in the
    theorems about the game and IEEE binary32, rounding to nearest even, in
    its instance; a literal is taken as correctly rounded.

    Not modelled: the rasterisation of [framebuf.line] (library code:
    Asteroids' outlines are their [line] calls), the glyphs of the
    [framebuf.text] ROM font (a text is its [Text] call), the [sh1106]
    driver (not in the repository: a title image is the portrait buffer
    handed to its [blit]), the invert flashes and level banners of the
    sideways games (text calls and sleeps, no state), the hardware set-up
    ([I2C], [Pin]), and the file system and dynamic [__import__] of the
    launcher beyond the effects it has on the display and the menu. *)

From stdpp Require Export base list.
From Stdlib Require Export ZArith Lia.

Declare Scope pico_scope.
Delimit Scope pico_scope with pico.
Open Scope Z_scope.

(** Python's bit operators on integers. *)
Notation "x .& y" := (Z.land x y) (at level 40, left associativity) : pico_scope.
Notation "x .| y" := (Z.lor x y) (at level 50, left associativity) : pico_scope.
Notation "x .>> n" := (Z.shiftr x n) (at level 34, left associativity) : pico_scope.
Notation "x .<< n" := (Z.shiftl x n) (at level 34, left associativity) : pico_scope.
Open Scope pico_scope.

Create HintDb pico discriminated.

(** ** Python's [range(a, b)] over integers *)

Definition zrange (a b : Z) : list Z :=
  map (fun i => a + Z.of_nat i) (seq 0 (Z.to_nat (b - a))).

(** [range(a, b, k)] for a step [k > 0]: [a], [a + k], ... below [b]. *)
Definition zrange_step (a b k : Z) : list Z :=
  map (fun i => a + k * i) (zrange 0 ((b - a + k - 1) `div` k)).

(** [for a in range(a0, a1): for b in range(b0, b1)], in that order. *)
Definition zrange2 (a0 a1 b0 b1 : Z) : list (Z * Z) :=
  flat_map (fun a => map (fun b => (a, b)) (zrange b0 b1)) (zrange a0 a1).

(** ** Byte strings *)

Definition is_byte (z : Z) : Prop := 0 <= z < 256.
#[export] Instance is_byte_dec z : Decision (is_byte z).
Proof. unfold is_byte. apply _. Defined.

(** [bytearray(n)] and [b"\x00" * n]. *)
(** A decision procedure carried along an equivalence. *)
Definition dec_of_iff {P Q : Prop} (H : P <-> Q) (d : Decision Q) : Decision P :=
  match d with left h => left (proj2 H h) | right h => right (fun p => h (proj1 H p)) end.

Definition zeros (n : nat) : list Z := replicate n 0.

(** [l[a:b]] for [0 <= a], [0 <= b]. *)
Definition py_slice (l : list Z) (a b : nat) : list Z := take (b - a) (drop a l).

(** [l[a:b] = src] for [0 <= a], [0 <= b]: Python clamps both bounds to the
    length and replaces the slice, so the list grows or shrinks when [src]
    has another length than the slice. *)
Definition py_slice_assign (l : list Z) (a b : nat) (src : list Z) : list Z :=
  take a l ++ src ++ drop (Nat.max a b) l.

(** [b | (1 << k)] and [b & ~(1 << k)]. *)
Definition set_bit (b k : Z) : Z := b .| (1 .<< k).
Definition clear_bit (b k : Z) : Z := b .& Z.lnot (1 .<< k).

(** Sum of a list of integers ([sum(l)]). *)
Definition zsum (l : list Z) : Z := foldr Z.add 0 l.

(** ** Python's [random] module

    [rnd k] is the raw value the generator returns at its [k]-th call;
    each function reduces it into the range its documentation promises and
    returns the next count, which the callers thread.  Nothing is assumed
    on [rnd]: the theorems hold for every sequence of draws. *)

Definition randint (rnd : nat -> Z) (k : nat) (a b : Z) : Z * nat := (a + rnd k mod (b - a + 1), S k).

Definition choice {A} `{Inhabited A} (rnd : nat -> Z) (k : nat) (l : list A) : A * nat :=
  (l !!! Z.to_nat (rnd k mod Z.of_nat (length l)), S k).

Definition getrandbits (rnd : nat -> Z) (k : nat) (n : Z) : Z * nat := (rnd k mod 2 ^ n, S k).

(** ** A state-and-trace monad

    [sw S E A] runs on a state [S], returns an [A] and appends to a trace of
    events [E]: the shape of a driver method that mutates its object and
    calls its transport. *)

Definition sw (S E A : Type) : Type := S -> A * S * list E.

#[export] Instance sw_ret {S E} : MRet (sw S E) := fun A a s => (a, s, []).
#[export] Instance sw_bind {S E} : MBind (sw S E) := fun A B f m s =>
  let '(a, s1, e1) := m s in
  let '(b, s2, e2) := f a s1 in
  (b, s2, e1 ++ e2).

Definition sw_get {S E} : sw S E S := fun s => (s, s, []).
Definition sw_modify {S E} (f : S -> S) : sw S E unit := fun s => (tt, f s, []).
Definition sw_tell {S E} (e : E) : sw S E unit := fun s => (tt, s, [e]).

(** [for x in xs: body(x)] *)
Fixpoint sw_for {S E} (xs : list Z) (body : Z -> sw S E unit) : sw S E unit :=
  match xs with
  | [] => mret tt
  | x :: xs => body x ;; sw_for xs body
  end.

Definition sw_state {S E A} (m : sw S E A) (s : S) : S := (m s).1.2.
Definition sw_trace {S E A} (m : sw S E A) (s : S) : list E := (m s).2.

(** ** Lemmas on [zrange] *)

Lemma elem_of_zrange a b x : x ∈ zrange a b <-> a <= x < b.
Proof.
  unfold zrange. rewrite list_elem_of_fmap. split.
  - intros [i [-> Hi]]. apply list_elem_of_In, in_seq in Hi. lia.
  - intros Hx. exists (Z.to_nat (x - a)). split; [lia|].
    apply list_elem_of_In, in_seq. lia.
Qed.

Lemma length_zrange a b : length (zrange a b) = Z.to_nat (b - a).
Proof. unfold zrange. by rewrite length_map, length_seq. Qed.

Lemma zrange_nil a b : b <= a -> zrange a b = [].
Proof. intros H. unfold zrange. by replace (Z.to_nat (b - a)) with 0%nat by lia. Qed.

Lemma zrange_cons a b : a < b -> zrange a b = a :: zrange (a + 1) b.
Proof.
  intros H. unfold zrange.
  replace (Z.to_nat (b - a)) with (S (Z.to_nat (b - (a + 1)))) by lia.
  simpl. f_equal; [lia|]. rewrite <- seq_shift, map_map.
  apply map_ext. intros i. lia.
Qed.

Lemma zrange_snoc a b : a <= b -> zrange a (b + 1) = zrange a b ++ [b].
Proof.
  intros H. unfold zrange.
  replace (Z.to_nat (b + 1 - a)) with (Z.to_nat (b - a) + 1)%nat by lia.
  rewrite seq_app, map_app. simpl. do 2 f_equal. lia.
Qed.

(** ** Lemmas on bits of a byte *)

Lemma testbit_set_bit b k n :
  0 <= k -> 0 <= n -> Z.testbit (set_bit b k) n = Z.testbit b n || bool_decide (k = n).
Proof.
  intros Hk Hn. unfold set_bit. rewrite Z.lor_spec, Z.shiftl_1_l, Z.pow2_bits_eqb by lia.
  f_equal. apply eq_iff_eq_true. rewrite Z.eqb_eq, bool_decide_eq_true. done.
Qed.

Lemma testbit_clear_bit b k n :
  0 <= k -> 0 <= n -> Z.testbit (clear_bit b k) n = Z.testbit b n && negb (bool_decide (k = n)).
Proof.
  intros Hk Hn. unfold clear_bit.
  rewrite Z.land_spec, Z.lnot_spec, Z.shiftl_1_l, Z.pow2_bits_eqb by lia.
  do 2 f_equal. apply eq_iff_eq_true. rewrite Z.eqb_eq, bool_decide_eq_true. done.
Qed.

Lemma byte_high_bits b n : is_byte b -> 8 <= n -> Z.testbit b n = false.
Proof.
  intros [H0 H1] Hn. destruct (Z.eq_dec b 0) as [->|Hb]; [apply Z.bits_0|].
  apply Z.bits_above_log2; [lia|].
  assert (Z.log2 b < 8); [|lia]. apply Z.log2_lt_pow2; [lia|]. change (2 ^ 8) with 256. lia.
Qed.

Lemma is_byte_of_bits z : 0 <= z -> (forall n, 8 <= n -> Z.testbit z n = false) -> is_byte z.
Proof.
  intros H0 Hhi. assert (z = z mod 2 ^ 8) as Hz.
  { apply Z.bits_inj'. intros n Hn. destruct (Z.lt_ge_cases n 8).
    - by rewrite Z.mod_pow2_bits_low.
    - rewrite Z.mod_pow2_bits_high by lia. auto. }
  rewrite Hz. split; [apply Z.mod_pos_bound; lia|]. apply Z.mod_pos_bound. lia.
Qed.

Lemma set_bit_byte b k : is_byte b -> 0 <= k < 8 -> is_byte (set_bit b k).
Proof.
  intros Hb Hk. apply is_byte_of_bits.
  - unfold set_bit. apply Z.lor_nonneg. split; [apply Hb|]. rewrite Z.shiftl_1_l. lia.
  - intros n Hn. rewrite testbit_set_bit by lia. rewrite byte_high_bits by done.
    rewrite bool_decide_eq_false_2 by lia. done.
Qed.

Lemma clear_bit_byte b k : is_byte b -> 0 <= k < 8 -> is_byte (clear_bit b k).
Proof.
  intros Hb Hk. apply is_byte_of_bits.
  - unfold clear_bit. apply Z.land_nonneg. left. apply Hb.
  - intros n Hn. rewrite testbit_clear_bit by lia. by rewrite byte_high_bits.
Qed.

(** Two bytes with the same eight bits are equal. *)
Lemma byte_ext b1 b2 :
  is_byte b1 -> is_byte b2 -> (forall n, 0 <= n < 8 -> Z.testbit b1 n = Z.testbit b2 n) -> b1 = b2.
Proof.
  intros H1 H2 Hb. apply Z.bits_inj'. intros n Hn. destruct (Z.lt_ge_cases n 8).
  - apply Hb. lia.
  - by rewrite !byte_high_bits.
Qed.

Lemma zero_byte : is_byte 0.
Proof. unfold is_byte. lia. Qed.

Lemma land_255_byte z : is_byte (z .& 255).
Proof.
  change 255 with (Z.ones 8). rewrite Z.land_ones by lia.
  pose proof (Z.mod_pos_bound z (2 ^ 8)). unfold is_byte. lia.
Qed.

Lemma land_255_id z : is_byte z -> z .& 255 = z.
Proof.
  intros Hz. change 255 with (Z.ones 8). rewrite Z.land_ones by lia.
  apply Z.mod_small. unfold is_byte in Hz. lia.
Qed.

#[export] Hint Resolve set_bit_byte clear_bit_byte zero_byte land_255_byte : pico.

(** ** Lemmas on lists of bytes *)

Lemma Forall_insert {A} (P : A -> Prop) (l : list A) i x :
  Forall P l -> P x -> Forall P (<[i:=x]> l).
Proof.
  rewrite !Forall_lookup. intros Hl Hx j y. rewrite list_lookup_insert.
  case_decide; [intros [= <-]; done | apply Hl].
Qed.

Lemma Forall_zeros n : Forall is_byte (zeros n).
Proof. apply Forall_replicate, zero_byte. Qed.

#[export] Hint Resolve Forall_insert Forall_zeros : pico.

Lemma length_zeros n : length (zeros n) = n.
Proof. apply length_replicate. Qed.

Lemma lookup_zeros n i : (i < n)%nat -> zeros n !! i = Some 0.
Proof. intros H. apply lookup_replicate. done. Qed.

Lemma length_py_slice_assign l a b src :
  (a <= b)%nat -> (b <= length l)%nat ->
  length (py_slice_assign l a b src) = (length l - (b - a) + length src)%nat.
Proof.
  intros Hab Hb. unfold py_slice_assign.
  rewrite !length_app, length_take, length_drop. lia.
Qed.

Lemma lookup_py_slice_assign_lo l a b src i :
  (a <= length l)%nat -> (i < a)%nat -> py_slice_assign l a b src !! i = l !! i.
Proof.
  intros Ha Hi. unfold py_slice_assign.
  rewrite lookup_app_l by (rewrite length_take; lia). by rewrite lookup_take_lt.
Qed.

Lemma lookup_py_slice_assign_mid l a b src i :
  (a <= length l)%nat -> (a <= i < a + length src)%nat ->
  py_slice_assign l a b src !! i = src !! (i - a)%nat.
Proof.
  intros Ha Hi. unfold py_slice_assign.
  rewrite lookup_app_r by (rewrite length_take; lia). rewrite length_take.
  rewrite lookup_app_l by lia. f_equal. lia.
Qed.

Lemma lookup_py_slice_assign_hi l a b src i :
  (a <= b)%nat -> (b <= length l)%nat -> (a + length src <= i)%nat ->
  py_slice_assign l a b src !! i = l !! (i - length src + (b - a))%nat.
Proof.
  intros Hab Hb Hi. unfold py_slice_assign.
  rewrite lookup_app_r by (rewrite length_take; lia). rewrite length_take.
  rewrite lookup_app_r by lia. rewrite lookup_drop. f_equal. lia.
Qed.

Lemma length_py_slice l a b :
  (a <= b)%nat -> (b <= length l)%nat -> length (py_slice l a b) = (b - a)%nat.
Proof. intros. unfold py_slice. rewrite length_take, length_drop. lia. Qed.

Lemma lookup_py_slice l a b i :
  (i < b - a)%nat -> py_slice l a b !! i = l !! (a + i)%nat.
Proof. intros. unfold py_slice. rewrite lookup_take_lt by lia. apply lookup_drop. Qed.

(** ** Tactics *)

(** Unfold the bit operations of a byte to single-bit facts. *)
Ltac pico_bits :=
  repeat first
    [ rewrite testbit_set_bit by lia
    | rewrite testbit_clear_bit by lia
    | rewrite Z.lor_spec | rewrite Z.land_spec ].

(** Close a goal about list indices obtained from [Z] coordinates. *)
Ltac pico_idx := repeat (rewrite ?Z2Nat.id by lia); lia.

(** Turn the boolean comparisons of Python's conditions in the context
    into the propositions [lia] reads. *)
Ltac zbool :=
  repeat match goal with
  | H : (_ <? _) = true |- _ => apply Z.ltb_lt in H
  | H : (_ <? _) = false |- _ => apply Z.ltb_ge in H
  | H : (_ >? _) = true |- _ => apply Z.gtb_lt in H
  | H : (_ >? _) = false |- _ => rewrite Z.gtb_ltb in H; apply Z.ltb_ge in H
  | H : (_ <=? _) = true |- _ => apply Z.leb_le in H
  | H : (_ <=? _) = false |- _ => apply Z.leb_gt in H
  | H : (_ =? _) = true |- _ => apply Z.eqb_eq in H
  | H : (_ =? _) = false |- _ => apply Z.eqb_neq in H
  end.

(** [zbool], also splitting the conjunctions and disjunctions of
    Python's [and]/[or] conditions. *)
Ltac zbools :=
  repeat match goal with
  | H : _ && _ = true |- _ => apply andb_true_iff in H as [? ?]
  | H : _ || _ = false |- _ => apply orb_false_iff in H as [? ?]
  | H : _ && _ = false |- _ => apply andb_false_iff in H
  | H : _ || _ = true |- _ => apply orb_true_iff in H
  | H : negb _ = true |- _ => apply negb_true_iff in H
  | H : negb _ = false |- _ => apply negb_false_iff in H
  | H : (_ = true) \/ (_ = true) |- _ => destruct H
  | H : (_ = false) \/ (_ = false) |- _ => destruct H
  end; zbool.

(** Case on every [if] of the goal, innermost tests first, with each
    test as a hypothesis. *)
Ltac case_ifs :=
  repeat match goal with
  | |- context [if ?b then _ else _] =>
      lazymatch b with context [if _ then _ else _] => fail | _ => destruct b eqn:? end
  end; zbool.

Lemma sw_bind_run {S E A B} (m : sw S E A) (f : A -> sw S E B) s :
  (m ≫= f) s = let '(a, s1, e1) := m s in let '(b, s2, e2) := f a s1 in (b, s2, e1 ++ e2).
Proof. done. Qed.

(** A loop whose body keeps an invariant and whose trace, under the
    invariant, depends only on the loop variable. *)
Lemma sw_for_inv {S E} (P : S -> Prop) (body : Z -> sw S E unit) (ev : Z -> list E) xs s :
  (forall x s, x ∈ xs -> P s -> P (sw_state (body x) s) /\ sw_trace (body x) s = ev x) ->
  P s -> P (sw_state (sw_for xs body) s) /\ sw_trace (sw_for xs body) s = flat_map ev xs.
Proof.
  revert s. induction xs as [|x xs IH]; intros s Hbody Hs; [done|].
  unfold sw_state, sw_trace in *. cbn [sw_for]. unfold mbind, sw_bind.
  destruct (Hbody x s) as [HP Htr]; [left|done|].
  destruct (body x s) as [[[] s1] e1] eqn:E1. simpl in HP, Htr.
  destruct (IH s1) as [HP' Htr']; [intros; apply Hbody; [by right|done]|done|].
  destruct (sw_for xs body s1) as [[u s2] e2]. simpl in *. subst. done.
Qed.

Lemma foldl_insert_zeros (l : list Z) (k : nat) :
  (k <= length l)%nat ->
  foldl (fun l i => <[Z.to_nat i := 0]> l) l (zrange 0 (Z.of_nat k)) = replicate k 0 ++ drop k l.
Proof.
  induction k as [|k IH]; intros Hk; [done|].
  rewrite Nat2Z.inj_succ, <- Z.add_1_r, zrange_snoc, foldl_app by lia. rewrite IH by lia. simpl.
  destruct (lookup_lt_is_Some_2 l k) as [x Hx]; [lia|].
  rewrite (drop_S l x k Hx), insert_app_r_alt by (rewrite length_replicate; lia).
  rewrite length_replicate. replace (Z.to_nat (Z.of_nat k) - k)%nat with 0%nat by lia. simpl.
  change (0 :: replicate k 0 ++ drop (S k) l) with ((0 :: replicate k 0) ++ drop (S k) l).
  by rewrite replicate_cons_app, <- app_assoc.
Qed.

(** Lookup in a concatenation of blocks of a fixed size. *)
Lemma lookup_flat_map_fixed {A B} (f : A -> list B) (m : nat) (l : list A) k j x :
  (forall a, length (f a) = m) -> (j < m)%nat -> l !! k = Some x ->
  flat_map f l !! (m * k + j)%nat = f x !! j.
Proof.
  intros Hm Hj. revert k. induction l as [|a l IH]; intros k Hk; [done|].
  destruct k as [|k]; simpl in *.
  - injection Hk as ->. rewrite Nat.mul_0_r. apply lookup_app_l. rewrite Hm. lia.
  - rewrite lookup_app_r by (rewrite Hm; lia). rewrite Hm.
    replace (m * S k + j - m)%nat with (m * k + j)%nat by lia. by apply IH.
Qed.

Lemma lookup_zrange a b k : (k < Z.to_nat (b - a))%nat -> zrange a b !! k = Some (a + Z.of_nat k).
Proof.
  intros Hk. unfold zrange. rewrite list_lookup_fmap.
  rewrite lookup_seq_lt by done. done.
Qed.

Lemma sw_state_bind {S E A B} (m : sw S E A) (f : A -> sw S E B) s :
  sw_state (m ≫= f) s = sw_state (f (m s).1.1) (sw_state m s).
Proof.
  unfold sw_state. cbv [mbind sw_bind]. destruct (m s) as [[a s1] e1]. simpl.
  destruct (f a s1) as [[b s2] e2]. done.
Qed.

Lemma sw_for_state_inv {S E} (P : S -> Prop) (body : Z -> sw S E unit) xs s :
  (forall x s, x ∈ xs -> P s -> P (sw_state (body x) s)) -> P s -> P (sw_state (sw_for xs body) s).
Proof.
  revert s. induction xs as [|x xs IH]; intros s Hbody Hs; [done|].
  cbn [sw_for]. rewrite sw_state_bind. apply IH.
  - intros y s' Hy. apply Hbody. by right.
  - apply Hbody; [left|done].
Qed.

(** Close a decidable goal about concrete data by evaluating its decision
    procedure. *)
Ltac decide_by_eval :=
  match goal with |- ?P => apply (bool_decide_unpack P); vm_compute; reflexivity end.

(** [b & (1 << k)] is nonzero exactly when bit [k] of [b] is set. *)
Lemma land_bit_nonzero b k : 0 <= k -> negb (b .& (1 .<< k) =? 0) = Z.testbit b k.
Proof.
  intros Hk. destruct (Z.testbit b k) eqn:Hb.
  - apply negb_true_iff, Z.eqb_neq. intros E.
    assert (Z.testbit (b .& (1 .<< k)) k = true) as Ht.
    { rewrite Z.land_spec, Z.shiftl_1_l, Z.pow2_bits_true by lia. by rewrite Hb. }
    rewrite E, Z.bits_0 in Ht. discriminate.
  - apply negb_false_iff, Z.eqb_eq. apply Z.bits_inj'. intros n Hn.
    rewrite Z.land_spec, Z.shiftl_1_l, Z.pow2_bits_eqb, Z.bits_0 by lia.
    destruct (Z.eqb_spec k n) as [<-|]; [by rewrite Hb|apply andb_false_r].
Qed.

(** [(b >> k) & 1] is bit [k] of [b]. *)
Lemma shiftr_land1 b k : 0 <= k -> (b .>> k) .& 1 = Z.b2z (Z.testbit b k).
Proof. intros Hk. change 1 with (Z.ones 1). by rewrite Z.land_ones, Z.shiftr_div_pow2, Z.testbit_spec' by lia. Qed.

(** [l[i] = f(l[i])] in range. *)
Lemma alter_insert_total {A} `{Inhabited A} (f : A -> A) (l : list A) i :
  (i < length l)%nat -> alter f i l = <[i := f (l !!! i)]> l.
Proof.
  intros Hi. destruct (lookup_lt_is_Some_2 l i Hi) as [x Ex]. apply list_eq. intros j.
  rewrite list_lookup_alter. destruct (decide (i = j)) as [<-|Hne].
  - by rewrite list_lookup_insert_eq, Ex, list_lookup_total_alt, Ex by done.
  - by rewrite list_lookup_insert_ne.
Qed.

Lemma sw_bind_silent {S E A B} (m : sw S E A) (f : A -> sw S E B) s :
  sw_trace m s = [] -> (m ≫= f) s = f (m s).1.1 (sw_state m s).
Proof.
  unfold sw_trace, sw_state. cbv [mbind sw_bind]. destruct (m s) as [[a s1] e1]. simpl. intros ->.
  destruct (f a s1) as [[b s2] e2]. done.
Qed.

(** ** Sums *)

Lemma zsum_cons x l : zsum (x :: l) = x + zsum l.
Proof. reflexivity. Qed.

Lemma zsum_app l1 l2 : zsum (l1 ++ l2) = zsum l1 + zsum l2.
Proof. induction l1 as [|x l1 IH]; simpl; [done|]. unfold zsum in *. simpl. lia. Qed.

Lemma zsum_replicate_0 k : zsum (replicate k 0) = 0.
Proof. induction k as [|k IH]; [done|]. simpl. unfold zsum in *. simpl. lia. Qed.

Lemma zsum_reverse l : zsum (reverse l) = zsum l.
Proof.
  induction l as [|x l IH]; [done|]. rewrite reverse_cons, zsum_app, IH. simpl. unfold zsum; simpl. lia.
Qed.


Lemma existsb_ext_elem {A} (f g : A -> bool) l :
  (forall x, x ∈ l -> f x = g x) -> existsb f l = existsb g l.
Proof.
  induction l as [|x l IH]; intros H; [done|]. simpl. rewrite H by (left; done).
  f_equal. apply IH. intros y Hy. apply H. by right.
Qed.

Lemma existsb_map_comp {A B} (f : B -> bool) (g : A -> B) l : existsb f (map g l) = existsb (fun x => f (g x)) l.
Proof. induction l as [|x l IH]; [done|]. simpl. by rewrite IH. Qed.

Lemma zsum_map_add {A} (g h : A -> Z) l : zsum (map (fun x => g x + h x) l) = zsum (map g l) + zsum (map h l).
Proof. induction l as [|x l IH]; [done|]. cbn [map]. rewrite !zsum_cons, IH. lia. Qed.

(** Exchanging the order of a double sum. *)
Lemma zsum_exchange {A B} (f : A -> B -> Z) l1 l2 :
  zsum (map (fun i => zsum (map (f i) l2)) l1) = zsum (map (fun j => zsum (map (fun i => f i j) l1)) l2).
Proof.
  induction l1 as [|i l1 IH]; cbn [map].
  - induction l2; [done|]. cbn [map]. by rewrite zsum_cons, <- IHl2.
  - rewrite zsum_cons, IH, <- zsum_map_add. f_equal; apply map_ext; intros j; by rewrite zsum_cons.
Qed.

Lemma zsum_filter_nonzero l : zsum (filter (fun v => v <> 0) l) = zsum l.
Proof.
  induction l as [|x l IH]; [done|]. rewrite filter_cons. case_decide as H; rewrite ?zsum_cons, IH; lia.
Qed.

Lemma map_lookup_total_seq {A} `{Inhabited A} (l : list A) : map (fun i => l !!! i) (seq 0 (length l)) = l.
Proof.
  apply list_eq_same_length with (length l); [done|by rewrite length_map, length_seq|].
  intros i x y Hi E1 E2. rewrite list_lookup_fmap in E1.
  rewrite lookup_seq_lt in E1 by done. simpl in E1. injection E1 as <-.
  by rewrite list_lookup_total_alt, E2.
Qed.

Lemma Forall_filter_sub {A} (P Q : A -> Prop) `{forall x, Decision (Q x)} l :
  Forall P l -> Forall P (filter Q l).
Proof.
  rewrite !Forall_forall. intros HP x Hx. apply list_elem_of_filter in Hx as [_ Hx]. by apply HP.
Qed.

Lemma zsum_insert (l : list Z) i v : (i < length l)%nat -> zsum (<[i := v]> l) = zsum l - l !!! i + v.
Proof.
  revert i. induction l as [|x l IH]; intros [|i] Hi; cbn [length] in Hi; try lia.
  - change (<[0%nat:=v]> (x :: l)) with (v :: l). change ((x :: l) !!! 0%nat) with x. rewrite !zsum_cons. lia.
  - change (<[S i:=v]> (x :: l)) with (x :: <[i:=v]> l). change ((x :: l) !!! S i) with (l !!! i).
    rewrite !zsum_cons, IH by lia. lia.
Qed.

Lemma zsum_map_alter {A} `{Inhabited A} (g : A -> Z) (f : A -> A) (l : list A) i :
  (i < length l)%nat -> zsum (map g (alter f i l)) = zsum (map g l) - g (l !!! i) + g (f (l !!! i)).
Proof.
  revert i. induction l as [|x l IH]; intros [|i] Hi; cbn [length] in Hi; try lia.
  - change (alter f 0%nat (x :: l)) with (f x :: l). change ((x :: l) !!! 0%nat) with x. cbn [map].
    rewrite !zsum_cons. lia.
  - change (alter f (S i) (x :: l)) with (x :: alter f i l). change ((x :: l) !!! S i) with (l !!! i).
    cbn [map]. rewrite !zsum_cons, IH by lia. lia.
Qed.

Lemma Forall_alter_lookup {A} (P : A -> Prop) (f : A -> A) (l : list A) i :
  Forall P l -> (forall x, l !! i = Some x -> P (f x)) -> Forall P (alter f i l).
Proof.
  rewrite !Forall_lookup. intros Hl Hf j y E. rewrite list_lookup_alter in E.
  destruct (decide (i = j)) as [<-|]; [|by eapply Hl].
  destruct (l !! i) as [x|] eqn:Ex; [|done]. simpl in E. injection E as <-. by apply Hf.
Qed.

Lemma list_filter_iff_in {A} (P1 P2 : A -> Prop) `{forall x, Decision (P1 x)} `{forall x, Decision (P2 x)} (l : list A) :
  (forall x, x ∈ l -> P1 x <-> P2 x) -> filter P1 l = filter P2 l.
Proof.
  induction l as [|x l IH]; intros Hx; [done|]. rewrite !filter_cons.
  rewrite IH by (intros y Hy; apply Hx; by apply elem_of_cons; right).
  assert (P1 x <-> P2 x) by (apply Hx; by apply elem_of_cons; left).
  do 2 case_decide; naive_solver.
Qed.

Lemma find_ext_in {A} (f g : A -> bool) (l : list A) :
  (forall x, x ∈ l -> f x = g x) -> find f l = find g l.
Proof.
  induction l as [|x l IH]; intros Hx; [done|]. simpl.
  rewrite (Hx x) by (apply elem_of_cons; by left). rewrite IH by (intros y Hy; apply Hx, elem_of_cons; by right). done.
Qed.

Lemma elem_of_zrange_step a b k x :
  0 < k -> x ∈ zrange_step a b k <-> a <= x < b /\ (x - a) mod k = 0.
Proof.
  intros Hk. unfold zrange_step. rewrite list_elem_of_fmap. split.
  - intros (i & -> & Hi%elem_of_zrange).
    assert (k * (i + 1) <= b - a + k - 1).
    { pose proof (Z.mul_div_le (b - a + k - 1) k Hk). nia. }
    split; [nia|]. by rewrite Z.add_simpl_l, Z.mul_comm, Z.mod_mul by lia.
  - intros [Hx Hm]. exists ((x - a) `div` k). pose proof (Z.div_mod (x - a) k ltac:(lia)) as Hd.
    rewrite Hm, Z.add_0_r in Hd. split; [lia|]. apply elem_of_zrange. split.
    + apply Z.div_pos; lia.
    + enough ((x - a) `div` k + 1 <= (b - a + k - 1) `div` k) by lia.
      apply Z.div_le_lower_bound; nia.
Qed.

Lemma elem_of_zrange2 a0 a1 b0 b1 a b :
  (a, b) ∈ zrange2 a0 a1 b0 b1 <-> a0 <= a < a1 /\ b0 <= b < b1.
Proof.
  unfold zrange2. rewrite list_elem_of_In, in_flat_map. split.
  - intros (a' & Ha & Hb). apply in_map_iff in Hb as (b' & [= -> ->] & Hb).
    apply list_elem_of_In, elem_of_zrange in Ha, Hb. lia.
  - intros [Ha Hb]. exists a. split; [apply list_elem_of_In, elem_of_zrange; lia|].
    apply in_map_iff. exists b. split; [done|]. apply list_elem_of_In, elem_of_zrange; lia.
Qed.

Section FilterCount.
Context {A : Type} `{EqDecision A} (P Q : A -> Prop) `{forall x, Decision (P x)} `{forall x, Decision (Q x)}.

(** Counting with [filter] when the predicate holds at one more element. *)
Lemma length_filter_succ (l : list A) x :
  NoDup l -> x ∈ l -> ~ P x -> Q x -> (forall y, y ∈ l -> y <> x -> P y <-> Q y) ->
  length (filter Q l) = S (length (filter P l)).
Proof.
  induction l as [|y l IH]; intros Hnd Hx HP HQ Hyx; [by apply not_elem_of_nil in Hx|].
  apply NoDup_cons in Hnd as [Hy Hnd]. rewrite !filter_cons.
  destruct (decide (y = x)) as [->|Hne].
  - case_decide; [|contradiction]. case_decide; [contradiction|]. simpl. do 2 f_equal.
    apply list_filter_iff_in. intros z Hz. symmetry. apply Hyx; [by apply elem_of_cons; right|].
    intros ->. contradiction.
  - apply elem_of_cons in Hx as [->|Hx]; [done|].
    assert (P y <-> Q y) by (apply Hyx; [apply elem_of_cons; by left|done]).
    assert (IH' : length (filter Q l) = S (length (filter P l))).
    { apply IH; try done. intros z Hz. apply Hyx. apply elem_of_cons. by right. }
    do 2 case_decide; simpl; rewrite ?IH'; naive_solver.
Qed.

(** A predicate stronger than another on a list with as many elements
    satisfies it wherever the weaker one holds. *)
Lemma length_filter_sub (l : list A) :
  (forall x, x ∈ l -> Q x -> P x) -> (length (filter Q l) <= length (filter P l))%nat.
Proof.
  induction l as [|x l IH]; intros Hx; [done|]. rewrite !filter_cons.
  assert (Q x -> P x) by (apply Hx; apply elem_of_cons; by left).
  assert ((length (filter Q l) <= length (filter P l))%nat) by (apply IH; intros y Hy; apply Hx; apply elem_of_cons; by right).
  do 2 case_decide; simpl; naive_solver lia.
Qed.

Lemma length_filter_sub_eq (l : list A) :
  (forall x, x ∈ l -> Q x -> P x) -> length (filter Q l) = length (filter P l) ->
  forall x, x ∈ l -> P x -> Q x.
Proof.
  induction l as [|x l IH]; intros Hx Hlen y Hy HPy; [by apply not_elem_of_nil in Hy|].
  rewrite !filter_cons in Hlen.
  assert (Hsub : (length (filter Q l) <= length (filter P l))%nat)
    by (apply length_filter_sub; intros z Hz; apply Hx; apply elem_of_cons; by right).
  assert (Q x -> P x) by (apply Hx; apply elem_of_cons; by left).
  apply elem_of_cons in Hy as [->|Hy].
  - destruct (decide (Q x)); [done|]. destruct (decide (P x)); [|contradiction]. simpl in Hlen. lia.
  - apply IH; try done; [intros z Hz; apply Hx; apply elem_of_cons; by right|].
    do 2 case_decide; simpl in Hlen; naive_solver lia.
Qed.

Lemma length_filter_compl (l : list A) :
  (length (filter P l) + length (filter (fun x => ~ P x) l))%nat = length l.
Proof. rewrite <- length_app. apply Permutation_length, filter_app_complement. Qed.
End FilterCount.

Lemma filter_none {A} (P : A -> Prop) `{forall x, Decision (P x)} (l : list A) :
  (forall x, x ∈ l -> ~ P x) -> filter P l = [].
Proof.
  induction l as [|x l IH]; intros Hx; [done|]. rewrite filter_cons, decide_False by (apply Hx, elem_of_cons; by left).
  apply IH. intros y Hy. apply Hx, elem_of_cons. by right.
Qed.

(** Membership in [flat_map] and [map], in stdpp's notation. *)
Lemma elem_of_flat_map {A B} (f : A -> list B) (l : list A) (y : B) :
  y ∈ flat_map f l <-> exists x, x ∈ l /\ y ∈ f x.
Proof. rewrite list_elem_of_In, in_flat_map. by setoid_rewrite list_elem_of_In. Qed.

Lemma elem_of_map_iff {A B} (f : A -> B) (l : list A) (y : B) :
  y ∈ map f l <-> exists x, y = f x /\ x ∈ l.
Proof. rewrite list_elem_of_In, in_map_iff. setoid_rewrite list_elem_of_In. naive_solver. Qed.

(** [l[i]] of a list all of whose elements, and the default, satisfy [P]. *)
Lemma Forall_lookup_total {A} `{Inhabited A} (P : A -> Prop) (l : list A) i :
  Forall P l -> P inhabitant -> P (l !!! i).
Proof.
  intros Hl Hd. rewrite list_lookup_total_alt.
  destruct (l !! i) eqn:E; simpl; [eapply Forall_lookup_1|]; eauto.
Qed.

(** A loop [for x in l] whose body keeps [P]. *)
Lemma foldl_inv {A B} (P : A -> Prop) (f : A -> B -> A) (l : list B) a :
  (forall acc x, x ∈ l -> P acc -> P (f acc x)) -> P a -> P (foldl f a l).
Proof.
  revert a. induction l as [|x l IH]; intros a Hf Ha; simpl; [done|].
  apply IH; [intros; apply Hf; [by right|done] | apply Hf; [left|done]].
Qed.

(** [random.randint(a, b)] is in [[a, b]] and uses one draw. *)
Lemma randint_range rnd k a b : a <= b -> a <= (randint rnd k a b).1 <= b /\ (randint rnd k a b).2 = S k.
Proof. intros. simpl. pose proof (Z.mod_pos_bound (rnd k) (b - a + 1)). lia. Qed.

(** [random.getrandbits(n)] is in [[0, 2^n)]. *)
Lemma getrandbits_range rnd k n : 0 <= n -> 0 <= (getrandbits rnd k n).1 < 2 ^ n.
Proof. intros. simpl. apply Z.mod_pos_bound. lia. Qed.

Lemma randint_eq_range rnd k a b x k' : randint rnd k a b = (x, k') -> a <= b -> a <= x <= b.
Proof. intros E Hab. pose proof (randint_range rnd k a b Hab) as [Hr _]. by rewrite E in Hr. Qed.

(** [map] carries a property along a function that keeps it. *)
Lemma Forall_map_impl {A B} (P : A -> Prop) (Q : B -> Prop) (f : A -> B) (l : list A) :
  (forall x, P x -> Q (f x)) -> Forall P l -> Forall Q (map f l).
Proof. intros Hf. induction 1; simpl; constructor; auto. Qed.

Lemma Forall_list_filter {A} (P : A -> Prop) (f : A -> bool) (l : list A) : Forall P l -> Forall P (List.filter f l).
Proof. induction 1; simpl; [constructor|]. destruct (f x); auto. Qed.

(** [random.choice(l)] on a non-empty list is an element of it. *)
Lemma choice_elem {A} `{Inhabited A} rnd k (l : list A) : l <> [] -> (choice rnd k l).1 ∈ l.
Proof.
  intros Hl. simpl. apply list_elem_of_lookup_total_2.
  assert (0 < length l)%nat by (destruct l; [done|simpl; lia]).
  assert (0 <= rnd k mod Z.of_nat (length l) < Z.of_nat (length l)) by (apply Z.mod_pos_bound; lia). lia.
Qed.
