(* ===== verification/Bus.v ===== *)
(** * Bus transport: the two-wire link between the driver and the panel

    [src/ssd1306.py] leaves [write_cmd] and [write_data] abstract in class
    [SSD1306] (they raise [NotImplementedError]) and implements them in the
    subclass [SSD1306_I2C].  Here the calls are the events [Cmd] and [Data];
    the typeclass [BusTransport] is what the driver needs from a transport
    (a way to perform each call), and the [i2c_transport] instance is
    [SSD1306_I2C]: a command is sent from the reused two-byte [_tmp]
    buffer as [0x80, cmd & 0xFF], data as [b"\x40" + buf], each in one
    [i2c.writeto] transaction. *)

From S2P Require Import Prelude.

(** A call the driver makes on its transport. *)
Inductive BusEvent :=
  | Cmd (c : Z)
  | Data (buf : list Z).

#[export] Instance BusEvent_eq_dec : EqDecision BusEvent.
Proof. solve_decision. Defined.

(** One [i2c.writeto(addr, bytes)] transaction. *)
Record I2CTxn := mkTxn { txn_addr : Z; txn_bytes : list Z }.

(** What the display driver requires of a transport. *)
Class BusTransport (T : Type) := {
  bus_write_cmd : T -> Z -> T;
  bus_write_data : T -> list Z -> T;
}.

Section Run.
Context `{BusTransport T}.

Definition bus_step (t : T) (e : BusEvent) : T :=
    match e with
    | Cmd c => bus_write_cmd t c
    | Data buf => bus_write_data t buf
    end.

  (** Perform the driver's calls in order. *)
Definition run_bus (t : T) (es : list BusEvent) : T := foldl bus_step t es.

Lemma run_bus_app t es1 es2 : run_bus t (es1 ++ es2) = run_bus (run_bus t es1) es2.
  Proof. unfold run_bus. apply foldl_app. Qed.
End Run.

(** ** The [SSD1306_I2C] transport *)

Record I2CState := mkI2C {
  i2c_addr : Z;             (** [self.addr] *)
  i2c_tmp : list Z;         (** [self._tmp], a reused [bytearray(2)] *)
  i2c_log : list I2CTxn;    (** the transactions on the wire, oldest first *)
}.

(** [SSD1306_I2C.__init__]: [addr=0x3C] by default, [_tmp = bytearray(2)]. *)
Definition i2c_init (addr : Z) : I2CState := mkI2C addr (zeros 2) [].

(** [write_cmd]: fill the shared [_tmp] buffer, then send it.  [writeto]
    copies the bytes onto the wire before returning, so the log keeps the
    value [_tmp] has at the call. *)
Definition i2c_write_cmd (s : I2CState) (cmd : Z) : I2CState :=
  let tmp := <[1%nat := cmd .& 255]> (<[0%nat := 128]> (i2c_tmp s)) in
  mkI2C (i2c_addr s) tmp (i2c_log s ++ [mkTxn (i2c_addr s) tmp]).

(** [write_data]: one transaction carrying the control byte [0x40] and the
    whole buffer. *)
Definition i2c_write_data (s : I2CState) (buf : list Z) : I2CState :=
  mkI2C (i2c_addr s) (i2c_tmp s) (i2c_log s ++ [mkTxn (i2c_addr s) (64 :: buf)]).

#[export] Instance i2c_transport : BusTransport I2CState := {
  bus_write_cmd := i2c_write_cmd;
  bus_write_data := i2c_write_data;
}.

(** The bytes one event puts on the wire. *)
Definition i2c_encode (addr : Z) (e : BusEvent) : I2CTxn :=
  match e with
  | Cmd c => mkTxn addr [128; c .& 255]
  | Data buf => mkTxn addr (64 :: buf)
  end.

Lemma i2c_tmp_length s c : length (i2c_tmp s) = 2%nat -> i2c_tmp (i2c_write_cmd s c) = [128; c .& 255].
Proof.
  destruct s as [a tmp log]; simpl. intros Hl.
  destruct tmp as [|x [|y [|]]]; simpl in *; try lia. done.
Qed.

Lemma i2c_step_addr s e : i2c_addr (bus_step s e) = i2c_addr s.
Proof. by destruct e. Qed.

Lemma i2c_step_tmp s e : length (i2c_tmp s) = 2%nat -> length (i2c_tmp (bus_step s e)) = 2%nat.
Proof.
  destruct e as [c|buf]; [|done]. change (bus_step s (Cmd c)) with (i2c_write_cmd s c).
  intros. by rewrite i2c_tmp_length.
Qed.

Lemma i2c_step_log s e :
  length (i2c_tmp s) = 2%nat ->
  i2c_log (bus_step s e) = i2c_log s ++ [i2c_encode (i2c_addr s) e].
Proof.
  destruct e as [c|buf]; [|done]. change (bus_step s (Cmd c)) with (i2c_write_cmd s c).
  intros Hl. pose proof (i2c_tmp_length s c Hl) as E. simpl in E |- *. by rewrite E.
Qed.

(** C3: Atomicity: over the I2C transport, every [write_cmd] and every
    [write_data] is exactly one transaction, in call order, carrying the
    control byte and the whole payload; no call is split or merged. *)
Theorem i2c_run_log (s : I2CState) (es : list BusEvent) :
  length (i2c_tmp s) = 2%nat ->
  i2c_log (run_bus s es) = i2c_log s ++ map (i2c_encode (i2c_addr s)) es.
Proof.
  revert s. induction es as [|e es IH]; intros s Hs; simpl.
  - by rewrite app_nil_r.
  - unfold run_bus in *. simpl. rewrite IH by (by apply i2c_step_tmp).
    rewrite i2c_step_log, i2c_step_addr by done. by rewrite <- app_assoc.
Qed.

(** Every byte a command puts on the wire is a byte, whatever integer the
    driver passed ([cmd & 0xFF]). *)
Lemma i2c_encode_cmd_bytes addr c : Forall is_byte (txn_bytes (i2c_encode addr (Cmd c))).
Proof. simpl. apply Forall_cons; split; [unfold is_byte; lia|]. apply Forall_singleton, land_255_byte. Qed.

Lemma i2c_run_log_witness :
  length (i2c_tmp (i2c_init 0x3C)) = 2%nat /\
  i2c_log (run_bus (i2c_init 0x3C) [Cmd 0xAF; Data [1; 2; 3]]) =
  i2c_log (i2c_init 0x3C) ++ map (i2c_encode (i2c_addr (i2c_init 0x3C))) [Cmd 0xAF; Data [1; 2; 3]].
Proof.
  assert (H : length (i2c_tmp (i2c_init 0x3C)) = 2%nat) by reflexivity.
  split; [exact H|exact (i2c_run_log _ _ H)].
Defined.
