(* ===== verification/Framebuf.v ===== *)
(** * Pixel surfaces: MicroPython's [framebuf] over a [bytearray]

    Every game draws into a monochrome [framebuf.FrameBuffer].  Two byte
    layouts are used:
    - MONO_VLSB (the SSD1306 driver's [self.framebuf], Dino's [vbuf]): byte
      [(y >> 3) * w + x], bit [y & 7] (the top row of a byte is its least
      significant bit); [src/main.py] (draw_pbm_to_display) and
      [src/dino.py] (show_virtual) index these bytes by hand;
    - MONO_HLSB (the 128x64 scratch buffers of [show_centered_sideways],
      PBM images): byte [y * ((w + 7) / 8) + (x >> 3)], bit [7 - (x & 7)]
      (most significant bit first), the indexing [src/main.py]
      ([draw_pbm_to_display]) uses to read a PBM row.

    Section [BitAddressed] proves the read/write laws once for any layout
    given by a byte index and a bit index that are injective and in range;
    the typeclass [PixelSurface] with its laws [PixelSurfaceLaws] is the
    interface the rotation passes are proved against, and [vlsb_surface],
    [hlsb_surface] are its instances. *)

From S2P Require Import Prelude.

(** ** Bitmaps addressed by (byte, bit) *)

Section BitAddressed.
Context (inb : Z -> Z -> Prop) `{!RelDecision inb}.
Context (idx bit : Z -> Z -> Z) (len : nat).

  (** [framebuf.pixel(x, y)]: 0 outside the surface. *)
Definition ba_get (buf : list Z) (x y : Z) : bool :=
    bool_decide (inb x y) &&
    match buf !! Z.to_nat (idx x y) with
    | Some b => Z.testbit b (bit x y)
    | None => false
    end.

  (** [framebuf.pixel(x, y, c)]: set or clear one bit; ignored outside. *)
Definition ba_set (buf : list Z) (x y : Z) (c : bool) : list Z :=
    if decide (inb x y) then
      alter (fun b => if c then set_bit b (bit x y) else clear_bit b (bit x y))
            (Z.to_nat (idx x y)) buf
    else buf.

Definition ba_wf (buf : list Z) : Prop := length buf = len /\ Forall is_byte buf.

  (** [framebuf.fill(c)]: every byte [0xFF] or [0x00]. *)
Definition ba_fill (buf : list Z) (c : bool) : list Z :=
    replicate (length buf) (if c then 255 else 0).

Context (Hidx : forall x y, inb x y -> 0 <= idx x y /\ (Z.to_nat (idx x y) < len)%nat).
Context (Hbit : forall x y, inb x y -> 0 <= bit x y < 8).
Context (Hinj : forall x y x' y', inb x y -> inb x' y' ->
              idx x y = idx x' y' -> bit x y = bit x' y' -> x = x' /\ y = y').

Lemma ba_set_length buf x y c : length (ba_set buf x y c) = length buf.
  Proof. unfold ba_set. case_decide; [apply length_alter|done]. Qed.

Lemma ba_set_wf buf x y c : ba_wf buf -> ba_wf (ba_set buf x y c).
  Proof.
    intros [Hl Hb]. split; [by rewrite ba_set_length|]. unfold ba_set.
    case_decide as Hin; [|done]. apply Forall_lookup. intros i b.
    rewrite list_lookup_alter. destruct (decide (Z.to_nat (idx x y) = i)) as [<-|Hne].
    - destruct (buf !! Z.to_nat (idx x y)) as [b0|] eqn:E; intros [= <-].
      pose proof (Forall_lookup_1 _ _ _ _ Hb E). specialize (Hbit x y Hin).
      destruct c; auto with pico.
    - intros E. eapply Forall_lookup_1; eauto.
  Qed.

Lemma ba_get_set_eq buf x y c : ba_wf buf -> inb x y -> ba_get (ba_set buf x y c) x y = c.
  Proof.
    intros [Hl Hb] Hin. unfold ba_get, ba_set. rewrite bool_decide_eq_true_2 by done.
    rewrite decide_True by done. rewrite list_lookup_alter.
    destruct (Hidx x y Hin) as [_ Hi]. destruct (Hbit x y Hin).
    destruct (lookup_lt_is_Some_2 buf (Z.to_nat (idx x y))) as [b ->]; [lia|]. simpl.
    rewrite decide_True by done. destruct c; simpl; pico_bits; rewrite bool_decide_eq_true_2 by done; simpl;
      [apply orb_true_r | apply andb_false_r].
  Qed.

Lemma ba_get_set_ne buf x y x' y' c :
    ba_wf buf -> (x, y) <> (x', y') -> ba_get (ba_set buf x y c) x' y' = ba_get buf x' y'.
  Proof.
    intros [Hl Hb] Hne. unfold ba_get, ba_set. case_decide as Hin; [|done].
    destruct (bool_decide (inb x' y')) eqn:Hin'; [|done]. simpl.
    apply bool_decide_eq_true in Hin'. rewrite list_lookup_alter.
    destruct (Hidx x y Hin), (Hidx x' y' Hin'), (Hbit x y Hin), (Hbit x' y' Hin').
    destruct (decide (idx x y = idx x' y')) as [Heq|Hneq].
    - rewrite Heq, decide_True by done.
      destruct (buf !! Z.to_nat (idx x' y')) as [b|]; simpl; [|done].
      assert (bit x y <> bit x' y').
      { intros Hb'. apply Hne. by destruct (Hinj x y x' y' Hin Hin' Heq Hb') as [-> ->]. }
      destruct c; simpl; pico_bits; rewrite bool_decide_eq_false_2 by done;
        [apply orb_false_r | apply andb_true_r].
    - rewrite decide_False by lia. done.
  Qed.

Lemma ba_fill_wf buf c : ba_wf buf -> ba_wf (ba_fill buf c).
  Proof.
    intros [Hl _]. unfold ba_fill. split; [by rewrite length_replicate|].
    apply Forall_replicate. destruct c; unfold is_byte; lia.
  Qed.

Lemma ba_get_fill buf c x y : ba_wf buf -> inb x y -> ba_get (ba_fill buf c) x y = c.
  Proof.
    intros [Hl _] Hin. unfold ba_get, ba_fill. rewrite bool_decide_eq_true_2 by done.
    destruct (Hidx x y Hin), (Hbit x y Hin).
    rewrite lookup_replicate_2 by lia. simpl.
    destruct c; [|apply Z.bits_0].
    change 255 with (Z.ones 8). apply Z.ones_spec_low. lia.
  Qed.

Lemma ba_set_oob buf x y c : ~ inb x y -> ba_set buf x y c = buf.
  Proof. intros H. unfold ba_set. by rewrite decide_False. Qed.

Lemma ba_get_oob buf x y : ~ inb x y -> ba_get buf x y = false.
  Proof. intros H. unfold ba_get. by rewrite bool_decide_eq_false_2. Qed.

  (** Extensionality: when every bit of every byte is a pixel, two
      well-formed buffers with the same pixels are the same bytes. *)
Context (Hsurj : forall i k, (i < len)%nat -> 0 <= k < 8 ->
              exists x y, inb x y /\ Z.to_nat (idx x y) = i /\ bit x y = k).

Lemma ba_ext buf1 buf2 :
    ba_wf buf1 -> ba_wf buf2 -> (forall x y, ba_get buf1 x y = ba_get buf2 x y) -> buf1 = buf2.
  Proof.
    intros [Hl1 Hb1] [Hl2 Hb2] Hpx. apply list_eq_same_length with len; [done|done|].
    intros i b1 b2 Hi E1 E2. apply byte_ext;
      [exact (Forall_lookup_1 _ _ _ _ Hb1 E1) | exact (Forall_lookup_1 _ _ _ _ Hb2 E2)|].
    intros k Hk. destruct (Hsurj i k Hi Hk) as (x & y & Hin & <- & <-).
    specialize (Hpx x y). unfold ba_get in Hpx. rewrite bool_decide_eq_true_2 in Hpx by done.
    by rewrite E1, E2 in Hpx.
  Qed.
End BitAddressed.

(** ** The interface of a monochrome surface *)

Class PixelSurface (S : Type) := {
  surf_w : S -> Z;
  surf_h : S -> Z;
  surf_wf : S -> Prop;
  pixel_get : S -> Z -> Z -> bool;          (** [fb.pixel(x, y)] *)
  pixel_set : S -> Z -> Z -> bool -> S;     (** [fb.pixel(x, y, c)] *)
  pixel_fill : S -> bool -> S;              (** [fb.fill(c)] *)
}.

Definition in_box (w h x y : Z) : Prop := 0 <= x < w /\ 0 <= y < h.
#[export] Instance in_box_dec w h : RelDecision (in_box w h).
Proof. intros x y. unfold in_box. apply _. Defined.

Class PixelSurfaceLaws (S : Type) `{PixelSurface S} := {
  set_w s x y c : surf_w (pixel_set s x y c) = surf_w s;
  set_h s x y c : surf_h (pixel_set s x y c) = surf_h s;
  set_wf s x y c : surf_wf s -> surf_wf (pixel_set s x y c);
  get_set_eq s x y c :
    surf_wf s -> in_box (surf_w s) (surf_h s) x y -> pixel_get (pixel_set s x y c) x y = c;
  get_set_ne s x y x' y' c :
    surf_wf s -> (x, y) <> (x', y') -> pixel_get (pixel_set s x y c) x' y' = pixel_get s x' y';
  get_oob s x y : ~ in_box (surf_w s) (surf_h s) x y -> pixel_get s x y = false;
  fill_w s c : surf_w (pixel_fill s c) = surf_w s;
  fill_h s c : surf_h (pixel_fill s c) = surf_h s;
  fill_wf s c : surf_wf s -> surf_wf (pixel_fill s c);
  get_fill s c x y :
    surf_wf s -> in_box (surf_w s) (surf_h s) x y -> pixel_get (pixel_fill s c) x y = c;
}.

(** ** MONO_VLSB *)

Record VLSB := mkVLSB { vl_w : Z; vl_h : Z; vl_buf : list Z }.

(** [idx = x + (y >> 3) * w], [1 << (y & 7)] as in [draw_pbm_to_display]. *)
Definition vlsb_index (w x y : Z) : Z := x + (y .>> 3) * w.
Definition vlsb_bit (x y : Z) : Z := y .& 7.
Definition vlsb_size (w h : Z) : nat := Z.to_nat (w * ((h + 7) / 8)).

Definition vlsb_get (f : VLSB) (x y : Z) : bool :=
  ba_get (in_box (vl_w f) (vl_h f)) (vlsb_index (vl_w f)) vlsb_bit (vl_buf f) x y.
Definition vlsb_set (f : VLSB) (x y : Z) (c : bool) : VLSB :=
  mkVLSB (vl_w f) (vl_h f)
    (ba_set (in_box (vl_w f) (vl_h f)) (vlsb_index (vl_w f)) vlsb_bit (vl_buf f) x y c).
Definition vlsb_wf (f : VLSB) : Prop := ba_wf (vlsb_size (vl_w f) (vl_h f)) (vl_buf f).

Definition vlsb_fill (f : VLSB) (c : bool) : VLSB :=
  mkVLSB (vl_w f) (vl_h f) (ba_fill (vl_buf f) c).

#[export] Instance vlsb_surface : PixelSurface VLSB := {
  surf_w := vl_w; surf_h := vl_h; surf_wf := vlsb_wf;
  pixel_get := vlsb_get; pixel_set := vlsb_set; pixel_fill := vlsb_fill;
}.

Lemma shiftr3 y : y .>> 3 = y / 8.
Proof. by rewrite Z.shiftr_div_pow2 by lia. Qed.
Lemma land7 y : y .& 7 = y mod 8.
Proof. change 7 with (Z.ones 3). by rewrite Z.land_ones by lia. Qed.

Lemma vlsb_idx_ok w h x y :
  in_box w h x y -> 0 <= vlsb_index w x y /\ (Z.to_nat (vlsb_index w x y) < vlsb_size w h)%nat.
Proof.
  unfold in_box, vlsb_index, vlsb_size. rewrite shiftr3. intros [Hx Hy].
  assert (y / 8 < (h + 7) / 8). { apply Z.div_lt_upper_bound; [lia|]. Z.div_mod_to_equations. nia. }
  assert (0 <= y / 8) by (apply Z.div_pos; lia). nia.
Qed.

Lemma vlsb_bit_ok x y : 0 <= y -> 0 <= vlsb_bit x y < 8.
Proof. intros. unfold vlsb_bit. rewrite land7. apply Z.mod_pos_bound. lia. Qed.

Lemma vlsb_inj w h x y x' y' :
  in_box w h x y -> in_box w h x' y' ->
  vlsb_index w x y = vlsb_index w x' y' -> vlsb_bit x y = vlsb_bit x' y' -> x = x' /\ y = y'.
Proof.
  unfold in_box, vlsb_index, vlsb_bit. rewrite !shiftr3, !land7. intros [Hx Hy] [Hx' Hy'] Hi Hb.
  assert (y / 8 = y' / 8) as Hq.
  { assert (0 <= y / 8) by (apply Z.div_pos; lia). assert (0 <= y' / 8) by (apply Z.div_pos; lia). nia. }
  split; [nia|]. rewrite (Z.div_mod y 8), (Z.div_mod y' 8) by lia. lia.
Qed.

#[export] Instance vlsb_laws : PixelSurfaceLaws VLSB.
Proof.
  split; try done.
  - intros [w h buf] x y c. apply ba_set_wf; intros; simpl in *;
      eauto using vlsb_idx_ok, vlsb_bit_ok; apply vlsb_bit_ok; unfold in_box in *; lia.
  - intros [w h buf] x y c Hwf Hin. eapply ba_get_set_eq; eauto using vlsb_idx_ok.
    intros ?? [_ ?]. apply vlsb_bit_ok; lia.
  - intros [w h buf] x y x' y' c Hwf Hne. eapply ba_get_set_ne; eauto using vlsb_idx_ok, vlsb_inj.
    intros ?? [_ ?]. apply vlsb_bit_ok; lia.
  - intros [w h buf] x y Hout. by apply ba_get_oob.
  - intros [w h buf] c. apply ba_fill_wf.
  - intros [w h buf] c x y Hwf Hin. eapply ba_get_fill; eauto using vlsb_idx_ok.
    intros ?? [_ ?]. apply vlsb_bit_ok; lia.
Qed.

Lemma vlsb_surj w h i k :
  0 <= w -> h mod 8 = 0 -> (i < vlsb_size w h)%nat -> 0 <= k < 8 ->
  exists x y, in_box w h x y /\ Z.to_nat (vlsb_index w x y) = i /\ vlsb_bit x y = k.
Proof.
  unfold vlsb_size, vlsb_index, vlsb_bit, in_box. intros Hw Hh Hi Hk.
  assert (0 < w). { destruct (Z.eq_dec w 0) as [->|]; [|lia]. rewrite Z.mul_0_l in Hi. simpl in Hi. lia. }
  exists (Z.of_nat i mod w), (8 * (Z.of_nat i / w) + k). rewrite shiftr3, land7.
  assert (0 <= Z.of_nat i / w) by (apply Z.div_pos; lia).
  assert (Z.of_nat i / w < (h + 7) / 8) by (apply Z.div_lt_upper_bound; lia).
  assert ((8 * (Z.of_nat i / w) + k) / 8 = Z.of_nat i / w) as Hq.
  { rewrite Z.add_comm, Z.mul_comm, Z.div_add by lia. rewrite Z.div_small by lia. lia. }
  rewrite Hq. pose proof (Z.mod_pos_bound (Z.of_nat i) w).
  split; [split; [lia|]; split; [lia|]; Z.div_mod_to_equations; nia|].
  split; [pose proof (Z.div_mod (Z.of_nat i) w); lia|].
  rewrite Z.add_comm, Z.mul_comm, Z.mod_add by lia. apply Z.mod_small; lia.
Qed.

(** Two well-formed VLSB surfaces of the same size (whole pages) with the
    same pixels are the same bytes. *)
Lemma vlsb_ext f1 f2 :
  vl_w f1 = vl_w f2 -> vl_h f1 = vl_h f2 -> 0 <= vl_w f1 -> vl_h f1 mod 8 = 0 ->
  vlsb_wf f1 -> vlsb_wf f2 -> (forall x y, vlsb_get f1 x y = vlsb_get f2 x y) -> f1 = f2.
Proof.
  destruct f1 as [w h b1], f2 as [w2 h2 b2]; simpl. intros <- <- Hw Hh Hwf1 Hwf2 Hpx. f_equal.
  eapply (ba_ext (in_box w h) (vlsb_index w) vlsb_bit (vlsb_size w h)); eauto.
  intros i k Hi Hk. by apply vlsb_surj.
Qed.

(** ** MONO_HLSB *)

Record HLSB := mkHLSB { hl_w : Z; hl_h : Z; hl_buf : list Z }.

(** [row_bytes = (w + 7) // 8]; byte [y * row_bytes + (x >> 3)], bit
    [7 - (x & 7)], as [draw_pbm_to_display] reads a PBM row. *)
Definition hlsb_row_bytes (w : Z) : Z := (w + 7) / 8.
Definition hlsb_index (w x y : Z) : Z := y * hlsb_row_bytes w + (x .>> 3).
Definition hlsb_bit (x y : Z) : Z := 7 - (x .& 7).
Definition hlsb_size (w h : Z) : nat := Z.to_nat (hlsb_row_bytes w * h).

Definition hlsb_get (f : HLSB) (x y : Z) : bool :=
  ba_get (in_box (hl_w f) (hl_h f)) (hlsb_index (hl_w f)) hlsb_bit (hl_buf f) x y.
Definition hlsb_set (f : HLSB) (x y : Z) (c : bool) : HLSB :=
  mkHLSB (hl_w f) (hl_h f)
    (ba_set (in_box (hl_w f) (hl_h f)) (hlsb_index (hl_w f)) hlsb_bit (hl_buf f) x y c).
Definition hlsb_fill (f : HLSB) (c : bool) : HLSB :=
  mkHLSB (hl_w f) (hl_h f) (ba_fill (hl_buf f) c).
Definition hlsb_wf (f : HLSB) : Prop := ba_wf (hlsb_size (hl_w f) (hl_h f)) (hl_buf f).

#[export] Instance hlsb_surface : PixelSurface HLSB := {
  surf_w := hl_w; surf_h := hl_h; surf_wf := hlsb_wf;
  pixel_get := hlsb_get; pixel_set := hlsb_set; pixel_fill := hlsb_fill;
}.

Lemma hlsb_idx_ok w h x y :
  in_box w h x y -> 0 <= hlsb_index w x y /\ (Z.to_nat (hlsb_index w x y) < hlsb_size w h)%nat.
Proof.
  unfold in_box, hlsb_index, hlsb_size, hlsb_row_bytes. rewrite shiftr3. intros [Hx Hy].
  assert (x / 8 < (w + 7) / 8). { apply Z.div_lt_upper_bound; [lia|]. Z.div_mod_to_equations. nia. }
  assert (0 <= x / 8) by (apply Z.div_pos; lia). nia.
Qed.

Lemma hlsb_bit_ok x y : 0 <= x -> 0 <= hlsb_bit x y < 8.
Proof. intros. unfold hlsb_bit. rewrite land7. pose proof (Z.mod_pos_bound x 8). lia. Qed.

Lemma hlsb_inj w h x y x' y' :
  in_box w h x y -> in_box w h x' y' ->
  hlsb_index w x y = hlsb_index w x' y' -> hlsb_bit x y = hlsb_bit x' y' -> x = x' /\ y = y'.
Proof.
  unfold in_box, hlsb_index, hlsb_bit, hlsb_row_bytes. rewrite !shiftr3, !land7.
  intros [Hx Hy] [Hx' Hy'] Hi Hb.
  assert (x / 8 < (w + 7) / 8). { apply Z.div_lt_upper_bound; [lia|]. Z.div_mod_to_equations. nia. }
  assert (x' / 8 < (w + 7) / 8). { apply Z.div_lt_upper_bound; [lia|]. Z.div_mod_to_equations. nia. }
  assert (0 <= x / 8) by (apply Z.div_pos; lia). assert (0 <= x' / 8) by (apply Z.div_pos; lia).
  assert (y = y') as <- by nia.
  split; [|done]. rewrite (Z.div_mod x 8), (Z.div_mod x' 8) by lia. lia.
Qed.

#[export] Instance hlsb_laws : PixelSurfaceLaws HLSB.
Proof.
  split; try done.
  - intros [w h buf] x y c. apply ba_set_wf; intros; simpl in *;
      eauto using hlsb_idx_ok; apply hlsb_bit_ok; unfold in_box in *; lia.
  - intros [w h buf] x y c Hwf Hin. eapply ba_get_set_eq; eauto using hlsb_idx_ok.
    intros ?? [? _]. apply hlsb_bit_ok; lia.
  - intros [w h buf] x y x' y' c Hwf Hne. eapply ba_get_set_ne; eauto using hlsb_idx_ok, hlsb_inj.
    intros ?? [? _]. apply hlsb_bit_ok; lia.
  - intros [w h buf] x y Hout. by apply ba_get_oob.
  - intros [w h buf] c. apply ba_fill_wf.
  - intros [w h buf] c x y Hwf Hin. eapply ba_get_fill; eauto using hlsb_idx_ok.
    intros ?? [? _]. apply hlsb_bit_ok; lia.
Qed.

Lemma hlsb_surj w h i k :
  0 <= h -> w mod 8 = 0 -> (i < hlsb_size w h)%nat -> 0 <= k < 8 ->
  exists x y, in_box w h x y /\ Z.to_nat (hlsb_index w x y) = i /\ hlsb_bit x y = k.
Proof.
  unfold hlsb_size, hlsb_index, hlsb_bit, hlsb_row_bytes, in_box. intros Hh Hw Hi Hk.
  set (rb := (w + 7) / 8) in *.
  assert (rb = w / 8) as Hrb. { unfold rb. Z.div_mod_to_equations. lia. }
  assert (0 < rb). { destruct (Z.eq_dec rb 0) as [E|]; [|pose proof (Z.div_pos (w + 7) 8); unfold rb in *; lia].
    rewrite E, Z.mul_0_l in Hi. simpl in Hi. lia. }
  exists (8 * (Z.of_nat i mod rb) + (7 - k)), (Z.of_nat i / rb). rewrite shiftr3, land7.
  pose proof (Z.mod_pos_bound (Z.of_nat i) rb). pose proof (Z.div_mod (Z.of_nat i) rb).
  assert ((8 * (Z.of_nat i mod rb) + (7 - k)) / 8 = Z.of_nat i mod rb) as Hq.
  { rewrite Z.add_comm, Z.mul_comm, Z.div_add by lia. rewrite Z.div_small by lia. lia. }
  rewrite Hq. split; [|split].
  - split; [split; [lia|]; Z.div_mod_to_equations; nia|].
    split; [apply Z.div_pos; lia|]. apply Z.div_lt_upper_bound; lia.
  - lia.
  - rewrite Z.add_comm, Z.mul_comm, Z.mod_add by lia. rewrite Z.mod_small by lia. lia.
Qed.

(** Two well-formed HLSB surfaces of the same size (whole bytes per row)
    with the same pixels are the same bytes. *)
Lemma hlsb_ext f1 f2 :
  hl_w f1 = hl_w f2 -> hl_h f1 = hl_h f2 -> 0 <= hl_h f1 -> hl_w f1 mod 8 = 0 ->
  hlsb_wf f1 -> hlsb_wf f2 -> (forall x y, hlsb_get f1 x y = hlsb_get f2 x y) -> f1 = f2.
Proof.
  destruct f1 as [w h b1], f2 as [w2 h2 b2]; simpl. intros <- <- Hh Hw Hwf1 Hwf2 Hpx. f_equal.
  eapply (ba_ext (in_box w h) (hlsb_index w) hlsb_bit (hlsb_size w h)); eauto.
  intros i k Hi Hk. by apply hlsb_surj.
Qed.

(** The laws at the concrete layouts, for rewriting without the class. *)
Lemma vlsb_get_set_eq f x y c :
  vlsb_wf f -> in_box (vl_w f) (vl_h f) x y -> vlsb_get (vlsb_set f x y c) x y = c.
Proof. exact (get_set_eq (S:=VLSB) f x y c). Qed.
Lemma vlsb_get_set_ne f x y x' y' c :
  vlsb_wf f -> (x, y) <> (x', y') -> vlsb_get (vlsb_set f x y c) x' y' = vlsb_get f x' y'.
Proof. exact (get_set_ne (S:=VLSB) f x y x' y' c). Qed.
Lemma vlsb_set_wf f x y c : vlsb_wf f -> vlsb_wf (vlsb_set f x y c).
Proof. exact (set_wf (S:=VLSB) f x y c). Qed.
Lemma vlsb_fill_wf f c : vlsb_wf f -> vlsb_wf (vlsb_fill f c).
Proof. exact (fill_wf (S:=VLSB) f c). Qed.
Lemma vlsb_get_fill f c x y :
  vlsb_wf f -> in_box (vl_w f) (vl_h f) x y -> vlsb_get (vlsb_fill f c) x y = c.
Proof. exact (get_fill (S:=VLSB) f c x y). Qed.
Lemma hlsb_set_wf f x y c : hlsb_wf f -> hlsb_wf (hlsb_set f x y c).
Proof. exact (set_wf (S:=HLSB) f x y c). Qed.
Lemma hlsb_fill_wf f c : hlsb_wf f -> hlsb_wf (hlsb_fill f c).
Proof. exact (fill_wf (S:=HLSB) f c). Qed.

#[export] Hint Resolve vlsb_set_wf vlsb_fill_wf hlsb_set_wf hlsb_fill_wf : pico.

(** A VLSB pixel is bit [y % 8] of byte [x + (y // 8) * w]. *)
Lemma vlsb_get_byte f x y :
  in_box (vl_w f) (vl_h f) x y ->
  vlsb_get f x y =
  match vl_buf f !! Z.to_nat (x + y / 8 * vl_w f) with
  | Some b => Z.testbit b (y mod 8)
  | None => false
  end.
Proof.
  intros Hin. unfold vlsb_get, ba_get. rewrite bool_decide_eq_true_2 by done.
  unfold vlsb_index, vlsb_bit. by rewrite shiftr3, land7.
Qed.

(** The class projections at the concrete layouts, for rewriting. *)
Lemma hlsb_surf_w f : surf_w f = hl_w f. Proof. reflexivity. Qed.
Lemma hlsb_surf_h f : surf_h f = hl_h f. Proof. reflexivity. Qed.
Lemma hlsb_surf_wf f : surf_wf f = hlsb_wf f. Proof. reflexivity. Qed.
Lemma hlsb_pixel_get f x y : pixel_get f x y = hlsb_get f x y. Proof. reflexivity. Qed.
Lemma vlsb_surf_w f : surf_w f = vl_w f. Proof. reflexivity. Qed.
Lemma vlsb_surf_h f : surf_h f = vl_h f. Proof. reflexivity. Qed.
Lemma vlsb_surf_wf f : surf_wf f = vlsb_wf f. Proof. reflexivity. Qed.
Lemma vlsb_pixel_get f x y : pixel_get f x y = vlsb_get f x y. Proof. reflexivity. Qed.
Lemma vlsb_pixel_set f x y c : pixel_set f x y c = vlsb_set f x y c. Proof. reflexivity. Qed.
Lemma hlsb_get_oob f x y : ~ in_box (hl_w f) (hl_h f) x y -> hlsb_get f x y = false.
Proof. exact (get_oob (S:=HLSB) f x y). Qed.
Lemma vlsb_get_oob f x y : ~ in_box (vl_w f) (vl_h f) x y -> vlsb_get f x y = false.
Proof. exact (get_oob (S:=VLSB) f x y). Qed.
