(* ===== verification/Display.v ===== *)
(** * The SSD1306 driver of [src/ssd1306.py]

    Module [SSD1306] models class [SSD1306].  Its [state] holds the object's
    fields: [width], [height], [pages = height // 8], the framebuffer [fb]
    (the [bytearray] [self.buffer] together with the MONO_VLSB
    [self.framebuf] view of the same bytes, so drawing through the view is
    seen by [show]) and the reusable 132-byte [self._line].  Every method is
    a computation of the state-and-trace monad [sw] of the prelude: it
    updates the fields and appends the calls it makes to [write_cmd] and
    [write_data] (the events of [Bus.v]); a transport ([BusTransport])
    performs them afterwards, in order.

    Theorems: the events of [show] page by page (ascending pages, column
    address reset, one data call per page carrying a full padded line);
    the hidden columns are zero; the line keeps its length exactly when
    [COL_OFFSET + width <= RAM_COLS]; a pixel drawn is the bit sent; the
    boot sequence and its bytes on the I2C wire. *)

From S2P Require Import Prelude Bus Framebuf.

Definition RAM_COLS : Z := 132.
Definition COL_OFFSET : Z := 2.

Module SSD1306.

Record state := mkState {
    width : Z;
    height : Z;
    pages : Z;
    fb : VLSB;          (** [self.buffer] seen through [self.framebuf] *)
    line : list Z;      (** [self._line] *)
  }.

Definition buffer (s : state) : list Z := vl_buf (fb s).

Definition set_fb (f : VLSB) (s : state) : state :=
    mkState (width s) (height s) (pages s) f (line s).
Definition set_line (l : list Z) (s : state) : state :=
    mkState (width s) (height s) (pages s) (fb s) l.

Abbreviation drv := (sw state BusEvent).

  (** The abstract methods: each is one call on the transport. *)
Definition write_cmd (cmd : Z) : drv unit := sw_tell (Cmd cmd).
Definition write_data (buf : list Z) : drv unit := sw_tell (Data buf).

Definition poweron : drv unit := mret tt.

  (** The command bytes of [init_display], in order. *)
Definition init_cmds : list Z :=
    [0xAE; 0xD5; 0x80; 0xA8; 0x3F; 0xD3; 0x00; 0x40; 0x8D; 0x14; 0x20; 0x02;
     0xA1; 0xC8; 0xDA; 0x12; 0x81; 0xCF; 0xD9; 0xF1; 0xDB; 0x40; 0xA4; 0xA6; 0xAF].

Definition fill (col : Z) : drv unit :=
    sw_modify (fun s => set_fb (vlsb_fill (fb s) (negb (col =? 0))) s).

Definition pixel (x y col : Z) : drv unit :=
    sw_modify (fun s => set_fb (vlsb_set (fb s) x y (negb (col =? 0))) s).

  (** [_clear_controller_ram]: every page, column 0, 132 zero bytes. *)
Definition _clear_controller_ram : drv unit :=
    s ← sw_get;
    sw_for (zrange 0 (pages s)) (fun page =>
      write_cmd (0xB0 + page) ;;
      write_cmd 0x00 ;;
      write_cmd 0x10 ;;
      write_data (zeros (Z.to_nat RAM_COLS))).

  (** [for i in range(RAM_COLS): line[i] = 0] *)
Definition zero_line (l : list Z) : list Z :=
    foldl (fun l i => <[Z.to_nat i := 0]> l) l (zrange 0 RAM_COLS).

  (** One iteration of the loop of [show]. *)
Definition show_page (page : Z) : drv unit :=
    write_cmd (0xB0 + page) ;;
    write_cmd 0x00 ;;
    write_cmd 0x10 ;;
    s ← sw_get;
    let start := width s * page in
    let end_ := start + width s in
    sw_modify (fun s => set_line (zero_line (line s)) s) ;;
    sw_modify (fun s => set_line
      (py_slice_assign (line s) (Z.to_nat COL_OFFSET) (Z.to_nat (COL_OFFSET + width s))
         (py_slice (buffer s) (Z.to_nat start) (Z.to_nat end_))) s) ;;
    s ← sw_get;
    write_data (line s).

Definition show : drv unit :=
    s ← sw_get;
    sw_for (zrange 0 (pages s)) show_page.

Definition init_display : drv unit :=
    sw_for init_cmds write_cmd ;;
    _clear_controller_ram ;;
    fill 0 ;;
    show.

Definition poweroff : drv unit := write_cmd 0xAE.

Definition contrast (c : Z) : drv unit :=
    write_cmd 0x81 ;;
    write_cmd (c .& 0xFF).

Definition invert (b : bool) : drv unit := write_cmd (if b then 0xA7 else 0xA6).

  (** [__init__]: the fields, then [poweron()] and [init_display()]. *)
Definition fresh (w h : Z) : state :=
    let pages := h / 8 in
    mkState w h pages (mkVLSB w h (zeros (Z.to_nat (w * pages)))) (zeros (Z.to_nat RAM_COLS)).

Definition create (w h : Z) : unit * state * list BusEvent :=
    (poweron ;; init_display) (fresh w h).

End SSD1306.

(** [SSD1306_I2C(128, 64, i2c, addr=0x3C)]: the driver's calls performed on
    the I2C transport. *)
Definition boot_i2c (w h addr : Z) : SSD1306.state * I2CState :=
  let '(_, s, evs) := SSD1306.create w h in (s, run_bus (i2c_init addr) evs).

(** ** What [show] promises

    For every page in ascending order: the page address, column address 0
    (low and high nibble), then one data call with a full RAM line, zero
    outside the visible window [COL_OFFSET .. COL_OFFSET + width - 1], which
    holds that page of the framebuffer. *)

Definition page_line (buf : list Z) (w page : Z) : list Z :=
  zeros (Z.to_nat COL_OFFSET) ++ py_slice buf (Z.to_nat (w * page)) (Z.to_nat (w * page + w)) ++
  zeros (Z.to_nat (RAM_COLS - COL_OFFSET - w)).

Definition page_events (buf : list Z) (w page : Z) : list BusEvent :=
  [Cmd (0xB0 + page); Cmd 0x00; Cmd 0x10; Data (page_line buf w page)].

Definition show_spec (s : SSD1306.state) : list BusEvent :=
  flat_map (page_events (SSD1306.buffer s) (SSD1306.width s)) (zrange 0 (SSD1306.pages s)).

(** The driver's invariant: a panel whose visible width fits the RAM
    window, whole pages, the framebuffer view over [width x height], and a
    132-byte line buffer. *)
Definition disp_wf (s : SSD1306.state) : Prop :=
  let w := SSD1306.width s in let h := SSD1306.height s in
  0 <= w /\ COL_OFFSET + w <= RAM_COLS /\ 0 <= h /\ h mod 8 = 0 /\
  SSD1306.pages s = h / 8 /\ vl_w (SSD1306.fb s) = w /\ vl_h (SSD1306.fb s) = h /\
  vlsb_wf (SSD1306.fb s) /\ length (SSD1306.line s) = Z.to_nat RAM_COLS.

(** The public methods a game calls on the driver. *)
Inductive call :=
  | Fill (col : Z)
  | Pixel (x y col : Z)
  | Show
  | PowerOff
  | Contrast (c : Z)
  | Invert (b : bool)
  | ClearRam
  | InitDisplay.

Definition run_call (c : call) : SSD1306.drv unit :=
  match c with
  | Fill col => SSD1306.fill col
  | Pixel x y col => SSD1306.pixel x y col
  | Show => SSD1306.show
  | PowerOff => SSD1306.poweroff
  | Contrast v => SSD1306.contrast v
  | Invert b => SSD1306.invert b
  | ClearRam => SSD1306._clear_controller_ram
  | InitDisplay => SSD1306.init_display
  end.

(** The driver states a program can reach: the constructor
    [SSD1306(w, h)], then any sequence of method calls. *)
Inductive reachable (w h : Z) : SSD1306.state -> Prop :=
  | reach_create : reachable w h (SSD1306.create w h).1.2
  | reach_call s c : reachable w h s -> reachable w h (sw_state (run_call c) s).

(** The bytes the wire carries when [SSD1306_I2C(128, 64, i2c, 0x3C)] is
    constructed: the 25 configuration commands, the RAM scrub, and the
    flush of the all-zero framebuffer, each page as four transactions. *)
Definition page_wire (payload : list Z) (page : Z) : list (list Z) :=
  [[128; 0xB0 + page]; [128; 0x00]; [128; 0x10]; 64 :: payload].

Definition boot_wire_spec : list (list Z) :=
  map (fun c => [128; c]) SSD1306.init_cmds ++
  flat_map (page_wire (zeros 132)) (zrange 0 8) ++
  flat_map (page_wire (zeros 132)) (zrange 0 8).

#[export] Instance disp_wf_dec s : Decision (disp_wf s).
Proof. unfold disp_wf, vlsb_wf, ba_wf. apply _. Defined.

Lemma zero_line_full l : length l = Z.to_nat RAM_COLS -> SSD1306.zero_line l = zeros (Z.to_nat RAM_COLS).
Proof.
  intros Hl. unfold SSD1306.zero_line. change RAM_COLS with (Z.of_nat 132).
  rewrite foldl_insert_zeros by (rewrite Hl; done).
  rewrite drop_ge by (rewrite Hl; done). apply app_nil_r.
Qed.

Lemma slice_assign_zeros w src :
  0 <= w -> COL_OFFSET + w <= RAM_COLS -> length src = Z.to_nat w ->
  py_slice_assign (zeros (Z.to_nat RAM_COLS)) (Z.to_nat COL_OFFSET) (Z.to_nat (COL_OFFSET + w)) src =
  zeros (Z.to_nat COL_OFFSET) ++ src ++ zeros (Z.to_nat (RAM_COLS - COL_OFFSET - w)).
Proof.
  intros Hw Hfit Hsrc. unfold py_slice_assign, zeros.
  rewrite take_replicate, drop_replicate. unfold RAM_COLS, COL_OFFSET in *. do 3 f_equal; lia.
Qed.

Lemma buffer_length s : disp_wf s -> length (SSD1306.buffer s) = Z.to_nat (SSD1306.width s * SSD1306.pages s).
Proof.
  intros (Hw & Hfit & Hh & H8 & Hp & Hvw & Hvh & [Hlen _] & _). unfold SSD1306.buffer.
  rewrite Hlen. unfold vlsb_size. rewrite Hvw, Hvh, Hp. do 2 f_equal.
  Z.div_mod_to_equations. lia.
Qed.

Lemma page_slice_length s page :
  disp_wf s -> 0 <= page < SSD1306.pages s ->
  length (py_slice (SSD1306.buffer s) (Z.to_nat (SSD1306.width s * page))
            (Z.to_nat (SSD1306.width s * page + SSD1306.width s))) = Z.to_nat (SSD1306.width s).
Proof.
  intros Hwf Hp. pose proof (buffer_length s Hwf) as Hl. destruct Hwf as (Hw & _).
  rewrite length_py_slice; [lia|lia|]. rewrite Hl. nia.
Qed.

(** One page of [show]: its calls, and the line it leaves in [_line]. *)
Lemma show_page_run s page :
  disp_wf s -> 0 <= page < SSD1306.pages s ->
  SSD1306.show_page page s =
  (tt, SSD1306.set_line (page_line (SSD1306.buffer s) (SSD1306.width s) page) s,
   page_events (SSD1306.buffer s) (SSD1306.width s) page).
Proof.
  intros Hwf Hp. pose proof (page_slice_length s page Hwf Hp) as Hsl.
  destruct s as [w h pg f l]. destruct Hwf as (Hw & Hfit & Hh & H8 & Hpg & Hvw & Hvh & Hvwf & Hl).
  simpl in *. cbv [SSD1306.show_page SSD1306.write_cmd SSD1306.write_data sw_tell sw_get sw_modify
    mbind sw_bind]. simpl.
  rewrite zero_line_full by done. rewrite slice_assign_zeros by done. done.
Qed.

Lemma set_line_wf s l : disp_wf s -> length l = Z.to_nat RAM_COLS -> disp_wf (SSD1306.set_line l s).
Proof. intros (? & ? & ? & ? & ? & ? & ? & ? & _) Hl. unfold disp_wf. simpl. split_and!; done. Qed.

Lemma page_line_length buf w page :
  0 <= w -> COL_OFFSET + w <= RAM_COLS ->
  length (py_slice buf (Z.to_nat (w * page)) (Z.to_nat (w * page + w))) = Z.to_nat w ->
  length (page_line buf w page) = Z.to_nat RAM_COLS.
Proof.
  intros Hw Hfit Hs. unfold page_line. rewrite !length_app, Hs, !length_zeros.
  unfold RAM_COLS, COL_OFFSET in *. lia.
Qed.

Lemma show_run s :
  disp_wf s ->
  sw_trace SSD1306.show s = show_spec s /\
  disp_wf (sw_state SSD1306.show s) /\ SSD1306.fb (sw_state SSD1306.show s) = SSD1306.fb s.
Proof.
  intros Hwf.
  set (P := fun s' => disp_wf s' /\ SSD1306.width s' = SSD1306.width s /\
                      SSD1306.pages s' = SSD1306.pages s /\ SSD1306.fb s' = SSD1306.fb s).
  destruct (sw_for_inv P SSD1306.show_page (page_events (SSD1306.buffer s) (SSD1306.width s))
              (zrange 0 (SSD1306.pages s)) s) as [(HP & _ & _ & Hfb) Htr].
  - intros page s' Hin (Hwf' & Hw & Hp & Hf). apply elem_of_zrange in Hin.
    unfold sw_state, sw_trace. rewrite show_page_run by (rewrite ?Hp; done). simpl.
    unfold SSD1306.buffer. rewrite Hw, Hf. split; [|done].
    split; [|done]. apply set_line_wf; [done|].
    pose proof (page_slice_length s' page Hwf' ltac:(lia)) as Hsl.
    destruct Hwf' as (? & ? & _). apply page_line_length; [lia|lia|].
    unfold SSD1306.buffer in *. rewrite <- Hf, <- Hw. done.
  - by split.
  - unfold sw_state, sw_trace in *. unfold SSD1306.show, show_spec. cbv [mbind sw_bind sw_get].
    destruct (sw_for _ _ s) as [[[] s2] e2]. simpl in *. done.
Qed.

(** C1: [show] refines its specification: its calls are exactly [show_spec],
    and it leaves the driver well formed, with the same framebuffer. *)
Theorem show_refines s :
  disp_wf s ->
  sw_trace SSD1306.show s = show_spec s /\
  disp_wf (sw_state SSD1306.show s) /\ SSD1306.fb (sw_state SSD1306.show s) = SSD1306.fb s.
Proof. apply show_run. Qed.

Lemma page_line_hidden buf w page i :
  0 <= w -> COL_OFFSET + w <= RAM_COLS ->
  length (py_slice buf (Z.to_nat (w * page)) (Z.to_nat (w * page + w))) = Z.to_nat w ->
  0 <= i < COL_OFFSET \/ COL_OFFSET + w <= i < RAM_COLS ->
  page_line buf w page !! Z.to_nat i = Some 0.
Proof.
  intros Hw Hfit Hs Hi. unfold page_line. unfold COL_OFFSET, RAM_COLS in *.
  destruct Hi as [Hi|Hi].
  - rewrite lookup_app_l by (rewrite length_zeros; lia). apply lookup_zeros. lia.
  - rewrite lookup_app_r by (rewrite length_zeros; lia). rewrite length_zeros.
    rewrite lookup_app_r by lia. rewrite Hs. apply lookup_zeros. lia.
Qed.

Lemma page_line_visible buf w page x :
  0 <= w -> 0 <= page -> 0 <= x < w ->
  length (py_slice buf (Z.to_nat (w * page)) (Z.to_nat (w * page + w))) = Z.to_nat w ->
  page_line buf w page !! Z.to_nat (COL_OFFSET + x) = buf !! Z.to_nat (w * page + x).
Proof.
  intros Hw Hp Hx Hs. unfold page_line. unfold COL_OFFSET in *.
  rewrite lookup_app_r by (rewrite length_zeros; lia). rewrite length_zeros.
  rewrite lookup_app_l by lia. rewrite lookup_py_slice by lia. f_equal. nia.
Qed.

Lemma show_hidden_zero_run s payload :
  disp_wf s -> Data payload ∈ sw_trace SSD1306.show s ->
  length payload = Z.to_nat RAM_COLS /\
  forall i, 0 <= i < COL_OFFSET \/ COL_OFFSET + SSD1306.width s <= i < RAM_COLS ->
    payload !! Z.to_nat i = Some 0.
Proof.
  intros Hwf Hin. destruct (show_run s Hwf) as [Htr _]. rewrite Htr in Hin.
  unfold show_spec in Hin. apply list_elem_of_In, in_flat_map in Hin as (page & Hp & Hin).
  apply list_elem_of_In, elem_of_zrange in Hp.
  unfold page_events in Hin. repeat (destruct Hin as [Hin|Hin]; [discriminate|]).
  destruct Hin as [[= <-]|[]].
  pose proof (page_slice_length s page Hwf Hp) as Hs. destruct Hwf as (Hw & Hfit & _).
  split; [by apply page_line_length|]. intros i Hi. by apply page_line_hidden.
Qed.

(** The ghosting-prevention invariant: every data call of [show] carries
    exactly [RAM_COLS] bytes, and every hidden column (left of
    [COL_OFFSET] and right of the visible window) is zero, whatever the
    framebuffer and the line buffer held before. *)
Theorem show_hidden_columns_zero s payload :
  disp_wf s -> Data payload ∈ sw_trace SSD1306.show s ->
  length payload = Z.to_nat RAM_COLS /\
  forall i, 0 <= i < COL_OFFSET \/ COL_OFFSET + SSD1306.width s <= i < RAM_COLS ->
    payload !! Z.to_nat i = Some 0.
Proof. apply show_hidden_zero_run. Qed.

(** What is drawn is what is sent: after [pixel(x, y, col)] on the visible
    surface, the data call of page [y // 8] in the next [show] carries, at
    column [COL_OFFSET + x], a byte whose bit [y % 8] is the colour. *)
Theorem pixel_then_show s x y col :
  disp_wf s -> in_box (SSD1306.width s) (SSD1306.height s) x y ->
  let s1 := sw_state (SSD1306.pixel x y col) s in
  exists line b,
    sw_trace SSD1306.show s1 !! Z.to_nat (4 * (y / 8) + 3) = Some (Data line) /\
    line !! Z.to_nat (COL_OFFSET + x) = Some b /\ Z.testbit b (y mod 8) = negb (col =? 0).
Proof.
  intros Hwf Hin s1.
  assert (disp_wf s1) as Hwf1.
  { destruct Hwf as (? & ? & ? & ? & ? & Hvw & Hvh & Hv & ?). unfold s1, sw_state. simpl.
    unfold disp_wf. simpl. split_and!; auto with pico. }
  destruct (show_run s1 Hwf1) as [-> _]. pose proof Hwf as Hwf'.
  destruct Hwf' as (Hw & Hfit & Hh & H8 & Hp & Hvw & Hvh & Hv & Hl). destruct Hin as [Hx Hy].
  assert (0 <= y / 8 < SSD1306.pages s) by (rewrite Hp; split; [apply Z.div_pos|apply Z.div_lt_upper_bound; Z.div_mod_to_equations]; lia).
  remember (SSD1306.buffer s1) as buf1 eqn:Hbuf1.
  exists (page_line buf1 (SSD1306.width s) (y / 8)).
  unfold show_spec. replace (Z.to_nat (4 * (y / 8) + 3)) with (4 * Z.to_nat (y / 8) + 3)%nat by lia.
  erewrite lookup_flat_map_fixed; [|done|lia|].
  2: { apply lookup_zrange. change (SSD1306.pages s1) with (SSD1306.pages s). lia. }
  rewrite Z.add_0_l, Z2Nat.id by lia. simpl.
  pose proof (page_slice_length s1 (y / 8) Hwf1 H) as Hsl. rewrite <- Hbuf1 in Hsl.
  change (SSD1306.width s1) with (SSD1306.width s) in Hsl |- *.
  rewrite page_line_visible by (done || lia).
  assert (vlsb_get (vlsb_set (SSD1306.fb s) x y (negb (col =? 0))) x y = negb (col =? 0)) as Hget.
  { apply vlsb_get_set_eq; [done|]. rewrite Hvw, Hvh. split; lia. }
  rewrite vlsb_get_byte in Hget by (simpl; rewrite Hvw, Hvh; split; lia).
  change (vl_w (vlsb_set (SSD1306.fb s) x y (negb (col =? 0)))) with (vl_w (SSD1306.fb s)) in Hget.
  rewrite Hvw in Hget.
  change (vl_buf (vlsb_set (SSD1306.fb s) x y (negb (col =? 0)))) with (SSD1306.buffer s1) in Hget.
  rewrite <- Hbuf1 in Hget.
  replace (Z.to_nat (SSD1306.width s * (y / 8) + x)) with (Z.to_nat (x + y / 8 * SSD1306.width s)) by (f_equal; lia).
  destruct (buf1 !! Z.to_nat (x + y / 8 * SSD1306.width s)) as [b|] eqn:Eb; [exists b; rewrite <- Hbuf1; split_and!; done|].
  exfalso. apply lookup_ge_None_1 in Eb. pose proof (buffer_length s1 Hwf1) as Hlen.
  rewrite <- Hbuf1 in Hlen. change (SSD1306.width s1) with (SSD1306.width s) in Hlen.
  change (SSD1306.pages s1) with (SSD1306.pages s) in Hlen. nia.
Qed.

(** The line a page of [show] leaves in [_line], for any state. *)
Lemma show_page_line s page :
  SSD1306.line (sw_state (SSD1306.show_page page) s) =
  py_slice_assign (SSD1306.zero_line (SSD1306.line s)) (Z.to_nat COL_OFFSET)
    (Z.to_nat (COL_OFFSET + SSD1306.width s))
    (py_slice (SSD1306.buffer s) (Z.to_nat (SSD1306.width s * page))
       (Z.to_nat (SSD1306.width s * page + SSD1306.width s))).
Proof. reflexivity. Qed.

(** The line buffer keeps its [RAM_COLS] bytes exactly when the visible
    window fits: the slice assignment [line[COL_OFFSET:COL_OFFSET+width] =
    ...] grows the bytearray to [COL_OFFSET + width] bytes otherwise (and
    the next page's zeroing loop clears only the first [RAM_COLS]). *)
Theorem show_page_line_length s page :
  0 <= SSD1306.width s -> 0 <= page -> length (SSD1306.line s) = Z.to_nat RAM_COLS ->
  (Z.to_nat (SSD1306.width s * page + SSD1306.width s) <= length (SSD1306.buffer s))%nat ->
  length (SSD1306.line (sw_state (SSD1306.show_page page) s)) =
  Nat.max (Z.to_nat RAM_COLS) (Z.to_nat (COL_OFFSET + SSD1306.width s)).
Proof.
  intros Hw Hp Hl Hb. rewrite show_page_line, zero_line_full by done.
  unfold py_slice_assign, zeros.
  rewrite !length_app, length_take, length_drop, !length_replicate.
  rewrite length_py_slice by nia.
  unfold RAM_COLS, COL_OFFSET. lia.
Qed.

Lemma write_cmd_state c s : sw_state (SSD1306.write_cmd c) s = s.
Proof. reflexivity. Qed.

Lemma clear_ram_state s : sw_state SSD1306._clear_controller_ram s = s.
Proof.
  unfold SSD1306._clear_controller_ram. rewrite sw_state_bind.
  apply (sw_for_state_inv (fun s' => s' = s)); [|done]. intros page s' _ ->. reflexivity.
Qed.

Lemma fill_wf s col : disp_wf s -> disp_wf (sw_state (SSD1306.fill col) s).
Proof.
  intros (? & ? & ? & ? & ? & ? & ? & ? & ?). unfold disp_wf. simpl. split_and!; auto with pico.
Qed.

Lemma pixel_wf s x y col : disp_wf s -> disp_wf (sw_state (SSD1306.pixel x y col) s).
Proof.
  intros (? & ? & ? & ? & ? & ? & ? & ? & ?). unfold disp_wf. simpl. split_and!; auto with pico.
Qed.

Lemma show_wf s : disp_wf s -> disp_wf (sw_state SSD1306.show s).
Proof. intros Hwf. apply (show_run s Hwf). Qed.

Lemma init_display_wf s : disp_wf s -> disp_wf (sw_state SSD1306.init_display s).
Proof.
  intros Hwf. unfold SSD1306.init_display. rewrite !sw_state_bind.
  apply show_wf, fill_wf. rewrite clear_ram_state.
  assert (sw_state (sw_for SSD1306.init_cmds SSD1306.write_cmd) s = s) as ->; [|done].
  apply (sw_for_state_inv (fun s' => s' = s)); [|done]. intros c s' _ ->. reflexivity.
Qed.

#[export] Hint Resolve fill_wf pixel_wf show_wf init_display_wf : pico.

Lemma run_call_preserves_wf c s : disp_wf s -> disp_wf (sw_state (run_call c) s).
Proof.
  intros Hwf. destruct c; simpl; auto with pico.
  all: try (rewrite ?write_cmd_state, ?clear_ram_state; done).
  all: unfold SSD1306.contrast; rewrite sw_state_bind; done.
Qed.

(** Every method of the driver preserves its invariant. *)
Theorem run_call_wf c s : disp_wf s -> disp_wf (sw_state (run_call c) s).
Proof. apply run_call_preserves_wf. Qed.

Lemma fresh_wf w h :
  0 <= w -> COL_OFFSET + w <= RAM_COLS -> 0 <= h -> h mod 8 = 0 -> disp_wf (SSD1306.fresh w h).
Proof.
  intros Hw Hfit Hh H8. cbv [disp_wf SSD1306.fresh]. cbn -[Z.div Z.mul zeros vlsb_wf RAM_COLS].
  split_and!; try done.
  - unfold vlsb_wf, ba_wf. simpl. split; [|apply Forall_zeros]. rewrite length_zeros. unfold vlsb_size. do 2 f_equal.
    Z.div_mod_to_equations. lia.
Qed.

Lemma reachable_disp_wf w h s :
  0 <= w -> COL_OFFSET + w <= RAM_COLS -> 0 <= h -> h mod 8 = 0 ->
  reachable w h s -> disp_wf s.
Proof.
  intros Hw Hfit Hh H8 Hr. induction Hr as [|s c _ IH].
  - unfold SSD1306.create. change ((SSD1306.poweron;; SSD1306.init_display) (SSD1306.fresh w h)).1.2
      with (sw_state (SSD1306.poweron;; SSD1306.init_display) (SSD1306.fresh w h)).
    rewrite sw_state_bind. apply init_display_wf, fresh_wf; done.
  - by apply run_call_preserves_wf.
Qed.

(** Every state the program can reach from [SSD1306(w, h)] is well formed,
    for a panel whose visible width fits the RAM window. *)
Theorem reachable_wf w h s :
  0 <= w -> COL_OFFSET + w <= RAM_COLS -> 0 <= h -> h mod 8 = 0 ->
  reachable w h s -> disp_wf s.
Proof. apply reachable_disp_wf. Qed.

(** C2: The ghosting-prevention property over whole runs: whatever sequence of
    drawing calls and flushes a game made since [SSD1306(w, h)], the next
    [show] sends full 132-byte lines whose hidden columns are zero. *)
Theorem reachable_show_hidden_zero w h s payload :
  0 <= w -> COL_OFFSET + w <= RAM_COLS -> 0 <= h -> h mod 8 = 0 ->
  reachable w h s -> Data payload ∈ sw_trace SSD1306.show s ->
  length payload = Z.to_nat RAM_COLS /\
  forall i, 0 <= i < COL_OFFSET \/ COL_OFFSET + SSD1306.width s <= i < RAM_COLS ->
    payload !! Z.to_nat i = Some 0.
Proof.
  intros Hw Hfit Hh H8 Hr Hin. apply show_hidden_zero_run; [|done].
  by apply (reachable_disp_wf w h).
Qed.

(** End to end: booting a 128x64 panel puts exactly [boot_wire_spec] on the
    I2C bus at address 0x3C: the configuration, then twice (RAM scrub, then
    the flush of the cleared framebuffer) 8 page writes of 132 zero bytes,
    each preceded by its page address and column 0. *)
Theorem boot_128x64_wire :
  map txn_bytes (i2c_log (boot_i2c 128 64 0x3C).2) = boot_wire_spec /\
  Forall (fun t => txn_addr t = 0x3C) (i2c_log (boot_i2c 128 64 0x3C).2).
Proof. split; vm_compute; [reflexivity|]. repeat constructor. Qed.

(** ** Witnesses at small concrete panels *)

Lemma show_refines_witness :
  disp_wf (SSD1306.fresh 16 8) /\
  (sw_trace SSD1306.show (SSD1306.fresh 16 8) = show_spec (SSD1306.fresh 16 8) /\
   disp_wf (sw_state SSD1306.show (SSD1306.fresh 16 8)) /\
   SSD1306.fb (sw_state SSD1306.show (SSD1306.fresh 16 8)) = SSD1306.fb (SSD1306.fresh 16 8)).
Proof.
  assert (disp_wf (SSD1306.fresh 16 8)) as H by (decide_by_eval).
  split; [exact H | exact (show_refines _ H)].
Defined.

Lemma show_hidden_columns_zero_witness :
  length (zeros 132) = Z.to_nat RAM_COLS /\
  (forall i, 0 <= i < COL_OFFSET \/ COL_OFFSET + SSD1306.width (SSD1306.fresh 16 8) <= i < RAM_COLS ->
     zeros 132 !! Z.to_nat i = Some 0).
Proof.
  apply (show_hidden_columns_zero (SSD1306.fresh 16 8) (zeros 132)).
  - decide_by_eval.
  - decide_by_eval.
Defined.

Lemma pixel_then_show_witness :
  exists line b,
    sw_trace SSD1306.show (sw_state (SSD1306.pixel 3 5 1) (SSD1306.fresh 16 8)) !! Z.to_nat (4 * (5 / 8) + 3) = Some (Data line) /\
    line !! Z.to_nat (COL_OFFSET + 3) = Some b /\ Z.testbit b (5 mod 8) = negb (1 =? 0).
Proof.
  apply (pixel_then_show (SSD1306.fresh 16 8) 3 5 1).
  - decide_by_eval.
  - unfold in_box; simpl; lia.
Defined.

Lemma show_page_line_length_witness :
  length (SSD1306.line (sw_state (SSD1306.show_page 0)
            (SSD1306.mkState 131 8 1 (mkVLSB 131 8 (zeros 131)) (zeros 132)))) = 133%nat.
Proof.
  rewrite (show_page_line_length (SSD1306.mkState 131 8 1 (mkVLSB 131 8 (zeros 131)) (zeros 132)) 0);
    simpl; try lia; reflexivity.
Defined.

Lemma run_call_wf_witness : disp_wf (sw_state (run_call (Pixel 1 2 1)) (SSD1306.fresh 16 8)).
Proof. apply run_call_wf. decide_by_eval. Defined.

Lemma reachable_wf_witness : disp_wf (SSD1306.create 16 8).1.2.
Proof.
  apply (reachable_wf 16 8); unfold COL_OFFSET, RAM_COLS; try lia; [reflexivity|].
  apply reach_create.
Defined.

Lemma reachable_show_hidden_zero_witness :
  length (zeros 132) = Z.to_nat RAM_COLS /\
  (forall i, 0 <= i < COL_OFFSET \/ COL_OFFSET + SSD1306.width (SSD1306.create 16 8).1.2 <= i < RAM_COLS ->
     zeros 132 !! Z.to_nat i = Some 0).
Proof.
  apply (reachable_show_hidden_zero 16 8 (SSD1306.create 16 8).1.2 (zeros 132));
    unfold COL_OFFSET, RAM_COLS; try lia; [reflexivity|apply reach_create|].
  decide_by_eval.
Defined.
