(* ===== verification/Rotate.v ===== *)
(** * The coordinate rotator: portrait games on a landscape panel

    The panel is 128x64; the games draw on a 64x128 portrait surface.  The
    repository rotates in three places, all by a quarter turn:
    - per pixel, [draw_pixel] of [src/2048.py], [src/klotski.py] and
      [src/minesweeper.py]: portrait (x, y) is panel (y, 63 - x), after the
      bound check [0 <= x < 64 and 0 <= y < 128];
    - per buffer, [show_virtual] of [src/dino.py]: Dino draws into a
      64x128 MONO_VLSB [vbuf]; every set bit (x, y) is or-ed into the
      panel's bytes at (X, Y) = (y, 63 - x), by hand-computed indices;
    - per buffer the other way, [show_centered_sideways] and [blit_pbm] of
      [src/asteroids.py] (and the copies in Frogger, Galaga, Donkey Kong):
      a 128x64 landscape MONO_HLSB buffer (text laid out sideways, or a PBM)
      is copied into a 64x128 portrait buffer, (xx, yy) to (63 - yy, xx).

    The passes are folds over the row-major product of two [range]s,
    stated once over the [PixelSurface] interface.  Theorems: what each pass
    leaves at every pixel; the two portrait strategies give the same panel
    bytes for the same drawing calls; the sideways pass inverts the
    portrait rotation, so a landscape bitmap survives the round trip. *)

From S2P Require Import Prelude Bus Framebuf Display.

(** Portrait size of the games. *)
Definition VW : Z := 64.
Definition VH : Z := 128.

Section Passes.
Context {Src Dst : Type} `{PixelSurfaceLaws Src} `{PixelSurfaceLaws Dst}.

  (** Copy every set pixel [p] of [src] to [f p] in [dst]. *)
Definition copy_pass (f : Z * Z -> Z * Z) (pts : list (Z * Z)) (src : Src) (dst : Dst) : Dst :=
    foldl (fun d p => if pixel_get src p.1 p.2 then pixel_set d (f p).1 (f p).2 true else d) dst pts.

  (** [show_centered_sideways], lines [for xx in range(128): for yy in
      range(64): if fb.pixel(xx, yy): fb_rot.pixel(63 - yy, xx, 1)]. *)
Definition rotate_landscape (src : Src) (dst : Dst) : Dst :=
    copy_pass (fun p => (63 - p.2, p.1)) (zrange2 0 128 0 64) src dst.

  (** The portrait-to-panel turn of [show_virtual], over the interface:
      [for y in range(VH): for x in range(VW)], (x, y) to (y, VW - 1 - x). *)
Definition rotate_portrait (src : Src) (dst : Dst) : Dst :=
    copy_pass (fun p => (p.2, VW - 1 - p.1)) (map (fun p => (p.2, p.1)) (zrange2 0 VH 0 VW)) src dst.
End Passes.

(** [draw_pixel(x, y, c)] of the portrait games. *)
Definition draw_pixel (x y c : Z) : SSD1306.drv unit :=
  if decide (0 <= x < 64 /\ 0 <= y < 128) then SSD1306.pixel y (63 - x) c else mret tt.

(** The loop body of Dino's [show_virtual] on the raw bytes:
    [if vbuf_bytes[row_base + x] & bitmask: obuf[idx] |= 1 << (Y & 7)]. *)
Definition show_virtual_step (vb : list Z) (ob : list Z) (yx : Z * Z) : list Z :=
  let '(y, x) := yx in
  let row_base := (y .>> 3) * VW in
  let bitmask := 1 .<< (y .& 7) in
  match vb !! Z.to_nat (row_base + x) with
  | Some b =>
      if negb (b .& bitmask =? 0) then
        let X := y in
        let Y := VW - 1 - x in
        let idx := X + (Y .>> 3) * 128 in
        alter (fun o => set_bit o (Y .& 7)) (Z.to_nat idx) ob
      else ob
  | None => ob
  end.

Definition show_virtual_pass (vb ob : list Z) : list Z :=
  foldl (show_virtual_step vb) ob (zrange2 0 VH 0 VW).

(** [show_virtual()]: clear the panel buffer, or in every set bit of the
    virtual screen, flush. *)
Definition show_virtual (vbuf : VLSB) : SSD1306.drv unit :=
  SSD1306.fill 0 ;;
  sw_modify (fun s => SSD1306.set_fb
    (mkVLSB (vl_w (SSD1306.fb s)) (vl_h (SSD1306.fb s))
            (show_virtual_pass (vl_buf vbuf) (SSD1306.buffer s))) s) ;;
  SSD1306.show.

(** The 64x128 portrait scratch buffer of [show_centered_sideways]:
    [bytearray(64 * 128 // 8)] as MONO_HLSB, then [fb_rot.fill(0)]. *)
Definition fresh_portrait : HLSB := hlsb_fill (mkHLSB 64 128 (zeros (Z.to_nat (64 * 128 / 8)))) false.

Definition sideways (fb : HLSB) : HLSB := rotate_landscape fb fresh_portrait.

(** A sequence of drawing calls [(x, y, col)]. *)
Definition paint {Sf} `{PixelSurface Sf} (s : Sf) (ops : list (Z * Z * Z)) : Sf :=
  foldl (fun s '(x, y, c) => pixel_set s x y (negb (c =? 0))) s ops.

(** The colour the last call of [ops] gave to (x, y), if any. *)
Definition last_write (ops : list (Z * Z * Z)) (x y : Z) : option bool :=
  foldl (fun o '(x', y', c) => if decide ((x', y') = (x, y)) then Some (negb (c =? 0)) else o) None ops.

Definition fresh_landscape : HLSB := hlsb_fill (mkHLSB 128 64 (zeros (Z.to_nat (128 * 64 / 8)))) false.

(** A sequence of [draw_pixel] calls, as a game's render function makes. *)
Fixpoint draw_calls (ops : list (Z * Z * Z)) : SSD1306.drv unit :=
  match ops with
  | [] => mret tt
  | (x, y, c) :: ops => draw_pixel x y c ;; draw_calls ops
  end.

(** Dino's virtual screen before drawing: [bytearray(VW * (VH // 8))]. *)
Definition fresh_vbuf : VLSB := mkVLSB VW VH (zeros (Z.to_nat (VW * (VH / 8)))).

Section PassLemmas.
Context {Src Dst : Type} `{PixelSurfaceLaws Src} `{PixelSurfaceLaws Dst}.

Lemma copy_pass_dims f pts (src : Src) (dst : Dst) :
    surf_wf dst ->
    surf_wf (copy_pass f pts src dst) /\ surf_w (copy_pass f pts src dst) = surf_w dst /\
    surf_h (copy_pass f pts src dst) = surf_h dst.
  Proof.
    unfold copy_pass. revert dst. induction pts as [|p pts IH]; intros dst Hwf; [done|]. simpl.
    destruct (pixel_get src p.1 p.2).
    - destruct (IH (pixel_set dst (f p).1 (f p).2 true)) as (? & -> & ->);
        [by apply set_wf|]. by rewrite set_w, set_h.
    - by apply IH.
  Qed.

  (** After the pass, a pixel of the destination is set when it was set
      before or when some visited set source pixel maps onto it. *)
Lemma copy_pass_get f pts (src : Src) (dst : Dst) qx qy :
    surf_wf dst -> in_box (surf_w dst) (surf_h dst) qx qy ->
    pixel_get (copy_pass f pts src dst) qx qy = true <->
    pixel_get dst qx qy = true \/ exists p, p ∈ pts /\ pixel_get src p.1 p.2 = true /\ f p = (qx, qy).
  Proof.
    unfold copy_pass. revert dst. induction pts as [|p pts IH]; intros dst Hwf Hin; simpl.
    - split; [by left|]. intros [?|(p & Hp & _)]; [done|]. by apply not_elem_of_nil in Hp.
    - destruct (pixel_get src p.1 p.2) eqn:Hsrc.
      + rewrite IH; [|by apply set_wf|by rewrite set_w, set_h].
        destruct (decide ((f p).1 = qx /\ (f p).2 = qy)) as [[Ex Ey]|Hne].
        * rewrite <- Ex, <- Ey, get_set_eq by (by rewrite ?Ex, ?Ey). split; [|by left].
          intros _. right. exists p. split; [by left|]. split; [done|]. destruct (f p); simpl in *; by subst.
        * rewrite get_set_ne by (done || (intros [= ??]; tauto)).
          split; intros [Hd|(p' & Hp' & Hs & Hf)]; auto.
          -- right. exists p'. split; [by right|]. done.
          -- apply elem_of_cons in Hp' as [->|Hp']; [|right; by exists p'].
             exfalso. apply Hne. by rewrite Hf.
      + rewrite IH by done. split; intros [Hd|(p' & Hp' & Hs & Hf)]; auto.
        * right. exists p'. split; [by right|]. done.
        * apply elem_of_cons in Hp' as [->|Hp']; [congruence|]. right. by exists p'.
  Qed.
End PassLemmas.

Lemma fresh_portrait_wf : hlsb_wf fresh_portrait.
Proof. apply hlsb_fill_wf. split; [reflexivity|apply Forall_zeros]. Qed.

Lemma fresh_landscape_wf : hlsb_wf fresh_landscape.
Proof. apply hlsb_fill_wf. split; [reflexivity|apply Forall_zeros]. Qed.

Lemma fresh_portrait_get x y : hlsb_get fresh_portrait x y = false.
Proof.
  destruct (decide (in_box 64 128 x y)).
  - assert (hlsb_wf (mkHLSB 64 128 (zeros 1024))) as Hw by (split; [reflexivity|apply Forall_zeros]).
    exact (get_fill (S:=HLSB) _ false x y Hw i).
  - exact (get_oob (S:=HLSB) fresh_portrait x y n).
Qed.

Lemma fresh_landscape_get x y : hlsb_get fresh_landscape x y = false.
Proof.
  destruct (decide (in_box 128 64 x y)).
  - assert (hlsb_wf (mkHLSB 128 64 (zeros 1024))) as Hw by (split; [reflexivity|apply Forall_zeros]).
    exact (get_fill (S:=HLSB) _ false x y Hw i).
  - exact (get_oob (S:=HLSB) fresh_landscape x y n).
Qed.

Lemma elem_of_portrait_points x y :
  (x, y) ∈ map (fun p : Z * Z => (p.2, p.1)) (zrange2 0 VH 0 VW) <-> 0 <= x < VW /\ 0 <= y < VH.
Proof.
  rewrite list_elem_of_In, in_map_iff. split.
  - intros ([a b] & [= -> ->] & Hin). apply list_elem_of_In, elem_of_zrange2 in Hin. lia.
  - intros Hxy. exists (y, x). split; [done|]. apply list_elem_of_In, elem_of_zrange2. lia.
Qed.

(** The landscape pass over a [w] x [h] source ([blit_pbm] visits
    [range(w)] x [range(h)]): portrait pixel (px, py) is source pixel
    (py, 63 - px) when the source has it, unset otherwise. *)
Lemma landscape_pass_get w h (src : HLSB) px py :
  in_box 64 128 px py ->
  hlsb_get (copy_pass (fun p => (63 - p.2, p.1)) (zrange2 0 w 0 h) src fresh_portrait) px py =
  bool_decide (py < w /\ 63 - px < h) && hlsb_get src py (63 - px).
Proof.
  intros Hin. apply eq_true_iff_eq. change (hlsb_get ?a px py) with (pixel_get a px py).
  rewrite (copy_pass_get (Src:=HLSB) (Dst:=HLSB)); [|apply fresh_portrait_wf|exact Hin].
  change (pixel_get fresh_portrait px py) with (hlsb_get fresh_portrait px py).
  rewrite fresh_portrait_get, andb_true_iff, bool_decide_eq_true. split.
  - intros [?|([a b] & Hp & Hs & Hf)]; [done|]. injection Hf as <- <-.
    apply elem_of_zrange2 in Hp. cbn [fst snd] in *. replace (63 - (63 - b)) with b by lia. split; [lia|done].
  - intros [Hb Hs]. right. exists (py, 63 - px). unfold in_box in Hin.
    split; [apply elem_of_zrange2; lia|]. split; [done|]. cbn [fst snd]. f_equal. lia.
Qed.

Lemma sideways_pixel fb px py :
  in_box 64 128 px py -> hlsb_get (sideways fb) px py = hlsb_get fb py (63 - px).
Proof.
  intros Hin. unfold sideways, rotate_landscape. rewrite landscape_pass_get by done.
  rewrite bool_decide_eq_true_2; [done|unfold in_box in Hin; lia].
Qed.

(** The sideways pass turns the landscape buffer a quarter turn: portrait
    pixel (px, py) is landscape pixel (py, 63 - px), for any bitmap. *)
Theorem sideways_get fb px py :
  in_box 64 128 px py -> hlsb_get (sideways fb) px py = hlsb_get fb py (63 - px).
Proof. apply sideways_pixel. Qed.

(** Rotating back with the portrait turn of [show_virtual] recovers every
    pixel, hence (whole bytes per row) every byte: a 128x64 landscape
    bitmap survives landscape -> portrait -> landscape unchanged. *)
Theorem sideways_roundtrip fb :
  hl_w fb = 128 -> hl_h fb = 64 -> hlsb_wf fb ->
  rotate_portrait (sideways fb) fresh_landscape = fb.
Proof.
  intros Hw Hh Hwf.
  pose proof (copy_pass_dims (Src:=HLSB) (Dst:=HLSB) (fun p => (p.2, VW - 1 - p.1))
              (map (fun p => (p.2, p.1)) (zrange2 0 VH 0 VW)) (sideways fb) fresh_landscape) as Hd.
  specialize (Hd fresh_landscape_wf). destruct Hd as (Hwf' & Hw' & Hh').
  rewrite hlsb_surf_w, (hlsb_surf_w fresh_landscape) in Hw'.
  rewrite hlsb_surf_h, (hlsb_surf_h fresh_landscape) in Hh'. rewrite hlsb_surf_wf in Hwf'.
  change (hl_w fresh_landscape) with 128 in Hw'. change (hl_h fresh_landscape) with 64 in Hh'.
  unfold rotate_portrait.
  apply hlsb_ext; [lia|lia|lia|rewrite Hw'; reflexivity|exact Hwf'|exact Hwf|].
  intros x y. destruct (decide (in_box 128 64 x y)) as [Hin|Hout].
  - apply eq_true_iff_eq. rewrite <- hlsb_pixel_get.
    rewrite (copy_pass_get (Src:=HLSB) (Dst:=HLSB)); [|apply fresh_landscape_wf|exact Hin].
    change (pixel_get fresh_landscape x y) with (hlsb_get fresh_landscape x y).
    rewrite fresh_landscape_get. split.
    + intros [?|([a b] & Hp & Hs & Hf)]; [done|]. injection Hf as <- <-.
      apply elem_of_portrait_points in Hp. unfold VW, VH in *. cbn [fst snd] in Hs.
      rewrite hlsb_pixel_get, sideways_pixel in Hs by (unfold in_box; lia).
      by replace (64 - 1 - a) with (63 - a) by lia.
    + intros Hs. right. exists (63 - y, x). unfold in_box, VW, VH in *.
      split; [apply elem_of_portrait_points; unfold VW, VH; lia|]. cbn [fst snd].
      split; [|f_equal; lia]. rewrite hlsb_pixel_get. rewrite sideways_pixel by (unfold in_box; lia).
      by replace (63 - (63 - y)) with y by lia.
  - rewrite (hlsb_get_oob fb) by (rewrite Hw, Hh; exact Hout).
    rewrite hlsb_get_oob; [done|]. rewrite Hw', Hh'. exact Hout.
Qed.

Lemma show_virtual_step_eq vb ob y x :
  0 <= y < VH -> 0 <= x < VW ->
  show_virtual_step vb ob (y, x) =
  vl_buf (if vlsb_get (mkVLSB VW VH vb) x y then vlsb_set (mkVLSB 128 64 ob) y (VW - 1 - x) true
          else mkVLSB 128 64 ob).
Proof.
  unfold VW, VH. intros Hy Hx. unfold show_virtual_step, vlsb_get, ba_get, VW. simpl vl_w. simpl vl_h.
  rewrite bool_decide_eq_true_2 by (unfold in_box; lia).
  unfold vlsb_index, vlsb_bit. rewrite (Z.add_comm x). simpl andb.
  destruct (vb !! _) as [b|]; [|done].
  rewrite land_bit_nonzero by (rewrite land7; apply Z.mod_pos_bound; lia).
  destruct (Z.testbit b (y .& 7)); [|done]. simpl. unfold ba_set.
  rewrite decide_True by (unfold in_box; lia). done.
Qed.

(** Dino's hand-indexed pass is the portrait turn of the interface at the
    VLSB layout: [show_virtual] rotates exactly like [rotate_portrait]. *)
Lemma show_virtual_pass_eq vb ob :
  show_virtual_pass vb ob = vl_buf (rotate_portrait (mkVLSB VW VH vb) (mkVLSB 128 64 ob)).
Proof.
  unfold show_virtual_pass, rotate_portrait, copy_pass.
  assert (forall p, p ∈ zrange2 0 VH 0 VW -> 0 <= p.1 < VH /\ 0 <= p.2 < VW) as Hr.
  { intros [a b] Hp. apply elem_of_zrange2 in Hp. simpl. lia. }
  revert ob Hr. generalize (zrange2 0 VH 0 VW) as L.
  induction L as [|[y x] L IH]; intros ob Hr; [done|]. cbn [foldl map fst snd].
  destruct (Hr (y, x)) as [Hy Hx]; [left|]. simpl in Hy, Hx.
  rewrite show_virtual_step_eq by done.
  change (pixel_get (mkVLSB VW VH vb) x y) with (vlsb_get (mkVLSB VW VH vb) x y).
  destruct (vlsb_get (mkVLSB VW VH vb) x y).
  - change (pixel_set (mkVLSB 128 64 ob) y (VW - 1 - x) true) with
      (mkVLSB 128 64 (vl_buf (vlsb_set (mkVLSB 128 64 ob) y (VW - 1 - x) true))).
    apply IH. intros p Hp. apply Hr. by right.
  - apply IH. intros p Hp. apply Hr. by right.
Qed.

Lemma last_write_acc ops x y acc :
  foldl (fun o '(x', y', c) => if decide ((x', y') = (x, y)) then Some (negb (c =? 0)) else o) acc ops =
  match last_write ops x y with Some c => Some c | None => acc end.
Proof.
  unfold last_write. revert acc. induction ops as [|[[x' y'] c] ops IH]; intros acc; [done|].
  pose proof (IH (if decide ((x', y') = (x, y)) then Some (negb (c =? 0)) else acc)) as H1.
  pose proof (IH (if decide ((x', y') = (x, y)) then Some (negb (c =? 0)) else None)) as H2.
  simpl. rewrite H1, H2. destruct (foldl _ None ops); [done|]. by case_decide.
Qed.

Lemma last_write_cons x' y' c ops x y :
  last_write ((x', y', c) :: ops) x y =
  match last_write ops x y with
  | Some c' => Some c'
  | None => if decide ((x', y') = (x, y)) then Some (negb (c =? 0)) else None
  end.
Proof. unfold last_write at 1. simpl. rewrite last_write_acc. done. Qed.

Section PaintLemmas.
Context {Sf : Type} `{PixelSurfaceLaws Sf}.

  (** After a sequence of drawing calls, a pixel holds the colour of the
      last call that drew it, or its old value. *)
Lemma paint_get (s : Sf) ops x y :
    surf_wf s -> in_box (surf_w s) (surf_h s) x y ->
    pixel_get (paint s ops) x y = match last_write ops x y with Some c => c | None => pixel_get s x y end.
  Proof.
    unfold paint. revert s. induction ops as [|[[x' y'] c] ops IH]; intros s Hwf Hin; [done|].
    simpl. rewrite IH; [|by apply set_wf|by rewrite set_w, set_h].
    rewrite last_write_cons. destruct (last_write ops x y); [done|].
    case_decide as E.
    - injection E as -> ->. by apply get_set_eq.
    - apply get_set_ne; [done|]. intros [= -> ->]. by apply E.
  Qed.
End PaintLemmas.

Lemma draw_calls_silent ops s : sw_trace (draw_calls ops) s = [].
Proof.
  revert s. induction ops as [|[[x y] c] ops IH]; intros s; [done|]. cbn [draw_calls].
  unfold sw_trace at 1. rewrite sw_bind_silent; [apply IH|].
  unfold draw_pixel. case_decide; reflexivity.
Qed.

(** A sequence of [draw_pixel] calls only changes the framebuffer. *)
Lemma draw_calls_state ops s :
  sw_state (draw_calls ops) s = SSD1306.set_fb (SSD1306.fb (sw_state (draw_calls ops) s)) s /\
  vl_w (SSD1306.fb (sw_state (draw_calls ops) s)) = vl_w (SSD1306.fb s) /\
  vl_h (SSD1306.fb (sw_state (draw_calls ops) s)) = vl_h (SSD1306.fb s) /\
  (vlsb_wf (SSD1306.fb s) -> vlsb_wf (SSD1306.fb (sw_state (draw_calls ops) s))).
Proof.
  revert s. induction ops as [|[[x y] c] ops IH]; intros s.
  - destruct s; done.
  - cbn [draw_calls]. rewrite sw_state_bind. unfold draw_pixel. case_decide.
    + destruct (IH (sw_state (SSD1306.pixel y (63 - x) c) s)) as (E & Hw & Hh & Hwf).
      rewrite E. simpl. rewrite Hw, Hh. destruct s; simpl. split_and!; [done|done|done|].
      intros. apply Hwf. simpl. auto with pico.
    + apply IH.
Qed.

(** The panel pixel (X, Y) after the calls is the colour of the last call
    at portrait (63 - Y, X), or what it was. *)
Lemma draw_calls_get ops s X Y :
  vlsb_wf (SSD1306.fb s) -> vl_w (SSD1306.fb s) = 128 -> vl_h (SSD1306.fb s) = 64 -> in_box 128 64 X Y ->
  vlsb_get (SSD1306.fb (sw_state (draw_calls ops) s)) X Y =
  match last_write ops (63 - Y) X with Some c => c | None => vlsb_get (SSD1306.fb s) X Y end.
Proof.
  revert s. induction ops as [|[[x y] c] ops IH]; intros s Hwf Hw Hh Hin; [done|].
  cbn [draw_calls]. rewrite sw_state_bind. rewrite last_write_cons. unfold draw_pixel.
  case_decide as Hg.
  - rewrite IH; [|simpl; auto with pico|exact Hw|exact Hh|done].
    destruct (last_write ops (63 - Y) X); [done|]. simpl.
    destruct (decide ((y, 63 - x) = (X, Y))) as [E|E].
    + injection E as E1 E2. subst X Y. rewrite decide_True by (f_equal; lia).
      apply vlsb_get_set_eq; [done|]. rewrite Hw, Hh. unfold in_box. lia.
    + rewrite decide_False by (intros [= -> ->]; apply E; f_equal; lia).
      by apply vlsb_get_set_ne.
  - rewrite IH by done. destruct (last_write ops (63 - Y) X); [done|].
    rewrite decide_False; [done|]. intros [= -> ->]. apply Hg. unfold in_box in Hin. lia.
Qed.

Section PortraitGet.
Context {Src Dst : Type} `{PixelSurfaceLaws Src} `{PixelSurfaceLaws Dst}.

  (** The portrait turn sets panel pixel (X, Y) from portrait pixel
      (VW - 1 - Y, X). *)
Lemma rotate_portrait_get (src : Src) (dst : Dst) X Y :
    surf_wf dst -> in_box (surf_w dst) (surf_h dst) X Y -> 0 <= X < VH -> 0 <= Y < VW ->
    pixel_get (rotate_portrait src dst) X Y = pixel_get dst X Y || pixel_get src (VW - 1 - Y) X.
  Proof.
    intros Hwf Hin HX HY. apply eq_true_iff_eq. unfold rotate_portrait.
    rewrite copy_pass_get by done. rewrite orb_true_iff. split.
    - intros [?|([a b] & Hp & Hs & Hf)]; [by left|]. right. injection Hf as <- <-.
      cbn [fst snd] in *. by replace (VW - 1 - (VW - 1 - a)) with a by lia.
    - intros [?|Hs]; [by left|]. right. exists (VW - 1 - Y, X).
      split; [apply elem_of_portrait_points; lia|]. cbn [fst snd]. split; [done|]. f_equal. lia.
  Qed.

Lemma rotate_portrait_dims (src : Src) (dst : Dst) :
    surf_wf dst ->
    surf_wf (rotate_portrait src dst) /\ surf_w (rotate_portrait src dst) = surf_w dst /\
    surf_h (rotate_portrait src dst) = surf_h dst.
  Proof. unfold rotate_portrait. apply copy_pass_dims. Qed.

Lemma paint_dims (s : Src) ops :
    surf_wf s -> surf_wf (paint s ops) /\ surf_w (paint s ops) = surf_w s /\ surf_h (paint s ops) = surf_h s.
  Proof.
    unfold paint. revert s. induction ops as [|[[x y] c] ops IH]; intros s Hwf; [done|]. simpl.
    destruct (IH (pixel_set s x y (negb (c =? 0)))) as (? & -> & ->); [by apply set_wf|].
    by rewrite set_w, set_h.
  Qed.
End PortraitGet.

Lemma fresh_vbuf_wf : vlsb_wf fresh_vbuf.
Proof. split; [reflexivity|apply Forall_zeros]. Qed.

Lemma fresh_vbuf_get x y : vlsb_get fresh_vbuf x y = false.
Proof.
  unfold vlsb_get, ba_get. destruct (bool_decide _); [|done]. simpl.
  case_match eqn:E; [|done]. apply lookup_replicate in E as [-> _]. apply Z.bits_0.
Qed.

Lemma vlsb_eta f : mkVLSB (vl_w f) (vl_h f) (vl_buf f) = f.
Proof. by destruct f. Qed.

(** C4: Dino's strategy and the other games' strategy put the same frame on the
    wire: painting a list of pixel calls into the portrait buffer and
    flushing it with [show_virtual] sends exactly what clearing the panel,
    making the same calls through the guarded, rotating [draw_pixel] and
    calling [show] sends, and leaves the driver in the same state. *)
Theorem portrait_strategies_agree (ops : list (Z * Z * Z)) s :
  disp_wf s -> SSD1306.width s = 128 -> SSD1306.height s = 64 ->
  show_virtual (paint fresh_vbuf ops) s = (SSD1306.fill 0 ;; draw_calls ops ;; SSD1306.show) s.
Proof.
  intros Hwf Hw Hh. pose proof (fill_wf s 0 Hwf) as Hwf1. unfold show_virtual.
  rewrite !(sw_bind_silent (SSD1306.fill 0)) by reflexivity.
  set (s1 := sw_state (SSD1306.fill 0) s) in *.
  rewrite sw_bind_silent by reflexivity. rewrite sw_bind_silent by apply draw_calls_silent.
  f_equal. destruct (draw_calls_state ops s1) as (-> & Hw' & Hh' & Hwf').
  change (sw_state (sw_modify ?g) s1) with (g s1). f_equal.
  destruct Hwf1 as (_ & _ & _ & _ & _ & Hfw & Hfh & Hfwf & _).
  change (SSD1306.width s1) with (SSD1306.width s) in Hfw.
  change (SSD1306.height s1) with (SSD1306.height s) in Hfh.
  rewrite Hw in Hfw. rewrite Hh in Hfh.
  destruct (paint_dims (Src:=VLSB) fresh_vbuf ops ltac:(exact fresh_vbuf_wf)) as (Hpwf & Hpw & Hph).
  cbn [SSD1306.fb SSD1306.set_fb] in Hw', Hh', Hwf'.
  change (surf_w fresh_vbuf) with VW in Hpw. change (surf_h fresh_vbuf) with VH in Hph.
  rewrite vlsb_surf_w in Hpw. rewrite vlsb_surf_h in Hph. rewrite vlsb_surf_wf in Hpwf.
  rewrite show_virtual_pass_eq. unfold SSD1306.buffer.
  rewrite <- Hpw, <- Hph, vlsb_eta, <- Hfw, <- Hfh, vlsb_eta.
  destruct (rotate_portrait_dims (Src:=VLSB) (Dst:=VLSB) (paint fresh_vbuf ops) (SSD1306.fb s1)
    ltac:(exact Hfwf)) as (Hrwf & Hrw & Hrh).
  change (surf_w (SSD1306.fb s1)) with (vl_w (SSD1306.fb s1)) in Hrw.
  change (surf_h (SSD1306.fb s1)) with (vl_h (SSD1306.fb s1)) in Hrh.
  rewrite vlsb_surf_w in Hrw. rewrite vlsb_surf_h in Hrh. rewrite vlsb_surf_wf in Hrwf.
  rewrite <- Hrw, <- Hrh, vlsb_eta. f_equal. apply vlsb_ext; [congruence|congruence|lia|by rewrite Hrh, Hfh|done|auto|].
  intros X Y. destruct (decide (in_box 128 64 X Y)) as [Hin|Hout].
  - rewrite <- vlsb_pixel_get, (rotate_portrait_get (Src:=VLSB) (Dst:=VLSB));
      [|done|by rewrite vlsb_surf_w, vlsb_surf_h, Hfw, Hfh|unfold in_box, VH, VW in *; lia..].
    rewrite !vlsb_pixel_get, draw_calls_get by (done || congruence).
    rewrite (paint_get (Sf:=VLSB)); [|exact fresh_vbuf_wf|cbn; unfold in_box, VW, VH in *; lia].
    change (pixel_get fresh_vbuf (VW - 1 - Y) X) with (vlsb_get fresh_vbuf (VW - 1 - Y) X).
    rewrite fresh_vbuf_get.
    assert (vlsb_get (SSD1306.fb s1) X Y = false) as ->.
    { change (SSD1306.fb s1) with (vlsb_fill (SSD1306.fb s) false).
      destruct Hwf as (_ & _ & _ & _ & _ & Hw0 & Hh0 & Hwf0 & _).
      apply vlsb_get_fill; [done|]. by rewrite Hw0, Hh0, Hw, Hh. }
    unfold VW. replace (64 - 1 - Y) with (63 - Y) by lia. by destruct (last_write _ _ _).
  - rewrite !vlsb_get_oob; [done| |]; congruence.
Qed.

(** Witnesses at concrete inputs. *)
Definition demo_landscape : HLSB := paint fresh_landscape [(10, 58, 1); (127, 0, 1); (0, 63, 5)].

Lemma sideways_get_witness :
  in_box 64 128 5 10 /\ hlsb_get (sideways demo_landscape) 5 10 = hlsb_get demo_landscape 10 58.
Proof.
  assert (in_box 64 128 5 10) as H by (unfold in_box; lia).
  split; [exact H | exact (sideways_get demo_landscape 5 10 H)].
Defined.

Lemma sideways_roundtrip_witness :
  (hl_w demo_landscape = 128 /\ hl_h demo_landscape = 64 /\ hlsb_wf demo_landscape) /\
  rotate_portrait (sideways demo_landscape) fresh_landscape = demo_landscape.
Proof.
  destruct (paint_dims (Src:=HLSB) fresh_landscape [(10, 58, 1); (127, 0, 1); (0, 63, 5)]
    ltac:(exact fresh_landscape_wf)) as (Hwf & Hw & Hh).
  assert (hl_w demo_landscape = 128) as Hw' by exact Hw.
  assert (hl_h demo_landscape = 64) as Hh' by exact Hh.
  split; [split_and!; [exact Hw' | exact Hh' | exact Hwf]|].
  exact (sideways_roundtrip demo_landscape Hw' Hh' Hwf).
Defined.

Lemma portrait_strategies_agree_witness :
  (disp_wf (SSD1306.fresh 128 64) /\ SSD1306.width (SSD1306.fresh 128 64) = 128 /\
   SSD1306.height (SSD1306.fresh 128 64) = 64) /\
  show_virtual (paint fresh_vbuf [(3, 5, 1); (63, 127, 1)]) (SSD1306.fresh 128 64) =
  (SSD1306.fill 0 ;; draw_calls [(3, 5, 1); (63, 127, 1)] ;; SSD1306.show) (SSD1306.fresh 128 64).
Proof.
  assert (disp_wf (SSD1306.fresh 128 64)) as H by decide_by_eval.
  split; [split_and!; [exact H | reflexivity | reflexivity]|].
  exact (portrait_strategies_agree _ _ H eq_refl eq_refl).
Defined.
