(* ===== verification/Canvas.v ===== *)
(** * Drawing calls on a [framebuf] surface

    The sprites and screens of the games are the sequences of calls they
    make on a [framebuf.FrameBuffer] (or on the driver, which is one):
    [fill_rect], [rect], [pixel], [hline], [vline], [line], [text] and
    [fill].  A call asks for the pixels of a rectangle ([hline] and
    [vline] are one-pixel [fill_rect]s in MicroPython's [framebuf], and
    [rect] without [fill] is the four [fill_rect]s of its sides); the
    buffer clips them.  The rasterisation of [line] and the glyphs of
    [text] are library code the sources only call: those calls are kept as
    data, with their endpoints and strings, and ask for no pixel here.
    [bitmap] is the loop of the sprite blitters, one [pixel] per set bit.
    [in_box] is the membership of a pixel in a box [(x, y, w, h)] as the
    games' collision tests use them; [calls_in] and the tactic [call_in]
    place every pixel of a call list in a region. *)

From stdpp Require Import list strings.
From S2P Require Import Prelude.

Local Open Scope Z_scope.

(** A call on a frame buffer. *)
Inductive fbcall :=
| FillRect (x y w h c : Z)
| Rect (x y w h c : Z)
| Pixel (x y c : Z)
| HLine (x y w c : Z)
| VLine (x y h c : Z)
| Line (x0 y0 x1 y1 c : Z)
| Text (s : string) (x y c : Z)
| Fill (c : Z).

(** The pixels of the rectangle at [(x, y)] of size [w] x [h]. *)
Definition rect_pixels (x y w h : Z) : list (Z * Z) :=
  flat_map (fun j => map (fun i => (i, j)) (zrange x (x + w))) (zrange y (y + h)).

(** The pixels a call asks for ([line], [text] and [fill] are left out). *)
Definition call_pixels (k : fbcall) : list (Z * Z) :=
  match k with
  | FillRect x y w h _ => rect_pixels x y w h
  | Rect x y w h _ =>
      rect_pixels x y w 1 ++ rect_pixels x (y + h - 1) w 1 ++ rect_pixels x y 1 h ++ rect_pixels (x + w - 1) y 1 h
  | Pixel x y _ => [(x, y)]
  | HLine x y w _ => rect_pixels x y w 1
  | VLine x y h _ => rect_pixels x y 1 h
  | _ => []
  end.

Definition pixels_of (l : list fbcall) : list (Z * Z) := flat_map call_pixels l.

(** [for ry in range(h): for rx in range(w): if on(rx, ry): pixel(x + rx,
    y + ry, c)]. *)
Definition bitmap (x y w h c : Z) (on : Z -> Z -> bool) : list fbcall :=
  flat_map (fun ry => flat_map (fun rx => if on rx ry then [Pixel (x + rx) (y + ry) c] else [])
    (zrange 0 w)) (zrange 0 h).

(** A box [(x, y, w, h)] as the code's tuples. *)
Abbreviation box := (Z * Z * Z * Z)%type.

Definition in_box (b : box) (p : Z * Z) : Prop :=
  let '(bx, by_, bw, bh) := b in bx <= p.1 < bx + bw /\ by_ <= p.2 < by_ + bh.

Lemma elem_of_rect_pixels x y w h p : p ∈ rect_pixels x y w h <-> x <= p.1 < x + w /\ y <= p.2 < y + h.
Proof.
  unfold rect_pixels. rewrite elem_of_flat_map. split.
  - intros (j & Hj%elem_of_zrange & Hp). apply list_elem_of_In, in_map_iff in Hp as (i & <- & Hi).
    apply list_elem_of_In, elem_of_zrange in Hi. simpl. lia.
  - destruct p as [px py]. simpl. intros [??]. exists py. split; [apply elem_of_zrange; lia|].
    apply list_elem_of_In, in_map_iff. exists px. split; [done|]. apply list_elem_of_In, elem_of_zrange. lia.
Qed.

(** A call list's pixels lie in a region when each call's do. *)
Lemma calls_in (P : Z * Z -> Prop) (l : list fbcall) :
  Forall (fun c => forall p, p ∈ call_pixels c -> P p) l -> forall p, p ∈ pixels_of l -> P p.
Proof. rewrite Forall_forall. intros Hl p (c & Hc & Hp)%elem_of_flat_map. exact (Hl c Hc p Hp). Qed.

Lemma pixels_of_app l1 l2 p : p ∈ pixels_of (l1 ++ l2) <-> p ∈ pixels_of l1 \/ p ∈ pixels_of l2.
Proof. unfold pixels_of. by rewrite flat_map_app, elem_of_app. Qed.

Lemma pixels_of_flat_map {A} (f : A -> list fbcall) (l : list A) p :
  p ∈ pixels_of (flat_map f l) <-> exists x, x ∈ l /\ p ∈ pixels_of (f x).
Proof.
  induction l as [|x l IH]; simpl.
  - unfold pixels_of at 1. simpl. split; [by intros ?%elem_of_nil|]. intros (? & ?%elem_of_nil & _); done.
  - rewrite pixels_of_app, IH. setoid_rewrite elem_of_cons. naive_solver.
Qed.

(** A bitmap's pixels lie in its [w] x [h] box, whatever bits are set. *)
Lemma bitmap_in x y w h c on p : p ∈ pixels_of (bitmap x y w h c on) -> in_box (x, y, w, h) p.
Proof.
  unfold pixels_of, bitmap. intros (k & Hk & Hp)%elem_of_flat_map.
  apply elem_of_flat_map in Hk as (ry & Hry%elem_of_zrange & Hk).
  apply elem_of_flat_map in Hk as (rx & Hrx%elem_of_zrange & Hk).
  destruct (on rx ry); [|by apply elem_of_nil in Hk]. apply list_elem_of_singleton in Hk as ->.
  destruct p as [px py]. simpl in Hp. apply list_elem_of_singleton in Hp. simplify_eq/=. lia.
Qed.

(** The pixel of one call, as arithmetic on its coordinates. *)
Ltac call_pixel Hp :=
  first [apply elem_of_rect_pixels in Hp | apply list_elem_of_singleton in Hp; injection Hp as -> ->
        | by apply elem_of_nil in Hp
        | rewrite !elem_of_app in Hp; destruct Hp as [Hp|[Hp|[Hp|Hp]]]; apply elem_of_rect_pixels in Hp].

(** Every pixel of an explicit call list lies in a region that linear
    arithmetic decides. *)
Ltac call_in :=
  cbn [fst snd app]; apply Forall_forall; intros ? Hc;
  repeat (apply elem_of_cons in Hc as [-> | Hc]); [..|by apply elem_of_nil in Hc];
  intros [px py] Hp; simpl in Hp; call_pixel Hp; simpl in *; lia.
