(* ===== verification/Input.v ===== *)
(** * Input: edge-triggered buttons, the tick clock, chords and wait loops

    Every game polls four active-low buttons ([Pin.value()] is 0 while a
    button is pressed, 1 while released).  This file models, from the
    games' own copies of the code:
    - [EdgeButtons.update] (identical in [src/2048.py], [src/klotski.py],
      [src/minesweeper.py]) and the eight-result variant of
      [src/asteroids.py], [src/donkey_kong.py] and [src/galaga.py];
    - the MicroPython clock [time.ticks_ms]/[time.ticks_diff] (not in the
      repository: modelled from the MicroPython documentation, with the
      period 2^30 of the RP2040 port) and [time.sleep_ms];
    - the chord detectors [detect_ud_action] ([src/klotski.py]) and
      [detect_action_chords] ([src/minesweeper.py]);
    - the wait loops [wait_released] / [wait_for_all_released];
    - Frogger's [Input.read_move] with its 120 ms cooldown.

    The outside world is a function [env : Z -> levels] giving the four
    levels at each real time in milliseconds; the program's own time is a
    real time [T] that only its sleeps advance (the computation between two
    reads is taken to be instantaneous).  Loops that wait on the buttons
    take fuel and return [None] when it runs out. *)

From S2P Require Import Prelude.
From Stdlib Require Import Sorting.Sorted.

(** ** Levels and the edge detector *)

Inductive Btn := BUp | BDown | BLeft | BRight.

#[export] Instance Btn_eq_dec : EqDecision Btn.
Proof. solve_decision. Defined.

(** One snapshot [(btn_up.value(), btn_down.value(), btn_left.value(),
    btn_right.value())]. *)
Record levels := mkLevels { lv_u : Z; lv_d : Z; lv_l : Z; lv_r : Z }.

Definition lv_get (b : Btn) (n : levels) : Z :=
  match b with BUp => lv_u n | BDown => lv_d n | BLeft => lv_l n | BRight => lv_r n end.

Definition pressed (b : Btn) (n : levels) : bool := lv_get b n =? 0.

(** [any_pressed()]: [(not btn_up.value()) or ...]. *)
Definition any_pressed (n : levels) : bool :=
  (lv_u n =? 0) || (lv_d n =? 0) || (lv_l n =? 0) || (lv_r n =? 0).

Module EdgeButtons.
  (** [self.u, self.d, self.l, self.r], the previous snapshot. *)
Record t := mk { u : Z; d : Z; l : Z; r : Z }.

  (** [__init__]: all released. *)
Definition init : t := mk 1 1 1 1.

Definition get (b : Btn) (s : t) : Z :=
    match b with BUp => u s | BDown => d s | BLeft => l s | BRight => r s end.

  (** [(self.x == 1 and nx == 0)]. *)
Definition edge (prev now : Z) : bool := (prev =? 1) && (now =? 0).

  (** [update()] of 2048, Klotski and Minesweeper: one snapshot, four edges,
      then the snapshot becomes the stored state. *)
Definition update (s : t) (n : levels) : t * (bool * bool * bool * bool) :=
    let pu := edge (u s) (lv_u n) in
    let pd := edge (d s) (lv_d n) in
    let pl := edge (l s) (lv_l n) in
    let pr := edge (r s) (lv_r n) in
    (mk (lv_u n) (lv_d n) (lv_l n) (lv_r n), (pu, pd, pl, pr)).

  (** [update()] of Asteroids, Donkey Kong and Galaga: the four edges and the
      four held levels [(nx == 0)]. *)
Definition update8 (s : t) (n : levels) : t * (bool * bool * bool * bool * bool * bool * bool * bool) :=
    let pu := edge (u s) (lv_u n) in
    let pd := edge (d s) (lv_d n) in
    let pl := edge (l s) (lv_l n) in
    let pr := edge (r s) (lv_r n) in
    (mk (lv_u n) (lv_d n) (lv_l n) (lv_r n),
     (pu, pd, pl, pr, lv_u n =? 0, lv_d n =? 0, lv_l n =? 0, lv_r n =? 0)).

Definition edge_of (b : Btn) (e : bool * bool * bool * bool) : bool :=
    match b, e with
    | BUp, (x, _, _, _) => x | BDown, (_, x, _, _) => x
    | BLeft, (_, _, x, _) => x | BRight, (_, _, _, x) => x
    end.

  (** One [update()] per tick over a sequence of snapshots. *)
Fixpoint run (s : t) (ns : list levels) : t * list (bool * bool * bool * bool) :=
    match ns with
    | [] => (s, [])
    | n :: ns => let '(s', e) := update s n in let '(s'', es) := run s' ns in (s'', e :: es)
    end.
End EdgeButtons.

(** The specification of one line: there is an edge at a tick exactly when
    the snapshot before it (the stored one for the first tick) reads
    released (1) and this one pressed (0). *)
Definition line_edges (prev : Z) (xs : list Z) : list bool :=
  zip_with (fun p x => (p =? 1) && (x =? 0)) (prev :: xs) xs.

(** Number of ticks with an edge. *)
Definition count_true (bs : list bool) : nat := length (filter (fun b => b = true) bs).

(** ** The MicroPython clock (modelled from the MicroPython documentation)

    [time.ticks_ms()] is the real time in milliseconds wrapped to
    [TICKS_PERIOD]; [time.ticks_diff(a, b)] is [a - b] brought back into
    [[-TICKS_PERIOD/2, TICKS_PERIOD/2)], which is the true elapsed time as
    long as that is less than [TICKS_PERIOD/2] (about 6.2 days). *)
Definition TICKS_PERIOD : Z := 2 ^ 30.

Definition ticks_ms (T : Z) : Z := T .& (TICKS_PERIOD - 1).

Definition ticks_diff (a b : Z) : Z :=
  ((a - b + TICKS_PERIOD / 2) .& (TICKS_PERIOD - 1)) - TICKS_PERIOD / 2.

(** [time.ticks_add(a, b)]: the sum wrapped to the period. *)
Definition ticks_add (a b : Z) : Z := (a + b) .& (TICKS_PERIOD - 1).

(** ** Loops that poll the buttons *)

Inductive hold_result := HoldLong (T : Z) | HoldBroken (T : Z).

(** [detect_ud_action] of Klotski. *)
Inductive UdAction := Reset | Grab.

(** [detect_action_chords] of Minesweeper. *)
Inductive MsAction := Restart | Reveal | Flag.

#[export] Instance UdAction_eq_dec : EqDecision UdAction.
Proof. solve_decision. Defined.
#[export] Instance MsAction_eq_dec : EqDecision MsAction.
Proof. solve_decision. Defined.

Section Polling.
Variable env : Z -> levels.

Definition both (b1 b2 : Btn) (T : Z) : bool := pressed b1 (env T) && pressed b2 (env T).

  (** [while cond(): time.sleep_ms(10)]: the time at which [cond] is
      first false, polling every 10 ms. *)
Fixpoint sleep_while (cond : Z -> bool) (fuel : nat) (T : Z) : option Z :=
    match fuel with
    | O => None
    | S f => if cond T then sleep_while cond f (T + 10) else Some T
    end.

  (** [wait_released()] of 2048 (final settle 70 ms) and of the other games
      (60 ms): wait until no button is pressed, then settle. *)
Definition wait_released (settle : Z) (fuel : nat) (T : Z) : option Z :=
    match sleep_while (fun t => any_pressed (env t)) fuel T with
    | Some T' => Some (T' + settle)
    | None => None
    end.

  (** The hold loop of both chord detectors:
      [while b1 held and b2 held: if ticks_diff(ticks_ms(), t0) > 700:
      return long; time.sleep_ms(10)]. *)
Fixpoint hold_loop (b1 b2 : Btn) (fuel : nat) (t0 T : Z) : option hold_result :=
    match fuel with
    | O => None
    | S f =>
        if both b1 b2 T then
          if 700 <? ticks_diff (ticks_ms T) t0 then Some (HoldLong T)
          else hold_loop b1 b2 f t0 (T + 10)
        else Some (HoldBroken T)
    end.

  (** [detect_ud_action(last_action_ms)] of [src/klotski.py]: the action
      and the time it returns at. *)
Definition detect_ud_action (fuel : nat) (last T : Z) : option (option UdAction * Z) :=
    let up := pressed BUp (env T) in
    let dn := pressed BDown (env T) in
    let now := ticks_ms T in
    if up && dn then
      match hold_loop BUp BDown fuel now T with
      | None => None
      | Some (HoldLong T') => Some (Some Reset, T')
      | Some (HoldBroken T') => Some (if 160 <? ticks_diff now last then Some Grab else None, T')
      end
    else Some (None, T).

  (** [detect_action_chords(last_action_ms)] of [src/minesweeper.py].  The
      left/right test uses the levels read on entry ([lf], [rt]), the loop
      re-reads them. *)
Definition detect_action_chords (fuel : nat) (last T : Z) : option (option MsAction * Z) :=
    let n := env T in
    let up := pressed BUp n in let dn := pressed BDown n in
    let lf := pressed BLeft n in let rt := pressed BRight n in
    let now := ticks_ms T in
    let flag_part (T1 : Z) : option (option MsAction * Z) :=
      if lf && rt then
        match sleep_while (both BLeft BRight) fuel T1 with
        | None => None
        | Some T2 => Some (if 160 <? ticks_diff now last then Some Flag else None, T2)
        end
      else Some (None, T1) in
    if up && dn then
      match hold_loop BUp BDown fuel now T with
      | None => None
      | Some (HoldLong T') => Some (Some Restart, T')
      | Some (HoldBroken T') => if 160 <? ticks_diff now last then Some (Some Reveal, T') else flag_part T'
      end
    else flag_part T.

  (** Frogger's [Input]: [last_move] is a tick count. *)
Definition MOVE_COOLDOWN_MS : Z := 120.

  (** [Input.read_move()] of [src/frogger.py]: nothing during the cooldown,
      else the first pressed button in the order up, down, left, right. *)
Definition read_move (last_move T : Z) : Z * (Z * Z) :=
    let now := ticks_ms T in
    if ticks_diff now last_move <? MOVE_COOLDOWN_MS then (last_move, (0, 0))
    else
      let n := env T in
      let '(dx, dy) :=
        if lv_u n =? 0 then (0, -1) else if lv_d n =? 0 then (0, 1)
        else if lv_l n =? 0 then (-1, 0) else if lv_r n =? 0 then (1, 0) else (0, 0) in
      (if negb (dx =? 0) || negb (dy =? 0) then now else last_move, (dx, dy)).

  (** [read_move] called at each time of [Ts]; the times of the calls that
      returned a move. *)
Fixpoint move_times (last_move : Z) (Ts : list Z) : list Z :=
    match Ts with
    | [] => []
    | T :: Ts =>
        let '(lm, (dx, dy)) := read_move last_move T in
        if negb (dx =? 0) || negb (dy =? 0) then T :: move_times lm Ts else move_times lm Ts
    end.
End Polling.

Definition hold_time (r : hold_result) : Z := match r with HoldLong T | HoldBroken T => T end.

(** ** The clock *)

Lemma ticks_mask : TICKS_PERIOD - 1 = Z.ones 30.
Proof. reflexivity. Qed.

Lemma ticks_ms_mod T : ticks_ms T = T mod TICKS_PERIOD.
Proof. unfold ticks_ms. rewrite ticks_mask, Z.land_ones by lia. reflexivity. Qed.

Lemma ticks_ms_range T : 0 <= ticks_ms T < TICKS_PERIOD.
Proof. rewrite ticks_ms_mod. apply Z.mod_pos_bound. reflexivity. Qed.

Lemma ticks_diff_mod a b :
  ticks_diff a b = (a - b + TICKS_PERIOD / 2) mod TICKS_PERIOD - TICKS_PERIOD / 2.
Proof. unfold ticks_diff. rewrite ticks_mask, Z.land_ones by lia. reflexivity. Qed.

Lemma ticks_elapsed T0 T1 :
  - (TICKS_PERIOD / 2) <= T1 - T0 < TICKS_PERIOD / 2 ->
  ticks_diff (ticks_ms T1) (ticks_ms T0) = T1 - T0.
Proof.
  intros H. rewrite ticks_diff_mod, !ticks_ms_mod.
  rewrite (Z.mod_eq T1), (Z.mod_eq T0) by (unfold TICKS_PERIOD; lia).
  match goal with |- (?x mod _) - _ = _ => replace x with
    ((T1 - T0 + TICKS_PERIOD / 2) + (T0 / TICKS_PERIOD - T1 / TICKS_PERIOD) * TICKS_PERIOD) by ring end.
  rewrite Z_mod_plus_full, Z.mod_small; [lia|].
  change (TICKS_PERIOD / 2) with 536870912 in *. change TICKS_PERIOD with 1073741824. lia.
Qed.

(** [ticks_diff] of two [ticks_ms] readings is the true elapsed time as
    long as it is less than half the tick period in size: the wrap-around of
    the 30-bit counter is invisible to the games' timers. *)
Theorem ticks_diff_elapsed T0 T1 :
  - (TICKS_PERIOD / 2) <= T1 - T0 < TICKS_PERIOD / 2 ->
  ticks_diff (ticks_ms T1) (ticks_ms T0) = T1 - T0.
Proof. apply ticks_elapsed. Qed.

(** The polls of a loop that sleeps 10 ms per turn, [k] turns in. *)
(** A deadline of 0, the games' initial value, lies in the future of
    every reading in the second half of the tick period. *)
Lemma ticks_diff_zero_neg T : TICKS_PERIOD / 2 <= ticks_ms T -> ticks_diff (ticks_ms T) 0 < 0.
Proof.
  intros Ht. rewrite ticks_diff_mod. pose proof (ticks_ms_range T).
  rewrite <- (Z.mod_unique _ _ 1 (ticks_ms T - TICKS_PERIOD / 2));
    change (TICKS_PERIOD / 2) with 536870912 in *; change TICKS_PERIOD with 1073741824 in *; lia.
Qed.

(** The same deadline read the other way round, [ticks_diff(0, now)],
    is positive for every reading past the middle of the period. *)
Lemma ticks_diff_zero_pos T : TICKS_PERIOD / 2 < ticks_ms T -> 0 < ticks_diff 0 (ticks_ms T).
Proof.
  intros Ht. rewrite ticks_diff_mod. pose proof (ticks_ms_range T).
  rewrite <- (Z.mod_unique _ _ (-1) (TICKS_PERIOD + TICKS_PERIOD / 2 - ticks_ms T));
    change (TICKS_PERIOD / 2) with 536870912 in *; change TICKS_PERIOD with 1073741824 in *; lia.
Qed.

(** A deadline [ticks_add(now, d)] set at a reading [now] is [d] ms in
    its future. *)
Lemma ticks_diff_add T d : 0 <= d < TICKS_PERIOD / 2 -> ticks_diff (ticks_add (ticks_ms T) d) (ticks_ms T) = d.
Proof.
  intros Hd. unfold ticks_add. rewrite ticks_mask, Z.land_ones by lia. change (2 ^ 30) with TICKS_PERIOD.
  rewrite ticks_diff_mod.
  replace ((ticks_ms T + d) mod TICKS_PERIOD - ticks_ms T + TICKS_PERIOD / 2)
    with ((ticks_ms T + d) mod TICKS_PERIOD + (TICKS_PERIOD / 2 - ticks_ms T)) by ring.
  rewrite Z.add_mod_idemp_l by (unfold TICKS_PERIOD; lia).
  replace (ticks_ms T + d + (TICKS_PERIOD / 2 - ticks_ms T)) with (d + TICKS_PERIOD / 2) by ring.
  rewrite Z.mod_small; [lia|]. change (TICKS_PERIOD / 2) with 536870912 in *. change TICKS_PERIOD with 1073741824. lia.
Qed.

Lemma ticks_poll T k : (Z.of_nat k <= 53687091)%Z ->
  ticks_diff (ticks_ms (T + 10 * Z.of_nat k)) (ticks_ms T) = 10 * Z.of_nat k.
Proof.
  intros Hk. rewrite ticks_elapsed; [lia|].
  change (TICKS_PERIOD / 2) with 536870912. lia.
Qed.

Lemma poll_succ T k : T + 10 * Z.of_nat (S k) = T + 10 * Z.of_nat k + 10.
Proof. lia. Qed.

Lemma poll_zero T : T + 10 * Z.of_nat 0 = T.
Proof. lia. Qed.

Section PollingLemmas.
Variable env : Z -> levels.

  (** A [while cond(): sleep_ms(10)] loop stops at the first poll where
      [cond] is false, given more turns of fuel than polls. *)
Lemma sleep_while_at cond fuel T m :
    (forall k, (k < m)%nat -> cond (T + 10 * Z.of_nat k) = true) ->
    cond (T + 10 * Z.of_nat m) = false -> (m < fuel)%nat ->
    sleep_while cond fuel T = Some (T + 10 * Z.of_nat m).
  Proof.
    revert fuel T. induction m as [|m IH]; intros [|f] T Hh Hr Hf; try lia.
    - rewrite poll_zero in *. simpl. by rewrite Hr.
    - simpl. pose proof (Hh 0%nat ltac:(lia)) as H0. rewrite poll_zero in H0. rewrite H0.
      rewrite (IH f (T + 10)); [f_equal; lia| | |lia].
      + intros k Hk. replace (T + 10 + 10 * Z.of_nat k) with (T + 10 * Z.of_nat (S k)) by lia.
        apply Hh. lia.
      + by replace (T + 10 + 10 * Z.of_nat m) with (T + 10 * Z.of_nat (S m)) by lia.
  Qed.

  (** While [cond] stays true the loop never returns, whatever the fuel. *)
Lemma sleep_while_forever cond fuel T :
    (forall t, T <= t -> cond t = true) -> sleep_while cond fuel T = None.
  Proof.
    revert T. induction fuel as [|f IH]; intros T Hc; [done|]. simpl.
    rewrite Hc by lia. apply IH. intros t Ht. apply Hc. lia.
  Qed.

  (** What a returning loop returns: a later poll at which [cond] is false. *)
Lemma sleep_while_some cond fuel T T' :
    sleep_while cond fuel T = Some T' -> cond T' = false /\ T <= T'.
  Proof.
    revert T. induction fuel as [|f IH]; intros T; [done|]. simpl.
    destruct (cond T) eqn:E; [|intros [= <-]; split; [done|lia]].
    intros Hs. destruct (IH _ Hs). split; [done|lia].
  Qed.

Lemma hold_step b1 b2 f T j :
    Z.of_nat j <= 70 -> both env b1 b2 (T + 10 * Z.of_nat j) = true ->
    hold_loop env b1 b2 (S f) (ticks_ms T) (T + 10 * Z.of_nat j) =
    hold_loop env b1 b2 f (ticks_ms T) (T + 10 * Z.of_nat (S j)).
  Proof.
    intros Hj Hb. simpl. rewrite Hb, ticks_poll by lia.
    rewrite (proj2 (Z.ltb_ge _ _)) by lia. f_equal. lia.
  Qed.

  (** [m] turns of a chord held from [T] on. *)
Lemma hold_run b1 b2 f T m :
    (m <= 71)%nat -> (forall k, (k < m)%nat -> both env b1 b2 (T + 10 * Z.of_nat k) = true) ->
    hold_loop env b1 b2 (m + f) (ticks_ms T) T = hold_loop env b1 b2 f (ticks_ms T) (T + 10 * Z.of_nat m).
  Proof.
    revert f. induction m as [|m IH]; intros f Hm Hh; [by rewrite poll_zero|].
    rewrite Nat.add_succ_l, <- Nat.add_succ_r, IH by auto with lia.
    apply hold_step; [lia|apply Hh; lia].
  Qed.

  (** From poll [j] on, the hold loop returns by poll 71, i.e. within
      710 ms of its start, whatever the buttons do. *)
Lemma hold_total b1 b2 T n j f :
    (j + n = 71)%nat ->
    exists r, hold_loop env b1 b2 (S n + f) (ticks_ms T) (T + 10 * Z.of_nat j) = Some r /\
      T + 10 * Z.of_nat j <= hold_time r <= T + 710.
  Proof.
    revert j. induction n as [|n IH]; intros j Hj.
    - assert (j = 71)%nat as -> by lia. simpl.
      destruct (both env b1 b2 _); [rewrite ticks_poll by lia|]; simpl; eexists; split; [done|simpl; lia|done|simpl; lia].
    - destruct (both env b1 b2 (T + 10 * Z.of_nat j)) eqn:Hb.
      + change (S (S n) + f)%nat with (S (S n + f)). rewrite hold_step by (done || lia).
        destruct (IH (S j)) as (r & Hr & Hrt); [lia|]. exists r. split; [done|lia].
      + simpl. rewrite Hb. eexists; split; [done|simpl; lia].
  Qed.
End PollingLemmas.

(** ** The edge detector *)

Lemma line_edges_cons p x xs : line_edges p (x :: xs) = ((p =? 1) && (x =? 0)) :: line_edges x xs.
Proof. reflexivity. Qed.

Lemma line_edges_released p m : line_edges p (replicate m 1) = replicate m false.
Proof.
  revert p. induction m as [|m IH]; intros p; [done|]. simpl replicate. rewrite line_edges_cons, IH.
  by rewrite andb_false_r.
Qed.

Lemma line_edges_const p x xs j :
  EdgeButtons.edge p x = false -> EdgeButtons.edge x x = false ->
  line_edges p (replicate j x ++ xs) = replicate j false ++ line_edges (match j with O => p | _ => x end) xs.
Proof.
  unfold EdgeButtons.edge. intros Hp Hx. revert p Hp. induction j as [|j IH]; intros p Hp; [done|]. simpl replicate.
  rewrite <- app_comm_cons, line_edges_cons, Hp, IH by done. destruct j; done.
Qed.

Lemma default_last_cons {A} (d x : A) l : default d (last (x :: l)) = default x (last l).
Proof.
  destruct l as [|a l]; [done|]. rewrite last_cons_cons.
  destruct (last (a :: l)) eqn:E; [done|]. by apply last_None in E.
Qed.

Lemma run_line_edges b s ns :
  map (EdgeButtons.edge_of b) (EdgeButtons.run s ns).2 = line_edges (EdgeButtons.get b s) (map (lv_get b) ns) /\
  EdgeButtons.get b (EdgeButtons.run s ns).1 = default (EdgeButtons.get b s) (last (map (lv_get b) ns)).
Proof.
  revert s. induction ns as [|n ns IH]; intros s; [done|].
  cbn [EdgeButtons.run map]. rewrite line_edges_cons, default_last_cons.
  destruct (IH (EdgeButtons.update s n).1) as [H1 H2]. unfold EdgeButtons.update in *.
  destruct (EdgeButtons.run _ ns) as [s2 es] eqn:E. simpl in H1, H2 |- *.
  destruct b; simpl in *; by rewrite H1, H2.
Qed.

(** C6: [update()] called once per tick computes, for every button, the
    stateless edge specification: the edge at each tick is
    [previous == 1 and current == 0] on two consecutive snapshots, the first
    against the stored one, and the stored level after the run is the last
    snapshot. *)
Theorem run_edges b s ns :
  map (EdgeButtons.edge_of b) (EdgeButtons.run s ns).2 = line_edges (EdgeButtons.get b s) (map (lv_get b) ns) /\
  EdgeButtons.get b (EdgeButtons.run s ns).1 = default (EdgeButtons.get b s) (last (map (lv_get b) ns)).
Proof. apply run_line_edges. Qed.

(** One press, one edge: a button released for [j] ticks, pressed for
    [k + 1] ticks and released for [m] ticks gives exactly one edge, on the
    first pressed tick (the spec's sequence [released, pressed, pressed,
    released] is [j = 1], [k = 1], [m = 1]). *)
Theorem edge_once_per_press b s ns j k m :
  EdgeButtons.get b s = 1 ->
  map (lv_get b) ns = replicate j 1 ++ replicate (S k) 0 ++ replicate m 1 ->
  map (EdgeButtons.edge_of b) (EdgeButtons.run s ns).2 = replicate j false ++ true :: replicate (k + m) false.
Proof.
  intros Hs Hns. rewrite (proj1 (run_line_edges b s ns)), Hs, Hns.
  rewrite line_edges_const by done. f_equal. destruct j; cbn [replicate app].
  all: rewrite line_edges_cons, line_edges_const, line_edges_released, replicate_add by done; destruct k; done.
Qed.

(** ** The chord detectors *)

Lemma both_entry env T : pressed BUp (env T) && pressed BDown (env T) = both env BUp BDown T.
Proof. reflexivity. Qed.

Lemma fuel_split fuel m : (m < fuel)%nat -> fuel = (m + S (fuel - S m))%nat.
Proof. lia. Qed.

(** [detect_ud_action] always returns, at most 710 ms after it is called,
    whatever the buttons do: its hold loop has a time limit. *)
Theorem detect_ud_action_total env fuel last T :
  (72 <= fuel)%nat ->
  exists a T', detect_ud_action env fuel last T = Some (a, T') /\ T <= T' <= T + 710.
Proof.
  intros Hf. unfold detect_ud_action. rewrite both_entry.
  destruct (both env BUp BDown T); [|exists None, T; split; [done|lia]].
  destruct (hold_total env BUp BDown T 71 0 (fuel - 72)) as ([T'|T'] & Hr & Ht); [done|..];
    rewrite poll_zero in Hr; replace fuel with (S 71 + (fuel - 72))%nat by lia; rewrite Hr; simpl in Ht.
  - exists (Some Reset), T'. split; [done|lia].
  - eexists _, T'. split; [done|lia].
Qed.

Lemma ud_long env fuel last T :
  (forall k, (k <= 71)%nat -> both env BUp BDown (T + 10 * Z.of_nat k) = true) -> (72 <= fuel)%nat ->
  detect_ud_action env fuel last T = Some (Some Reset, T + 710).
Proof.
  intros Hh Hf. unfold detect_ud_action. rewrite both_entry.
  pose proof (Hh 0%nat ltac:(lia)) as H0. rewrite poll_zero in H0. rewrite H0.
  rewrite (fuel_split fuel 71), hold_run by (auto with lia). simpl.
  rewrite Hh, ticks_poll by lia. done.
Qed.

(** The long chord: up and down held together at every poll for 710 ms
    yields [reset], at the first poll past the 700 ms threshold. *)
Theorem detect_ud_action_long env fuel last T :
  (forall k, (k <= 71)%nat -> both env BUp BDown (T + 10 * Z.of_nat k) = true) -> (72 <= fuel)%nat ->
  detect_ud_action env fuel last T = Some (Some Reset, T + 710).
Proof. apply ud_long. Qed.

(** The short chord: up and down pressed together and released (either
    one) at poll [m], before the threshold, yields [grab] when more than
    160 ms have passed since the last action, and nothing otherwise; the
    call returns at the release. *)
Theorem detect_ud_action_short env fuel last T m :
  (1 <= m <= 71)%nat ->
  (forall k, (k < m)%nat -> both env BUp BDown (T + 10 * Z.of_nat k) = true) ->
  both env BUp BDown (T + 10 * Z.of_nat m) = false -> (72 <= fuel)%nat ->
  detect_ud_action env fuel last T =
  Some (if 160 <? ticks_diff (ticks_ms T) last then Some Grab else None, T + 10 * Z.of_nat m).
Proof.
  intros Hm Hh Hr Hf. unfold detect_ud_action. rewrite both_entry.
  pose proof (Hh 0%nat ltac:(lia)) as H0. rewrite poll_zero in H0. rewrite H0.
  rewrite (fuel_split fuel m), hold_run by (auto with lia). simpl. by rewrite Hr.
Qed.

(** A chord held on and on resets on every call, not once per hold: when
    up and down stay pressed from [T] on, every call of [detect_ud_action]
    at or after [T] returns [reset]; Klotski's main loop, which sleeps
    120 ms and calls again, resets the board every 830 ms or so for as long
    as the chord is held. *)
Theorem detect_ud_action_hold_repeats env fuel last T T2 :
  (forall t, T <= t -> both env BUp BDown t = true) -> (72 <= fuel)%nat -> T <= T2 ->
  detect_ud_action env fuel last T2 = Some (Some Reset, T2 + 710) /\
  detect_ud_action env fuel (ticks_ms (T2 + 710)) (T2 + 830) = Some (Some Reset, T2 + 1540).
Proof.
  intros Hh Hf HT. split.
  - apply ud_long; [intros k _; apply Hh; lia|done].
  - replace (T2 + 1540) with (T2 + 830 + 710) by lia.
    apply ud_long; [intros k _; apply Hh; lia|done].
Qed.

(** Minesweeper's up+down chord behaves as Klotski's: held for 710 ms it
    yields [restart]. *)
Theorem detect_action_chords_long env fuel last T :
  (forall k, (k <= 71)%nat -> both env BUp BDown (T + 10 * Z.of_nat k) = true) -> (72 <= fuel)%nat ->
  detect_action_chords env fuel last T = Some (Some Restart, T + 710).
Proof.
  intros Hh Hf. unfold detect_action_chords. rewrite both_entry.
  pose proof (Hh 0%nat ltac:(lia)) as H0. rewrite poll_zero in H0. rewrite H0.
  rewrite (fuel_split fuel 71), hold_run by (auto with lia). simpl.
  rewrite Hh, ticks_poll by lia. done.
Qed.

(** Minesweeper's left+right chord has no time limit: it returns when the
    chord is released, with [flag] if the cooldown has passed, and never
    returns while the chord is held. *)
Theorem detect_action_chords_flag env fuel last T m :
  both env BUp BDown T = false ->
  (forall k, (k < m)%nat -> both env BLeft BRight (T + 10 * Z.of_nat k) = true) ->
  both env BLeft BRight (T + 10 * Z.of_nat m) = false -> (1 <= m < fuel)%nat ->
  detect_action_chords env fuel last T =
  Some (if 160 <? ticks_diff (ticks_ms T) last then Some Flag else None, T + 10 * Z.of_nat m).
Proof.
  intros Hud Hh Hr Hm. unfold detect_action_chords. rewrite both_entry, Hud.
  pose proof (Hh 0%nat ltac:(lia)) as H0. rewrite poll_zero in H0.
  change (pressed BLeft (env T) && pressed BRight (env T)) with (both env BLeft BRight T). rewrite H0.
  rewrite (sleep_while_at _ _ _ m); [done|done|done|lia].
Qed.

(** Minesweeper's left+right chord has no time limit: while left and right
    stay pressed, [detect_action_chords] polls forever (it runs out of any
    fuel), so the game freezes for as long as the chord is held. *)
Theorem detect_action_chords_flag_blocks env fuel last T :
  both env BUp BDown T = false -> (forall t, T <= t -> both env BLeft BRight t = true) ->
  detect_action_chords env fuel last T = None.
Proof.
  intros Hud Hh. unfold detect_action_chords. rewrite both_entry, Hud.
  change (pressed BLeft (env T) && pressed BRight (env T)) with (both env BLeft BRight T).
  rewrite Hh by lia. by rewrite sleep_while_forever.
Qed.

(** ** The wait loops *)

(** [wait_released()] returns [settle] ms after the first poll at which no
    button is pressed (at once when none is), and not before. *)
Theorem wait_released_returns env settle fuel T m :
  (forall k, (k < m)%nat -> any_pressed (env (T + 10 * Z.of_nat k)) = true) ->
  any_pressed (env (T + 10 * Z.of_nat m)) = false -> (m < fuel)%nat ->
  wait_released env settle fuel T = Some (T + 10 * Z.of_nat m + settle).
Proof.
  intros Hh Hr Hf. unfold wait_released. by rewrite (sleep_while_at _ _ _ m).
Qed.

Lemma wait_released_released env settle fuel T T' :
  wait_released env settle fuel T = Some T' -> any_pressed (env (T' - settle)) = false /\ T + settle <= T'.
Proof.
  unfold wait_released. destruct (sleep_while _ fuel T) as [T1|] eqn:E; [|done]. intros [= <-].
  apply sleep_while_some in E as [E ?]. replace (T1 + settle - settle) with T1 by lia. split; [done|lia].
Qed.

(** ** Frogger's move cooldown *)

Lemma read_move_spec env lm T :
  let '(lm', (dx, dy)) := read_move env lm T in
  (negb (dx =? 0) || negb (dy =? 0) = false /\ lm' = lm) \/
  (negb (dx =? 0) || negb (dy =? 0) = true /\ lm' = ticks_ms T /\
   MOVE_COOLDOWN_MS <= ticks_diff (ticks_ms T) lm).
Proof.
  unfold read_move. destruct (ticks_diff _ _ <? _) eqn:C; [by left|]. apply Z.ltb_ge in C.
  destruct (lv_u (env T) =? 0); [|destruct (lv_d (env T) =? 0); [|destruct (lv_l (env T) =? 0);
    [|destruct (lv_r (env T) =? 0)]]]; cbn; first [left; split; reflexivity | right; split_and!; auto].
Qed.

(** Frogger never moves twice within [MOVE_COOLDOWN_MS]: whatever the
    buttons do, over calls of [read_move] at increasing times within
    [TICKS_PERIOD / 2] of the creation of [Input] at [T0], the times of the
    calls that return a move are at least 120 ms apart, and the first one at
    least 120 ms after [T0]. *)
Theorem read_move_spaced env T0 Ts :
  StronglySorted Z.le Ts -> Forall (fun t => T0 <= t < T0 + TICKS_PERIOD / 2) Ts ->
  Sorted (fun a b => a + MOVE_COOLDOWN_MS <= b) (T0 :: move_times env (ticks_ms T0) Ts).
Proof.
  revert T0. induction Ts as [|t Ts IH]; intros Tl Hs Hr; [by repeat constructor|].
  apply StronglySorted_inv in Hs as [Hs Hle]. apply Forall_cons in Hr as [Ht Hr].
  cbn [move_times]. pose proof (read_move_spec env (ticks_ms Tl) t) as Hm.
  destruct (read_move env (ticks_ms Tl) t) as [lm [dx dy]].
  destruct Hm as [[-> ->] | (-> & -> & Hc)]; [by apply IH|].
  rewrite ticks_elapsed in Hc by lia.
  constructor; [apply IH; [done|]|constructor; lia].
  apply Forall_forall. intros t' Ht'. rewrite Forall_forall in Hle, Hr.
  specialize (Hle t' Ht'). specialize (Hr t' Ht'). lia.
Qed.

(** ** Witnesses at concrete inputs *)

Definition released : levels := mkLevels 1 1 1 1.
Definition env_ud_hold : Z -> levels := fun _ => mkLevels 0 0 1 1.
Definition env_ud_tap : Z -> levels := fun t => if t <? 1030 then mkLevels 0 0 1 1 else released.
Definition env_lr_tap : Z -> levels := fun t => if t <? 50 then mkLevels 1 1 0 0 else released.
Definition env_lr_hold : Z -> levels := fun _ => mkLevels 1 1 0 0.
Definition env_up_hold : Z -> levels := fun _ => mkLevels 0 1 1 1.
Definition env_up_tap : Z -> levels := fun t => if t <? 30 then mkLevels 0 1 1 1 else released.
Definition press_samples : list levels := [released; mkLevels 0 1 1 1; mkLevels 0 1 1 1; released].

Lemma tap_before (env_on off : levels) t bound : t < bound -> (if t <? bound then env_on else off) = env_on.
Proof. intros H. by rewrite (proj2 (Z.ltb_lt _ _) H). Qed.

Lemma tap_after (env_on off : levels) t bound : bound <= t -> (if t <? bound then env_on else off) = off.
Proof. intros H. by rewrite (proj2 (Z.ltb_ge _ _) H). Qed.

Lemma ticks_diff_elapsed_witness :
  (- (TICKS_PERIOD / 2) <= (TICKS_PERIOD + 20) - (TICKS_PERIOD - 5) < TICKS_PERIOD / 2) /\
  ticks_diff (ticks_ms (TICKS_PERIOD + 20)) (ticks_ms (TICKS_PERIOD - 5)) = (TICKS_PERIOD + 20) - (TICKS_PERIOD - 5).
Proof.
  assert (- (TICKS_PERIOD / 2) <= (TICKS_PERIOD + 20) - (TICKS_PERIOD - 5) < TICKS_PERIOD / 2) as H
    by (change (TICKS_PERIOD / 2) with 536870912; lia).
  split; [exact H | exact (ticks_diff_elapsed _ _ H)].
Defined.

Lemma edge_once_per_press_witness :
  (EdgeButtons.get BUp EdgeButtons.init = 1 /\
   map (lv_get BUp) press_samples = replicate 1 1 ++ replicate 2 0 ++ replicate 1 1) /\
  map (EdgeButtons.edge_of BUp) (EdgeButtons.run EdgeButtons.init press_samples).2 =
  replicate 1 false ++ true :: replicate (1 + 1) false.
Proof.
  assert (EdgeButtons.get BUp EdgeButtons.init = 1) as H1 by reflexivity.
  assert (map (lv_get BUp) press_samples = replicate 1 1 ++ replicate 2 0 ++ replicate 1 1) as H2 by reflexivity.
  split; [split; [exact H1 | exact H2] | exact (edge_once_per_press BUp _ _ 1 1 1 H1 H2)].
Defined.

Lemma detect_ud_action_total_witness :
  (72 <= 72)%nat /\
  exists a T', detect_ud_action env_ud_tap 72 0 1000 = Some (a, T') /\ 1000 <= T' <= 1000 + 710.
Proof.
  assert (72 <= 72)%nat as H by lia. split; [exact H | exact (detect_ud_action_total _ _ _ _ H)].
Defined.

Lemma detect_ud_action_long_witness :
  ((forall k, (k <= 71)%nat -> both env_ud_hold BUp BDown (0 + 10 * Z.of_nat k) = true) /\ (72 <= 80)%nat) /\
  detect_ud_action env_ud_hold 80 0 0 = Some (Some Reset, 0 + 710).
Proof.
  assert (forall k, (k <= 71)%nat -> both env_ud_hold BUp BDown (0 + 10 * Z.of_nat k) = true) as H1
    by (intros; reflexivity).
  assert (72 <= 80)%nat as H2 by lia.
  split; [split; [exact H1 | exact H2] | exact (detect_ud_action_long _ _ _ _ H1 H2)].
Defined.

Lemma detect_ud_action_short_witness :
  ((1 <= 3 <= 71)%nat /\
   (forall k, (k < 3)%nat -> both env_ud_tap BUp BDown (1000 + 10 * Z.of_nat k) = true) /\
   both env_ud_tap BUp BDown (1000 + 10 * Z.of_nat 3) = false /\ (72 <= 72)%nat) /\
  detect_ud_action env_ud_tap 72 0 1000 =
  Some (if 160 <? ticks_diff (ticks_ms 1000) 0 then Some Grab else None, 1000 + 10 * Z.of_nat 3).
Proof.
  assert (1 <= 3 <= 71)%nat as H1 by lia.
  assert (forall k, (k < 3)%nat -> both env_ud_tap BUp BDown (1000 + 10 * Z.of_nat k) = true) as H2.
  { intros k Hk. unfold both, env_ud_tap. by rewrite tap_before by lia. }
  assert (both env_ud_tap BUp BDown (1000 + 10 * Z.of_nat 3) = false) as H3 by reflexivity.
  assert (72 <= 72)%nat as H4 by lia.
  split; [refine (conj H1 (conj H2 (conj H3 H4))) | exact (detect_ud_action_short _ _ _ _ _ H1 H2 H3 H4)].
Defined.

Lemma detect_ud_action_hold_repeats_witness :
  ((forall t, 0 <= t -> both env_ud_hold BUp BDown t = true) /\ (72 <= 72)%nat /\ 0 <= 5000) /\
  (detect_ud_action env_ud_hold 72 0 5000 = Some (Some Reset, 5000 + 710) /\
   detect_ud_action env_ud_hold 72 (ticks_ms (5000 + 710)) (5000 + 830) = Some (Some Reset, 5000 + 1540)).
Proof.
  assert (forall t, 0 <= t -> both env_ud_hold BUp BDown t = true) as H1 by (intros; reflexivity).
  assert (72 <= 72)%nat as H2 by lia. assert (0 <= 5000) as H3 by lia.
  split; [exact (conj H1 (conj H2 H3)) | exact (detect_ud_action_hold_repeats _ _ _ _ _ H1 H2 H3)].
Defined.

Lemma detect_action_chords_long_witness :
  ((forall k, (k <= 71)%nat -> both env_ud_hold BUp BDown (0 + 10 * Z.of_nat k) = true) /\ (72 <= 72)%nat) /\
  detect_action_chords env_ud_hold 72 0 0 = Some (Some Restart, 0 + 710).
Proof.
  assert (forall k, (k <= 71)%nat -> both env_ud_hold BUp BDown (0 + 10 * Z.of_nat k) = true) as H1
    by (intros; reflexivity).
  assert (72 <= 72)%nat as H2 by lia.
  split; [exact (conj H1 H2) | exact (detect_action_chords_long _ _ _ _ H1 H2)].
Defined.

Lemma detect_action_chords_flag_witness :
  (both env_lr_tap BUp BDown 0 = false /\
   (forall k, (k < 5)%nat -> both env_lr_tap BLeft BRight (0 + 10 * Z.of_nat k) = true) /\
   both env_lr_tap BLeft BRight (0 + 10 * Z.of_nat 5) = false /\ (1 <= 5 < 10)%nat) /\
  detect_action_chords env_lr_tap 10 (-1000) 0 =
  Some (if 160 <? ticks_diff (ticks_ms 0) (-1000) then Some Flag else None, 0 + 10 * Z.of_nat 5).
Proof.
  assert (both env_lr_tap BUp BDown 0 = false) as H1 by reflexivity.
  assert (forall k, (k < 5)%nat -> both env_lr_tap BLeft BRight (0 + 10 * Z.of_nat k) = true) as H2.
  { intros k Hk. unfold both, env_lr_tap. by rewrite tap_before by lia. }
  assert (both env_lr_tap BLeft BRight (0 + 10 * Z.of_nat 5) = false) as H3 by reflexivity.
  assert (1 <= 5 < 10)%nat as H4 by lia.
  split; [exact (conj H1 (conj H2 (conj H3 H4))) | exact (detect_action_chords_flag _ _ _ _ _ H1 H2 H3 H4)].
Defined.

Lemma detect_action_chords_flag_blocks_witness :
  (both env_lr_hold BUp BDown 0 = false /\ (forall t, 0 <= t -> both env_lr_hold BLeft BRight t = true)) /\
  detect_action_chords env_lr_hold 1000 0 0 = None.
Proof.
  assert (both env_lr_hold BUp BDown 0 = false) as H1 by reflexivity.
  assert (forall t, 0 <= t -> both env_lr_hold BLeft BRight t = true) as H2 by (intros; reflexivity).
  split; [exact (conj H1 H2) | exact (detect_action_chords_flag_blocks _ _ _ _ H1 H2)].
Defined.

Lemma wait_released_returns_witness :
  ((forall k, (k < 3)%nat -> any_pressed (env_up_tap (0 + 10 * Z.of_nat k)) = true) /\
   any_pressed (env_up_tap (0 + 10 * Z.of_nat 3)) = false /\ (3 < 10)%nat) /\
  wait_released env_up_tap 70 10 0 = Some (0 + 10 * Z.of_nat 3 + 70).
Proof.
  assert (forall k, (k < 3)%nat -> any_pressed (env_up_tap (0 + 10 * Z.of_nat k)) = true) as H1.
  { intros k Hk. unfold env_up_tap. by rewrite tap_before by lia. }
  assert (any_pressed (env_up_tap (0 + 10 * Z.of_nat 3)) = false) as H2 by reflexivity.
  assert (3 < 10)%nat as H3 by lia.
  split; [exact (conj H1 (conj H2 H3)) | exact (wait_released_returns _ _ _ _ _ H1 H2 H3)].
Defined.

Lemma read_move_spaced_witness :
  (StronglySorted Z.le [0; 50; 130; 200; 260] /\
   Forall (fun t => 0 <= t < 0 + TICKS_PERIOD / 2) [0; 50; 130; 200; 260]) /\
  Sorted (fun a b => a + MOVE_COOLDOWN_MS <= b) (0 :: move_times env_up_hold (ticks_ms 0) [0; 50; 130; 200; 260]).
Proof.
  assert (StronglySorted Z.le [0; 50; 130; 200; 260]) as H1 by (repeat constructor; lia).
  assert (Forall (fun t => 0 <= t < 0 + TICKS_PERIOD / 2) [0; 50; 130; 200; 260]) as H2
    by (change (0 + TICKS_PERIOD / 2) with 536870912; repeat constructor; lia).
  split; [exact (conj H1 H2) | exact (read_move_spaced _ _ _ H1 H2)].
Defined.
