(* ===== verification/Grid.v ===== *)
(** * Grids: Python lists of lists indexed by row and column

    2048, Klotski and Minesweeper keep their boards as lists of rows
    ([[[0]*C for _ in range(R)]]) and read and write them as [b[r][c]].
    This file models that idiom once: [cell] is [b[r][c]] (Python raises
    out of range; the games only index in range, which [grid_shape] and the
    bounds of each lemma record), [set_cell] is [b[r][c] = v], and
    [fill_rect] is the double loop [for r in range(r0, r0 + h): for c in
    range(c0, c0 + w): b[r][c] = v] that Klotski uses.  The lemmas describe
    a grid by its cells, so that the games' invariants can be stated cell by
    cell. *)

From S2P Require Import Prelude.

(** [b[r][c]]. *)
Definition cell {A} `{Inhabited A} (b : list (list A)) (r c : nat) : A := (b !!! r) !!! c.

(** [b[r][c] = v]. *)
Definition set_cell {A} (b : list (list A)) (r c : nat) (v : A) : list (list A) :=
  alter (fun row => <[c := v]> row) r b.

(** [R] rows of [C] cells. *)
Definition grid_shape {A} (R C : nat) (b : list (list A)) : Prop :=
  length b = R /\ Forall (fun row => length row = C) b.

(** [for r in range(r0, r0 + h): for c in range(c0, c0 + w): b[r][c] = v]. *)
Definition fill_rect {A} (b : list (list A)) (r0 h c0 w : nat) (v : A) : list (list A) :=
  foldl (fun b r => foldl (fun b c => set_cell b r c v) b (seq c0 w)) b (seq r0 h).

(** The grid whose cell [(r, c)] is [f r c]. *)
Definition grid_of {A} (R C : nat) (f : nat -> nat -> A) : list (list A) :=
  map (fun r => map (fun c => f r c) (seq 0 C)) (seq 0 R).

Lemma lookup_total_map {X Y} `{Inhabited X, Inhabited Y} (f : X -> Y) l i :
  (i < length l)%nat -> map f l !!! i = f (l !!! i).
Proof.
  revert i. induction l as [|x l IH]; intros [|i] Hi; simpl in *; try lia; [done|]. apply IH. lia.
Qed.

Section Grid.
Context {A : Type} `{Inhabited A}.
Implicit Types b : list (list A).

Lemma lt_mid (pre l : list A) x : (pre ++ x :: l) !!! length pre = x.
Proof. rewrite list_lookup_total_alt, lookup_app_r, Nat.sub_diag by lia. done. Qed.

Lemma lt_mid1 (pre l : list A) x y : (pre ++ x :: y :: l) !!! S (length pre) = y.
Proof. rewrite list_lookup_total_alt, lookup_app_r by lia. by rewrite Nat.sub_succ_l, Nat.sub_diag by lia. Qed.

Lemma ins_mid (pre l : list A) x v : <[length pre := v]> (pre ++ x :: l) = pre ++ v :: l.
Proof. rewrite insert_app_r_alt, Nat.sub_diag by lia. done. Qed.

Lemma ins_mid1 (pre l : list A) x y v : <[S (length pre) := v]> (pre ++ x :: y :: l) = pre ++ x :: v :: l.
Proof. rewrite insert_app_r_alt by lia. by rewrite Nat.sub_succ_l, Nat.sub_diag by lia. Qed.

(** Two grids of the same shape are equal when their cells are. *)
Lemma grid_eq R C b1 b2 :
  grid_shape R C b1 -> grid_shape R C b2 ->
  (forall r c, (r < R)%nat -> (c < C)%nat -> cell b1 r c = cell b2 r c) -> b1 = b2.
Proof.
  intros [Hl1 Hr1] [Hl2 Hr2] Hc. apply list_eq_same_length with R; [done|done|].
  intros r row1 row2 Hr E1 E2. rewrite Forall_lookup in Hr1, Hr2.
  apply list_eq_same_length with C; [first [exact (Hr1 r row1 E1) | exact (Hr2 r row2 E2)]..|].
  intros c x1 x2 Hc' F1 F2. specialize (Hc r c Hr Hc'). unfold cell in Hc.
  rewrite !list_lookup_total_alt, E1, E2 in Hc. simpl in Hc. by rewrite F1, F2 in Hc; simplify_eq.
Qed.

Lemma cell_set_cell b r c v r' c' :
  (r < length b)%nat -> cell (set_cell b r c v) r' c' =
  if bool_decide (r = r' /\ c < length (b !!! r) /\ c = c')%nat then v else cell b r' c'.
Proof.
  intros Hr. unfold cell, set_cell. rewrite !list_lookup_total_alt, list_lookup_alter.
  destruct (decide (r = r')) as [<-|Hne].
  - destruct (lookup_lt_is_Some_2 b r Hr) as [row Er]. rewrite Er. simpl.
    destruct (decide (c = c')) as [<-|Hc].
    + destruct (decide (c < length row)%nat).
      * rewrite bool_decide_eq_true_2 by lia. by rewrite list_lookup_insert_eq.
      * rewrite bool_decide_eq_false_2 by lia. by rewrite list_insert_ge by lia.
    + rewrite bool_decide_eq_false_2 by lia. by rewrite list_lookup_insert_ne.
  - by rewrite bool_decide_eq_false_2 by lia.
Qed.

Lemma grid_shape_set_cell R C b r c v : grid_shape R C b -> grid_shape R C (set_cell b r c v).
Proof.
  intros [Hl Hr]. unfold set_cell. split; [by rewrite length_alter|].
  apply Forall_lookup. intros i row E. rewrite list_lookup_alter in E.
  destruct (decide (r = i)) as [<-|]; [|exact (Forall_lookup_1 _ _ _ _ Hr E)].
  destruct (b !! r) as [row0|] eqn:E0; [|done]. simpl in E. simplify_eq. rewrite length_insert.
  exact (Forall_lookup_1 _ _ _ _ Hr E0).
Qed.

Lemma grid_shape_row R C b r : grid_shape R C b -> (r < R)%nat -> length (b !!! r) = C.
Proof.
  intros [Hl Hr] Hr'. destruct (lookup_lt_is_Some_2 b r ltac:(lia)) as [row E].
  rewrite list_lookup_total_alt, E. exact (Forall_lookup_1 _ _ _ _ Hr E).
Qed.

(** Inside the grid, [set_cell] changes exactly the cell it names. *)
Lemma cell_set_cell_in R C b r c v r' c' :
  grid_shape R C b -> (r < R)%nat -> (c < C)%nat ->
  cell (set_cell b r c v) r' c' = if bool_decide (r = r' /\ c = c') then v else cell b r' c'.
Proof.
  intros Hs Hr Hc. rewrite cell_set_cell by (destruct Hs; lia). rewrite (grid_shape_row R C) by done.
  do 2 case_bool_decide; try done; exfalso; naive_solver lia.
Qed.

Lemma cell_grid_of R C (f : nat -> nat -> A) r c :
  (r < R)%nat -> (c < C)%nat -> cell (grid_of R C f) r c = f r c.
Proof.
  intros Hr Hc. unfold cell, grid_of.
  rewrite lookup_total_map, lookup_total_seq_lt by (rewrite ?length_seq; lia). simpl.
  rewrite lookup_total_map, lookup_total_seq_lt by (rewrite ?length_seq; lia). done.
Qed.

Lemma grid_shape_grid_of R C (f : nat -> nat -> A) : grid_shape R C (grid_of R C f).
Proof.
  unfold grid_of. split; [by rewrite length_map, length_seq|]. apply Forall_forall.
  intros row Hrow. apply list_elem_of_In, in_map_iff in Hrow as (r & <- & _). by rewrite length_map, length_seq.
Qed.

Lemma fill_row R C b r cs v :
  grid_shape R C b -> (r < R)%nat -> Forall (fun c => c < C)%nat cs ->
  grid_shape R C (foldl (fun b c => set_cell b r c v) b cs) /\
  forall r' c', cell (foldl (fun b c => set_cell b r c v) b cs) r' c' =
    if bool_decide (r = r' /\ c' ∈ cs) then v else cell b r' c'.
Proof.
  revert b. induction cs as [|c cs IH]; intros b Hs Hr Hcs.
  { split; [done|]. intros r' c'. rewrite bool_decide_eq_false_2; [done|]. intros [_ Hin]. by apply not_elem_of_nil in Hin. }
  apply Forall_cons in Hcs as [Hc Hcs]. cbn [foldl].
  destruct (IH (set_cell b r c v)) as [Hs' Hcell]; [by apply grid_shape_set_cell|done|done|].
  split; [done|]. intros r' c'. rewrite Hcell, (cell_set_cell_in R C) by done.
  repeat case_bool_decide; try done; exfalso; rewrite ?elem_of_cons in *; naive_solver.
Qed.

(** [fill_rect] writes [v] into the rectangle and nothing else. *)
Lemma fill_rect_spec R C b r0 h c0 w v :
  grid_shape R C b -> (r0 + h <= R)%nat -> (c0 + w <= C)%nat ->
  grid_shape R C (fill_rect b r0 h c0 w v) /\
  forall r c, cell (fill_rect b r0 h c0 w v) r c =
    if bool_decide (r0 <= r < r0 + h /\ c0 <= c < c0 + w)%nat then v else cell b r c.
Proof.
  intros Hs Hh Hw. unfold fill_rect.
  assert (Forall (fun c => c < C)%nat (seq c0 w)) as Hcs.
  { apply Forall_forall. intros c Hc. apply elem_of_seq in Hc. lia. }
  assert (forall rs, Forall (fun r => r < R)%nat rs -> forall b, grid_shape R C b ->
    grid_shape R C (foldl (fun b r => foldl (fun b c => set_cell b r c v) b (seq c0 w)) b rs) /\
    forall r c, cell (foldl (fun b r => foldl (fun b c => set_cell b r c v) b (seq c0 w)) b rs) r c =
      if bool_decide (r ∈ rs /\ c ∈ seq c0 w) then v else cell b r c) as Hrows.
  { induction rs as [|r rs IH]; intros Hrs b' Hs'.
    { split; [done|]. intros r c. rewrite bool_decide_eq_false_2; [done|]. intros [Hin _]. by apply not_elem_of_nil in Hin. }
    apply Forall_cons in Hrs as [Hr Hrs]. cbn [foldl].
    destruct (fill_row R C b' r (seq c0 w) v) as [Hs1 Hc1]; [done|done|done|].
    destruct (IH Hrs _ Hs1) as [Hs2 Hc2]. split; [done|]. intros r' c'. rewrite Hc2, Hc1.
    repeat case_bool_decide; try done; exfalso; rewrite ?elem_of_cons in *; naive_solver. }
  destruct (Hrows (seq r0 h)) with b as [Hs' Hc]; [|done|].
  { apply Forall_forall. intros r Hr. apply elem_of_seq in Hr. lia. }
  split; [done|]. intros r c. rewrite Hc. repeat case_bool_decide; try done; exfalso; rewrite ?elem_of_seq in *; naive_solver lia.
Qed.
End Grid.
