(* ===== verification/Game2048.v ===== *)
(** * 2048: the game logic of [src/2048.py]

    The board is the list of four rows of four integers that the program
    mutates; each operation of the source (lines 173-284) is a function
    from the board to the new board and the values the source returns.
    Python's list indexing is [!!!] (the lists are always 4 x 4, see
    [board_wf]); the random choices of [add_tile] are an argument: the
    index that [random.randint(0, len(cells) - 1)] returned and whether
    [random.random() < 0.10] held.  [tick] is one turn of the inner loop of
    [main()] (lines 408-442), from the edges [EdgeButtons.update] returned
    (see [Input]) to the screens it shows. *)

From stdpp Require Import numbers.
From S2P Require Import Prelude Grid.

Module Game2048.

Definition SIZE : nat := 4.

Abbreviation Board := (list (list Z)).


(** [[[0]*SIZE for _ in range(SIZE)]]. *)
Definition empty_board : Board := replicate SIZE (replicate SIZE 0).

(** [empty_cells(b)]: the empty cells in row-major order. *)
Definition empty_cells (b : Board) : list (nat * nat) :=
  flat_map (fun r => map (fun c => (r, c)) (filter (fun c => cell b r c = 0) (seq 0 SIZE))) (seq 0 SIZE).

(** The outcome of the two random calls of [add_tile]. *)
Record draw := mkDraw { d_index : nat; d_four : bool }.

(** [add_tile(b)]: [False] on a full board, else a 2 (or a 4, one time in
    ten) on the chosen empty cell.  The index is [randint]'s, within range
    by its contract; an index out of range leaves the board as it is. *)
Definition add_tile (b : Board) (d : draw) : Board * bool :=
  let cells := empty_cells b in
  match cells with
  | [] => (b, false)
  | _ =>
      match cells !! d_index d with
      | Some (r, c) => (set_cell b r c (if d_four d then 4 else 2), true)
      | None => (b, true)
      end
  end.

(** [new_board()]. *)
Definition new_board (d1 d2 : draw) : Board := (add_tile (add_tile empty_board d1).1 d2).1.

(** [compress_line(line)]. *)
Definition compress_line (line : list Z) : list Z :=
  let out := filter (fun v => v <> 0) line in
  out ++ replicate (SIZE - length out) 0.

(** One turn [i] of the loop of [merge_line]. *)
Definition merge_step (acc : list Z * Z) (i : nat) : list Z * Z :=
  let '(line, score_add) := acc in
  if bool_decide (line !!! i <> 0) && bool_decide (line !!! i = line !!! S i) then
    let v := line !!! i * 2 in
    (<[S i := 0]> (<[i := v]> line), score_add + v)
  else (line, score_add).

(** [merge_line(line)]. *)
Definition merge_line (line : list Z) : list Z * Z := foldl merge_step (line, 0) (seq 0 (SIZE - 1)).

(** The body shared by the four moves: compress, merge, compress. *)
Definition slide (line : list Z) : list Z * Z :=
  let '(line, s) := merge_line (compress_line line) in (compress_line line, s).

(** [move_left(b)] and [move_right(b)]: one turn per row; [moved] is set
    when the new row differs from the old one. *)
Definition move_row (rev : bool) (acc : Board * bool * Z) (r : nat) : Board * bool * Z :=
  let '(b, moved, score_add) := acc in
  let row := b !!! r in
  let '(line, s) := slide (if rev then reverse row else row) in
  let line := if rev then reverse line else line in
  if bool_decide (line <> row) then (<[r := line]> b, true, score_add + s)
  else (b, moved, score_add + s).

Definition move_left (b : Board) : Board * bool * Z := foldl (move_row false) (b, false, 0) (seq 0 SIZE).
Definition move_right (b : Board) : Board * bool * Z := foldl (move_row true) (b, false, 0) (seq 0 SIZE).

(** [move_up(b)] and [move_down(b)]: one turn per column, writing every
    cell of the column back. *)
Definition write_col (c : nat) (col : list Z) (acc : Board * bool) (r : nat) : Board * bool :=
  let '(b, moved) := acc in
  (set_cell b r c (col !!! r), moved || bool_decide (cell b r c <> col !!! r)).

Definition move_col (rev : bool) (acc : Board * bool * Z) (c : nat) : Board * bool * Z :=
  let '(b, moved, score_add) := acc in
  let col := map (fun r => cell b r c) (seq 0 SIZE) in
  let '(col', s) := slide (if rev then reverse col else col) in
  let col' := if rev then reverse col' else col' in
  let '(b', moved') := foldl (write_col c col') (b, moved) (seq 0 SIZE) in
  (b', moved', score_add + s).

Definition move_up (b : Board) : Board * bool * Z := foldl (move_col false) (b, false, 0) (seq 0 SIZE).
Definition move_down (b : Board) : Board * bool * Z := foldl (move_col true) (b, false, 0) (seq 0 SIZE).

(** [any_moves(b)]. *)
Definition any_moves (b : Board) : bool :=
  negb (bool_decide (empty_cells b = [])) ||
  existsb (fun r => existsb (fun c => bool_decide (cell b r c = cell b r (S c))) (seq 0 (SIZE - 1))) (seq 0 SIZE) ||
  existsb (fun c => existsb (fun r => bool_decide (cell b r c = cell b (S r) c)) (seq 0 (SIZE - 1))) (seq 0 SIZE).

(** [max_tile(b)]. *)
Definition max_tile (b : Board) : Z := foldl (fun m r => foldl (fun m v => if m <? v then v else m) m r) 0 b.

(** ** One turn of [main()] *)

Inductive dir := DLeft | DRight | DUp | DDown.

Definition do_move (d : dir) (b : Board) : Board * bool * Z :=
  match d with
  | DLeft => move_left b | DRight => move_right b | DUp => move_up b | DDown => move_down b
  end.

(** [if pl: ... elif pr: ... elif pu: ... elif pd: ...]. *)
Definition pick_dir (e : bool * bool * bool * bool) : option dir :=
  let '(pu, pd, pl, pr) := e in
  if pl then Some DLeft else if pr then Some DRight else if pu then Some DUp
  else if pd then Some DDown else None.

(** The variables of [main()]'s loop. *)
Record game := mkGame { board : Board; score : Z; best_score : Z; won : bool }.

(** The screens a turn shows besides the board: [win_screen(score)] and
    [game_over_screen(score, best_score)]. *)
Inductive screen := WinScreen (s : Z) | GameOverScreen (s best : Z).

(** One turn of the inner loop, from the edges of this turn and the random
    draw [add_tile] uses. *)
Definition tick (g : game) (e : bool * bool * bool * bool) (d : draw) : game * list screen :=
  match pick_dir e with
  | None => (g, [])
  | Some dr =>
      let '(b, moved, add) := do_move dr (board g) in
      if moved then
        let sc := score g + add in
        let best := if best_score g <? sc then sc else best_score g in
        let b := (add_tile b d).1 in
        let win := negb (won g) && (2048 <=? max_tile b) in
        (mkGame b sc best (won g || win),
         (if win then [WinScreen sc] else []) ++
         (if any_moves b then [] else [GameOverScreen sc best]))
      else (mkGame b (score g) (best_score g) (won g), [])
  end.

(** A new game: [board = new_board(); score = 0; won = False]. *)
Definition new_game (best : Z) (d1 d2 : draw) : game := mkGame (new_board d1 d2) 0 best false.

(** ** Reference definitions *)

(** The loop of [merge_line] as a recursion over the line: a merge zeroes
    the next cell, so the next turn skips it. *)
Fixpoint merge_pairs (l : list Z) : list Z * Z :=
  match l with
  | x :: ((y :: t) as l') =>
      if bool_decide (x <> 0) && bool_decide (x = y) then
        let '(t', s) := merge_pairs t in (x * 2 :: 0 :: t', x * 2 + s)
      else let '(t', s) := merge_pairs l' in (x :: t', s)
  | _ => (l, 0)
  end.

(** The 2048 rule on the tiles of a line, first to last: two equal
    neighbours merge into one tile of twice the value, and a merged tile
    does not merge again; the score is the sum of the merged tiles. *)
Fixpoint slide_ref (l : list Z) : list Z * Z :=
  match l with
  | x :: ((y :: t) as l') =>
      if bool_decide (x = y) then let '(t', s) := slide_ref t in (x * 2 :: t', x * 2 + s)
      else let '(t', s) := slide_ref l' in (x :: t', s)
  | _ => (l, 0)
  end.

Definition pad (l : list Z) : list Z := l ++ replicate (SIZE - length l) 0.

(** Tiles: empty, or a power of two from 2 on. *)
Definition tile_ok (v : Z) : Prop := v = 0 \/ exists k, 1 <= k /\ v = 2 ^ k.


Definition total (b : Board) : Z := zsum (map zsum b).

(** Column [c]: [[b[r][c] for r in range(SIZE)]]. *)
Definition column (b : Board) (c : nat) : list Z := map (fun r => cell b r c) (seq 0 SIZE).

Definition transpose (b : Board) : Board := map (column b) (seq 0 SIZE).

(** Four rows of four cells. *)
Abbreviation shape := (grid_shape SIZE SIZE).

(** The invariant of the board: four rows of four tiles. *)
Definition board_wf (b : Board) : Prop := shape b /\ Forall (Forall tile_ok) b.

(** ** The merge loop *)





Lemma merge_pairs_cons2 x y t :
  merge_pairs (x :: y :: t) =
  if bool_decide (x <> 0) && bool_decide (x = y) then
    let '(t', s) := merge_pairs t in (x * 2 :: 0 :: t', x * 2 + s)
  else let '(t', s) := merge_pairs (y :: t) in (x :: t', s).
Proof. reflexivity. Qed.

Lemma slide_ref_cons2 x y t :
  slide_ref (x :: y :: t) =
  if bool_decide (x = y) then let '(t', s) := slide_ref t in (x * 2 :: t', x * 2 + s)
  else let '(t', s) := slide_ref (y :: t) in (x :: t', s).
Proof. reflexivity. Qed.

Lemma merge_skip_zero pre l s :
  foldl merge_step (pre ++ 0 :: l, s) (seq (length pre) (length l)) =
  foldl merge_step ((pre ++ [0]) ++ l, s) (seq (length (pre ++ [0])) (length l - 1)).
Proof.
  rewrite <- app_assoc, length_app, Nat.add_comm. destruct l as [|z l]; [done|].
  cbn [length seq foldl]. unfold merge_step at 2. rewrite lt_mid. simpl. by rewrite Nat.sub_0_r.
Qed.

(** The loop of [merge_line] over a line computes [merge_pairs], whatever
    the cells before it. *)
Lemma merge_loop n pre l s :
  (length l <= n)%nat ->
  foldl merge_step (pre ++ l, s) (seq (length pre) (length l - 1)) =
  (pre ++ (merge_pairs l).1, s + (merge_pairs l).2).
Proof.
  revert pre l s. induction n as [|n IH]; intros pre l s Hl.
  { destruct l; [|simpl in Hl; lia]. simpl. by rewrite Z.add_0_r. }
  destruct l as [|x [|y t]]; [simpl; by rewrite Z.add_0_r..|].
  cbn [length]. replace (S (S (length t)) - 1)%nat with (S (length t)) by lia.
  cbn [seq foldl]. unfold merge_step at 2. rewrite lt_mid, lt_mid1, merge_pairs_cons2.
  destruct (bool_decide (x <> 0) && bool_decide (x = y)).
  - rewrite ins_mid, ins_mid1. change (x * 2 :: 0 :: t) with ([x * 2] ++ 0 :: t).
    rewrite app_assoc. replace (S (length pre)) with (length (pre ++ [x * 2])) by (rewrite length_app; simpl; lia).
    rewrite merge_skip_zero, IH by (simpl in Hl; lia).
    destruct (merge_pairs t) as [t' st]. simpl. rewrite <- !app_assoc. f_equal. lia.
  - change (x :: y :: t) with ([x] ++ y :: t). rewrite app_assoc.
    replace (S (length pre)) with (length (pre ++ [x])) by (rewrite length_app; simpl; lia).
    replace (length t) with (length (y :: t) - 1)%nat at 1 by (simpl; lia). rewrite IH by (simpl in *; lia).
    destruct (merge_pairs (y :: t)) as [t' st]. simpl. by rewrite <- app_assoc.
Qed.

Lemma merge_line_pairs l : length l = SIZE -> merge_line l = merge_pairs l.
Proof.
  intros Hl. unfold merge_line. rewrite <- Hl.
  pose proof (merge_loop (length l) [] l 0 (le_n _)) as H. cbn [app length] in H. rewrite H.
  by destruct (merge_pairs l).
Qed.

(** ** Compress, merge, compress *)

Lemma Forall_filter_nz l : Forall (fun v => v <> 0) (filter (fun v => v <> 0) l).
Proof. apply Forall_forall. intros x Hx. by apply list_elem_of_filter in Hx as [? _]. Qed.

Lemma filter_nz_zeros k : filter (fun v : Z => v <> 0) (replicate k 0) = [].
Proof. induction k as [|k IH]; [done|]. simpl. rewrite filter_cons_False; auto. Qed.

Lemma merge_pairs_zeros k : merge_pairs (replicate k 0) = (replicate k 0, 0).
Proof.
  induction k as [|[|k] IH]; [done|done|]. change (replicate (S (S k)) 0) with (0 :: 0 :: replicate k 0).
  rewrite merge_pairs_cons2. rewrite bool_decide_eq_false_2 by lia. cbn [andb].
  change (0 :: replicate k 0) with (replicate (S k) 0). by rewrite IH.
Qed.

(** Zeros after the last tile do not take part in merging. *)
Lemma merge_pairs_app_zeros n nz k :
  (length nz <= n)%nat -> Forall (fun v => v <> 0) nz ->
  merge_pairs (nz ++ replicate k 0) = ((merge_pairs nz).1 ++ replicate k 0, (merge_pairs nz).2).
Proof.
  revert nz. induction n as [|n IH]; intros nz Hl Hnz.
  { destruct nz; [|simpl in Hl; lia]. apply merge_pairs_zeros. }
  destruct nz as [|x [|y t]].
  - apply merge_pairs_zeros.
  - inversion Hnz. destruct k as [|k]; [done|]. change ([x] ++ replicate (S k) 0) with (x :: 0 :: replicate k 0).
    rewrite merge_pairs_cons2, (bool_decide_eq_false_2 (x = 0)) by done. rewrite andb_false_r.
    change (0 :: replicate k 0) with (replicate (S k) 0). by rewrite merge_pairs_zeros.
  - inversion Hnz as [|? ? Hx Hyt]. inversion Hyt as [|? ? Hy Ht]. simpl in Hl.
    cbn [app]. rewrite !merge_pairs_cons2. destruct (bool_decide (x <> 0) && bool_decide (x = y)).
    + rewrite (IH t) by (done || lia). by destruct (merge_pairs t).
    + change (y :: t ++ replicate k 0) with ((y :: t) ++ replicate k 0).
      rewrite (IH (y :: t)) by (simpl; done || lia). by destruct (merge_pairs (y :: t)).
Qed.

(** On tiles alone, the loop's merging is the 2048 rule. *)
Lemma merge_pairs_ref n nz :
  (length nz <= n)%nat -> Forall (fun v => v <> 0) nz ->
  filter (fun v => v <> 0) (merge_pairs nz).1 = (slide_ref nz).1 /\ (merge_pairs nz).2 = (slide_ref nz).2.
Proof.
  revert nz. induction n as [|n IH]; intros nz Hl Hnz.
  { destruct nz; [done|simpl in Hl; lia]. }
  destruct nz as [|x [|y t]]; [done|inversion Hnz; simpl; by rewrite filter_cons_True|].
  inversion Hnz as [|? ? Hx Hyt]. inversion Hyt as [|? ? Hy Ht]. simpl in Hl.
  rewrite merge_pairs_cons2, slide_ref_cons2, (bool_decide_eq_true_2 (x <> 0)) by done. cbn [andb].
  destruct (bool_decide (x = y)).
  - destruct (IH t) as [E1 E2]; [lia|done|]. destruct (merge_pairs t), (slide_ref t). simpl in *.
    rewrite filter_cons_True, filter_cons_False by lia. by rewrite E1, E2.
  - destruct (IH (y :: t)) as [E1 E2]; [simpl; lia|done|].
    destruct (merge_pairs (y :: t)), (slide_ref (y :: t)). simpl in *.
    rewrite filter_cons_True by done. by rewrite E1, E2.
Qed.

Lemma slide_ref_eq l :
  length l = SIZE ->
  slide l = (pad (slide_ref (filter (fun v => v <> 0) l)).1, (slide_ref (filter (fun v => v <> 0) l)).2).
Proof.
  intros Hl. unfold slide. set (nz := filter _ l).
  assert (length nz <= SIZE)%nat by (rewrite <- Hl; apply length_filter).
  change (compress_line l) with (nz ++ replicate (SIZE - length nz) 0).
  rewrite merge_line_pairs by (rewrite length_app, length_replicate; lia).
  rewrite (merge_pairs_app_zeros (length nz)) by (done || apply Forall_filter_nz).
  destruct (merge_pairs_ref (length nz) nz) as [E1 E2]; [done|apply Forall_filter_nz|].
  cbv beta iota. unfold compress_line. rewrite filter_app, filter_nz_zeros, app_nil_r, E1, E2. reflexivity.
Qed.

(** C22: [compress_line], [merge_line], [compress_line] is the 2048 rule: on a
    line of four cells, the body of every move puts first, in order, the
    tiles of the line with each pair of equal neighbouring tiles merged
    once, left to right (a merged tile does not merge again), pads with
    empty cells, and scores the sum of the merged tiles. *)
Theorem slide_spec l :
  length l = SIZE ->
  slide l = (pad (slide_ref (filter (fun v => v <> 0) l)).1, (slide_ref (filter (fun v => v <> 0) l)).2).
Proof. apply slide_ref_eq. Qed.

(** ** Rows *)

(** What [move_left] ([rev = false]) and [move_right] ([rev = true]) make
    of one row, and the score of the row. *)
Definition row_result (rev : bool) (row : list Z) : list Z :=
  if rev then reverse (slide (reverse row)).1 else (slide row).1.
Definition row_score (rev : bool) (row : list Z) : Z :=
  if rev then (slide (reverse row)).2 else (slide row).2.

Lemma existsb_changed {A} `{EqDecision A} (f : A -> A) l :
  existsb (fun r => bool_decide (f r <> r)) l = bool_decide (map f l <> l).
Proof.
  induction l as [|r l IH]; [done|]. simpl. rewrite IH.
  destruct (decide (f r = r)) as [E|E].
  - rewrite bool_decide_eq_false_2 by tauto. simpl. apply bool_decide_ext. rewrite E.
    split; intros H1 H2; apply H1; [by injection H2|by rewrite H2].
  - rewrite bool_decide_eq_true_2 by done. symmetry. apply bool_decide_eq_true_2. intros [=]. done.
Qed.

Lemma move_rows rev rest pre m s :
  foldl (move_row rev) (pre ++ rest, m, s) (seq (length pre) (length rest)) =
  (pre ++ map (row_result rev) rest,
   m || existsb (fun r => bool_decide (row_result rev r <> r)) rest,
   s + zsum (map (row_score rev) rest)).
Proof.
  revert pre m s. induction rest as [|r rest IH]; intros pre m s.
  { simpl. by rewrite app_nil_r, orb_false_r, Z.add_0_r. }
  cbn [length seq foldl]. unfold move_row at 2. rewrite lt_mid.
  replace (S (length pre)) with (length (pre ++ [row_result rev r])) by (rewrite length_app; simpl; lia).

  destruct (slide (if rev then reverse r else r)) as [line sc] eqn:Es.
  assert ((if rev then reverse line else line) = row_result rev r) as Er
    by (unfold row_result; destruct rev; by rewrite Es).
  assert (sc = row_score rev r) as Ec by (unfold row_score; destruct rev; by rewrite Es).
  rewrite Er, Ec. case_bool_decide as Hc.
  - rewrite ins_mid. change (pre ++ row_result rev r :: rest) with (pre ++ [row_result rev r] ++ rest).
    rewrite app_assoc, IH, <- app_assoc. cbn [app map existsb]. rewrite zsum_cons.
    rewrite (bool_decide_eq_true_2 _ Hc). cbn [orb]. rewrite orb_true_r. f_equal. lia.
  - assert (row_result rev r = r) as Eq by (destruct (decide (row_result rev r = r)); tauto).
    replace (length (pre ++ [row_result rev r])) with (length (pre ++ [r])) by (by rewrite Eq).
    change (pre ++ r :: rest) with (pre ++ [r] ++ rest). rewrite app_assoc, IH, <- app_assoc.
    cbn [app map existsb]. rewrite zsum_cons, (bool_decide_eq_false_2 (row_result rev r <> r)) by tauto.
    cbn [orb]. rewrite Eq. f_equal. lia.
Qed.

(** [move_left] and [move_right] replace every row by its result. *)
Lemma move_row_all rev b :
  length b = SIZE ->
  foldl (move_row rev) (b, false, 0) (seq 0 SIZE) =
  (map (row_result rev) b, bool_decide (map (row_result rev) b <> b), zsum (map (row_score rev) b)).
Proof.
  intros Hb. rewrite <- Hb. pose proof (move_rows rev b [] false 0) as H. cbn [app length] in H.
  by rewrite H, existsb_changed.
Qed.

(** ** Boards by their cells *)





(** The inner loop of [move_up]/[move_down] writes the column back cell by
    cell and notes whether a cell changed. *)
Lemma write_col_loop c col rs b m :
  (c < SIZE)%nat -> NoDup rs -> Forall (fun r => r < SIZE)%nat rs -> shape b ->
  shape (foldl (write_col c col) (b, m) rs).1 /\
  (forall r c', (r < SIZE)%nat -> (c' < SIZE)%nat ->
     cell (foldl (write_col c col) (b, m) rs).1 r c' =
     if bool_decide (c' = c /\ r ∈ rs) then col !!! r else cell b r c') /\
  (foldl (write_col c col) (b, m) rs).2 = m || existsb (fun r => bool_decide (cell b r c <> col !!! r)) rs.
Proof.
  revert b m. induction rs as [|r0 rs IH]; intros b m Hc Hnd Hrs Hs.
  { simpl. split_and!; [done| |by rewrite orb_false_r]. intros r c' _ _.
    rewrite bool_decide_eq_false_2; [done|]. intros [_ H]. by apply not_elem_of_nil in H. }
  apply NoDup_cons in Hnd as [Hn Hnd]. apply Forall_cons in Hrs as [Hr0 Hrs].
  cbn [foldl].
  change (write_col c col (b, m) r0) with (set_cell b r0 c (col !!! r0), m || bool_decide (cell b r0 c <> col !!! r0)).
  pose proof (proj1 Hs) as Hlen.
  destruct (IH (set_cell b r0 c (col !!! r0)) (m || bool_decide (cell b r0 c <> col !!! r0)))
    as (Hs1 & Hc1 & Hm1); [done|done|done|by apply grid_shape_set_cell|].
  split_and!; [done| |].
  - intros r c' Hr Hc'. rewrite Hc1 by done. rewrite cell_set_cell, ((grid_shape_row SIZE SIZE) b r0) by (done || lia).
    destruct (decide (c' = c)) as [->|Hcc]; [destruct (decide (r = r0)) as [->|Hrr]|].
    + rewrite (bool_decide_eq_false_2 (c = c /\ r0 ∈ rs)) by tauto.
      rewrite !bool_decide_eq_true_2 by (rewrite ?elem_of_cons; auto with lia). done.
    + rewrite (bool_decide_eq_false_2 (r0 = r /\ _)) by lia.
      erewrite (bool_decide_ext _ (c = c /\ r ∈ r0 :: rs)); [done|]. rewrite elem_of_cons. tauto.
    + rewrite !bool_decide_eq_false_2 by (intuition lia). done.
  - rewrite Hm1. cbn [existsb]. rewrite orb_assoc. f_equal. apply existsb_ext_elem.
    intros r Hr. rewrite cell_set_cell by lia. rewrite (bool_decide_eq_false_2 (r0 = r /\ _)); [done|].
    intros (-> & _). done.
Qed.

(** ** Columns *)

Lemma slide_ref_length l : (length (slide_ref l).1 <= length l)%nat.
Proof.
  induction l as [l IH] using (induction_ltof1 _ (@length Z)). unfold ltof in IH.
  destruct l as [|x [|y t]]; [done|done|]. rewrite slide_ref_cons2. destruct (bool_decide (x = y)).
  - pose proof (IH t ltac:(simpl; lia)). destruct (slide_ref t). simpl in *. lia.
  - pose proof (IH (y :: t) ltac:(simpl; lia)). destruct (slide_ref (y :: t)). simpl in *. lia.
Qed.

Lemma length_pad l : (length l <= SIZE)%nat -> length (pad l) = SIZE.
Proof. intros H. unfold pad. rewrite length_app, length_replicate. lia. Qed.

Lemma slide_length l : length l = SIZE -> length (slide l).1 = SIZE.
Proof.
  intros Hl. rewrite slide_ref_eq by done. simpl. apply length_pad.
  etransitivity; [apply slide_ref_length|]. rewrite <- Hl. apply length_filter.
Qed.

Lemma row_result_length rev row : length row = SIZE -> length (row_result rev row) = SIZE.
Proof.
  intros Hl. unfold row_result. destruct rev; [rewrite length_reverse|]; apply slide_length;
    [rewrite length_reverse|]; done.
Qed.

Lemma length_column b c : length (column b c) = SIZE.
Proof. unfold column. by rewrite length_map, length_seq. Qed.

Lemma column_lookup b c r : (r < SIZE)%nat -> column b c !!! r = cell b r c.
Proof.
  intros Hr. unfold column. rewrite list_lookup_total_alt, list_lookup_fmap, lookup_seq_lt by done. done.
Qed.

Lemma existsb_diff (l1 l2 : list Z) :
  length l1 = SIZE -> length l2 = SIZE ->
  existsb (fun r => bool_decide (l1 !!! r <> l2 !!! r)) (seq 0 SIZE) = bool_decide (l1 <> l2).
Proof.
  intros H1 H2. destruct (existsb _ _) eqn:E.
  - apply existsb_exists in E as (r & _ & Hd). apply bool_decide_eq_true in Hd.
    symmetry. apply bool_decide_eq_true_2. intros ->. by apply Hd.
  - symmetry. apply bool_decide_eq_false_2. intros Hne. apply Hne.
    apply list_eq_same_length with SIZE; [done|done|]. intros r x1 x2 Hr E1 E2.
    assert (bool_decide (l1 !!! r <> l2 !!! r) = false) as Hd.
    { apply not_true_iff_false. intros Hd. apply not_true_iff_false in E. apply E.
      apply existsb_exists. exists r. split; [apply in_seq; lia|done]. }
    apply bool_decide_eq_false in Hd. rewrite !list_lookup_total_alt, E1, E2 in Hd. simpl in Hd.
    destruct (decide (x1 = x2)); [done|tauto].
Qed.

Lemma column_ext b1 b2 c : (forall r, (r < SIZE)%nat -> cell b1 r c = cell b2 r c) -> column b1 c = column b2 c.
Proof. intros H. unfold column. apply map_ext_in. intros r Hr. apply in_seq in Hr. apply H. lia. Qed.

Lemma Forall_seq_lt n : Forall (fun r => r < n)%nat (seq 0 n).
Proof. apply Forall_forall. intros r Hr. apply elem_of_seq in Hr. lia. Qed.

(** One turn of the column loop replaces column [c] by its result. *)
Lemma move_col_step rev b m s c :
  (c < SIZE)%nat -> shape b ->
  shape (move_col rev (b, m, s) c).1.1 /\
  (forall r c', (r < SIZE)%nat -> (c' < SIZE)%nat ->
     cell (move_col rev (b, m, s) c).1.1 r c' =
     if bool_decide (c' = c) then row_result rev (column b c) !!! r else cell b r c') /\
  (move_col rev (b, m, s) c).1.2 = m || bool_decide (row_result rev (column b c) <> column b c) /\
  (move_col rev (b, m, s) c).2 = s + row_score rev (column b c).
Proof.
  intros Hc Hs. unfold move_col. change (map (fun r => cell b r c) (seq 0 SIZE)) with (column b c).
  destruct (slide (if rev then reverse (column b c) else column b c)) as [col' sc] eqn:Es.
  assert ((if rev then reverse col' else col') = row_result rev (column b c)) as Er
    by (unfold row_result; destruct rev; by rewrite Es).
  assert (sc = row_score rev (column b c)) as Ec by (unfold row_score; destruct rev; by rewrite Es).
  rewrite Er. destruct (write_col_loop c (row_result rev (column b c)) (seq 0 SIZE) b m)
    as (Hs1 & Hc1 & Hm1); [done|apply NoDup_seq|apply Forall_seq_lt|done|].
  destruct (foldl (write_col c _) (b, m) (seq 0 SIZE)) as [b' m']. cbn [fst snd] in *.
  split_and!; [done| | |by rewrite Ec].
  - intros r c' Hr Hc'. rewrite Hc1 by done.
    erewrite (bool_decide_ext _ (c' = c)); [done|]. rewrite elem_of_seq. lia.
  - rewrite Hm1. f_equal. rewrite (existsb_ext_elem _ (fun r => bool_decide (column b c !!! r <> row_result rev (column b c) !!! r))).
    + rewrite existsb_diff by first [apply length_column | apply row_result_length, length_column].
      apply bool_decide_ext. split; intros H E; apply H; by rewrite E.
    + intros r Hr. apply elem_of_seq in Hr. by rewrite column_lookup by lia.
Qed.

(** The column loop over distinct columns [cs] replaces each of them by its
    result, computed on the board before the loop. *)
Lemma move_cols rev cs b m s :
  NoDup cs -> Forall (fun c => c < SIZE)%nat cs -> shape b ->
  shape (foldl (move_col rev) (b, m, s) cs).1.1 /\
  (forall r c, (r < SIZE)%nat -> (c < SIZE)%nat ->
     cell (foldl (move_col rev) (b, m, s) cs).1.1 r c =
     if bool_decide (c ∈ cs) then row_result rev (column b c) !!! r else cell b r c) /\
  (foldl (move_col rev) (b, m, s) cs).1.2 =
    m || existsb (fun c => bool_decide (row_result rev (column b c) <> column b c)) cs /\
  (foldl (move_col rev) (b, m, s) cs).2 = s + zsum (map (fun c => row_score rev (column b c)) cs).
Proof.
  revert b m s. induction cs as [|c0 cs IH]; intros b m s Hnd Hcs Hs.
  { cbn [foldl fst snd existsb map zsum foldr]. split_and!; [done| |by rewrite orb_false_r|by rewrite Z.add_0_r].
    intros r c _ _. rewrite bool_decide_eq_false_2; [done|]. apply not_elem_of_nil. }
  apply NoDup_cons in Hnd as [Hn Hnd]. apply Forall_cons in Hcs as [Hc0 Hcs]. cbn [foldl].
  destruct (move_col_step rev b m s c0) as (Hs1 & Hc1 & Hm1 & Hsc1); [done|done|].
  destruct (move_col rev (b, m, s) c0) as [[b1 m1] s1]. cbn [fst snd] in *.
  assert (forall c, c ∈ cs -> column b1 c = column b c) as Hcol.
  { intros c Hc. assert (c < SIZE)%nat by (rewrite Forall_forall in Hcs; by apply Hcs).
    apply column_ext. intros r Hr. rewrite Hc1 by done.
    rewrite bool_decide_eq_false_2; [done|]. intros ->. contradiction. }
  destruct (IH b1 m1 s1) as (Hs2 & Hc2 & Hm2 & Hsc2); [done|done|done|].
  split_and!; [done| | |].
  - intros r c Hr Hc. rewrite Hc2 by done. destruct (decide (c ∈ cs)) as [Hin|Hnin].
    + rewrite !bool_decide_eq_true_2 by (rewrite ?elem_of_cons; auto). by rewrite Hcol.
    + rewrite (bool_decide_eq_false_2 (c ∈ cs)) by done. rewrite Hc1 by done.
      destruct (decide (c = c0)) as [->|Hne].
      * rewrite !bool_decide_eq_true_2 by (rewrite ?elem_of_cons; auto). done.
      * rewrite !bool_decide_eq_false_2; [done| |done]. rewrite elem_of_cons. tauto.
  - rewrite Hm2, Hm1. cbn [existsb]. rewrite <- orb_assoc. do 2 f_equal.
    apply existsb_ext_elem. intros c Hc. by rewrite Hcol.
  - rewrite Hsc2, Hsc1. cbn [map]. rewrite zsum_cons.
    assert (map (fun c => row_score rev (column b1 c)) cs = map (fun c => row_score rev (column b c)) cs) as ->.
    { apply map_ext_in. intros c Hc. rewrite Hcol; [done|]. by apply list_elem_of_In. }
    lia.
Qed.


Lemma length_transpose b : length (transpose b) = SIZE.
Proof. unfold transpose. by rewrite length_map, length_seq. Qed.

Lemma transpose_lookup b c : (c < SIZE)%nat -> transpose b !!! c = column b c.
Proof. intros Hc. unfold transpose. rewrite lookup_total_map by (rewrite length_seq; lia). by rewrite lookup_total_seq_lt. Qed.

Lemma shape_transpose b : shape (transpose b).
Proof.
  split; [apply length_transpose|]. apply Forall_forall. intros row Hrow.
  unfold transpose in Hrow. apply list_elem_of_In, in_map_iff in Hrow as (c & <- & _). apply length_column.
Qed.

Lemma transpose_cell b r c : (r < SIZE)%nat -> (c < SIZE)%nat -> cell (transpose b) r c = cell b c r.
Proof. intros Hr Hc. unfold cell at 1. rewrite transpose_lookup by done. by apply column_lookup. Qed.

Lemma move_cols_transpose rev b :
  shape b ->
  foldl (move_col rev) (b, false, 0) (seq 0 SIZE) =
  (let '(b', m, s) := foldl (move_row rev) (transpose b, false, 0) (seq 0 SIZE) in (transpose b', m, s)).
Proof.
  intros Hs. rewrite (move_row_all rev (transpose b)) by apply length_transpose.
  destruct (move_cols rev (seq 0 SIZE) b false 0) as (Hs1 & Hc1 & Hm1 & Hsc1);
    [apply NoDup_seq|apply Forall_seq_lt|done|].
  destruct (foldl (move_col rev) _ _) as [[b' m'] s']. cbn [fst snd] in *. rewrite Hm1, Hsc1.
  f_equal. f_equal.
  - apply (grid_eq SIZE SIZE); [done|apply shape_transpose|]. intros r c Hr Hc.
    rewrite Hc1, transpose_cell by done. rewrite bool_decide_eq_true_2 by (apply elem_of_seq; lia).
    unfold cell. rewrite lookup_total_map by (rewrite length_transpose; lia).
    by rewrite transpose_lookup.
  - rewrite <- existsb_changed. unfold transpose. by rewrite existsb_map_comp.
Qed.

(** [move_up] ([move_down]) is [move_left] ([move_right]) on the
    transposed board: the column loop, which reads each column into a list,
    slides it and writes it back cell by cell, computes the same board (up
    to transposition), the same [moved] flag and the same score as the row
    loop on the columns. *)
Theorem move_col_transpose rev b :
  shape b ->
  foldl (move_col rev) (b, false, 0) (seq 0 SIZE) =
  (let '(b', m, s) := foldl (move_row rev) (transpose b, false, 0) (seq 0 SIZE) in (transpose b', m, s)).
Proof. apply move_cols_transpose. Qed.

Lemma transpose_involutive b : shape b -> transpose (transpose b) = b.
Proof.
  intros Hs. apply (grid_eq SIZE SIZE); [apply shape_transpose|done|]. intros r c Hr Hc.
  by rewrite !transpose_cell.
Qed.

Lemma shape_map_row_result rev b : shape b -> shape (map (row_result rev) b).
Proof.
  intros [Hl Hr]. split; [by rewrite length_map|]. apply Forall_forall. intros row Hrow.
  apply list_elem_of_In, in_map_iff in Hrow as (row0 & <- & Hin). apply row_result_length.
  rewrite Forall_forall in Hr. apply Hr. by apply list_elem_of_In.
Qed.

(** The four moves, by what they do to the rows or to the columns. *)
Lemma do_move_rows d b :
  shape b ->
  do_move d b =
  match d with
  | DLeft | DRight =>
      let rev := match d with DRight => true | _ => false end in
      (map (row_result rev) b, bool_decide (map (row_result rev) b <> b), zsum (map (row_score rev) b))
  | DUp | DDown =>
      let rev := match d with DDown => true | _ => false end in
      (transpose (map (row_result rev) (transpose b)),
       bool_decide (map (row_result rev) (transpose b) <> transpose b),
       zsum (map (row_score rev) (transpose b)))
  end.
Proof.
  intros Hs. destruct d; cbn [do_move]; unfold move_left, move_right, move_up, move_down;
    rewrite ?move_cols_transpose by done; rewrite move_row_all; try apply length_transpose; try apply Hs; done.
Qed.

(** [moved] is [True] exactly when the move changed the board: [main()]
    adds a tile and counts the turn exactly when the board changed. *)
Theorem moved_iff_changed d b :
  shape b -> (do_move d b).1.2 = bool_decide ((do_move d b).1.1 <> b).
Proof.
  intros Hs. rewrite do_move_rows by done.
  destruct d; cbn [fst snd]; try done; apply bool_decide_ext;
    (split; intros H E; apply H;
      [rewrite <- (transpose_involutive (map _ (transpose b))) by (apply shape_map_row_result, shape_transpose);
       by rewrite E
      |rewrite E; by apply transpose_involutive]).
Qed.

(** ** Sums and tiles *)

Lemma slide_ref_zsum l : zsum (slide_ref l).1 = zsum l.
Proof.
  induction l as [l IH] using (induction_ltof1 _ (@length Z)). unfold ltof in IH.
  destruct l as [|x [|y t]]; [done|done|]. rewrite slide_ref_cons2. case_bool_decide as E.
  - pose proof (IH t ltac:(simpl; lia)) as Ht. destruct (slide_ref t). cbn [fst snd] in *. subst y.
    rewrite !zsum_cons, Ht. lia.
  - pose proof (IH (y :: t) ltac:(simpl; lia)) as Ht. destruct (slide_ref (y :: t)). cbn [fst snd] in *.
    rewrite zsum_cons, Ht. done.
Qed.

Lemma zsum_pad l : zsum (pad l) = zsum l.
Proof. unfold pad. rewrite zsum_app, zsum_replicate_0. lia. Qed.

Lemma row_result_zsum rev row : length row = SIZE -> zsum (row_result rev row) = zsum row.
Proof.
  intros Hl. unfold row_result.
  destruct rev; [rewrite zsum_reverse, slide_ref_eq by (by rewrite length_reverse)|rewrite slide_ref_eq by done];
    cbn [fst]; rewrite zsum_pad, slide_ref_zsum, zsum_filter_nonzero; [apply zsum_reverse|done].
Qed.

Lemma total_map_row_result rev b : shape b -> total (map (row_result rev) b) = total b.
Proof.
  intros [_ Hr]. unfold total. rewrite map_map. f_equal. apply map_ext_in. intros row Hrow.
  apply row_result_zsum. rewrite Forall_forall in Hr. apply Hr. by apply list_elem_of_In.
Qed.

Lemma total_cells b :
  shape b -> total b = zsum (map (fun r => zsum (map (fun c => cell b r c) (seq 0 SIZE))) (seq 0 SIZE)).
Proof.
  intros Hs. unfold total. rewrite <- (map_lookup_total_seq b) at 1. destruct Hs as [Hl Hr].
  rewrite map_map, Hl. f_equal. apply map_ext_in. intros r Hin. apply in_seq in Hin.
  rewrite <- (map_lookup_total_seq (b !!! r)) at 1. rewrite ((grid_shape_row SIZE SIZE) b r) by (done || lia). done.
Qed.

Lemma total_transpose b : shape b -> total (transpose b) = total b.
Proof.
  intros Hs. rewrite (total_cells b), (total_cells (transpose b)) by (done || apply shape_transpose).
  rewrite zsum_exchange. apply (f_equal zsum), map_ext_in. intros r Hr. apply in_seq in Hr.
  apply (f_equal zsum), map_ext_in. intros c Hc. apply in_seq in Hc. apply transpose_cell; lia.
Qed.

(** C27: No move creates or destroys value: the sum of the tiles after a move is
    the sum before it (merging two tiles [v] makes one tile [2v]). *)
Theorem move_total d b : shape b -> total (do_move d b).1.1 = total b.
Proof.
  intros Hs. rewrite do_move_rows by done.
  destruct d; cbn [fst]; rewrite ?total_transpose, total_map_row_result, ?total_transpose;
    auto using shape_transpose, shape_map_row_result.
Qed.

Lemma tile_ok_double x : tile_ok x -> tile_ok (x * 2).
Proof.
  intros [->|(k & Hk & ->)]; [by left|]. right. exists (k + 1). split; [lia|].
  rewrite Z.pow_add_r by lia. lia.
Qed.

Lemma slide_ref_tiles l : Forall tile_ok l -> Forall tile_ok (slide_ref l).1.
Proof.
  induction l as [l IH] using (induction_ltof1 _ (@length Z)). unfold ltof in IH. intros Hl.
  destruct l as [|x [|y t]]; [done|done|]. apply Forall_cons in Hl as [Hx Hl]. rewrite slide_ref_cons2.
  case_bool_decide.
  - apply Forall_cons in Hl as [_ Ht]. pose proof (IH t ltac:(simpl; lia) Ht). destruct (slide_ref t).
    cbn [fst] in *. constructor; [by apply tile_ok_double|done].
  - pose proof (IH (y :: t) ltac:(simpl; lia) Hl). destruct (slide_ref (y :: t)). cbn [fst] in *. by constructor.
Qed.

Lemma row_result_tiles rev row : length row = SIZE -> Forall tile_ok row -> Forall tile_ok (row_result rev row).
Proof.
  intros Hl Ht. assert (forall l, Forall tile_ok l -> Forall tile_ok (pad (slide_ref (filter (fun v => v <> 0) l)).1)) as Hp.
  { intros l Hl'. unfold pad. apply Forall_app. split; [apply slide_ref_tiles, Forall_filter_sub, Hl'|].
    apply Forall_replicate. by left. }
  unfold row_result. destruct rev.
  - rewrite slide_ref_eq by (by rewrite length_reverse). apply Forall_reverse, Hp, Forall_reverse, Ht.
  - rewrite slide_ref_eq by done. by apply Hp.
Qed.

Lemma tile_cell b r c : board_wf b -> (r < SIZE)%nat -> (c < SIZE)%nat -> tile_ok (cell b r c).
Proof.
  intros [Hs Ht] Hr Hc. unfold cell. destruct (lookup_lt_is_Some_2 b r ltac:(destruct Hs; lia)) as [row E].
  rewrite (list_lookup_total_alt b), E. simpl.
  assert (length row = SIZE) as Hl by (destruct Hs as [_ Hs]; exact (Forall_lookup_1 _ _ _ _ Hs E)).
  destruct (lookup_lt_is_Some_2 row c ltac:(lia)) as [x Ex]. rewrite list_lookup_total_alt, Ex. simpl.
  exact (Forall_lookup_1 _ _ _ _ (Forall_lookup_1 _ _ _ _ Ht E) Ex).
Qed.

Lemma transpose_wf b : board_wf b -> board_wf (transpose b).
Proof.
  intros Hb. split; [apply shape_transpose|]. apply Forall_forall. intros col Hcol.
  unfold transpose in Hcol. apply list_elem_of_In, in_map_iff in Hcol as (c & <- & Hc). apply in_seq in Hc.
  apply Forall_forall. intros x Hx. unfold column in Hx. apply list_elem_of_In, in_map_iff in Hx as (r & <- & Hr).
  apply in_seq in Hr. apply tile_cell; [done|lia..].
Qed.

Lemma map_row_result_wf rev b : board_wf b -> board_wf (map (row_result rev) b).
Proof.
  intros [Hs Ht]. split; [by apply shape_map_row_result|]. destruct Hs as [_ Hl].
  apply Forall_forall. intros row Hrow. apply list_elem_of_In, in_map_iff in Hrow as (row0 & <- & Hin).
  apply list_elem_of_In in Hin. rewrite Forall_forall in Hl, Ht. apply row_result_tiles; auto.
Qed.

(** Every move keeps the board four rows of four tiles, each empty or a
    power of two from 2 on. *)
Theorem move_wf d b : board_wf b -> board_wf (do_move d b).1.1.
Proof.
  intros Hb. rewrite do_move_rows by apply Hb.
  destruct d; cbn [fst]; auto using map_row_result_wf, transpose_wf.
Qed.

(** ** Adding a tile *)

Lemma elem_of_empty_cells b r c :
  (r, c) ∈ empty_cells b <-> (r < SIZE)%nat /\ (c < SIZE)%nat /\ cell b r c = 0.
Proof.
  unfold empty_cells. rewrite list_elem_of_In, in_flat_map. split.
  - intros (r' & Hr' & Hin). apply in_map_iff in Hin as (c' & [= <- <-] & Hc').
    apply list_elem_of_In, list_elem_of_filter in Hc' as [Hz Hc']. apply elem_of_seq in Hc'.
    apply in_seq in Hr'. split_and!; [lia|lia|done].
  - intros (Hr & Hc & Hz). exists r. split; [apply in_seq; lia|]. apply in_map_iff. exists c.
    split; [done|]. apply list_elem_of_In, list_elem_of_filter. split; [done|]. apply elem_of_seq. lia.
Qed.

Lemma total_set_cell b r c v :
  shape b -> (r < SIZE)%nat -> (c < SIZE)%nat -> total (set_cell b r c v) = total b - cell b r c + v.
Proof.
  intros Hs Hr Hc. unfold total, set_cell. rewrite zsum_map_alter by (destruct Hs; lia).
  rewrite zsum_insert by (rewrite (grid_shape_row SIZE SIZE); done). unfold cell. lia.
Qed.

Lemma set_cell_wf b r c v : board_wf b -> tile_ok v -> board_wf (set_cell b r c v).
Proof.
  intros [Hs Ht] Hv. split; [by apply grid_shape_set_cell|]. unfold set_cell.
  apply Forall_alter_lookup; [done|]. intros row E. apply Forall_insert; [|done].
  exact (Forall_lookup_1 _ _ _ _ Ht E).
Qed.

(** [add_tile] on a full board changes nothing and returns [False]; on a
    board with an empty cell it writes a 2 or a 4 into the empty cell
    [randint] chose, returns [True], adds 2 or 4 to the sum of the tiles and
    keeps the board well formed. *)
Theorem add_tile_spec b d :
  board_wf b ->
  (empty_cells b = [] -> add_tile b d = (b, false)) /\
  ((d_index d < length (empty_cells b))%nat ->
   exists r c, empty_cells b !! d_index d = Some (r, c) /\ cell b r c = 0 /\
     add_tile b d = (set_cell b r c (if d_four d then 4 else 2), true) /\
     total (add_tile b d).1 = total b + (if d_four d then 4 else 2) /\ board_wf (add_tile b d).1).
Proof.
  intros Hb. split; [intros E; unfold add_tile; by rewrite E|]. intros Hi.
  destruct (lookup_lt_is_Some_2 _ _ Hi) as [[r c] E].
  pose proof (list_elem_of_lookup_2 _ _ _ E) as Hin. apply elem_of_empty_cells in Hin as (Hr & Hc & Hz).
  assert (add_tile b d = (set_cell b r c (if d_four d then 4 else 2), true)) as Ha.
  { unfold add_tile. destruct (empty_cells b) as [|x l]; [simpl in Hi; lia|]. by rewrite E. }
  exists r, c. split_and!; [done|done|done| |].
  - rewrite Ha. cbn [fst]. rewrite total_set_cell by (apply Hb || done). lia.
  - rewrite Ha. apply set_cell_wf; [done|]. right. destruct (d_four d); [exists 2|exists 1]; split; reflexivity || lia.
Qed.

(** ** [any_moves] *)

Lemma row_result_stuck rev a b c d :
  a <> 0 -> b <> 0 -> c <> 0 -> d <> 0 -> a <> b -> b <> c -> c <> d ->
  row_result rev [a; b; c; d] = [a; b; c; d].
Proof.
  intros Ha Hb Hc Hd Hab Hbc Hcd. unfold row_result.
  destruct rev; [change (reverse [a; b; c; d]) with [d; c; b; a]|];
    rewrite slide_ref_eq by reflexivity; rewrite !filter_cons_True, filter_nil by done;
    rewrite !slide_ref_cons2, !bool_decide_eq_false_2 by congruence; reflexivity.
Qed.

Lemma row_as_cells (b : Board) r : shape b -> (r < SIZE)%nat -> b !!! r = [cell b r 0; cell b r 1; cell b r 2; cell b r 3].
Proof.
  intros Hs Hr. pose proof ((grid_shape_row SIZE SIZE) b r Hs Hr) as Hl. unfold cell.
  destruct (b !!! r) as [|x0 [|x1 [|x2 [|x3 [|]]]]]; simpl in Hl; try discriminate. reflexivity.
Qed.

(** A board with no empty cell and no two equal neighbours in a row is
    left as it is by the row moves. *)
Lemma map_row_result_stuck rev b :
  shape b -> (forall r c, (r < SIZE)%nat -> (c < SIZE)%nat -> cell b r c <> 0) ->
  (forall r c, (r < SIZE)%nat -> (c < SIZE - 1)%nat -> cell b r c <> cell b r (S c)) ->
  map (row_result rev) b = b.
Proof.
  intros Hs Hz Ha. rewrite <- (map_lookup_total_seq b) at 2. destruct Hs as [Hl Hr] eqn:Hs'.
  rewrite <- (map_lookup_total_seq b) at 1. rewrite map_map, Hl. apply map_ext_in.
  intros r Hin. apply in_seq in Hin. rewrite row_as_cells by (done || lia).
  unfold SIZE in *. apply row_result_stuck; (apply Hz || apply Ha); lia.
Qed.

Lemma existsb_seq_false f n : existsb f (seq 0 n) = false -> forall i, (i < n)%nat -> f i = false.
Proof.
  intros E i Hi. apply not_true_iff_false. intros Hf. apply not_true_iff_false in E. apply E.
  apply existsb_exists. exists i. split; [apply in_seq; lia|done].
Qed.

(** [any_moves] is sound: when it returns [False] (and [main()] shows the
    game-over screen), no move changes the board. *)
Theorem any_moves_sound b d :
  shape b -> any_moves b = false -> (do_move d b).1.2 = false /\ (do_move d b).1.1 = b.
Proof.
  intros Hs Hm. unfold any_moves in Hm. apply orb_false_iff in Hm as [Hm Hv]. apply orb_false_iff in Hm as [He Hh].
  apply negb_false_iff, bool_decide_eq_true in He.
  assert (forall r c, (r < SIZE)%nat -> (c < SIZE)%nat -> cell b r c <> 0) as Hz.
  { intros r c Hr Hc E. assert ((r, c) ∈ empty_cells b) as Hin by (by apply elem_of_empty_cells).
    rewrite He in Hin. by apply not_elem_of_nil in Hin. }
  assert (forall r c, (r < SIZE)%nat -> (c < SIZE - 1)%nat -> cell b r c <> cell b r (S c)) as Hrow.
  { intros r c Hr Hc. pose proof (existsb_seq_false _ _ Hh r Hr) as H1. cbn beta in H1.
    pose proof (existsb_seq_false _ _ H1 c Hc) as H2. by apply bool_decide_eq_false in H2. }
  assert (forall c r, (c < SIZE)%nat -> (r < SIZE - 1)%nat -> cell b r c <> cell b (S r) c) as Hcol.
  { intros c r Hc Hr. pose proof (existsb_seq_false _ _ Hv c Hc) as H1. cbn beta in H1.
    pose proof (existsb_seq_false _ _ H1 r Hr) as H2. by apply bool_decide_eq_false in H2. }
  assert (forall rev, map (row_result rev) b = b) as Hb by (intros; apply map_row_result_stuck; done).
  assert (forall rev, map (row_result rev) (transpose b) = transpose b) as Ht.
  { intros rev. apply map_row_result_stuck; [apply shape_transpose| |]; intros r c Hr Hc;
      rewrite !transpose_cell by (unfold SIZE in *; lia); [apply Hz|apply Hcol]; lia. }
  rewrite do_move_rows by done.
  destruct d; cbn [fst snd]; rewrite ?Hb, ?Ht, ?transpose_involutive by done;
    (split; [apply bool_decide_eq_false_2; tauto|done]).
Qed.

Lemma slide_ref_nonzero l : Forall (fun v => v <> 0) l -> Forall (fun v => v <> 0) (slide_ref l).1.
Proof.
  induction l as [l IH] using (induction_ltof1 _ (@length Z)). unfold ltof in IH. intros Hl.
  destruct l as [|x [|y t]]; [done|done|]. apply Forall_cons in Hl as [Hx Hl]. rewrite slide_ref_cons2.
  case_bool_decide.
  - apply Forall_cons in Hl as [_ Ht]. pose proof (IH t ltac:(simpl; lia) Ht). destruct (slide_ref t).
    cbn [fst] in *. constructor; [lia|done].
  - pose proof (IH (y :: t) ltac:(simpl; lia) Hl). destruct (slide_ref (y :: t)). cbn [fst] in *. by constructor.
Qed.

(** A line the rule leaves as long as it was has no two equal neighbours. *)
Lemma slide_ref_no_merge l i :
  length (slide_ref l).1 = length l -> (S i < length l)%nat -> l !!! i <> l !!! S i.
Proof.
  revert i. induction l as [l IH] using (induction_ltof1 _ (@length Z)). unfold ltof in IH. intros i Hl Hi.
  destruct l as [|x [|y t]]; [simpl in Hi; lia|simpl in Hi; lia|]. rewrite slide_ref_cons2 in Hl.
  case_bool_decide as E.
  - pose proof (slide_ref_length t). destruct (slide_ref t). cbn [fst length] in *. lia.
  - destruct (slide_ref (y :: t)) as [t' s] eqn:Et. cbn [fst length] in Hl. destruct i as [|i]; [done|].
    change ((x :: y :: t) !!! S i) with ((y :: t) !!! i). change ((x :: y :: t) !!! S (S i)) with ((y :: t) !!! S i).
    apply IH; [simpl; lia|rewrite Et; simpl in *; lia|simpl in *; lia].
Qed.

Lemma pad_zero_after nz i j :
  Forall (fun v => v <> 0) nz -> (length nz <= SIZE)%nat -> (i < j < SIZE)%nat ->
  pad nz !!! i = 0 -> pad nz !!! j = 0.
Proof.
  intros Hnz Hl Hij Hi. unfold pad in *. rewrite !list_lookup_total_alt in *.
  destruct (decide (i < length nz)%nat).
  - rewrite lookup_app_l in Hi by done. destruct (lookup_lt_is_Some_2 nz i ltac:(done)) as [x Ex].
    rewrite Ex in Hi. simpl in Hi. exfalso. exact (Forall_lookup_1 _ _ _ _ Hnz Ex Hi).
  - rewrite lookup_app_r by lia. rewrite lookup_replicate_2 by lia. done.
Qed.

Lemma slide_row_pad row :
  length row = SIZE ->
  exists nz, Forall (fun v => v <> 0) nz /\ (length nz <= SIZE)%nat /\ row_result false row = pad nz.
Proof.
  intros Hl. unfold row_result. rewrite slide_ref_eq by done. eexists. split_and!; [|  |reflexivity].
  - apply slide_ref_nonzero, Forall_filter_nz.
  - etransitivity; [apply slide_ref_length|]. rewrite <- Hl. apply length_filter.
Qed.

(** An empty cell before a tile: the left move changes the row. *)
Lemma row_left_gap row i j :
  length row = SIZE -> (i < j < SIZE)%nat -> row !!! i = 0 -> row !!! j <> 0 -> row_result false row <> row.
Proof.
  intros Hl Hij Hi Hj E. destruct (slide_row_pad row Hl) as (nz & Hnz & Hn & Ep).
  rewrite Ep in E. rewrite <- E in Hi, Hj. apply Hj. by apply (pad_zero_after nz i j).
Qed.

Lemma reverse_lookup_total (l : list Z) i :
  (i < length l)%nat -> reverse l !!! i = l !!! (length l - S i)%nat.
Proof. intros Hi. rewrite !list_lookup_total_alt, reverse_lookup by done. done. Qed.

(** A tile before an empty cell: the right move changes the row. *)
Lemma row_right_gap row i j :
  length row = SIZE -> (i < j < SIZE)%nat -> row !!! i <> 0 -> row !!! j = 0 -> row_result true row <> row.
Proof.
  intros Hl Hij Hi Hj E. unfold row_result in E.
  assert (row_result false (reverse row) <> reverse row) as Hne.
  { apply (row_left_gap _ (SIZE - S j) (SIZE - S i)); [by rewrite length_reverse|lia| |];
      rewrite reverse_lookup_total, Hl by (rewrite Hl; lia);
      replace (SIZE - S (SIZE - S j))%nat with j by lia; replace (SIZE - S (SIZE - S i))%nat with i by lia; done. }
  apply Hne. unfold row_result. rewrite <- (reverse_involutive (slide (reverse row)).1), E. done.
Qed.

(** A full row with two equal neighbours: the left move merges them. *)
Lemma row_left_merge row i :
  length row = SIZE -> Forall (fun v => v <> 0) row -> (S i < SIZE)%nat -> row !!! i = row !!! S i ->
  row_result false row <> row.
Proof.
  intros Hl Hnz Hi Heq E. unfold row_result in E. rewrite slide_ref_eq in E by done.
  assert (filter (fun v => v <> 0) row = row) as Hf.
  { clear -Hnz. induction row as [|x row IH]; [done|]. apply Forall_cons in Hnz as [Hx Hnz].
    rewrite filter_cons_True by done. by rewrite IH. }
  rewrite Hf in E. cbn [fst] in E.
  destruct (decide (length (slide_ref row).1 = length row)) as [Hlen|Hlen].
  - exact (slide_ref_no_merge row i Hlen ltac:(lia) Heq).
  - pose proof (slide_ref_length row) as Hle.
    assert (pad (slide_ref row).1 !!! 3%nat = 0) as H3.
    { unfold pad. rewrite list_lookup_total_alt, lookup_app_r by (unfold SIZE in *; lia).
      rewrite lookup_replicate_2 by (unfold SIZE in *; lia). done. }
    rewrite E in H3. destruct (lookup_lt_is_Some_2 row 3%nat ltac:(unfold SIZE in *; lia)) as [x Ex].
    rewrite list_lookup_total_alt, Ex in H3. exact (Forall_lookup_1 _ _ _ _ Hnz Ex H3).
Qed.

Lemma map_changed (f : list Z -> list Z) (X : Board) r :
  (r < length X)%nat -> f (X !!! r) <> X !!! r -> bool_decide (map f X <> X) = true.
Proof.
  intros Hr Hf. apply bool_decide_eq_true_2. intros E. apply Hf.
  rewrite <- (lookup_total_map f X r Hr). by rewrite E.
Qed.

(** [any_moves] is complete: on a board with at least one tile (every board
    of a game is, see [reachable_wf]), when it returns [True] some move
    changes the board, so the game never waits for a move that does not
    exist. *)
Theorem any_moves_complete b :
  shape b -> (exists r c, (r < SIZE)%nat /\ (c < SIZE)%nat /\ cell b r c <> 0) ->
  any_moves b = true -> exists d, (do_move d b).1.2 = true.
Proof.
  intros Hs (r0 & c0 & Hr0 & Hc0 & Hnz) Hm.
  assert (forall d, (do_move d b).1.2 = match d with
    | DLeft => bool_decide (map (row_result false) b <> b)
    | DRight => bool_decide (map (row_result true) b <> b)
    | DUp => bool_decide (map (row_result false) (transpose b) <> transpose b)
    | DDown => bool_decide (map (row_result true) (transpose b) <> transpose b) end) as Hd.
  { intros d. rewrite do_move_rows by done. by destruct d. }
  assert (forall r, (r < SIZE)%nat -> (r < length b)%nat) as Hlb by (destruct Hs; lia).
  assert (forall c, (c < SIZE)%nat -> (c < length (transpose b))%nat) as Hlt by (intros; rewrite length_transpose; lia).
  destruct (empty_cells b) as [|[r c] cells] eqn:He.
  - assert (forall r c, (r < SIZE)%nat -> (c < SIZE)%nat -> cell b r c <> 0) as Hfull.
    { intros r c Hr Hc E. assert ((r, c) ∈ empty_cells b) as Hin by (by apply elem_of_empty_cells).
      rewrite He in Hin. by apply not_elem_of_nil in Hin. }
    unfold any_moves in Hm. rewrite He, bool_decide_eq_true_2 in Hm by done. cbn [negb orb] in Hm.
    apply orb_true_iff in Hm as [Hh|Hv].
    + apply existsb_exists in Hh as (r & Hr & Hh). apply existsb_exists in Hh as (c & Hc & Hh).
      apply in_seq in Hr, Hc. apply bool_decide_eq_true in Hh. exists DLeft. rewrite Hd.
      apply (map_changed _ _ r); [apply Hlb; lia|]. apply row_left_merge with c.
      * apply (grid_shape_row SIZE SIZE); [done|lia].
      * apply Forall_forall. intros x Hx. rewrite row_as_cells in Hx by (done || lia).
        repeat (apply elem_of_cons in Hx as [->|Hx]; [apply Hfull; unfold SIZE in *; lia|]).
        by apply not_elem_of_nil in Hx.
      * unfold SIZE in *; lia.
      * exact Hh.
    + apply existsb_exists in Hv as (c & Hc & Hv). apply existsb_exists in Hv as (r & Hr & Hv).
      apply in_seq in Hr, Hc. apply bool_decide_eq_true in Hv. exists DUp. rewrite Hd.
      apply (map_changed _ _ c); [apply Hlt; lia|]. rewrite transpose_lookup by lia.
      apply row_left_merge with r.
      * apply length_column.
      * apply Forall_forall. intros x Hx. apply list_elem_of_In, in_map_iff in Hx as (r' & <- & Hr').
        apply in_seq in Hr'. apply Hfull; lia.
      * unfold SIZE in *; lia.
      * rewrite !column_lookup by (unfold SIZE in *; lia). exact Hv.
  - assert ((r, c) ∈ empty_cells b) as Hin by (rewrite He; left).
    apply elem_of_empty_cells in Hin as (Hr & Hc & Hz).
    destruct (decide (cell b r c0 = 0)) as [Hz0|Hz0].
    + assert (r <> r0) by (intros ->; done).
      destruct (decide (r < r0)%nat); [exists DUp|exists DDown]; rewrite Hd;
        apply (map_changed _ _ c0); try (apply Hlt; lia); rewrite transpose_lookup by lia.
      * apply (row_left_gap _ r r0); [apply length_column|lia|by rewrite column_lookup|by rewrite column_lookup].
      * apply (row_right_gap _ r0 r); [apply length_column|lia|by rewrite column_lookup|by rewrite column_lookup].
    + assert (c <> c0) by (intros ->; done).
      destruct (decide (c < c0)%nat); [exists DLeft|exists DRight]; rewrite Hd;
        apply (map_changed _ _ r); try (apply Hlb; lia).
      * apply (row_left_gap _ c c0); [by apply (grid_shape_row SIZE SIZE)|lia|done|done].
      * apply (row_right_gap _ c0 c); [by apply (grid_shape_row SIZE SIZE)|lia|done|done].
Qed.

(** ** Deciding well-formedness, for concrete boards *)

Lemma tile_ok_iff v : tile_ok v <-> v = 0 \/ (2 <= v /\ v = 2 ^ Z.log2 v).
Proof.
  unfold tile_ok. split.
  - intros [->|(k & Hk & ->)]; [by left|right]. rewrite Z.log2_pow2 by lia.
    split; [|done]. change 2 with (2 ^ 1) at 1. apply Z.pow_le_mono_r; lia.
  - intros [->|[H E]]; [by left|right]. exists (Z.log2 v). split; [|done].
    assert (Z.log2 2 <= Z.log2 v) by (apply Z.log2_le_mono; lia). simpl in *. lia.
Qed.

#[export] Instance tile_ok_dec v : Decision (tile_ok v).
Proof.
  destruct (decide (v = 0 \/ (2 <= v /\ v = 2 ^ Z.log2 v))) as [H|H]; [left|right]; by rewrite tile_ok_iff.
Defined.

#[export] Instance board_wf_dec b : Decision (board_wf b).
Proof. unfold board_wf, grid_shape. apply _. Defined.

(** ** Witnesses *)

Definition demo_board : Board := [[2; 2; 0; 4]; [0; 0; 0; 0]; [4; 0; 4; 8]; [2; 4; 8; 16]].
Definition stuck_board : Board := [[2; 4; 2; 4]; [4; 2; 4; 2]; [2; 4; 2; 4]; [4; 2; 4; 2]].

Lemma demo_board_wf : board_wf demo_board.
Proof. eapply bool_decide_unpack. vm_compute. reflexivity. Qed.

Lemma stuck_board_wf : board_wf stuck_board.
Proof. eapply bool_decide_unpack. vm_compute. reflexivity. Qed.

Lemma slide_spec_witness :
  length [2; 2; 2; 0] = SIZE /\
  slide [2; 2; 2; 0] = (pad (slide_ref (filter (fun v => v <> 0) [2; 2; 2; 0])).1,
                        (slide_ref (filter (fun v => v <> 0) [2; 2; 2; 0])).2).
Proof. assert (H : length [2; 2; 2; 0] = SIZE) by reflexivity. split; [exact H|exact (slide_spec _ H)]. Defined.

Lemma move_col_transpose_witness :
  shape demo_board /\
  foldl (move_col true) (demo_board, false, 0) (seq 0 SIZE) =
  (let '(b', m, s) := foldl (move_row true) (transpose demo_board, false, 0) (seq 0 SIZE) in (transpose b', m, s)).
Proof. pose proof (proj1 demo_board_wf) as H. split; [exact H|exact (move_col_transpose true _ H)]. Defined.

Lemma moved_iff_changed_witness :
  shape demo_board /\ (do_move DUp demo_board).1.2 = bool_decide ((do_move DUp demo_board).1.1 <> demo_board).
Proof. pose proof (proj1 demo_board_wf) as H. split; [exact H|exact (moved_iff_changed DUp _ H)]. Defined.

Lemma move_total_witness : shape demo_board /\ total (do_move DLeft demo_board).1.1 = total demo_board.
Proof. pose proof (proj1 demo_board_wf) as H. split; [exact H|exact (move_total DLeft _ H)]. Defined.

Lemma move_wf_witness : board_wf demo_board /\ board_wf (do_move DRight demo_board).1.1.
Proof. pose proof demo_board_wf as H. split; [exact H|exact (move_wf DRight _ H)]. Defined.

Lemma add_tile_spec_witness :
  board_wf demo_board /\
  (empty_cells demo_board = [] -> add_tile demo_board (mkDraw 3 true) = (demo_board, false)) /\
  ((d_index (mkDraw 3 true) < length (empty_cells demo_board))%nat ->
   exists r c, empty_cells demo_board !! d_index (mkDraw 3 true) = Some (r, c) /\ cell demo_board r c = 0 /\
     add_tile demo_board (mkDraw 3 true) = (set_cell demo_board r c (if d_four (mkDraw 3 true) then 4 else 2), true) /\
     total (add_tile demo_board (mkDraw 3 true)).1 = total demo_board + (if d_four (mkDraw 3 true) then 4 else 2) /\
     board_wf (add_tile demo_board (mkDraw 3 true)).1).
Proof. pose proof demo_board_wf as H. split; [exact H|exact (add_tile_spec _ (mkDraw 3 true) H)]. Defined.

Lemma any_moves_sound_witness :
  (shape stuck_board /\ any_moves stuck_board = false) /\
  (do_move DDown stuck_board).1.2 = false /\ (do_move DDown stuck_board).1.1 = stuck_board.
Proof.
  pose proof (proj1 stuck_board_wf) as H. assert (H2 : any_moves stuck_board = false) by (vm_compute; reflexivity).
  split; [split; [exact H|exact H2]|exact (any_moves_sound _ DDown H H2)].
Defined.

Lemma any_moves_complete_witness :
  (shape demo_board /\ (exists r c, (r < SIZE)%nat /\ (c < SIZE)%nat /\ cell demo_board r c <> 0) /\
   any_moves demo_board = true) /\ exists d, (do_move d demo_board).1.2 = true.
Proof.
  pose proof (proj1 demo_board_wf) as H.
  assert (H1 : exists r c, (r < SIZE)%nat /\ (c < SIZE)%nat /\ cell demo_board r c <> 0)
    by (exists 0%nat, 0%nat; vm_compute; repeat split; [lia|lia|discriminate]).
  assert (H2 : any_moves demo_board = true) by (vm_compute; reflexivity).
  split; [split; [exact H|split; [exact H1|exact H2]]|exact (any_moves_complete _ H H1 H2)].
Defined.

End Game2048.
