(* ===== verification/Klotski.v ===== *)
(** * Klotski: the sliding-block puzzle of [src/klotski.py]

    The board is the 5 x 4 list of rows of piece ids (0 is empty) that the
    program mutates; [PIECES] gives each id its width and height, and the
    five [PUZZLES] are the start positions.  The operations are translated
    from lines 169-299 ([find_piece_cells], [piece_top_left],
    [validate_board], [can_move], [move_piece], [is_win]), the menus
    [pick_puzzle] and [win_menu] (lines 397-432) and one turn of the loop of
    [main()] (lines 462-515) are step functions.

    Python's [PIECES[pid]] raises [KeyError] for an id that is not a piece:
    [can_move] and [move_piece] return [None] in that case, and the theorems
    show it cannot happen on the boards the game reaches.  Coordinates are
    integers ([Z]): [pr + dr] can be [-1] before [can_move] rejects it; the
    cells are read with [kcell], in range wherever the code reads them.

    The abstract view is a [layout]: the top-left corner of every piece.
    [render] draws a layout as a board, and the main theorem shows that on a
    rendered layout [move_piece] is the move of one rectangle. *)

From S2P Require Import Prelude Grid Input.
From stdpp Require Import gmap.

Local Open Scope Z_scope.

Module Klotski.

Definition BR : Z := 5.
Definition BC : Z := 4.

Abbreviation KBoard := (list (list Z)).

(** [PIECES]: id to [(width, height)]. *)
Definition PIECES (pid : Z) : option (Z * Z) :=
  match pid with
  | 1%Z => Some (2, 2)
  | 2%Z | 3%Z | 5%Z | 6%Z => Some (1, 2)
  | 4%Z => Some (2, 1)
  | 7%Z | 8%Z | 9%Z | 10%Z => Some (1, 1)
  | _ => None
  end.

(** [PIECES.keys()]. *)
Definition piece_ids : list Z := [1; 2; 3; 4; 5; 6; 7; 8; 9; 10].

(** [PUZZLES]. *)
Definition PUZZLES : list KBoard := [
  [[2; 1; 1; 5]; [2; 1; 1; 5]; [3; 4; 4; 6]; [3; 7; 8; 6]; [9; 0; 0; 10]];
  [[2; 1; 1; 5]; [2; 1; 1; 5]; [3; 4; 4; 6]; [3; 7; 0; 6]; [9; 8; 0; 10]];
  [[2; 1; 1; 5]; [2; 1; 1; 5]; [3; 7; 8; 6]; [3; 4; 4; 6]; [9; 0; 0; 10]];
  [[2; 1; 1; 5]; [2; 1; 1; 5]; [3; 7; 8; 6]; [3; 9; 10; 6]; [0; 4; 4; 0]];
  [[2; 1; 1; 5]; [2; 1; 1; 5]; [3; 4; 4; 6]; [3; 7; 8; 6]; [0; 9; 10; 0]]].

(** [board[r][c]] at integer coordinates. *)
Definition kcell (b : KBoard) (r c : Z) : Z := cell b (Z.to_nat r) (Z.to_nat c).

(** [clone_board(b)]: a copy of the rows; as values, the board itself. *)
Definition clone_board (b : KBoard) : KBoard := b.

(** All cells in the order of [for r in range(BR): for c in range(BC)]. *)
Definition all_cells : list (Z * Z) := zrange2 0 BR 0 BC.

(** [find_piece_cells(board, pid)]. *)
Definition find_piece_cells (b : KBoard) (pid : Z) : list (Z * Z) :=
  filter (fun rc => kcell b rc.1 rc.2 = pid) all_cells.

(** [piece_top_left(board, pid)]: the least row and the least column of the
    piece's cells ([min(r for r, _ in cells)], [min(c for _, c in cells)]). *)
Definition top_left_of (cells : list (Z * Z)) : option (Z * Z) :=
  match cells with
  | [] => None
  | (r, c) :: cells => Some (foldl Z.min r (map fst cells), foldl Z.min c (map snd cells))
  end.

Definition piece_top_left (b : KBoard) (pid : Z) : option (Z * Z) := top_left_of (find_piece_cells b pid).

(** The dictionary [counts] of [validate_board]. *)
Definition piece_counts (b : KBoard) : gmap Z nat :=
  foldl (fun counts rc =>
           let pid := kcell b rc.1 rc.2 in
           if bool_decide (pid = 0) then counts
           else <[pid := (default 0 (counts !! pid) + 1)%nat]> counts) ∅ all_cells.

(** [validate_board(board)]: every piece covers as many cells as its area,
    and there are two empty cells. *)
Definition validate_board (b : KBoard) : bool :=
  let counts := piece_counts b in
  forallb (fun pid => match PIECES pid with
                      | Some (w, h) => bool_decide (Z.of_nat (default 0%nat (counts !! pid)) = w * h)
                      | None => true
                      end) piece_ids &&
  bool_decide (length (filter (fun rc => kcell b rc.1 rc.2 = 0) all_cells) = 2%nat).

(** [can_move(board, pid, dr, dc)]; [None] is the [KeyError] of
    [PIECES[pid]]. *)
Definition can_move (b : KBoard) (pid dr dc : Z) : option bool :=
  match piece_top_left b pid with
  | None => Some false
  | Some (pr, pc) =>
      match PIECES pid with
      | None => None
      | Some (pw, ph) =>
          let nr := pr + dr in let nc := pc + dc in
          if (nr <? 0) || (nc <? 0) || (BR <? nr + ph) || (BC <? nc + pw) then Some false
          else Some (forallb (fun r => forallb (fun c => let v := kcell b r c in (v =? 0) || (v =? pid))
                                                (zrange nc (nc + pw)))
                             (zrange nr (nr + ph)))
      end
  end.

(** [move_piece(board, pid, dr, dc)]: the new board and whether it moved.
    The two loops clear the piece's rectangle and write it one step away
    ([range(pr, pr + ph)] with [pr >= 0] is [seq]).  [can_move] has checked
    the new rectangle; the old one is past the board only on a board whose
    piece is not the rectangle [PIECES] says, where Python raises
    [IndexError] on the first loop ([None]). *)
Definition move_piece (b : KBoard) (pid dr dc : Z) : option (KBoard * bool) :=
  match can_move b pid dr dc with
  | None => None
  | Some false => Some (b, false)
  | Some true =>
      match piece_top_left b pid, PIECES pid with
      | Some (pr, pc), Some (pw, ph) =>
          (* [board[r][c] = 0] raises [IndexError] past the last row or column *)
          if (BR <? pr + ph) || (BC <? pc + pw) then None else
          let b1 := fill_rect b (Z.to_nat pr) (Z.to_nat ph) (Z.to_nat pc) (Z.to_nat pw) 0 in
          let b2 := fill_rect b1 (Z.to_nat (pr + dr)) (Z.to_nat ph) (Z.to_nat (pc + dc)) (Z.to_nat pw) pid in
          Some (b2, true)
      | _, _ => None
      end
  end.

(** [is_win(board)]: Cao Cao (piece 1) has its top-left corner at row 3,
    column 1, in front of the exit. *)
Definition is_win (b : KBoard) : bool := bool_decide (piece_top_left b 1 = Some (3, 1)).

(** [pid_under_cursor(board, r, c)]. *)
Definition pid_under_cursor (b : KBoard) (r c : Z) : option Z :=
  let pid := kcell b r c in if bool_decide (pid = 0) then None else Some pid.

(** ** Menus *)

(** The result of one turn of [pick_puzzle]: stay on the title screen with
    the index, or return [("start", pidx)] or [("exit", pidx)]. *)
Inductive pick_result := PickStay (pidx : Z) | PickStart (pidx : Z) | PickExit (pidx : Z).

Definition pick_step (pidx : Z) (e : bool * bool * bool * bool) : pick_result :=
  let '(pu, pd, pl, pr) := e in
  if pl then PickStay ((pidx - 1) mod Z.of_nat (length PUZZLES))
  else if pr then PickStay ((pidx + 1) mod Z.of_nat (length PUZZLES))
  else if pu then PickStart pidx
  else if pd then PickExit pidx
  else PickStay pidx.

(** [win_menu(moves, pidx)]: one turn; [None] while no button was pressed. *)
Inductive win_choice := WinAgain | WinNext | WinExit.

Definition win_step (pidx : Z) (e : bool * bool * bool * bool) : option (win_choice * Z) :=
  let '(pu, pd, pl, pr) := e in
  if pu then Some (WinAgain, pidx)
  else if pr then Some (WinNext, (pidx + 1) mod Z.of_nat (length PUZZLES))
  else if pd then Some (WinExit, pidx)
  else None.

(** ** One turn of the game loop *)

Record kstate := mkK {
  board : KBoard; cur_r : Z; cur_c : Z; grabbed : option Z; moves : Z; pidx : Z }.

(** The start of a puzzle: [board = clone_board(PUZZLES[pidx]); cur_r, cur_c
    = 4, 1; grabbed = None; moves = 0]. *)
Definition start (p : Z) : kstate := mkK (clone_board (PUZZLES !!! Z.to_nat p)) 4 1 None 0 p.

(** The direction of a move: [if pu ... elif pd ... elif pl ... elif pr]. *)
Definition edge_dir (e : bool * bool * bool * bool) : option (Z * Z) :=
  let '(pu, pd, pl, pr) := e in
  if pu then Some (-1, 0) else if pd then Some (1, 0)
  else if pl then Some (0, -1) else if pr then Some (0, 1) else None.

(** What a turn ends with: the next turn, or the win menu (then [win_menu]
    decides). *)
Inductive kresult := KNext (s : kstate) | KWon (s : kstate).

(** One turn after [render]: the edges of [eb.update()] and the result of
    [detect_ud_action]; [None] is an exception ([KeyError]). *)
Definition ktick (s : kstate) (e : bool * bool * bool * bool) (act : option UdAction) : option kresult :=
  match act with
  | Some Reset => Some (KNext (start (pidx s)))
  | Some Grab =>
      Some (KNext (mkK (board s) (cur_r s) (cur_c s)
                     (match grabbed s with None => pid_under_cursor (board s) (cur_r s) (cur_c s) | Some _ => None end)
                     (moves s) (pidx s)))
  | None =>
      match grabbed s with
      | None =>
          let '(pu, pd, pl, pr) := e in
          let '(r, c) :=
            if pu then ((cur_r s - 1) mod BR, cur_c s) else if pd then ((cur_r s + 1) mod BR, cur_c s)
            else if pl then (cur_r s, (cur_c s - 1) mod BC) else if pr then (cur_r s, (cur_c s + 1) mod BC)
            else (cur_r s, cur_c s) in
          Some (KNext (mkK (board s) r c None (moves s) (pidx s)))
      | Some g =>
          match edge_dir e with
          | None => Some (KNext s)
          | Some (dr, dc) =>
              match move_piece (board s) g dr dc with
              | None => None
              | Some (b, false) => Some (KNext (mkK b (cur_r s) (cur_c s) (Some g) (moves s) (pidx s)))
              | Some (b, true) =>
                  let '(r, c) := match piece_top_left b g with Some tl => tl | None => (cur_r s, cur_c s) end in
                  let s' := mkK b r c (Some g) (moves s + 1) (pidx s) in
                  Some (if is_win b then KWon s' else KNext s')
              end
          end
      end
  end.

(** ** Layouts *)

(** The top-left corner of every piece. *)
Definition layout := Z -> Z * Z.

(** Cell [(r, c)] lies in the rectangle of piece [pid] at [p]. *)
Definition in_rect (p : Z * Z) (pid r c : Z) : bool :=
  match PIECES pid with
  | Some (w, h) => (p.1 <=? r) && (r <? p.1 + h) && (p.2 <=? c) && (c <? p.2 + w)
  | None => false
  end.

(** The piece whose rectangle holds the cell, 0 when none does. *)
Definition owner (L : layout) (r c : Z) : Z :=
  match find (fun pid => in_rect (L pid) pid r c) piece_ids with Some pid => pid | None => 0 end.

(** The board a layout draws. *)
Definition render (L : layout) : KBoard := grid_of 5 4 (fun r c => owner L (Z.of_nat r) (Z.of_nat c)).

(** Two pieces' rectangles, one at [p] and one at [q], do not overlap. *)
Definition rects_apart (pid : Z) (p : Z * Z) (qid : Z) (q : Z * Z) : bool :=
  match PIECES pid, PIECES qid with
  | Some (w1, h1), Some (w2, h2) =>
      (p.1 + h1 <=? q.1) || (q.1 + h2 <=? p.1) || (p.2 + w1 <=? q.2) || (q.2 + w2 <=? p.2)
  | _, _ => false
  end.

Definition in_board (pid : Z) (p : Z * Z) : bool :=
  match PIECES pid with
  | Some (w, h) => (0 <=? p.1) && (p.1 + h <=? BR) && (0 <=? p.2) && (p.2 + w <=? BC)
  | None => false
  end.

(** A layout is valid when every piece is on the board and no two overlap. *)
Definition valid_layout (L : layout) : bool :=
  forallb (fun pid => in_board pid (L pid)) piece_ids &&
  forallb (fun pid => forallb (fun qid => bool_decide (pid = qid) || rects_apart pid (L pid) qid (L qid)) piece_ids) piece_ids.

(** Moving piece [pid] by [(dr, dc)] as the rules of the puzzle allow it:
    the rectangle stays on the board and overlaps no other piece. *)
Definition legal_move (L : layout) (pid dr dc : Z) : bool :=
  let p := ((L pid).1 + dr, (L pid).2 + dc) in
  in_board pid p && forallb (fun qid => bool_decide (pid = qid) || rects_apart pid p qid (L qid)) piece_ids.

Definition layout_set (L : layout) (pid : Z) (p : Z * Z) : layout := fun q => if bool_decide (q = pid) then p else L q.

(** The layouts of the five puzzles. *)
Definition layout_of (tl : list (Z * Z)) : layout := fun pid => default (0, 0) (tl !! Z.to_nat (pid - 1)).

Definition PUZZLE_LAYOUTS : list layout := [
  layout_of [(0,1); (0,0); (2,0); (2,1); (0,3); (2,3); (3,1); (3,2); (4,0); (4,3)];
  layout_of [(0,1); (0,0); (2,0); (2,1); (0,3); (2,3); (3,1); (4,1); (4,0); (4,3)];
  layout_of [(0,1); (0,0); (2,0); (3,1); (0,3); (2,3); (2,1); (2,2); (4,0); (4,3)];
  layout_of [(0,1); (0,0); (2,0); (4,1); (0,3); (2,3); (2,1); (2,2); (3,1); (3,2)];
  layout_of [(0,1); (0,0); (2,0); (2,1); (0,3); (2,3); (3,1); (3,2); (4,1); (4,2)]].

(** ** Reachable states *)

Definition kres_state (r : kresult) : kstate := match r with KNext s | KWon s => s end.

(** What the loop keeps: the board draws a valid layout, the cursor is on
    the board, a grabbed id is a piece and the puzzle index is in range. *)
Definition kinv (s : kstate) : Prop :=
  (exists L, valid_layout L = true /\ board s = render L) /\
  0 <= cur_r s < BR /\ 0 <= cur_c s < BC /\
  (forall g, grabbed s = Some g -> g ∈ piece_ids) /\ 0 <= pidx s < Z.of_nat (length PUZZLES).

(** The indices [pick_puzzle] can show. *)
Inductive pick_reach : Z -> Prop :=
| pick_reach_init : pick_reach 0
| pick_reach_step p e p' : pick_reach p -> pick_step p e = PickStay p' -> pick_reach p'.

(** The states at the top of the game loop of [main()]. *)
Inductive kreach : kstate -> Prop :=
| kreach_start p e : pick_reach p -> pick_step p e = PickStart p -> kreach (start p)
| kreach_tick s e act s' : kreach s -> ktick s e act = Some (KNext s') -> kreach s'
| kreach_won s e act s' e' c p :
    kreach s -> ktick s e act = Some (KWon s') -> win_step (pidx s') e' = Some (c, p) -> c <> WinExit ->
    kreach (start p).

(** ** Pieces and rectangles *)

Lemma pieces_dims pid : pid ∈ piece_ids -> exists w h, PIECES pid = Some (w, h) /\ 1 <= w /\ 1 <= h.
Proof.
  intros H. apply list_elem_of_In in H. simpl in H.
  repeat (destruct H as [<-|H]; [eexists _, _; split; [reflexivity|lia]|]). done.
Qed.

Lemma piece_ids_pos pid : pid ∈ piece_ids -> 1 <= pid.
Proof. intros H. apply list_elem_of_In in H. simpl in H. intuition lia. Qed.

Lemma in_rect_iff p pid w h r c :
  PIECES pid = Some (w, h) -> in_rect p pid r c = true <-> p.1 <= r < p.1 + h /\ p.2 <= c < p.2 + w.
Proof. intros E. unfold in_rect. rewrite E, !andb_true_iff, !Z.leb_le, !Z.ltb_lt. tauto. Qed.

Lemma in_board_iff pid w h p :
  PIECES pid = Some (w, h) -> in_board pid p = true <-> 0 <= p.1 /\ p.1 + h <= BR /\ 0 <= p.2 /\ p.2 + w <= BC.
Proof. intros E. unfold in_board. rewrite E, !andb_true_iff, !Z.leb_le. tauto. Qed.

Lemma rects_apart_iff pid p qid q w1 h1 w2 h2 :
  PIECES pid = Some (w1, h1) -> PIECES qid = Some (w2, h2) ->
  rects_apart pid p qid q = true <->
  p.1 + h1 <= q.1 \/ q.1 + h2 <= p.1 \/ p.2 + w1 <= q.2 \/ q.2 + w2 <= p.2.
Proof. intros E1 E2. unfold rects_apart. rewrite E1, E2, !orb_true_iff, !Z.leb_le. tauto. Qed.

(** Two rectangles are apart exactly when no cell lies in both. *)
Lemma rects_apart_cells pid p qid q :
  pid ∈ piece_ids -> qid ∈ piece_ids ->
  rects_apart pid p qid q = true <-> ~ exists r c, in_rect p pid r c = true /\ in_rect q qid r c = true.
Proof.
  intros Hp Hq. destruct (pieces_dims pid Hp) as (w1 & h1 & E1 & ?), (pieces_dims qid Hq) as (w2 & h2 & E2 & ?).
  rewrite (rects_apart_iff _ _ _ _ _ _ _ _ E1 E2). split.
  - intros Hap (r & c & H1 & H2). rewrite (in_rect_iff _ _ _ _ _ _ E1) in H1. rewrite (in_rect_iff _ _ _ _ _ _ E2) in H2. lia.
  - intros Hn. destruct (decide (p.1 + h1 <= q.1 \/ q.1 + h2 <= p.1 \/ p.2 + w1 <= q.2 \/ q.2 + w2 <= p.2)) as [|Hov]; [done|].
    exfalso. apply Hn. exists (Z.max p.1 q.1), (Z.max p.2 q.2).
    rewrite (in_rect_iff _ _ _ _ _ _ E1), (in_rect_iff _ _ _ _ _ _ E2). lia.
Qed.

Lemma rects_apart_sym pid p qid q : rects_apart pid p qid q = rects_apart qid q pid p.
Proof. unfold rects_apart. destruct (PIECES pid) as [[]|], (PIECES qid) as [[]|]; try done. by destruct (_ <=? _), (_ <=? _), (_ <=? _), (_ <=? _). Qed.

Lemma owner_cases L r c :
  (owner L r c = 0 /\ forall q, q ∈ piece_ids -> in_rect (L q) q r c = false) \/
  (owner L r c ∈ piece_ids /\ in_rect (L (owner L r c)) (owner L r c) r c = true).
Proof.
  unfold owner. destruct (find _ _) as [q|] eqn:E.
  - right. apply find_some in E as [Hin Hr]. split; [by apply list_elem_of_In|done].
  - left. split; [done|]. intros q Hq. apply list_elem_of_In in Hq. exact (find_none _ _ E q Hq).
Qed.

Lemma elem_of_all_cells r c : (r, c) ∈ all_cells <-> 0 <= r < BR /\ 0 <= c < BC.
Proof. apply elem_of_zrange2. Qed.

(** The corner of a rectangle on the board is the least row and least
    column of its cells in row-major order: checked on every piece at
    every corner. *)
Lemma top_left_rect_check :
  forallb (fun pid => forallb (fun p => negb (in_board pid p) ||
             bool_decide (top_left_of (filter (fun rc => in_rect p pid rc.1 rc.2 = true) all_cells) = Some p))
           all_cells) piece_ids = true.
Proof. vm_compute. reflexivity. Qed.

Lemma top_left_rect pid p :
  pid ∈ piece_ids -> in_board pid p = true ->
  top_left_of (filter (fun rc => in_rect p pid rc.1 rc.2 = true) all_cells) = Some p.
Proof.
  intros Hp Hb. pose proof top_left_rect_check as H. rewrite forallb_forall in H.
  apply list_elem_of_In in Hp as Hp'. specialize (H pid Hp'). rewrite forallb_forall in H.
  destruct (pieces_dims pid Hp) as (w & h & E & ?). apply (in_board_iff _ _ _ _ E) in Hb as Hb'.
  destruct p as [r c]. assert ((r, c) ∈ all_cells) as Hin by (apply elem_of_all_cells; simpl in *; lia).
  apply list_elem_of_In in Hin. specialize (H _ Hin). rewrite Hb in H. simpl in H. by apply bool_decide_eq_true in H.
Qed.

Lemma kcell_render L r c : 0 <= r < BR -> 0 <= c < BC -> kcell (render L) r c = owner L r c.
Proof. intros. unfold kcell, render. rewrite cell_grid_of by (unfold BR, BC in *; lia). by rewrite !Z2Nat.id by lia. Qed.

Lemma in_board_rect pid p r c : in_board pid p = true -> in_rect p pid r c = true -> 0 <= r < BR /\ 0 <= c < BC.
Proof.
  unfold in_board, in_rect. destruct (PIECES pid) as [[w h]|]; [|done].
  rewrite !andb_true_iff, !Z.leb_le, !Z.ltb_lt. lia.
Qed.

(** The bounds test of [can_move] is the negation of [in_board]. *)
Lemma can_move_bounds pid w h nr nc :
  PIECES pid = Some (w, h) ->
  (nr <? 0) || (nc <? 0) || (BR <? nr + h) || (BC <? nc + w) = negb (in_board pid (nr, nc)).
Proof.
  intros E. unfold in_board. rewrite E. simpl. rewrite !(Z.ltb_antisym _ BR), !(Z.ltb_antisym _ BC), !Z.ltb_antisym.
  by destruct (0 <=? nr), (0 <=? nc), (nr + h <=? BR), (nc + w <=? BC).
Qed.

Lemma forallb_others (f : Z -> bool) pid :
  forallb (fun qid => bool_decide (pid = qid) || f qid) piece_ids = true <->
  forall qid, qid ∈ piece_ids -> qid <> pid -> f qid = true.
Proof.
  rewrite forallb_forall. split.
  - intros H q Hq Hne. apply list_elem_of_In in Hq. specialize (H q Hq).
    apply orb_true_iff in H as [H|H]; [apply bool_decide_eq_true in H; congruence|done].
  - intros H q Hq. apply list_elem_of_In in Hq. apply orb_true_iff.
    destruct (decide (pid = q)); [left; by apply bool_decide_eq_true|right; auto].
Qed.

Section ValidLayout.
Context (L : layout) (HL : valid_layout L = true).

Lemma valid_in_board q : q ∈ piece_ids -> in_board q (L q) = true.
Proof.
  intros Hq. apply andb_true_iff in HL as [H _]. rewrite forallb_forall in H. apply H, list_elem_of_In, Hq.
Qed.

Lemma valid_apart q1 q2 : q1 ∈ piece_ids -> q2 ∈ piece_ids -> q1 <> q2 -> rects_apart q1 (L q1) q2 (L q2) = true.
Proof.
  intros H1 H2 Hne. apply andb_true_iff in HL as [_ H]. rewrite forallb_forall in H.
  apply list_elem_of_In in H1. specialize (H q1 H1). pose proof (proj1 (forallb_others (fun qid => rects_apart q1 (L q1) qid (L qid)) q1) H) as H0. by apply H0.
Qed.

(** On a valid layout a cell belongs to the one piece that covers it. *)
Lemma owner_iff q r c : q ∈ piece_ids -> owner L r c = q <-> in_rect (L q) q r c = true.
Proof.
  intros Hq. destruct (owner_cases L r c) as [[E Hn]|[Ho Hr]].
  - rewrite E, Hn by done. apply piece_ids_pos in Hq. split; [lia|done].
  - split; [by intros <-|]. intros Hq'. destruct (decide (owner L r c = q)) as [|Hne]; [done|].
    exfalso. apply (proj1 (rects_apart_cells _ _ _ _ Ho Hq) (valid_apart _ _ Ho Hq Hne)). eauto.
Qed.

Lemma find_piece_cells_render pid :
  pid ∈ piece_ids -> find_piece_cells (render L) pid = filter (fun rc => in_rect (L pid) pid rc.1 rc.2 = true) all_cells.
Proof.
  intros Hp. unfold find_piece_cells. apply list_filter_iff_in. intros [r c] Hrc.
  apply elem_of_all_cells in Hrc. simpl. rewrite kcell_render by lia. by apply owner_iff.
Qed.

Lemma piece_top_left_render_eq pid : pid ∈ piece_ids -> piece_top_left (render L) pid = Some (L pid).
Proof.
  intros Hp. unfold piece_top_left. rewrite find_piece_cells_render by done.
  apply top_left_rect; auto using valid_in_board.
Qed.

(** The cells of a rectangle on the board hold nothing but [0] and [pid]
    exactly when no other piece overlaps it. *)
Lemma rect_free_iff pid p w h :
  pid ∈ piece_ids -> PIECES pid = Some (w, h) -> in_board pid p = true ->
  forallb (fun r => forallb (fun c => let v := kcell (render L) r c in (v =? 0) || (v =? pid))
                              (zrange p.2 (p.2 + w))) (zrange p.1 (p.1 + h)) = true <->
  forall qid, qid ∈ piece_ids -> qid <> pid -> rects_apart pid p qid (L qid) = true.
Proof.
  intros Hp E Hb. rewrite forallb_forall. setoid_rewrite forallb_forall.
  setoid_rewrite <- list_elem_of_In. setoid_rewrite elem_of_zrange. split.
  - intros Hall q Hq Hne. apply rects_apart_cells; [done|done|]. intros (r & c & H1 & H2).
    pose proof (in_board_rect _ _ _ _ Hb H1). apply (in_rect_iff _ _ _ _ _ _ E) in H1.
    specialize (Hall r ltac:(lia) c ltac:(lia)). rewrite kcell_render in Hall by lia.
    apply owner_iff in H2; [|done]. rewrite H2 in Hall. apply piece_ids_pos in Hq.
    apply orb_true_iff in Hall as [Hall|Hall]; apply Z.eqb_eq in Hall; lia.
  - intros Hap r Hr c Hc. assert (in_rect p pid r c = true) as Hin by (apply (in_rect_iff _ _ _ _ _ _ E); lia).
    pose proof (in_board_rect _ _ _ _ Hb Hin). rewrite kcell_render by lia.
    destruct (owner_cases L r c) as [[-> _]|[Ho Hr']]; [done|].
    destruct (decide (owner L r c = pid)) as [->|Hne]; [by rewrite Z.eqb_refl, orb_true_r|].
    exfalso. apply (proj1 (rects_apart_cells _ _ _ _ Hp Ho) (Hap _ Ho Hne)). eauto.
Qed.

Lemma can_move_render_eq pid dr dc : pid ∈ piece_ids -> can_move (render L) pid dr dc = Some (legal_move L pid dr dc).
Proof.
  intros Hp. unfold can_move. rewrite piece_top_left_render_eq by done.
  destruct (pieces_dims pid Hp) as (w & h & E & ?). destruct (L pid) as [pr pc] eqn:EL.
  rewrite E. unfold legal_move. rewrite EL. simpl. rewrite (can_move_bounds _ _ _ _ _ E).
  destruct (in_board pid (pr + dr, pc + dc)) eqn:Eb; [simpl; f_equal|done].
  apply Bool.eq_iff_eq_true. rewrite (rect_free_iff pid (pr + dr, pc + dc) w h Hp E Eb).
  symmetry. exact (forallb_others (fun qid => rects_apart pid (pr + dr, pc + dc) qid (L qid)) pid).
Qed.
End ValidLayout.

Lemma in_rect_nat a b pid w h r c :
  PIECES pid = Some (w, h) -> 0 <= a -> 0 <= b -> 0 <= w -> 0 <= h ->
  in_rect (a, b) pid (Z.of_nat r) (Z.of_nat c) =
  bool_decide (Z.to_nat a <= r < Z.to_nat a + Z.to_nat h /\ Z.to_nat b <= c < Z.to_nat b + Z.to_nat w)%nat.
Proof.
  intros E ????. apply Bool.eq_iff_eq_true. rewrite (in_rect_iff _ _ _ _ _ _ E), bool_decide_eq_true. simpl. lia.
Qed.

(** [owner] depends on the layout only through the rectangles over the cell. *)
Lemma owner_ext L1 L2 r c :
  (forall q, q ∈ piece_ids -> in_rect (L1 q) q r c = in_rect (L2 q) q r c) -> owner L1 r c = owner L2 r c.
Proof. intros H. unfold owner. by rewrite (find_ext_in _ (fun pid => in_rect (L2 pid) pid r c)). Qed.

Lemma layout_set_eq L pid p : layout_set L pid p pid = p.
Proof. unfold layout_set. by rewrite bool_decide_eq_true_2. Qed.

Lemma layout_set_ne L pid p q : q <> pid -> layout_set L pid p q = L q.
Proof. intros. unfold layout_set. by rewrite bool_decide_eq_false_2. Qed.

Section MoveLayout.
Context (L : layout) (HL : valid_layout L = true).

(** A legal move keeps the layout valid. *)
Lemma legal_move_valid pid dr dc :
  pid ∈ piece_ids -> legal_move L pid dr dc = true ->
  valid_layout (layout_set L pid ((L pid).1 + dr, (L pid).2 + dc)) = true.
Proof.
  intros Hp Hl. set (p' := ((L pid).1 + dr, (L pid).2 + dc)). unfold legal_move in Hl. fold p' in Hl.
  apply andb_true_iff in Hl as [Hb Hf]. pose proof (proj1 (forallb_others (fun qid => rects_apart pid p' qid (L qid)) pid) Hf) as Ho.
  unfold valid_layout. apply andb_true_iff. split; apply forallb_forall; intros q1 Hq1; apply list_elem_of_In in Hq1.
  - destruct (decide (q1 = pid)) as [->|Hne]; [by rewrite layout_set_eq|]. rewrite layout_set_ne by done. by apply valid_in_board.
  - apply (proj2 (forallb_others (fun qid => rects_apart q1 (layout_set L pid p' q1) qid (layout_set L pid p' qid)) q1)).
    intros q2 Hq2 Hne. destruct (decide (q1 = pid)) as [->|H1], (decide (q2 = pid)) as [->|H2]; try done.
    + rewrite layout_set_eq, layout_set_ne by done. auto.
    + rewrite layout_set_eq, layout_set_ne, rects_apart_sym by done. auto.
    + rewrite !layout_set_ne by done. by apply valid_apart.
Qed.

(** The two loops of [move_piece] redraw the board of the moved layout. *)
Lemma fill_rect_move pid dr dc w h :
  pid ∈ piece_ids -> PIECES pid = Some (w, h) -> legal_move L pid dr dc = true ->
  fill_rect (fill_rect (render L) (Z.to_nat (L pid).1) (Z.to_nat h) (Z.to_nat (L pid).2) (Z.to_nat w) 0)
            (Z.to_nat ((L pid).1 + dr)) (Z.to_nat h) (Z.to_nat ((L pid).2 + dc)) (Z.to_nat w) pid =
  render (layout_set L pid ((L pid).1 + dr, (L pid).2 + dc)).
Proof.
  intros Hp E Hl. pose proof (legal_move_valid pid dr dc Hp Hl) as HL'.
  set (p' := ((L pid).1 + dr, (L pid).2 + dc)) in *. set (L' := layout_set L pid p') in *.
  pose proof (valid_in_board L HL pid Hp) as Hb0. apply (in_board_iff _ _ _ _ E) in Hb0.
  pose proof (valid_in_board L' HL' pid Hp) as Hb1. unfold L' in Hb1. rewrite layout_set_eq in Hb1.
  apply (in_board_iff _ _ _ _ E) in Hb1. destruct (pieces_dims pid Hp) as (w' & h' & E' & ?). rewrite E in E'. injection E' as Ew Eh. subst w' h'.
  unfold BR, BC in *. simpl in Hb1.
  destruct (fill_rect_spec 5 4 (render L) (Z.to_nat (L pid).1) (Z.to_nat h) (Z.to_nat (L pid).2) (Z.to_nat w) 0)
    as [S1 C1]; [apply grid_shape_grid_of|lia|lia|].
  destruct (fill_rect_spec 5 4 _ (Z.to_nat ((L pid).1 + dr)) (Z.to_nat h) (Z.to_nat ((L pid).2 + dc)) (Z.to_nat w) pid S1)
    as [S2 C2]; [lia|lia|].
  apply (grid_eq 5 4); [done|apply grid_shape_grid_of|]. intros r c Hr Hc.
  rewrite C2, C1. unfold render. rewrite !cell_grid_of by lia.
  unfold L', p' in *. destruct (L pid) as [pr pc] eqn:EL. simpl in *.
  rewrite <- (in_rect_nat (pr + dr) (pc + dc) pid w h r c E) by lia.
  rewrite <- (in_rect_nat pr pc pid w h r c E) by lia.
  destruct (in_rect (pr + dr, pc + dc) pid _ _) eqn:Enew.
  { symmetry. apply (owner_iff _ HL'); [done|]. by rewrite layout_set_eq. }
  destruct (in_rect (pr, pc) pid _ _) eqn:Eold.
  - destruct (owner_cases (layout_set L pid (pr + dr, pc + dc)) (Z.of_nat r) (Z.of_nat c)) as [[-> _]|[Ho Hin]]; [done|]. exfalso.
    destruct (decide (owner (layout_set L pid (pr + dr, pc + dc)) (Z.of_nat r) (Z.of_nat c) = pid)) as [He|Hne].
    + rewrite He in Hin. rewrite layout_set_eq in Hin. congruence.
    + rewrite layout_set_ne in Hin by done. apply (owner_iff L HL) in Hin; [|done].
      rewrite <- EL in Eold. apply (owner_iff L HL) in Eold; [|done]. congruence.
  - apply owner_ext. intros q Hq. destruct (decide (q = pid)) as [->|Hne].
    + rewrite layout_set_eq, EL. by rewrite Enew.
    + by rewrite layout_set_ne.
Qed.
End MoveLayout.

Lemma move_piece_render_eq L pid dr dc :
  valid_layout L = true -> pid ∈ piece_ids ->
  move_piece (render L) pid dr dc =
  Some (if legal_move L pid dr dc then (render (layout_set L pid ((L pid).1 + dr, (L pid).2 + dc)), true)
        else (render L, false)).
Proof.
  intros HL Hp. unfold move_piece. rewrite (can_move_render_eq L HL pid dr dc Hp).
  destruct (legal_move L pid dr dc) eqn:Hl; [|done].
  rewrite (piece_top_left_render_eq L HL pid Hp). destruct (pieces_dims pid Hp) as (w & h & E & ?).
  pose proof (valid_in_board L HL pid Hp) as Hb. apply (in_board_iff _ _ _ _ E) in Hb.
  rewrite <- (fill_rect_move L HL pid dr dc w h Hp E Hl). destruct (L pid) as [pr pc]. rewrite E. simpl in *.
  rewrite (proj2 (Z.ltb_ge BR _)), (proj2 (Z.ltb_ge BC _)) by lia. done.
Qed.

Lemma puzzle_layouts i :
  (i < 5)%nat -> valid_layout (PUZZLE_LAYOUTS !!! i) = true /\ PUZZLES !!! i = render (PUZZLE_LAYOUTS !!! i).
Proof. intros Hi. do 5 (destruct i as [|i]; [split; vm_compute; reflexivity|]). lia. Qed.

Lemma start_inv p : 0 <= p < Z.of_nat (length PUZZLES) -> kinv (start p).
Proof.
  intros Hp. simpl in Hp. destruct (puzzle_layouts (Z.to_nat p)) as [HL Eb]; [lia|].
  split; [exists (PUZZLE_LAYOUTS !!! Z.to_nat p); done|]. unfold BR, BC. simpl. naive_solver lia.
Qed.

Lemma pick_step_range p e p' :
  0 <= p < Z.of_nat (length PUZZLES) -> pick_step p e = PickStay p' \/ pick_step p e = PickStart p' \/ pick_step p e = PickExit p' ->
  0 <= p' < Z.of_nat (length PUZZLES).
Proof.
  destruct e as [[[pu pd] pl] pr]. simpl. intros Hp.
  destruct pl; [|destruct pr; [|destruct pu; [|destruct pd]]];
    intros [E|[E|E]]; simplify_eq; try (apply Z.mod_pos_bound; lia); lia.
Qed.

Lemma win_step_range p e c p' :
  0 <= p < Z.of_nat (length PUZZLES) -> win_step p e = Some (c, p') -> 0 <= p' < Z.of_nat (length PUZZLES).
Proof.
  destruct e as [[[pu pd] pl] pr]. simpl. intros Hp.
  destruct pu; [|destruct pr; [|destruct pd]]; intros E; simplify_eq; try (apply Z.mod_pos_bound; lia); lia.
Qed.

Lemma pick_reach_range p : pick_reach p -> 0 <= p < Z.of_nat (length PUZZLES).
Proof. induction 1 as [|p e p' _ IH E]; [simpl; lia|]. eapply pick_step_range; eauto. Qed.

Lemma in_board_corner pid p : pid ∈ piece_ids -> in_board pid p = true -> 0 <= p.1 < BR /\ 0 <= p.2 < BC.
Proof.
  intros Hp Hb. destruct (pieces_dims pid Hp) as (w & h & E & ?). apply (in_board_iff _ _ _ _ E) in Hb. lia.
Qed.

(** One turn from a state of the invariant raises nothing and ends in a
    state of the invariant. *)
Lemma ktick_inv s e act : kinv s -> exists r, ktick s e act = Some r /\ kinv (kres_state r).
Proof.
  intros (HLb & Hr & Hc & Hg & Hp). destruct HLb as (L & HL & Eb). simpl in Hp.
  destruct act as [[]|]; cbn [ktick].
  - eexists. split; [reflexivity|]. by apply start_inv.
  - eexists. split; [reflexivity|]. split; [by exists L|]. cbn. repeat split; try lia.
    intros g. destruct (grabbed s); [done|]. unfold pid_under_cursor. case_bool_decide as Hz; [done|].
    intros [= <-]. rewrite Eb, kcell_render in * by lia.
    destruct (owner_cases L (cur_r s) (cur_c s)) as [[]|[]]; [contradiction|done].
  - destruct (grabbed s) as [g|] eqn:Eg.
    + pose proof (Hg g eq_refl) as Hgp. destruct (edge_dir e) as [[dr dc]|].
      2: { exists (KNext s). split; [done|]. split; [by exists L|]. cbn. repeat split; try lia. intros ??; apply Hg; congruence. }
      rewrite Eb, (move_piece_render_eq L g dr dc) by done. destruct (legal_move L g dr dc) eqn:Hl.
      * pose proof (legal_move_valid L HL g dr dc Hgp Hl) as HL'.
        rewrite (piece_top_left_render_eq _ HL' g Hgp), layout_set_eq.
        pose proof (in_board_corner g _ Hgp (valid_in_board _ HL' g Hgp)) as Hcorner.
        rewrite layout_set_eq in Hcorner. eexists. split; [reflexivity|].
        destruct (is_win _); (split; [eexists; split; [exact HL'|reflexivity]|]); cbn in *; naive_solver.
      * eexists. split; [reflexivity|]. split; [by exists L|]. cbn. naive_solver.
    + destruct e as [[[pu pd] pl] pr]. unfold BR, BC in *.
      destruct pu, pd, pl, pr; (eexists; split; [reflexivity|]); (split; [by exists L|]); cbn; unfold BR, BC;
        repeat split; try lia; try (apply Z.mod_pos_bound; lia); intros; congruence.
Qed.

(** Every state of the game loop satisfies the invariant. *)
Lemma kreach_inv s : kreach s -> kinv s.
Proof.
  induction 1 as [p e Hp E|s e act s' _ IH E|s e act s' e' c p _ IH E Ew _].
  - apply start_inv. by apply pick_reach_range.
  - destruct (ktick_inv s e act IH) as (r & E' & Hr). rewrite E in E'. by simplify_eq.
  - destruct (ktick_inv s e act IH) as (r & E' & Hr). rewrite E in E'. simplify_eq.
    apply start_inv. eapply win_step_range; [|exact Ew]. apply Hr.
Qed.

(** ** Properties of the game *)

(** C7: On the board of a valid layout, [move_piece] moves one rectangle:
    it returns the board of the layout in which piece [pid] has moved by
    [(dr, dc)] when the move is legal (on the board, onto no other piece),
    and the board unchanged with [False] otherwise; it never raises. *)
Theorem move_piece_refines L pid dr dc :
  valid_layout L = true -> pid ∈ piece_ids ->
  move_piece (render L) pid dr dc =
  Some (if legal_move L pid dr dc then (render (layout_set L pid ((L pid).1 + dr, (L pid).2 + dc)), true)
        else (render L, false)).
Proof. apply move_piece_render_eq. Qed.

Lemma move_piece_refines_witness :
  (valid_layout (PUZZLE_LAYOUTS !!! 0%nat) = true /\ 7 ∈ piece_ids) /\
  move_piece (render (PUZZLE_LAYOUTS !!! 0%nat)) 7 1 0 =
  Some (if legal_move (PUZZLE_LAYOUTS !!! 0%nat) 7 1 0
        then (render (layout_set (PUZZLE_LAYOUTS !!! 0%nat) 7 (((PUZZLE_LAYOUTS !!! 0%nat) 7).1 + 1, ((PUZZLE_LAYOUTS !!! 0%nat) 7).2 + 0)), true)
        else (render (PUZZLE_LAYOUTS !!! 0%nat), false)).
Proof.
  assert (H1 : valid_layout (PUZZLE_LAYOUTS !!! 0%nat) = true) by (vm_compute; reflexivity).
  assert (H2 : 7 ∈ piece_ids) by (apply list_elem_of_In; simpl; tauto).
  split; [split; [exact H1|exact H2]|exact (move_piece_refines _ 7 1 0 H1 H2)].
Defined.

(** On the board of a valid layout, [can_move] answers whether the
    move is legal for the layout, and never raises [KeyError]. *)
Theorem can_move_refines L pid dr dc :
  valid_layout L = true -> pid ∈ piece_ids -> can_move (render L) pid dr dc = Some (legal_move L pid dr dc).
Proof. intros HL. apply (can_move_render_eq L HL). Qed.

Lemma can_move_refines_witness :
  (valid_layout (PUZZLE_LAYOUTS !!! 0%nat) = true /\ 1 ∈ piece_ids) /\
  can_move (render (PUZZLE_LAYOUTS !!! 0%nat)) 1 1 0 = Some (legal_move (PUZZLE_LAYOUTS !!! 0%nat) 1 1 0).
Proof.
  assert (H1 : valid_layout (PUZZLE_LAYOUTS !!! 0%nat) = true) by (vm_compute; reflexivity).
  assert (H2 : 1 ∈ piece_ids) by (apply list_elem_of_In; simpl; tauto).
  split; [split; [exact H1|exact H2]|exact (can_move_refines _ 1 1 0 H1 H2)].
Defined.

(** A legal move of a piece of a valid layout leaves a valid layout:
    every piece on the board, no two overlapping. *)
Theorem legal_move_preserves_valid L pid dr dc :
  valid_layout L = true -> pid ∈ piece_ids -> legal_move L pid dr dc = true ->
  valid_layout (layout_set L pid ((L pid).1 + dr, (L pid).2 + dc)) = true.
Proof. intros HL. apply (legal_move_valid L HL). Qed.

Lemma legal_move_preserves_valid_witness :
  (valid_layout (PUZZLE_LAYOUTS !!! 0%nat) = true /\ 7 ∈ piece_ids /\ legal_move (PUZZLE_LAYOUTS !!! 0%nat) 7 1 0 = true) /\
  valid_layout (layout_set (PUZZLE_LAYOUTS !!! 0%nat) 7 (((PUZZLE_LAYOUTS !!! 0%nat) 7).1 + 1, ((PUZZLE_LAYOUTS !!! 0%nat) 7).2 + 0)) = true.
Proof.
  assert (H1 : valid_layout (PUZZLE_LAYOUTS !!! 0%nat) = true) by (vm_compute; reflexivity).
  assert (H2 : 7 ∈ piece_ids) by (apply list_elem_of_In; simpl; tauto).
  assert (H3 : legal_move (PUZZLE_LAYOUTS !!! 0%nat) 7 1 0 = true) by (vm_compute; reflexivity).
  split; [auto|exact (legal_move_preserves_valid _ 7 1 0 H1 H2 H3)].
Defined.

(** On the board of a valid layout, [piece_top_left] finds the corner
    of every piece, and [is_win] holds exactly when Cao Cao's corner is at
    row 3, column 1. *)
Theorem piece_top_left_render L pid :
  valid_layout L = true -> pid ∈ piece_ids ->
  piece_top_left (render L) pid = Some (L pid) /\ is_win (render L) = bool_decide (L 1 = (3, 1)).
Proof.
  intros HL Hp. split; [by apply piece_top_left_render_eq|].
  unfold is_win. rewrite piece_top_left_render_eq by (done || (apply list_elem_of_In; simpl; tauto)).
  repeat case_bool_decide; congruence.
Qed.

Lemma piece_top_left_render_witness :
  (valid_layout (PUZZLE_LAYOUTS !!! 2%nat) = true /\ 4 ∈ piece_ids) /\
  piece_top_left (render (PUZZLE_LAYOUTS !!! 2%nat)) 4 = Some ((PUZZLE_LAYOUTS !!! 2%nat) 4) /\
  is_win (render (PUZZLE_LAYOUTS !!! 2%nat)) = bool_decide ((PUZZLE_LAYOUTS !!! 2%nat) 1 = (3, 1)).
Proof.
  assert (H1 : valid_layout (PUZZLE_LAYOUTS !!! 2%nat) = true) by (vm_compute; reflexivity).
  assert (H2 : 4 ∈ piece_ids) by (apply list_elem_of_In; simpl; tauto).
  split; [split; [exact H1|exact H2]|exact (piece_top_left_render _ 4 H1 H2)].
Defined.

(** Each of the five puzzles passes [validate_board] and is the board
    of a valid layout, so [main()] starts every puzzle. *)
Theorem puzzles_valid i :
  (i < length PUZZLES)%nat ->
  validate_board (PUZZLES !!! i) = true /\ valid_layout (PUZZLE_LAYOUTS !!! i) = true /\
  PUZZLES !!! i = render (PUZZLE_LAYOUTS !!! i).
Proof.
  intros Hi. simpl in Hi. destruct (puzzle_layouts i Hi) as [HL Eb]. split; [|done].
  do 5 (destruct i as [|i]; [vm_compute; reflexivity|]). lia.
Qed.

Lemma puzzles_valid_witness :
  (3 < length PUZZLES)%nat /\
  validate_board (PUZZLES !!! 3%nat) = true /\ valid_layout (PUZZLE_LAYOUTS !!! 3%nat) = true /\
  PUZZLES !!! 3%nat = render (PUZZLE_LAYOUTS !!! 3%nat).
Proof. assert (H : (3 < length PUZZLES)%nat) by (simpl; lia). split; [exact H|exact (puzzles_valid 3 H)]. Defined.

(** C8: In every state the game loop reaches (from the title menu, through
    turns, resets and the win menu), one more turn raises no exception and
    keeps the board a valid layout, the cursor on the board, the grabbed id
    a piece and the puzzle index in range. *)
Theorem klotski_reachable_safe s e act :
  kreach s -> exists r, ktick s e act = Some r /\ kinv (kres_state r).
Proof. intros H. apply ktick_inv, kreach_inv, H. Qed.

Lemma klotski_reachable_safe_witness :
  kreach (start 0) /\ exists r, ktick (start 0) (false, true, false, false) None = Some r /\ kinv (kres_state r).
Proof.
  assert (H : kreach (start 0)) by (apply (kreach_start 0 (true, false, false, false)); [constructor|reflexivity]).
  split; [exact H|exact (klotski_reachable_safe _ _ _ H)].
Defined.

(** A board that [validate_board] accepts although piece 6 is split in two
    cells that are not its rectangle. *)
Definition broken_board : KBoard :=
  [[2; 1; 1; 5]; [2; 1; 1; 5]; [3; 8; 7; 6]; [3; 9; 6; 10]; [4; 4; 0; 0]].

(** [validate_board] checks only the number of cells of each piece:
    it accepts [broken_board], on which moving piece 6 down erases piece 7
    and leaves a board that [validate_board] rejects. *)
Theorem validate_board_area_only :
  validate_board broken_board = true /\
  move_piece broken_board 6 1 0 = Some ([[2; 1; 1; 5]; [2; 1; 1; 5]; [3; 8; 0; 6]; [3; 9; 6; 10]; [4; 4; 6; 0]], true) /\
  validate_board [[2; 1; 1; 5]; [2; 1; 1; 5]; [3; 8; 0; 6]; [3; 9; 6; 10]; [4; 4; 6; 0]] = false.
Proof. vm_compute. repeat split. Qed.

End Klotski.
