(* ===== verification/Minesweeper.v ===== *)
(** * Minesweeper: the 8 x 8 board of [src/minesweeper.py]

    The board is four lists of rows, as [make_empty()] builds them: [mines]
    (bool), [nums] (the number of neighbouring mines, [-1] on a mine),
    [vis] ([COVERED = 0] or [REVEALED = 1]) and [flag] (bool).  The
    operations are translated from lines 159-261: [neighbors] (a generator,
    here the list it yields in order), [place_mines] (its [random] draws are
    an argument [rnd] giving the value of the k-th [getrandbits(16)] call),
    [flood_reveal] (a work-list loop over a stack [q] and a set [seen], with
    fuel: [None] when it runs out), [count_flags], [count_revealed] and
    [is_win].  One turn of [main()] (lines 387-447) is [mtick]; [mturn]
    composes it with [EdgeButtons.update] and [detect_action_chords] of
    [Input], as the loop calls them. *)

From stdpp Require Import gmap.
From S2P Require Import Prelude Grid Input.

Local Open Scope Z_scope.

Module Minesweeper.

Definition ROWS : Z := 8.
Definition COLS : Z := 8.
Definition MINES : Z := 10.

Definition CELL : Z := 7.
Definition GAP : Z := 1.
Definition GRID_W : Z := COLS * CELL + (COLS - 1) * GAP.
Definition GRID_H : Z := ROWS * CELL + (ROWS - 1) * GAP.
Definition GRID_X : Z := (64 - GRID_W) / 2.
Definition GRID_Y : Z := 22.

Definition COVERED : Z := 0.
Definition REVEALED : Z := 1.

Abbreviation BGrid := (list (list bool)).
Abbreviation ZGrid := (list (list Z)).

(** An 8 x 8 grid. *)
Abbreviation mshape := (grid_shape 8 8).

(** [b[r][c]] and [b[r][c] = v] at integer coordinates. *)
Definition mget {A} `{Inhabited A} (b : list (list A)) (r c : Z) : A := cell b (Z.to_nat r) (Z.to_nat c).
Definition mset {A} (b : list (list A)) (r c : Z) (v : A) : list (list A) := set_cell b (Z.to_nat r) (Z.to_nat c) v.

(** [in_bounds(r, c)]. *)
Definition in_bounds (r c : Z) : bool := (0 <=? r) && (r <? ROWS) && (0 <=? c) && (c <? COLS).

(** [neighbors(r, c)]: what the generator yields, in order. *)
Definition neighbors (r c : Z) : list (Z * Z) :=
  flat_map (fun dr => flat_map (fun dc =>
    if (dr =? 0) && (dc =? 0) then []
    else if in_bounds (r + dr) (c + dc) then [(r + dr, c + dc)] else []) [-1; 0; 1]) [-1; 0; 1].

(** All cells, in the order of [for r in range(ROWS): for c in range(COLS)]. *)
Definition board_cells : list (Z * Z) := zrange2 0 ROWS 0 COLS.

(** [[[v]*COLS for _ in range(ROWS)]]. *)
Definition const_grid {A} (v : A) : list (list A) := replicate (Z.to_nat ROWS) (replicate (Z.to_nat COLS) v).

(** [make_empty()]. *)
Definition make_empty : BGrid * ZGrid * ZGrid * BGrid :=
  (const_grid false, const_grid 0, const_grid COVERED, const_grid false).

(** ** Placing the mines *)

(** [blocked]: the cells of the 3 x 3 square around the first revealed
    cell that are on the board. *)
Definition blocked_cells (safe_r safe_c : Z) : gset (Z * Z) :=
  foldl (fun s rc => if in_bounds rc.1 rc.2 then {[rc]} ∪ s else s) ∅
        (zrange2 (safe_r - 1) (safe_r + 2) (safe_c - 1) (safe_c + 2)).

(** [spots]: the cells not blocked, in row-major order. *)
Definition spots_of (blocked : gset (Z * Z)) : list (Z * Z) := filter (fun rc => rc ∉ blocked) board_cells.

(** [while mines_to_place > 0 and spots: idx = random.getrandbits(16) %
    len(spots); r, c = spots.pop(idx); mines[r][c] = True; mines_to_place
    -= 1]; [k] counts the draws. *)
Fixpoint pop_mines (rnd : nat -> Z) (k : nat) (mines_to_place : nat) (spots : list (Z * Z)) (mines : BGrid) : BGrid :=
  match mines_to_place with
  | O => mines
  | S n =>
      match spots with
      | [] => mines
      | _ =>
          let idx := Z.to_nat (rnd k mod Z.of_nat (length spots)) in
          match spots !! idx with
          | Some (r, c) => pop_mines rnd (S k) n (delete idx spots) (mset mines r c true)
          | None => mines
          end
      end
  end.

(** The number of mines around a cell. *)
Definition count_mine_neighbors (mines : BGrid) (r c : Z) : nat :=
  length (filter (fun rc => mget mines rc.1 rc.2 = true) (neighbors r c)).

(** The second double loop of [place_mines]: [-1] on a mine, else the count. *)
Definition compute_nums (mines : BGrid) (nums : ZGrid) : ZGrid :=
  foldl (fun nums rc => mset nums rc.1 rc.2
           (if mget mines rc.1 rc.2 then -1 else Z.of_nat (count_mine_neighbors mines rc.1 rc.2)))
        nums board_cells.

(** [place_mines(mines, nums, safe_r, safe_c)]: the two grids it mutates. *)
Definition place_mines (rnd : nat -> Z) (mines : BGrid) (nums : ZGrid) (safe_r safe_c : Z) : BGrid * ZGrid :=
  let mines' := pop_mines rnd 0 (Z.to_nat MINES) (spots_of (blocked_cells safe_r safe_c)) mines in
  (mines', compute_nums mines' nums).

(** ** Flood fill *)

(** One turn of [for rr, cc in neighbors(r, c)] in [flood_reveal]: skip a
    cell seen, flagged or revealed, else mark it seen and push it. *)
Definition push_neighbor (flag : BGrid) (vis : ZGrid) (acc : list (Z * Z) * gset (Z * Z)) (rc : Z * Z)
    : list (Z * Z) * gset (Z * Z) :=
  let '(q, seen) := acc in
  if decide (rc ∈ seen) then acc
  else if mget flag rc.1 rc.2 then acc
  else if mget vis rc.1 rc.2 =? REVEALED then acc
  else (rc :: q, {[rc]} ∪ seen).

(** [while q: r, c = q.pop(); ...]: the stack [q] has its top first. *)
Fixpoint flood_loop (nums : ZGrid) (flag : BGrid) (fuel : nat) (q : list (Z * Z)) (seen : gset (Z * Z)) (vis : ZGrid)
    : option ZGrid :=
  match fuel with
  | O => None
  | S f =>
      match q with
      | [] => Some vis
      | (r, c) :: q' =>
          if mget flag r c then flood_loop nums flag f q' seen vis
          else
            let vis' := mset vis r c REVEALED in
            if negb (mget nums r c =? 0) then flood_loop nums flag f q' seen vis'
            else
              let '(q'', seen') := foldl (push_neighbor flag vis') (q', seen) (neighbors r c) in
              flood_loop nums flag f q'' seen' vis'
      end
  end.

(** Every cell is pushed at most once, so [ROWS * COLS] pops and a last
    test of the empty stack suffice. *)
Definition FLOOD_FUEL : nat := S (Z.to_nat (ROWS * COLS)).

(** [flood_reveal(nums, vis, flag, start_r, start_c)]: the grid [vis]
    after the loop. *)
Definition flood_reveal (nums : ZGrid) (vis : ZGrid) (flag : BGrid) (start_r start_c : Z) : option ZGrid :=
  flood_loop nums flag FLOOD_FUEL [(start_r, start_c)] {[(start_r, start_c)]} vis.

(** ** Counting *)

Definition count_flags (flag : BGrid) : Z :=
  Z.of_nat (length (filter (fun rc => mget flag rc.1 rc.2 = true) board_cells)).

Definition count_revealed (vis : ZGrid) : Z :=
  Z.of_nat (length (filter (fun rc => mget vis rc.1 rc.2 = REVEALED) board_cells)).

Definition is_win (vis : ZGrid) : bool := count_revealed vis =? ROWS * COLS - MINES.

(** ** One turn of [main()] *)

Record mstate := mkM {
  mines : BGrid; nums : ZGrid; vis : ZGrid; flag : BGrid;
  cur_r : Z; cur_c : Z; started : bool; start_ms : Z; last_action_ms : Z }.

(** A new game: [make_empty()], the cursor at (0, 0), not started. *)
Definition new_game : mstate :=
  let '(m, n, v, f) := make_empty in mkM m n v f 0 0 false 0 0.

(** How a turn ends: the next turn, the BOOM screen, the CLEARED screen, or
    [restart] (back to the title screen). *)
Inductive mresult := MNext (s : mstate) | MBoom (s : mstate) | MCleared (s : mstate) | MRestart.

(** The cursor update of the loop from the edges of [eb.update()]. *)
Definition move_cursor (e : bool * bool * bool * bool) (r c : Z) : Z * Z :=
  let '(pu, pd, pl, pr) := e in
  if pu then ((r - 1) mod ROWS, c) else if pd then ((r + 1) mod ROWS, c)
  else if pl then (r, (c - 1) mod COLS) else if pr then (r, (c + 1) mod COLS) else (r, c).

(** [if not started: place_mines(mines, nums, cur_r, cur_c); started =
    True; start_ms = time.ticks_ms()]: the grids, [started] and [start_ms]
    after it. *)
Definition first_mines (rnd : nat -> Z) (now : Z) (s : mstate) : BGrid * ZGrid * bool * Z :=
  if started s then (mines s, nums s, true, start_ms s)
  else let '(ms, ns) := place_mines rnd (mines s) (nums s) (cur_r s) (cur_c s) in (ms, ns, true, now).

(** The reveal branch, at the cursor [(r, c)], at time [now]. *)
Definition reveal_at (rnd : nat -> Z) (now : Z) (s : mstate) : option mresult :=
  let r := cur_r s in let c := cur_c s in
  if (mget (vis s) r c =? COVERED) && negb (mget (flag s) r c) then
    let '(ms, ns, st, t0) := first_mines rnd now s in
    let s1 := mkM ms ns (vis s) (flag s) r c st t0 (last_action_ms s) in
    if mget ms r c then
      Some (MBoom (mkM ms ns (mset (vis s) r c REVEALED) (flag s) r c st t0 (last_action_ms s)))
    else
      let vis' := if mget ns r c =? 0 then flood_reveal ns (vis s) (flag s) r c
                  else Some (mset (vis s) r c REVEALED) in
      match vis' with
      | None => None
      | Some v =>
          let s2 := mkM ms ns v (flag s) r c st t0 (last_action_ms s) in
          Some (if is_win v then MCleared s2 else MNext s2)
      end
  else Some (MNext s).

(** One turn after [render_game]: the edges, then the chord action [act]
    returned at time [now]; [None] when [flood_reveal] runs out of fuel. *)
Definition mtick (s : mstate) (e : bool * bool * bool * bool) (act : option MsAction) (now : Z) (rnd : nat -> Z)
    : option mresult :=
  let '(r, c) := move_cursor e (cur_r s) (cur_c s) in
  let la := if act then now else last_action_ms s in
  let s0 := mkM (mines s) (nums s) (vis s) (flag s) r c (started s) (start_ms s) la in
  match act with
  | Some Restart => Some MRestart
  | Some Flag =>
      Some (MNext (if mget (vis s0) r c =? COVERED
                   then mkM (mines s0) (nums s0) (vis s0) (mset (flag s0) r c (negb (mget (flag s0) r c)))
                            r c (started s0) (start_ms s0) la
                   else s0))
  | Some Reveal => reveal_at rnd now s0
  | None => Some (MNext s0)
  end.

(** The loop's calls in order: [eb.update()] on the levels at [T],
    [detect_action_chords(last_action_ms)] from [T], then the turn at the
    time the detector returns. *)
Definition mturn (env : Z -> levels) (fuel : nat) (rnd : nat -> Z) (eb : EdgeButtons.t) (s : mstate) (T : Z)
    : option (EdgeButtons.t * mresult * Z) :=
  let '(eb', e) := EdgeButtons.update eb (env T) in
  match detect_action_chords env fuel (last_action_ms s) T with
  | None => None
  | Some (act, T') =>
      match mtick s e act (ticks_ms T') rnd with
      | None => None
      | Some res => Some (eb', res, T')
      end
  end.

(** ** What the loop keeps *)

(** The number of mines on the board. *)
Definition count_mines (mines : BGrid) : nat := length (filter (fun rc => mget mines rc.1 rc.2 = true) board_cells).

(** [nums] holds what [place_mines] computed from [mines]. *)
Definition consistent (mines : BGrid) (nums : ZGrid) : Prop :=
  forall r c, in_bounds r c = true ->
    mget nums r c = if mget mines r c then -1 else Z.of_nat (count_mine_neighbors mines r c).

(** [vis'] is [vis] with some more cells revealed, none of them a mine or
    flagged. *)
Definition reveals (mines : BGrid) (flag : BGrid) (vis vis' : ZGrid) : Prop :=
  forall r c, in_bounds r c = true ->
    mget vis' r c = mget vis r c \/
    (mget vis' r c = REVEALED /\ mget mines r c = false /\ mget flag r c = false).

(** The invariant of the game loop: four 8 x 8 grids, the cursor on the
    board, every cell covered or revealed, no revealed cell flagged or a
    mine; before the first reveal no mine and nothing revealed, after it
    [MINES] mines and [nums] computed from them. *)
Definition minv (s : mstate) : Prop :=
  mshape (mines s) /\ mshape (nums s) /\ mshape (vis s) /\ mshape (flag s) /\
  in_bounds (cur_r s) (cur_c s) = true /\
  (forall r c, in_bounds r c = true ->
     (mget (vis s) r c = COVERED \/ mget (vis s) r c = REVEALED) /\
     (mget (vis s) r c = REVEALED -> mget (flag s) r c = false /\ mget (mines s) r c = false)) /\
  (if started s then consistent (mines s) (nums s) /\ count_mines (mines s) = Z.to_nat MINES
   else forall r c, in_bounds r c = true -> mget (mines s) r c = false /\ mget (vis s) r c = COVERED).

(** What a turn from a state of the invariant ends with: the next turn
    and the CLEARED screen keep the invariant, CLEARED with every cell
    without a mine revealed, and BOOM only on a mine under the cursor. *)
Definition mpost (res : mresult) : Prop :=
  match res with
  | MNext s' => minv s'
  | MCleared s' => minv s' /\
      forall r c, in_bounds r c = true -> mget (mines s') r c = false -> mget (vis s') r c = REVEALED
  | MBoom s' => mget (mines s') (cur_r s') (cur_c s') = true
  | MRestart => True
  end.

(** The states at the top of the game loop: a new game after the title
    screen, then turn after turn; BOOM, CLEARED and [restart] lead back to
    a new game (through [end_screen] or the title screen). *)
Inductive mreach : mstate -> Prop :=
| mreach_new : mreach new_game
| mreach_next s e act now rnd s' : mreach s -> mtick s e act now rnd = Some (MNext s') -> mreach s'.

(** ** Concrete inputs for the examples *)

(** Draws of [getrandbits(16)]. *)
Definition demo_rnd (k : nat) : Z := (Z.of_nat k * 7919 + 13) mod 65536.

(** The game after a first reveal at (0, 0). *)
Definition demo_started : mstate :=
  match mtick new_game (false, false, false, false) (Some Reveal) 500 demo_rnd with
  | Some (MNext s) => s
  | _ => new_game
  end.

(** Up and down pressed together at 1000 ms and released at 1050 ms. *)
Definition demo_chord (t : Z) : levels := if t <? 1050 then mkLevels 0 0 1 1 else mkLevels 1 1 1 1.

(** ** The board *)

Lemma in_bounds_iff r c : in_bounds r c = true <-> 0 <= r < ROWS /\ 0 <= c < COLS.
Proof. unfold in_bounds. rewrite !andb_true_iff, !Z.leb_le, !Z.ltb_lt. tauto. Qed.

Lemma elem_of_board_cells r c : (r, c) ∈ board_cells <-> in_bounds r c = true.
Proof. unfold board_cells. rewrite elem_of_zrange2, in_bounds_iff. done. Qed.

Lemma NoDup_board_cells : NoDup board_cells.
Proof. eapply bool_decide_unpack. vm_compute. reflexivity. Qed.

Lemma Forall_board_cells (P : Z * Z -> Prop) :
  (forall r c, in_bounds r c = true -> P (r, c)) -> Forall P board_cells.
Proof. intros H. apply Forall_forall. intros [r c] Hrc. apply H, elem_of_board_cells, Hrc. Qed.

Section Cells.
Context {A : Type} `{Inhabited A}.
Implicit Types b : list (list A).

Lemma mget_mset b r c v r' c' :
  mshape b -> in_bounds r c = true -> in_bounds r' c' = true ->
  mget (mset b r c v) r' c' = if decide ((r, c) = (r', c')) then v else mget b r' c'.
Proof.
  intros Hs Hb Hb'. apply in_bounds_iff in Hb, Hb'. unfold mget, mset, ROWS, COLS in *.
  rewrite (cell_set_cell_in 8 8) by (done || lia). case_decide as E; case_bool_decide as E2; try done;
    exfalso; [injection E as <- <-; lia|apply E; f_equal; lia].
Qed.

Lemma mshape_mset b r c v : mshape b -> mshape (mset b r c v).
Proof. apply grid_shape_set_cell. Qed.

Lemma mshape_const_grid (v : A) : mshape (const_grid v).
Proof.
  unfold const_grid. split; [by rewrite length_replicate|]. apply Forall_replicate. by rewrite length_replicate.
Qed.

Lemma mget_const_grid (v : A) r c : in_bounds r c = true -> mget (const_grid v) r c = v.
Proof.
  intros Hb. apply in_bounds_iff in Hb. unfold mget, cell, const_grid, ROWS, COLS in *.
  rewrite !lookup_total_replicate_2 by lia. done.
Qed.

(** A fold that writes [f rc] into each cell [rc] of a list without
    repetitions, [f] not reading the grid. *)
Lemma foldl_mset_spec (f : Z * Z -> A) (l : list (Z * Z)) b :
  mshape b -> NoDup l -> Forall (fun rc => in_bounds rc.1 rc.2 = true) l ->
  mshape (foldl (fun g rc => mset g rc.1 rc.2 (f rc)) b l) /\
  forall r c, in_bounds r c = true ->
    mget (foldl (fun g rc => mset g rc.1 rc.2 (f rc)) b l) r c = if decide ((r, c) ∈ l) then f (r, c) else mget b r c.
Proof.
  revert b. induction l as [|[r0 c0] l IH]; intros b Hs Hnd Hl.
  { split; [done|]. intros r c _. rewrite decide_False; [done|]. apply not_elem_of_nil. }
  apply NoDup_cons in Hnd as [Hn Hnd]. apply Forall_cons in Hl as [H0 Hl]. cbn [foldl].
  destruct (IH (mset b r0 c0 (f (r0, c0)))) as [Hs' Hc]; [by apply mshape_mset|done|done|].
  split; [done|]. intros r c Hb. rewrite Hc, mget_mset by done.
  repeat case_decide; simplify_eq; try done; set_solver.
Qed.
End Cells.

Lemma neighbors_in_bounds r c : Forall (fun rc => in_bounds rc.1 rc.2 = true) (neighbors r c).
Proof.
  apply Forall_forall. intros [rr cc] Hx. unfold neighbors in Hx. apply list_elem_of_In in Hx.
  apply in_flat_map in Hx as (dr & _ & Hx). apply in_flat_map in Hx as (dc & _ & Hx).
  destruct ((dr =? 0) && (dc =? 0)); [done|].
  destruct (in_bounds (r + dr) (c + dc)) eqn:E; [|done]. by destruct Hx as [[= <- <-]|[]].
Qed.

(** ** [flood_reveal] terminates *)

Definition all_cells_set : gset (Z * Z) := list_to_set board_cells.

Lemma size_all_cells_set : size all_cells_set = 64%nat.
Proof. vm_compute. reflexivity. Qed.

Lemma in_all_cells_set rc : in_bounds rc.1 rc.2 = true -> rc ∈ all_cells_set.
Proof. destruct rc as [r c]. intros Hb. apply elem_of_list_to_set, elem_of_board_cells, Hb. Qed.

(** The pushes of one cell: only new cells on the board, each one growing
    [seen] and the stack together. *)
Lemma push_fold flag vis l q seen :
  Forall (fun rc => in_bounds rc.1 rc.2 = true) l -> Forall (fun rc => in_bounds rc.1 rc.2 = true) q ->
  seen ⊆ all_cells_set ->
  let '(q', seen') := foldl (push_neighbor flag vis) (q, seen) l in
  Forall (fun rc => in_bounds rc.1 rc.2 = true) q' /\ seen ⊆ seen' /\ seen' ⊆ all_cells_set /\
  (length q' + size seen = length q + size seen')%nat.
Proof.
  revert q seen. induction l as [|x l IH]; intros q seen Hl Hq Hs; [simpl; done|].
  apply Forall_cons in Hl as [Hx Hl]. cbn [foldl]. unfold push_neighbor at 2.
  destruct (decide (x ∈ seen)); [by apply IH|]. destruct (mget flag x.1 x.2); [by apply IH|].
  destruct (mget vis x.1 x.2 =? REVEALED); [by apply IH|].
  pose proof (IH (x :: q) ({[x]} ∪ seen) Hl) as Hrec.
  destruct (foldl _ _ l) as [q' seen']. destruct Hrec as (Hq' & Hss & Hs' & Hlen).
  { by constructor. }
  { apply union_subseteq. split; [|done]. apply singleton_subseteq_l, in_all_cells_set, Hx. }
  split; [done|]. split; [set_solver|]. split; [done|].
  rewrite size_union in Hlen by set_solver. rewrite size_singleton in Hlen. simpl in Hlen. lia.
Qed.

Lemma flood_loop_some nums flag fuel q seen vis :
  Forall (fun rc => in_bounds rc.1 rc.2 = true) q -> seen ⊆ all_cells_set ->
  (length q + (64 - size seen) < fuel)%nat -> is_Some (flood_loop nums flag fuel q seen vis).
Proof.
  revert q seen vis. induction fuel as [|f IH]; intros q seen vis Hq Hs Hf; [lia|].
  destruct q as [|[r c] q']; [by eexists|]. apply Forall_cons in Hq as [Hx Hq]. cbn [flood_loop length] in *.
  destruct (mget flag r c); [apply IH; [done|done|lia]|].
  destruct (negb _); [apply IH; [done|done|lia]|].
  pose proof (push_fold flag (mset vis r c REVEALED) (neighbors r c) q' seen (neighbors_in_bounds r c) Hq Hs) as Hp.
  destruct (foldl _ _ _) as [q'' seen']. destruct Hp as (Hq'' & Hss & Hs' & Hlen).
  apply IH; [done|done|]. pose proof (subseteq_size _ _ Hss). pose proof (subseteq_size _ _ Hs').
  rewrite size_all_cells_set in *. lia.
Qed.

(** ** [flood_reveal] reveals no mine *)

Lemma reveals_refl mines flag vis : reveals mines flag vis vis.
Proof. intros r c _. by left. Qed.

Lemma reveals_trans mines flag v1 v2 v3 :
  reveals mines flag v1 v2 -> reveals mines flag v2 v3 -> reveals mines flag v1 v3.
Proof. intros H12 H23 r c Hb. destruct (H23 r c Hb) as [E|E]; [rewrite E; auto|by right]. Qed.

Lemma reveals_mset mines flag vis r c :
  mshape vis -> in_bounds r c = true -> mget mines r c = false -> mget flag r c = false ->
  reveals mines flag vis (mset vis r c REVEALED).
Proof.
  intros Hs Hb Hm Hf r' c' Hb'. rewrite mget_mset by done.
  case_decide as E; [injection E as <- <-; by right|by left].
Qed.

Lemma zero_no_mine_neighbors mines nums r c :
  consistent mines nums -> in_bounds r c = true -> mget nums r c = 0 ->
  Forall (fun rc => mget mines rc.1 rc.2 = false) (neighbors r c).
Proof.
  intros Hc Hb Hz. rewrite Hc in Hz by done. destruct (mget mines r c); [done|].
  unfold count_mine_neighbors in Hz. apply Forall_forall. intros x Hx.
  apply not_true_is_false. intros Hm.
  apply (filter_nil_not_elem_of (fun rc : Z * Z => mget mines rc.1 rc.2 = true) _ x) in Hx; [done| |done].
  apply length_zero_iff_nil. lia.
Qed.

Lemma push_fold_elems flag vis l q seen :
  forall x, x ∈ (foldl (push_neighbor flag vis) (q, seen) l).1 -> x ∈ q \/ x ∈ l.
Proof.
  revert q seen. induction l as [|y l IH]; intros q seen x Hx; [by left|].
  cbn [foldl] in Hx. unfold push_neighbor at 2 in Hx.
  repeat match type of Hx with context [if ?b then _ else _] => destruct b end;
    apply IH in Hx as [Hx|Hx]; set_solver.
Qed.

Lemma flood_loop_safe mines nums flag fuel q seen vis vis' :
  consistent mines nums -> mshape vis ->
  Forall (fun rc => in_bounds rc.1 rc.2 = true /\ mget mines rc.1 rc.2 = false) q ->
  flood_loop nums flag fuel q seen vis = Some vis' ->
  mshape vis' /\ reveals mines flag vis vis'.
Proof.
  intros Hc. revert q seen vis. induction fuel as [|f IH]; intros q seen vis Hs Hq E; [done|].
  destruct q as [|[r c] q']; cbn [flood_loop] in E.
  { injection E as <-. split; [done|apply reveals_refl]. }
  apply Forall_cons in Hq as [[Hb Hm] Hq].
  destruct (mget flag r c) eqn:Hf; [exact (IH _ _ _ Hs Hq E)|].
  pose proof (reveals_mset mines flag vis r c Hs Hb Hm Hf) as Hr1.
  assert (Hs1 : mshape (mset vis r c REVEALED)) by (by apply mshape_mset).
  destruct (negb _) eqn:Hz.
  { destruct (IH _ _ _ Hs1 Hq E) as [Hs' Hr']. split; [done|]. exact (reveals_trans _ _ _ _ _ Hr1 Hr'). }
  apply negb_false_iff, Z.eqb_eq in Hz.
  pose proof (push_fold_elems flag (mset vis r c REVEALED) (neighbors r c) q' seen) as Hel.
  destruct (foldl _ _ _) as [q'' seen'] eqn:Ef. cbn [fst] in Hel.
  destruct (IH q'' seen' _ Hs1) as [Hs' Hr']; [|exact E|].
  - apply Forall_forall. intros x Hx. destruct (Hel x Hx) as [Hx'|Hx'].
    + exact (proj1 (Forall_forall _ _) Hq x Hx').
    + split; [exact (proj1 (Forall_forall _ _) (neighbors_in_bounds r c) x Hx')|].
      exact (proj1 (Forall_forall _ _) (zero_no_mine_neighbors _ _ _ _ Hc Hb Hz) x Hx').
  - split; [done|]. exact (reveals_trans _ _ _ _ _ Hr1 Hr').
Qed.

(** ** [place_mines] *)

Lemma elem_of_foldl_union_if (P : Z * Z -> bool) (l : list (Z * Z)) (s0 : gset (Z * Z)) x :
  x ∈ foldl (fun s rc => if P rc then {[rc]} ∪ s else s) s0 l <-> x ∈ s0 \/ (x ∈ l /\ P x = true).
Proof.
  revert s0. induction l as [|y l IH]; intros s0; simpl.
  - split; [by left|]. intros [?|[Hx _]]; [done|by apply not_elem_of_nil in Hx].
  - rewrite IH, elem_of_cons. destruct (P y) eqn:E.
    + rewrite elem_of_union, elem_of_singleton. split.
      * intros [[->|?]|[? ?]]; [right; split; [by left|done]|by left|right; split; [by right|done]].
      * intros [?|[[->|?] ?]]; [left; by right|left; by left|right; done].
    + split; [intros [?|[? ?]]; [by left|right; split; [by right|done]]|].
      intros [?|[[->|?] ?]]; [by left|congruence|right; done].
Qed.

Lemma elem_of_blocked_cells sr sc r c :
  (r, c) ∈ blocked_cells sr sc <-> in_bounds r c = true /\ sr - 1 <= r <= sr + 1 /\ sc - 1 <= c <= sc + 1.
Proof.
  unfold blocked_cells. rewrite elem_of_foldl_union_if, elem_of_zrange2. simpl.
  split; [intros [Hx|[? ?]]; [by apply not_elem_of_empty in Hx|split; [done|lia]]|].
  intros (? & ? & ?). right. split; [lia|done].
Qed.

Lemma elem_of_spots x b : x ∈ spots_of b <-> x ∈ board_cells /\ x ∉ b.
Proof. unfold spots_of. rewrite list_elem_of_filter. tauto. Qed.

(** Around any first cell at least [MINES] spots are left: checked for
    every cell of the board. *)
Lemma spots_enough_check :
  forallb (fun rc => Nat.leb 10 (length (spots_of (blocked_cells rc.1 rc.2)))) board_cells = true.
Proof. vm_compute. reflexivity. Qed.

Lemma spots_enough sr sc : in_bounds sr sc = true -> (10 <= length (spots_of (blocked_cells sr sc)))%nat.
Proof.
  intros Hb. pose proof spots_enough_check as H. rewrite forallb_forall in H.
  apply Nat.leb_le, (H (sr, sc)), list_elem_of_In, elem_of_board_cells, Hb.
Qed.

Lemma count_mines_mset m r c :
  mshape m -> in_bounds r c = true -> mget m r c = false -> count_mines (mset m r c true) = S (count_mines m).
Proof.
  intros Hs Hb Hm. unfold count_mines. apply (length_filter_succ _ _ _ (r, c)).
  - apply NoDup_board_cells.
  - by apply elem_of_board_cells.
  - simpl. by rewrite Hm.
  - simpl. rewrite mget_mset by done. by rewrite decide_True.
  - intros [r' c'] Hy Hne. apply elem_of_board_cells in Hy. simpl. rewrite mget_mset by done.
    rewrite decide_False by congruence. done.
Qed.

Lemma pop_mines_spec rnd n k spots m :
  mshape m -> NoDup spots -> Forall (fun x => in_bounds x.1 x.2 = true /\ mget m x.1 x.2 = false) spots ->
  mshape (pop_mines rnd k n spots m) /\
  count_mines (pop_mines rnd k n spots m) = (count_mines m + Nat.min n (length spots))%nat /\
  forall r c, in_bounds r c = true -> mget (pop_mines rnd k n spots m) r c = true ->
    mget m r c = true \/ (r, c) ∈ spots.
Proof.
  revert k spots m. induction n as [|n IH]; intros k spots m Hs Hnd Hsp.
  { simpl. split; [done|]. split; [lia|]. intros. by left. }
  destruct spots as [|y ys].
  { simpl. split; [done|]. split; [lia|]. intros. by left. }
  cbn [pop_mines]. set (spots := y :: ys) in *.
  set (idx := Z.to_nat (rnd k mod Z.of_nat (length spots))).
  assert (Hidx : (idx < length spots)%nat).
  { unfold idx. assert (0 < Z.of_nat (length spots)) by (simpl; lia).
    pose proof (Z.mod_pos_bound (rnd k) (Z.of_nat (length spots)) H). lia. }
  destruct (lookup_lt_is_Some_2 spots idx Hidx) as [[r c] Er]. fold spots. rewrite Er.
  pose proof (delete_Permutation spots idx (r, c) Er) as Hperm.
  assert (Hnd' : NoDup ((r, c) :: delete idx spots)) by (by rewrite <- Hperm).
  apply NoDup_cons in Hnd' as [Hnin Hnd'].
  pose proof (list_elem_of_lookup_2 _ _ _ Er) as Hin.
  destruct (proj1 (Forall_forall _ _) Hsp _ Hin) as [Hb Hm]. simpl in Hb, Hm.
  destruct (IH (S k) (delete idx spots) (mset m r c true)) as (Hs' & Hc' & Hm');
    [by apply mshape_mset|done| |].
  { apply Forall_forall. intros [r' c'] Hx. pose proof (list_elem_of_delete_inv _ _ _ Hx) as Hx'.
    destruct (proj1 (Forall_forall _ _) Hsp _ Hx') as [Hb' Hm0]. split; [done|]. simpl in *.
    rewrite mget_mset by done. rewrite decide_False; [done|]. intros [= -> ->]. contradiction. }
  split; [done|]. split.
  - rewrite Hc', count_mines_mset, length_delete by done. simpl. lia.
  - intros r' c' Hb' Ht. destruct (Hm' r' c' Hb' Ht) as [Ht'|Hx].
    + rewrite mget_mset in Ht' by done. case_decide as E; [injection E as <- <-; by right|by left].
    + right. exact (list_elem_of_delete_inv _ _ _ Hx).
Qed.

Lemma compute_nums_spec m nums : mshape nums -> mshape (compute_nums m nums) /\ consistent m (compute_nums m nums).
Proof.
  intros Hs. unfold compute_nums.
  destruct (foldl_mset_spec (fun rc => if mget m rc.1 rc.2 then -1 else Z.of_nat (count_mine_neighbors m rc.1 rc.2))
              board_cells nums Hs NoDup_board_cells) as [Hs' Hc].
  { apply Forall_board_cells. done. }
  split; [done|]. intros r c Hb. rewrite Hc by done. rewrite decide_True by (by apply elem_of_board_cells). done.
Qed.

Lemma count_mines_zero m : (forall r c, in_bounds r c = true -> mget m r c = false) -> count_mines m = 0%nat.
Proof.
  intros Hm. unfold count_mines. rewrite filter_none; [done|]. intros [r c] Hx.
  apply elem_of_board_cells in Hx. simpl. by rewrite Hm.
Qed.

(** [place_mines] on an empty board: [MINES] mines, none in the 3 x 3
    square around the first cell, [nums] computed from them. *)
Lemma place_mines_ok rnd mines nums sr sc :
  mshape mines -> mshape nums -> (forall r c, in_bounds r c = true -> mget mines r c = false) ->
  in_bounds sr sc = true ->
  mshape (place_mines rnd mines nums sr sc).1 /\ mshape (place_mines rnd mines nums sr sc).2 /\
  count_mines (place_mines rnd mines nums sr sc).1 = Z.to_nat MINES /\
  consistent (place_mines rnd mines nums sr sc).1 (place_mines rnd mines nums sr sc).2 /\
  (forall r c, in_bounds r c = true -> sr - 1 <= r <= sr + 1 -> sc - 1 <= c <= sc + 1 ->
     mget (place_mines rnd mines nums sr sc).1 r c = false).
Proof.
  intros Hsm Hsn Hm0 Hb. unfold place_mines. cbn [fst snd].
  set (spots := spots_of (blocked_cells sr sc)).
  destruct (pop_mines_spec rnd (Z.to_nat MINES) 0 spots mines Hsm) as (Hs & Hc & Hm).
  { apply NoDup_filter, NoDup_board_cells. }
  { apply Forall_forall. intros [r c] Hx. apply elem_of_spots in Hx as [Hx _].
    apply elem_of_board_cells in Hx. split; [done|]. by apply Hm0. }
  destruct (compute_nums_spec (pop_mines rnd 0 (Z.to_nat MINES) spots mines) nums Hsn) as [Hsn' Hcn].
  split; [done|]. split; [done|]. split.
  - rewrite Hc, count_mines_zero by done. pose proof (spots_enough sr sc Hb). change (Z.to_nat MINES) with 10%nat. unfold spots. lia.
  - split; [done|]. intros r c Hrc Hr Hc'. apply not_true_is_false. intros Ht.
    destruct (Hm r c Hrc Ht) as [Ht'|Hx]; [by rewrite Hm0 in Ht'|].
    apply elem_of_spots in Hx as [_ Hx]. apply Hx, elem_of_blocked_cells. done.
Qed.

(** ** Winning *)

Lemma length_board_cells : length board_cells = 64%nat.
Proof. reflexivity. Qed.

(** With [MINES] mines and no mine revealed, [is_win] holds exactly when
    every cell without a mine is revealed. *)
Lemma win_iff_core (m : BGrid) (v : ZGrid) :
  count_mines m = Z.to_nat MINES ->
  (forall r c, in_bounds r c = true -> mget v r c = REVEALED -> mget m r c = false) ->
  is_win v = true <-> forall r c, in_bounds r c = true -> mget m r c = false -> mget v r c = REVEALED.
Proof.
  intros Hc Hrev. unfold is_win, count_revealed. rewrite Z.eqb_eq. change (ROWS * COLS - MINES) with 54.
  pose proof (length_filter_compl (fun rc => mget m rc.1 rc.2 = true) board_cells) as Hcompl.
  unfold count_mines in Hc. rewrite Hc, length_board_cells in Hcompl. change (Z.to_nat MINES) with 10%nat in Hcompl.
  assert (Hsub : forall x, x ∈ board_cells -> mget v x.1 x.2 = REVEALED -> ~ mget m x.1 x.2 = true).
  { intros [r c] Hx Hv. apply elem_of_board_cells in Hx. simpl in *. by rewrite Hrev. }
  split.
  - intros Hl r c Hb Hm.
    refine (length_filter_sub_eq (fun rc => ~ mget m rc.1 rc.2 = true)
      (fun rc => mget v rc.1 rc.2 = REVEALED) board_cells Hsub _ (r, c) _ _); [lia|by apply elem_of_board_cells|simpl; by rewrite Hm].
  - intros Hall. rewrite (list_filter_iff_in _ (fun rc => ~ mget m rc.1 rc.2 = true)); [lia|].
    intros [r c] Hx. apply elem_of_board_cells in Hx. split; [apply (Hsub (r, c)); by apply elem_of_board_cells|].
    intros Hm. apply Hall; [done|]. simpl in Hm. by apply not_true_is_false.
Qed.

(** ** One turn *)

Lemma move_cursor_in e r c : in_bounds r c = true -> in_bounds (move_cursor e r c).1 (move_cursor e r c).2 = true.
Proof.
  intros Hb. apply in_bounds_iff in Hb. apply in_bounds_iff. destruct e as [[[pu pd] pl] pr]. unfold ROWS, COLS in *.
  destruct pu, pd, pl, pr; simpl; split; try lia; apply Z.mod_pos_bound; lia.
Qed.

(** The cells of the invariant survive more reveals. *)
Lemma cells_reveals ms flag vis v :
  (forall r c, in_bounds r c = true ->
     (mget vis r c = COVERED \/ mget vis r c = REVEALED) /\
     (mget vis r c = REVEALED -> mget flag r c = false /\ mget ms r c = false)) ->
  reveals ms flag vis v ->
  forall r c, in_bounds r c = true ->
     (mget v r c = COVERED \/ mget v r c = REVEALED) /\
     (mget v r c = REVEALED -> mget flag r c = false /\ mget ms r c = false).
Proof.
  intros Hc Hr r c Hb. destruct (Hr r c Hb) as [E|(E & Hm & Hf)]; rewrite E; [by apply Hc|].
  split; [by right|done].
Qed.

(** The grid a reveal computes: [flood_reveal] on a cell without mine
    terminates and reveals no mine; revealing one cell reveals no mine. *)
Lemma flood_reveal_ok mines nums vis flag r c :
  consistent mines nums -> mshape vis -> in_bounds r c = true -> mget mines r c = false ->
  exists v, flood_reveal nums vis flag r c = Some v /\ mshape v /\ reveals mines flag vis v.
Proof.
  intros Hc Hs Hb Hm. destruct (flood_loop_some nums flag FLOOD_FUEL [(r, c)] {[(r, c)]} vis) as [v Ev].
  - by repeat constructor.
  - apply singleton_subseteq_l, in_all_cells_set, Hb.
  - rewrite size_singleton. unfold FLOOD_FUEL, ROWS, COLS. simpl. lia.
  - exists v. split; [done|]. apply (flood_loop_safe mines nums flag FLOOD_FUEL [(r, c)] {[(r, c)]} vis); try done.
    by repeat constructor.
Qed.

Lemma reveal_grid ms ns flag vis r c :
  consistent ms ns -> mshape vis -> in_bounds r c = true -> mget ms r c = false -> mget flag r c = false ->
  exists v, (if mget ns r c =? 0 then flood_reveal ns vis flag r c else Some (mset vis r c REVEALED)) = Some v /\
    mshape v /\ reveals ms flag vis v.
Proof.
  intros Hc Hs Hb Hm Hf. destruct (mget ns r c =? 0); [by apply flood_reveal_ok|].
  eexists. split; [done|]. split; [by apply mshape_mset|]. by apply reveals_mset.
Qed.

Lemma first_mines_spec rnd now s ms ns st t0 :
  minv s -> mget (vis s) (cur_r s) (cur_c s) = COVERED -> first_mines rnd now s = (ms, ns, st, t0) ->
  st = true /\ mshape ms /\ mshape ns /\ consistent ms ns /\ count_mines ms = Z.to_nat MINES /\
  (forall r c, in_bounds r c = true -> mget (vis s) r c = REVEALED -> mget ms r c = false) /\
  (started s = false -> forall r c, in_bounds r c = true -> cur_r s - 1 <= r <= cur_r s + 1 ->
     cur_c s - 1 <= c <= cur_c s + 1 -> mget ms r c = false).
Proof.
  intros (Hsm & Hsn & Hsv & Hsf & Hb & Hcells & Hst) Hvc E. unfold first_mines in E.
  destruct (started s).
  - injection E as <- <- <- <-. destruct Hst as [Hc Hn].
    do 5 (split; [done|]). split; [|done]. intros r c Hrc Hv. apply (Hcells r c Hrc), Hv.
  - destruct (place_mines_ok rnd (mines s) (nums s) (cur_r s) (cur_c s)) as (H1 & H2 & H3 & H4 & H5);
      [done|done|intros r c Hrc; apply Hst, Hrc|done|].
    destruct (place_mines rnd _ _ _ _) as [ms' ns']. injection E as <- <- <- <-.
    do 5 (split; [done|]). split; [|intros _; exact H5].
    intros r c Hrc Hv. destruct (Hst r c Hrc) as [_ Hcv]. rewrite Hcv in Hv. discriminate.
Qed.

Lemma reveal_at_post rnd now s : minv s -> exists res, reveal_at rnd now s = Some res /\ mpost res.
Proof.
  intros Hinv. pose proof Hinv as (Hsm & Hsn & Hsv & Hsf & Hb & Hcells & Hst). unfold reveal_at.
  destruct ((mget (vis s) (cur_r s) (cur_c s) =? COVERED) && negb (mget (flag s) (cur_r s) (cur_c s))) eqn:Hcov;
    [|by exists (MNext s)].
  apply andb_true_iff in Hcov as [Hvc Hfl]. apply Z.eqb_eq in Hvc. apply negb_true_iff in Hfl.
  destruct (first_mines rnd now s) as [[[ms ns] st] t0] eqn:Efm.
  destruct (first_mines_spec rnd now s ms ns st t0 Hinv Hvc Efm) as (-> & Hms & Hns & Hcons & Hcnt & Hrevm & _).
  destruct (mget ms (cur_r s) (cur_c s)) eqn:Hmine; [by eexists; split; [reflexivity|]|].
  destruct (reveal_grid ms ns (flag s) (vis s) (cur_r s) (cur_c s)) as (v & -> & Hsv' & Hrv); try done.
  assert (Hcells' := cells_reveals ms (flag s) (vis s) v).
  specialize (Hcells' ltac:(intros r c Hrc; split; [apply Hcells, Hrc|];
    intros Hv; split; [apply (Hcells r c Hrc), Hv|by apply Hrevm]) Hrv).
  assert (Hinv' : minv (mkM ms ns v (flag s) (cur_r s) (cur_c s) true t0 (last_action_ms s))) by exact (conj Hms (conj Hns (conj Hsv' (conj Hsf (conj Hb (conj Hcells' (conj Hcons Hcnt))))))) .
  destruct (is_win v) eqn:Hw; eexists; (split; [reflexivity|]); [|done]. split; [done|].
  apply (win_iff_core ms v Hcnt); [|done]. intros r c Hrc Hv. apply (Hcells' r c Hrc), Hv.
Qed.

Lemma mtick_post s e act now rnd : minv s -> exists res, mtick s e act now rnd = Some res /\ mpost res.
Proof.
  intros Hinv. pose proof Hinv as (Hsm & Hsn & Hsv & Hsf & Hb & Hcells & Hst). unfold mtick.
  pose proof (move_cursor_in e _ _ Hb) as Hb'. destruct (move_cursor e (cur_r s) (cur_c s)) as [r c]. simpl in Hb'.
  set (la := if act then now else last_action_ms s).
  assert (Hinv0 : minv (mkM (mines s) (nums s) (vis s) (flag s) r c (started s) (start_ms s) la))
    by exact (conj Hsm (conj Hsn (conj Hsv (conj Hsf (conj Hb' (conj Hcells Hst)))))).
  destruct act as [[]|].
  - by exists MRestart.
  - apply reveal_at_post, Hinv0.
  - eexists. split; [reflexivity|]. cbn [mpost vis]. destruct (mget (vis s) r c =? COVERED) eqn:Hc; [|exact Hinv0].
    apply Z.eqb_eq in Hc.
    refine (conj Hsm (conj Hsn (conj Hsv (conj (mshape_mset _ _ _ _ Hsf) (conj Hb' (conj _ Hst)))))).
    intros r' c' Hrc. split; [apply Hcells, Hrc|]. intros Hv. simpl in Hv |- *. rewrite mget_mset by done.
    case_decide as E; [injection E as <- <-; rewrite Hc in Hv; discriminate|apply (Hcells r' c' Hrc), Hv].
  - eexists. split; [reflexivity|]. exact Hinv0.
Qed.

Lemma new_game_inv : minv new_game.
Proof.
  refine (conj (mshape_const_grid _) (conj (mshape_const_grid _) (conj (mshape_const_grid _)
    (conj (mshape_const_grid _) (conj eq_refl (conj _ _)))))); cbn; intros r c Hrc; rewrite !mget_const_grid by done.
  - split; [by left|discriminate].
  - done.
Qed.

Lemma mreach_inv s : mreach s -> minv s.
Proof.
  induction 1 as [|s e act now rnd s' _ IH E]; [apply new_game_inv|].
  destruct (mtick_post s e act now rnd IH) as (res & E' & Hp). rewrite E in E'. by injection E' as <-.
Qed.

Lemma first_reveal_not_boom rnd now s :
  minv s -> started s = false -> forall s', reveal_at rnd now s <> Some (MBoom s').
Proof.
  intros Hinv Hns s' E. pose proof Hinv as (_ & _ & _ & _ & Hb & _). unfold reveal_at in E.
  destruct (_ && _) eqn:Hcov; [|done]. apply andb_true_iff in Hcov as [Hvc _]. apply Z.eqb_eq in Hvc.
  destruct (first_mines rnd now s) as [[[ms ns] st] t0] eqn:Efm.
  destruct (first_mines_spec rnd now s ms ns st t0 Hinv Hvc Efm) as (_ & _ & _ & _ & _ & _ & Hclear).
  rewrite (Hclear Hns (cur_r s) (cur_c s) Hb) in E by lia.
  destruct (if _ =? 0 then _ else _); [|done]. by destruct (is_win _).
Qed.

(** ** Properties of the game *)

(** C9: In every state the Minesweeper loop reaches, one more turn never
    runs out of fuel ([flood_reveal] terminates), keeps the invariant
    (four 8 x 8 grids, the cursor on the board, no revealed cell flagged or
    a mine, [MINES] mines once started, [nums] computed from them), shows
    BOOM only when the cell under the cursor is a mine, and CLEARED only
    when every cell without a mine is revealed. *)
Theorem minesweeper_reachable_safe s e act now rnd :
  mreach s -> exists res, mtick s e act now rnd = Some res /\ mpost res.
Proof. intros H. apply mtick_post, mreach_inv, H. Qed.

(** C11: [flood_reveal] from a cell without a mine, on a board whose [nums]
    were computed from [mines], terminates within [FLOOD_FUEL] turns and
    only reveals cells that are neither mines nor flagged; it hides
    nothing. *)
Theorem flood_reveal_safe mines nums vis flag r c :
  consistent mines nums -> mshape vis -> in_bounds r c = true -> mget mines r c = false ->
  exists v, flood_reveal nums vis flag r c = Some v /\ mshape v /\ reveals mines flag vis v.
Proof. apply flood_reveal_ok. Qed.

(** C40: On an empty board, [place_mines] places exactly [MINES] mines,
    none in the 3 x 3 square around the first revealed cell, and fills
    [nums] with [-1] on every mine and the number of neighbouring mines
    elsewhere, whatever the random draws. *)
Theorem place_mines_spec rnd mines nums sr sc :
  mshape mines -> mshape nums -> (forall r c, in_bounds r c = true -> mget mines r c = false) ->
  in_bounds sr sc = true ->
  count_mines (place_mines rnd mines nums sr sc).1 = Z.to_nat MINES /\
  consistent (place_mines rnd mines nums sr sc).1 (place_mines rnd mines nums sr sc).2 /\
  (forall r c, in_bounds r c = true -> sr - 1 <= r <= sr + 1 -> sc - 1 <= c <= sc + 1 ->
     mget (place_mines rnd mines nums sr sc).1 r c = false).
Proof. intros Hm Hn H0 Hb. destruct (place_mines_ok rnd mines nums sr sc Hm Hn H0 Hb) as (_ & _ & ?). done. Qed.

(** The first reveal of a game never hits a mine: the mines are placed
    after the cell is chosen, away from it. *)
Theorem first_reveal_safe s e now rnd res :
  minv s -> started s = false -> mtick s e (Some Reveal) now rnd = Some res -> forall s', res <> MBoom s'.
Proof.
  intros Hinv Hns E s' ->. unfold mtick in E.
  pose proof Hinv as (Hsm & Hsn & Hsv & Hsf & Hb & Hcells & Hst).
  pose proof (move_cursor_in e _ _ Hb) as Hb'. destruct (move_cursor e (cur_r s) (cur_c s)) as [r c].
  refine (first_reveal_not_boom rnd now (mkM (mines s) (nums s) (vis s) (flag s) r c (started s) (start_ms s) now) _ Hns s' E).
  exact (conj Hsm (conj Hsn (conj Hsv (conj Hsf (conj Hb' (conj Hcells Hst)))))).
Qed.

(** Once mines are placed and none is revealed, [is_win] holds
    exactly when every cell without a mine is revealed: the game neither
    misses a win nor declares one early. *)
Theorem is_win_iff s :
  minv s -> started s = true ->
  is_win (vis s) = true <-> forall r c, in_bounds r c = true -> mget (mines s) r c = false -> mget (vis s) r c = REVEALED.
Proof.
  intros (_ & _ & _ & _ & _ & Hcells & Hst) Hs. rewrite Hs in Hst. destruct Hst as [_ Hcnt].
  apply (win_iff_core _ _ Hcnt). intros r c Hrc Hv. apply (Hcells r c Hrc), Hv.
Qed.

(** [main()] reads the edges before the chords: when up and down are
    pressed together from released, [eb.update()] reports the edge of up
    and moves the cursor one row up before [detect_action_chords] returns
    [reveal], so the cell revealed is the one above the cursor the player
    saw (the top row reveals the bottom row). *)
Theorem reveal_chord_moves_cursor env fuel rnd eb s T T' :
  EdgeButtons.u eb = 1 -> lv_u (env T) = 0 ->
  detect_action_chords env fuel (last_action_ms s) T = Some (Some Reveal, T') ->
  mturn env fuel rnd eb s T =
  option_map (fun res => ((EdgeButtons.update eb (env T)).1, res, T'))
    (reveal_at rnd (ticks_ms T') (mkM (mines s) (nums s) (vis s) (flag s) ((cur_r s - 1) mod ROWS) (cur_c s)
                                      (started s) (start_ms s) (ticks_ms T'))).
Proof.
  intros Hu Hl Hd. unfold mturn, EdgeButtons.update, EdgeButtons.edge. rewrite Hd, Hu, Hl. cbn.
  by destruct (reveal_at _ _ _).
Qed.

(** ** Deciding the invariant, for concrete boards *)

Lemma forall_cells_iff (P : Z -> Z -> Prop) :
  (forall r c, in_bounds r c = true -> P r c) <-> Forall (fun rc => P rc.1 rc.2) board_cells.
Proof.
  split; [intros H; apply Forall_board_cells; exact H|].
  intros H r c Hrc. exact (proj1 (Forall_forall _ _) H (r, c) (proj2 (elem_of_board_cells r c) Hrc)).
Qed.

#[export] Instance forall_cells_dec (P : Z -> Z -> Prop) `{forall r c, Decision (P r c)} :
  Decision (forall r c, in_bounds r c = true -> P r c) := dec_of_iff (forall_cells_iff P) _.

#[export] Instance consistent_dec m n : Decision (consistent m n).
Proof. unfold consistent. apply _. Defined.

#[export] Instance minv_dec s : Decision (minv s).
Proof. unfold minv, grid_shape. destruct (started s); apply _. Defined.

(** ** Witnesses *)

Lemma minesweeper_reachable_safe_witness :
  mreach new_game /\
  exists res, mtick new_game (false, true, false, false) (Some Reveal) 500 demo_rnd = Some res /\ mpost res.
Proof.
  assert (H : mreach new_game) by constructor.
  split; [exact H|exact (minesweeper_reachable_safe _ _ _ _ _ H)].
Defined.

Lemma flood_reveal_safe_witness :
  (consistent (mines demo_started) (nums demo_started) /\ mshape (const_grid COVERED) /\
   in_bounds 4 4 = true /\ mget (mines demo_started) 4 4 = false) /\
  exists v, flood_reveal (nums demo_started) (const_grid COVERED) (flag demo_started) 4 4 = Some v /\ mshape v /\
    reveals (mines demo_started) (flag demo_started) (const_grid COVERED) v.
Proof.
  assert (H1 : consistent (mines demo_started) (nums demo_started)) by (eapply bool_decide_unpack; vm_compute; reflexivity).
  assert (H2 : mshape (const_grid COVERED)) by (split; [reflexivity|repeat constructor]).
  assert (H3 : in_bounds 4 4 = true) by reflexivity.
  assert (H4 : mget (mines demo_started) 4 4 = false) by (vm_compute; reflexivity).
  split; [exact (conj H1 (conj H2 (conj H3 H4)))|exact (flood_reveal_safe _ _ _ _ _ _ H1 H2 H3 H4)].
Defined.

Lemma place_mines_spec_witness :
  (mshape (const_grid false) /\ mshape (const_grid 0) /\
   (forall r c, in_bounds r c = true -> mget (const_grid false) r c = false) /\ in_bounds 2 5 = true) /\
  count_mines (place_mines demo_rnd (const_grid false) (const_grid 0) 2 5).1 = Z.to_nat MINES /\
  consistent (place_mines demo_rnd (const_grid false) (const_grid 0) 2 5).1 (place_mines demo_rnd (const_grid false) (const_grid 0) 2 5).2 /\
  (forall r c, in_bounds r c = true -> 2 - 1 <= r <= 2 + 1 -> 5 - 1 <= c <= 5 + 1 ->
     mget (place_mines demo_rnd (const_grid false) (const_grid 0) 2 5).1 r c = false).
Proof.
  assert (H1 : mshape (const_grid false)) by (split; [reflexivity|repeat constructor]).
  assert (H2 : mshape (const_grid 0)) by (split; [reflexivity|repeat constructor]).
  assert (H3 : forall r c, in_bounds r c = true -> mget (const_grid false) r c = false)
    by (eapply bool_decide_unpack; vm_compute; reflexivity).
  assert (H4 : in_bounds 2 5 = true) by reflexivity.
  split; [exact (conj H1 (conj H2 (conj H3 H4)))|exact (place_mines_spec _ _ _ _ _ H1 H2 H3 H4)].
Defined.

Lemma first_reveal_safe_witness :
  (minv new_game /\ started new_game = false /\
   mtick new_game (false, false, false, false) (Some Reveal) 500 demo_rnd = Some (MNext demo_started)) /\
  forall s', MNext demo_started <> MBoom s'.
Proof.
  assert (H1 : minv new_game) by (eapply bool_decide_unpack; vm_compute; reflexivity).
  assert (H2 : started new_game = false) by reflexivity.
  assert (H3 : mtick new_game (false, false, false, false) (Some Reveal) 500 demo_rnd = Some (MNext demo_started))
    by (vm_compute; reflexivity).
  split; [exact (conj H1 (conj H2 H3))|exact (first_reveal_safe _ _ _ _ _ H1 H2 H3)].
Defined.

Lemma is_win_iff_witness :
  (minv demo_started /\ started demo_started = true) /\
  (is_win (vis demo_started) = true <->
   forall r c, in_bounds r c = true -> mget (mines demo_started) r c = false -> mget (vis demo_started) r c = REVEALED).
Proof.
  assert (H1 : minv demo_started) by (eapply bool_decide_unpack; vm_compute; reflexivity).
  assert (H2 : started demo_started = true) by (vm_compute; reflexivity).
  split; [exact (conj H1 H2)|exact (is_win_iff _ H1 H2)].
Defined.

Lemma reveal_chord_moves_cursor_witness :
  (EdgeButtons.u EdgeButtons.init = 1 /\ lv_u (demo_chord 1000) = 0 /\
   detect_action_chords demo_chord 200 (last_action_ms new_game) 1000 = Some (Some Reveal, 1050)) /\
  mturn demo_chord 200 demo_rnd EdgeButtons.init new_game 1000 =
  option_map (fun res => ((EdgeButtons.update EdgeButtons.init (demo_chord 1000)).1, res, 1050))
    (reveal_at demo_rnd (ticks_ms 1050) (mkM (mines new_game) (nums new_game) (vis new_game) (flag new_game)
       ((cur_r new_game - 1) mod ROWS) (cur_c new_game) (started new_game) (start_ms new_game) (ticks_ms 1050))).
Proof.
  assert (H1 : EdgeButtons.u EdgeButtons.init = 1) by reflexivity.
  assert (H2 : lv_u (demo_chord 1000) = 0) by reflexivity.
  assert (H3 : detect_action_chords demo_chord 200 (last_action_ms new_game) 1000 = Some (Some Reveal, 1050))
    by (vm_compute; reflexivity).
  split; [exact (conj H1 (conj H2 H3))|exact (reveal_chord_moves_cursor _ _ _ _ _ _ _ H1 H2 H3)].
Defined.

End Minesweeper.
