(* ===== verification/Launcher.v ===== *)
(** * The launcher of [src/main.py]: PBM images, the menu, launching a game

    [read_pbm_p4] parses a binary PBM (P4) file given as its bytes: the
    magic line, then header lines (blank lines and [#] comments skipped)
    until two tokens, width and height, have been read, then the raster.
    Python's [ValueError]s are the values of [pbm_error]; the header loop
    takes fuel ([None] when it runs out, which the theorems exclude).
    [draw_pbm_to_display] ORs the set bits of the raster into the driver's
    MONO_VLSB buffer by hand; the launcher's flow ([load_and_display_image],
    [launch_game], [run_menu]) is modelled on the events it causes, with the
    exceptions a game can raise. *)

From Stdlib Require Import String.
From stdpp Require Import strings sorting sets.
From S2P Require Import Prelude Bus Framebuf Display Rotate.

Local Open Scope Z_scope.

Module Launcher.

(** ** Bytes *)

(** The whitespace of [bytes.strip()] and [bytes.split()]. *)
Definition is_space (b : Z) : bool :=
  (b =? 32) || (b =? 9) || (b =? 10) || (b =? 13) || (b =? 11) || (b =? 12).

(** [f.readline()]: the bytes up to and including the first newline, and
    the rest of the file. *)
Fixpoint readline (f : list Z) : list Z * list Z :=
  match f with
  | [] => ([], [])
  | b :: f' => if b =? 10 then ([b], f') else let '(l, r) := readline f' in (b :: l, r)
  end.

Fixpoint lstrip (l : list Z) : list Z :=
  match l with
  | [] => []
  | b :: l' => if is_space b then lstrip l' else l
  end.

(** [line.strip()]. *)
Definition strip (l : list Z) : list Z := reverse (lstrip (reverse (lstrip l))).

(** [line.split()]: the maximal runs of non-space bytes; [cur] is the run
    being read, reversed. *)
Fixpoint split_ws (l : list Z) (cur : list Z) : list (list Z) :=
  match l with
  | [] => match cur with [] => [] | _ => [reverse cur] end
  | b :: l' =>
      if is_space b then match cur with [] => split_ws l' [] | _ => reverse cur :: split_ws l' [] end
      else split_ws l' (b :: cur)
  end.

Definition digit_val (b : Z) : option Z := if (48 <=? b) && (b <=? 57) then Some (b - 48) else None.

Fixpoint parse_digits (l : list Z) (acc : Z) : option Z :=
  match l with
  | [] => Some acc
  | b :: l' => match digit_val b with Some d => parse_digits l' (acc * 10 + d) | None => None end
  end.

(** [int(token)] on a token of [split()]: an optional sign and decimal
    digits; anything else raises [ValueError] ([None]). *)
Definition parse_int (tok : list Z) : option Z :=
  match tok with
  | [] => None
  | b :: ds =>
      if b =? 45 then match ds with [] => None | _ => option_map Z.opp (parse_digits ds 0) end
      else if b =? 43 then match ds with [] => None | _ => parse_digits ds 0 end
      else parse_digits tok 0
  end.

(** ** [read_pbm_p4] *)

(** The [ValueError]s of [read_pbm_p4] (and of [int]). *)
Inductive pbm_error :=
  | NotP4                          (** ["Not P4 PBM"] *)
  | HeaderEOF                      (** ["PBM header EOF"] *)
  | BadNumber                      (** [int()] of a token that is no number *)
  | SizeMismatch (got expected : Z). (** ["PBM bytes %d != %d"] *)

(** [while len(tokens) < 2: line = f.readline(); ...]: the tokens and the
    rest of the file. *)
Fixpoint read_tokens (fuel : nat) (tokens : list (list Z)) (f : list Z)
    : option (pbm_error + list (list Z) * list Z) :=
  match fuel with
  | O => None
  | S fuel' =>
      if (length tokens <? 2)%nat then
        let '(line, f') := readline f in
        match line with
        | [] => Some (inl HeaderEOF)
        | _ =>
            match strip line with
            | [] => read_tokens fuel' tokens f'
            | b :: l => if b =? 35 then read_tokens fuel' tokens f'
                        else read_tokens fuel' (tokens ++ split_ws (b :: l) []) f'
            end
        end
      else Some (inr (tokens, f))
  end.

(** [read_pbm_p4(path)] on the bytes of the file: [(w, h, data)]. *)
Definition read_pbm_p4 (file : list Z) : option (pbm_error + Z * Z * list Z) :=
  let '(magic, f1) := readline file in
  if bool_decide (strip magic <> [80; 52]) then Some (inl NotP4) else
  match read_tokens (S (length f1)) [] f1 with
  | None => None
  | Some (inl e) => Some (inl e)
  | Some (inr (tokens, data)) =>
      match parse_int (tokens !!! 0%nat) with
      | None => Some (inl BadNumber)
      | Some w =>
          match parse_int (tokens !!! 1%nat) with
          | None => Some (inl BadNumber)
          | Some h =>
              let row_bytes := (w + 7) / 8 in
              let expected := row_bytes * h in
              if bool_decide (Z.of_nat (length data) <> expected)
              then Some (inl (SizeMismatch (Z.of_nat (length data)) expected))
              else Some (inr (w, h, data))
          end
      end
  end.

(** The decimal digits of a natural number, as [str(n).encode()]. *)
Fixpoint digits_aux (fuel : nat) (n : Z) (acc : list Z) : list Z :=
  match fuel with
  | O => acc
  | S f => let acc' := (48 + n mod 10) :: acc in if n <? 10 then acc' else digits_aux f (n / 10) acc'
  end.

Definition show_int (n : Z) : list Z := digits_aux (S (Z.to_nat n)) n [].

(** The P4 file of a bitmap, as an image editor writes it. *)
Definition pbm_encode (w h : Z) (data : list Z) : list Z :=
  [80; 52; 10] ++ show_int w ++ [32] ++ show_int h ++ [10] ++ data.

(** ** Python exceptions and the launcher's effects *)

(** The exceptions that reach the launcher's handlers.  [SystemExit] is
    what [sys.exit()] raises; it derives from [BaseException] only, so
    [except Exception] lets it through. *)
Inductive exc := ValueError | IndexError | OSError | ImportError | GameError | SystemExit.

Definition is_exception (e : exc) : bool := match e with SystemExit => false | _ => true end.

(** What the launcher does that can be observed: bus traffic of its own
    display, [time.sleep], [print], and the run of a game's code (which
    drives the panel through its own [SSD1306_I2C] object). *)
Inductive lev := LBus (e : BusEvent) | LSleep (ms : Z) | LPrint | LGame (name : string) (bus : list BusEvent).

(** The launcher's state: its [display] object and the names in
    [sys.modules]. *)
Record lstate := mkL { ldisp : SSD1306.state; lmods : list string }.

(** Code that may raise: the state-and-trace monad with an exception. *)
Abbreviation lm A := (sw lstate lev (exc + A)).

Definition lret {A} (a : A) : lm A := fun s => (inr a, s, []).
Definition lraise {A} (e : exc) : lm A := fun s => (inl e, s, []).
Definition lbind {A B} (m : lm A) (f : A -> lm B) : lm B := fun s =>
  let '(r, s1, e1) := m s in
  match r with
  | inl e => (inl e, s1, e1)
  | inr a => let '(r2, s2, e2) := f a s1 in (r2, s2, e1 ++ e2)
  end.

Declare Scope launcher_scope.
Notation "'let?' x := m 'in' f" := (lbind m (fun x => f))
  (at level 200, x name, m at level 100, f at level 200, right associativity) : launcher_scope.
Notation "m ;? f" := (lbind m (fun _ => f)) (at level 100, right associativity) : launcher_scope.
Local Open Scope launcher_scope.

(** [try: m except Exception: handler]. *)
Definition ltry {A} (m : lm A) (handler : exc -> lm A) : lm A := fun s =>
  let '(r, s1, e1) := m s in
  match r with
  | inl e => if is_exception e then let '(r2, s2, e2) := handler e s1 in (r2, s2, e1 ++ e2) else (r, s1, e1)
  | inr _ => (r, s1, e1)
  end.

(** [try: m finally: fin]: [fin] runs on both paths; an exception of [fin]
    replaces the outcome of [m]. *)
Definition lfinally {A} (m : lm A) (fin : lm unit) : lm A := fun s =>
  let '(r, s1, e1) := m s in
  let '(r2, s2, e2) := fin s1 in
  (match r2 with inl e => inl e | inr _ => r end, s2, e1 ++ e2).

(** A call on the [display] object. *)
Definition on_display {A} (m : SSD1306.drv A) : lm A := fun s =>
  let '(a, d, es) := m (ldisp s) in (inr a, mkL d (lmods s), map LBus es).

Definition sleep_ms (ms : Z) : lm unit := fun s => (inr tt, s, [LSleep ms]).
Definition log : lm unit := fun s => (inr tt, s, [LPrint]).

(** ** Python indexing *)

(** The position [l[i]] reads for a list of length [n]: negative [i] counts
    from the end; anything else out of range raises [IndexError]. *)
Definition py_index (n : nat) (i : Z) : option nat :=
  if (0 <=? i) && (i <? Z.of_nat n) then Some (Z.to_nat i)
  else if (- Z.of_nat n <=? i) && (i <? 0) then Some (Z.to_nat (Z.of_nat n + i)) else None.

Definition py_get (l : list Z) (i : Z) : option Z := k ← py_index (length l) i; l !! k.

(** ** [draw_pbm_to_display] *)

(** The double loop [for y in range(max_h): for x in range(max_w): ...],
    over the bytes of [display.buffer]: the buffer when the loop ends or
    raises, and the exception it raised. *)
Fixpoint pbm_loop (pbm : list Z) (row_bytes x0 y0 dw : Z) (pts : list (Z * Z)) (buf : list Z)
    : list Z * option exc :=
  match pts with
  | [] => (buf, None)
  | (y, x) :: pts' =>
      let row_start := y * row_bytes in
      match py_get pbm (row_start + (x .>> 3)) with
      | None => (buf, Some IndexError)
      | Some b =>
          let bit := 7 - (x .& 7) in
          let on := (b .>> bit) .& 1 in
          if on =? 0 then pbm_loop pbm row_bytes x0 y0 dw pts' buf else
          let dx := x0 + x in
          let dy := y0 + y in
          let idx := dx + (dy .>> 3) * dw in
          match py_index (length buf) idx with
          | None => (buf, Some IndexError)
          | Some i => pbm_loop pbm row_bytes x0 y0 dw pts' (<[i := (buf !!! i) .| (1 .<< (dy .& 7))]> buf)
          end
      end
  end.

(** [framebuf.fill_rect(x, y, w, h, c)] (MicroPython's C routine, which
    clips to the surface). *)
Definition vlsb_fill_rect (f : VLSB) (x y w h : Z) (c : bool) : VLSB :=
  foldl (fun f p => vlsb_set f p.2 p.1 c) f (zrange2 y (y + h) x (x + w)).

(** A game's code as the launcher sees it: the bus traffic of its own
    display object, then how it ends ([None]: it returns; [Some e]: it
    raises [e], [SystemExit] when it calls [sys.exit()]). *)
Record game_run := mkRun { gr_bus : list BusEvent; gr_raises : option exc }.

(** A module of [games/]: the code run by importing it (the whole game for
    every game but Dino) and its [play_game] function, if it has one. *)
Record game := mkGame { g_body : game_run; g_play : option game_run }.

(** The buttons as the menu reads them, one [value()] each: [false] is
    pressed (active low). *)
Record buttons := mkButtons { b_right : bool; b_left : bool; b_up : bool; b_down : bool }.

(** [s.endswith(suffix)]. *)
Definition py_endswith (str suffix : string) : bool :=
  String.eqb (substring (String.length str - String.length suffix) (String.length suffix) str) suffix.

#[local] Instance string_leb_dec : RelDecision (fun a b : string => String.leb a b = true).
Proof. intros a b. apply _. Defined.

(** [game_files = [f[:-3] for f in os.listdir(GAMES_FOLDER) if f.endswith(".py")]; game_files.sort()]. *)
Definition game_list (listing : list string) : list string :=
  merge_sort (fun a b : string => String.leb a b = true)
    (map (fun f => substring 0 (String.length f - 3) f) (filter (fun f => py_endswith f ".py" = true) listing)).

Definition GAMES_FOLDER : string := "games".

Section LauncherIO.
(** [framebuf.text(s, x, y)]: MicroPython's built-in 8x8 font, a C routine. *)
Variable text : string -> Z -> Z -> VLSB -> VLSB.
(** The files of the flash file system, by path. *)
Variable files : string -> option (list Z).

Definition display_text (str : string) (x y : Z) : lm unit :=
  on_display (sw_modify (fun d => SSD1306.set_fb (text str x y (SSD1306.fb d)) d)).

Definition draw_pbm_to_display (path : string) (x0 y0 : Z) : lm unit :=
  match files path with
  | None => lraise OSError
  | Some file =>
      match read_pbm_p4 file with
      | Some (inr (w, h, pbm)) =>
          let? d := on_display sw_get in
          let max_w := Z.min w (SSD1306.width d - x0) in
          let max_h := Z.min h (SSD1306.height d - y0) in
          let row_bytes := (w + 7) / 8 in
          let dw := SSD1306.width d in
          on_display (SSD1306.fill 0) ;?
          let? d1 := on_display sw_get in
          let '(buf, err) := pbm_loop pbm row_bytes x0 y0 dw (zrange2 0 max_h 0 max_w) (SSD1306.buffer d1) in
          on_display (sw_modify (SSD1306.set_fb (mkVLSB (vl_w (SSD1306.fb d1)) (vl_h (SSD1306.fb d1)) buf))) ;?
          match err with
          | Some e => lraise e
          | None =>
              on_display (sw_modify (fun d => SSD1306.set_fb (vlsb_fill_rect (SSD1306.fb d) 0 0 (SSD1306.width d) 1 false) d)) ;?
              on_display SSD1306.show
          end
      | _ => lraise ValueError  (** a header [ValueError]; [None] does not occur ([read_pbm_p4_total]) *)
      end
  end.
(** The modules of [games/], by name. *)
Variable games : string -> option game.

Definition load_and_display_image (name : string) : lm unit :=
  let path := (GAMES_FOLDER +:+ "/" +:+ name +:+ ".pbm")%string in
  ltry (draw_pbm_to_display path 0 0)
    (fun _ =>
       on_display (SSD1306.fill 0) ;?
       display_text (substring 0 16 name) 0 25 ;?
       display_text "[No image]" 0 40 ;?
       on_display SSD1306.show ;?
       log).

Definition show_logo : lm unit :=
  ltry (draw_pbm_to_display "logo.pbm" 0 0 ;? sleep_ms 2000)
    (fun _ =>
       on_display (SSD1306.fill 0) ;?
       display_text "Welcome!" 25 25 ;?
       on_display SSD1306.show ;?
       sleep_ms 1500 ;?
       log).

(** Running code of the game [name]. *)
Definition run_code (name : string) (r : game_run) : lm unit := fun s =>
  (match gr_raises r with None => inr tt | Some e => inl e end, s, [LGame name (gr_bus r)]).

(** [if name in sys.modules: del sys.modules[name]]. *)
Definition del_module (name : string) : lm unit := fun s =>
  (inr tt, mkL (ldisp s) (filter (fun m => m <> name) (lmods s)), []).

(** [__import__(name)]: a module already in [sys.modules] is returned
    as it is; otherwise its code runs, and the module is recorded only
    when that code returns. *)
Definition import_module (name : string) : lm game := fun s =>
  match games name with
  | None => (inl ImportError, s, [])
  | Some g =>
      if decide (name ∈ lmods s) then (inr g, s, []) else
      let '(r, s1, evs) := run_code name (g_body g) s in
      match r with
      | inl e => (inl e, s1, evs)
      | inr _ => (inr g, mkL (ldisp s1) (name :: lmods s1), evs)
      end
  end.

Definition launch_game (name : string) : lm unit :=
  lfinally
    (ltry
       (del_module name ;?
        let? m := import_module name in
        match g_play m with Some p => run_code name p | None => lret tt end)
       (fun _ =>
          on_display (SSD1306.fill 0) ;?
          display_text "Game crash" 0 0 ;?
          display_text (substring 0 16 name) 0 10 ;?
          on_display SSD1306.show ;?
          log ;?
          sleep_ms 2000))
    (on_display (SSD1306.fill 0) ;? on_display SSD1306.show ;? sleep_ms 200).

(** One pass of the [while True] loop of [run_menu]. *)
Definition menu_tick (game_files : list string) (cur : Z) (inp : buttons) : lm Z :=
  let n := Z.of_nat (length game_files) in
  let? cur :=
    (if negb (b_right inp) then
       let c := (cur + 1) mod n in
       load_and_display_image (game_files !!! Z.to_nat c) ;? sleep_ms 200 ;? lret c
     else lret cur) in
  let? cur :=
    (if negb (b_left inp) then
       let c := (cur - 1) mod n in
       load_and_display_image (game_files !!! Z.to_nat c) ;? sleep_ms 200 ;? lret c
     else lret cur) in
  (if negb (b_up inp) || negb (b_down inp) then
     on_display (SSD1306.fill 0) ;?
     display_text "Starting game..." 0 0 ;?
     on_display SSD1306.show ;?
     sleep_ms 500 ;?
     launch_game (game_files !!! Z.to_nat cur) ;?
     load_and_display_image (game_files !!! Z.to_nat cur) ;?
     sleep_ms 200
   else lret tt) ;?
  sleep_ms 20 ;?
  lret cur.

(** The first passes of the loop, one per sample of the buttons. *)
Fixpoint menu_loop (game_files : list string) (cur : Z) (ins : list buttons) : lm Z :=
  match ins with
  | [] => lret cur
  | i :: ins' => let? c := menu_tick game_files cur i in menu_loop game_files c ins'
  end.

(** [run_menu()], observed for the passes [ins]. *)
Definition run_menu (listing : list string) (ins : list buttons) : lm unit :=
  let game_files := game_list listing in
  match game_files with
  | [] =>
      on_display (SSD1306.fill 0) ;?
      display_text "Nessun gioco" 10 20 ;?
      display_text "trovato!" 30 35 ;?
      on_display SSD1306.show
  | _ =>
      load_and_display_image (game_files !!! 0%nat) ;?
      menu_loop game_files 0 ins ;?
      lret tt
  end.

(** The program: [show_logo()], then [run_menu()]. *)
Definition main (listing : list string) (ins : list buttons) : lm unit :=
  show_logo ;? run_menu listing ins.
End LauncherIO.

(** ** Specifications *)

Definition is_digit (b : Z) : Prop := 48 <= b <= 57.

Abbreviation swap_pt := (fun p : Z * Z => (p.2, p.1)).

Definition pbm_frame (d : SSD1306.state) (w h : Z) (pbm : list Z) : VLSB :=
  vlsb_fill_rect
    (copy_pass id (map swap_pt (zrange2 0 (Z.min h (SSD1306.height d)) 0 (Z.min w (SSD1306.width d))))
       (mkHLSB w h pbm) (vlsb_fill (SSD1306.fb d) false))
    0 0 (SSD1306.width d) 1 false.

(** ** A program logic for the launcher's monad

    [lspec I Q m]: from a state satisfying [I], [m] ends in a state
    satisfying [I] and either returns a value satisfying [Q] or raises
    [SystemExit], the one exception [except Exception] cannot catch.
    [lpres I Q m] is the weaker promise of code run under a handler: it keeps
    [I] whatever it raises. *)
Definition lspec {A} (I : lstate -> Prop) (Q : A -> Prop) (m : lm A) : Prop :=
  forall s, I s -> I (m s).1.2 /\ match (m s).1.1 with inr a => Q a | inl e => e = SystemExit end.

Definition lpres {A} (I : lstate -> Prop) (Q : A -> Prop) (m : lm A) : Prop :=
  forall s, I s -> I (m s).1.2 /\ forall a, (m s).1.1 = inr a -> Q a.

(** How a game's code ends: its import raises, or its [play_game] does. *)
Definition game_outcome (g : game) : option exc :=
  match gr_raises (g_body g) with
  | Some e => Some e
  | None => match g_play g with Some p => gr_raises p | None => None end
  end.

(** The game's code that runs: the module body, then [play_game] if the
    body returned and the module has one. *)
Definition game_trace (name : string) (g : game) : list lev :=
  LGame name (gr_bus (g_body g)) ::
  match gr_raises (g_body g), g_play g with None, Some p => [LGame name (gr_bus p)] | _, _ => [] end.

Definition blank (d : SSD1306.state) : SSD1306.state := SSD1306.set_fb (vlsb_fill (SSD1306.fb d) false) d.

(** The launcher's contract with a game: run it; on an [Exception], show
    ["Game crash"] and the name for two seconds; in every case blank the
    panel, wait 0.2 s and return to the menu, except that [SystemExit]
    goes on after the blanking. *)
Definition launch_contract (text : string -> Z -> Z -> VLSB -> VLSB) (name : string) (g : game) (s : lstate)
    : (exc + unit) * lstate * list lev :=
  let d := ldisp s in
  let crash := SSD1306.set_fb (text (substring 0 16 name) 0 10 (text "Game crash" 0 0 (vlsb_fill (SSD1306.fb d) false))) d in
  let crashed := match game_outcome g with Some e => is_exception e | None => false end in
  let d1 := if crashed then sw_state SSD1306.show crash else d in
  let mods := filter (fun m => m <> name) (lmods s) in
  (match game_outcome g with Some SystemExit => inl SystemExit | _ => inr tt end,
   mkL (sw_state SSD1306.show (blank d1)) (if gr_raises (g_body g) then mods else name :: mods),
   game_trace name g ++
   (if crashed then map LBus (show_spec crash) ++ [LPrint; LSleep 2000] else []) ++
   map LBus (show_spec (blank d1)) ++ [LSleep 200]).

(** The placeholder of [load_and_display_image]: the name, cut to 16
    characters, and ["[No image]"]. *)
Definition no_image_screen (text : string -> Z -> Z -> VLSB -> VLSB) (name : string) (d : SSD1306.state) : SSD1306.state :=
  SSD1306.set_fb (text "[No image]" 0 40 (text (substring 0 16 name) 0 25 (vlsb_fill (SSD1306.fb d) false))) d.

(** Concrete instances for the examples: a font routine that leaves the
    surface alone, a file system with one image, two games. *)
Definition demo_text : string -> Z -> Z -> VLSB -> VLSB := fun _ _ _ f => f.
Definition demo_files (path : string) : option (list Z) :=
  if String.eqb path "games/dino.pbm" then Some (pbm_encode 8 2 [255; 1]) else None.
Definition demo_games (name : string) : option game :=
  if String.eqb name "dino" then Some (mkGame (mkRun [] None) (Some (mkRun [Cmd 0xAF] (Some SystemExit))))
  else if String.eqb name "2048" then Some (mkGame (mkRun [Cmd 0xAE] (Some GameError)) None)
  else None.
Definition demo_lstate : lstate := mkL (SSD1306.fresh 16 8) [].

(** The launcher's invariant: its display is a well-formed driver. *)
Definition linv (s : lstate) : Prop := disp_wf (ldisp s).

(** ** The parser terminates *)

Lemma readline_length f :
  (length (readline f).1 + length (readline f).2 = length f)%nat /\ ((readline f).1 = [] -> f = []).
Proof.
  induction f as [|b f IH]; [done|]. simpl. destruct (b =? 10); [simpl; split; [lia|done]|].
  destruct (readline f) as [l r]. simpl in *. split; [lia|done].
Qed.

Lemma read_tokens_some fuel tokens f : (length f < fuel)%nat -> is_Some (read_tokens fuel tokens f).
Proof.
  revert tokens f. induction fuel as [|fuel IH]; intros tokens f Hf; [lia|]. simpl.
  destruct (length tokens <? 2)%nat; [|by eexists].
  pose proof (readline_length f) as [Hlen Hnil]. destruct (readline f) as [line f']. simpl in *.
  destruct line as [|b0 line]; [by eexists|].
  destruct (strip (b0 :: line)) as [|b l]; [apply IH; simpl in Hlen; lia|].
  destruct (b =? 35); apply IH; simpl in Hlen; lia.
Qed.

(** ** The parser reads back what [pbm_encode] writes *)

Lemma readline_app l r : Forall (fun b => b <> 10) l -> readline (l ++ 10 :: r) = (l ++ [10], r).
Proof.
  induction l as [|b l IH]; intros Hl; [done|]. apply Forall_cons in Hl as [Hb Hl]. simpl.
  rewrite (proj2 (Z.eqb_neq b 10) Hb), IH by done. done.
Qed.


Lemma digits_aux_app f n acc : digits_aux f n acc = digits_aux f n [] ++ acc.
Proof.
  revert n acc. induction f as [|f IH]; intros n acc; [done|]. simpl.
  destruct (n <? 10); [done|]. rewrite IH, (IH (n / 10) [_]). by rewrite <- app_assoc.
Qed.

Lemma digits_aux_digits f n acc : 0 <= n -> Forall is_digit acc -> Forall is_digit (digits_aux f n acc).
Proof.
  revert n acc. induction f as [|f IH]; intros n acc Hn Hacc; [done|]. simpl.
  assert (is_digit (48 + n mod 10)) by (unfold is_digit; pose proof (Z.mod_pos_bound n 10); lia).
  destruct (n <? 10); [by constructor|]. apply IH; [apply Z.div_pos; lia|by constructor].
Qed.

Lemma parse_digits_app l1 l2 acc :
  parse_digits (l1 ++ l2) acc = match parse_digits l1 acc with Some a => parse_digits l2 a | None => None end.
Proof.
  revert acc. induction l1 as [|b l1 IH]; intros acc; [done|]. simpl. by destruct (digit_val b).
Qed.

Lemma digit_val_digit d : 0 <= d < 10 -> digit_val (48 + d) = Some d.
Proof. intros Hd. unfold digit_val. replace ((48 <=? 48 + d) && (48 + d <=? 57)) with true; [f_equal; lia|].
  symmetry. apply andb_true_iff. rewrite !Z.leb_le. lia. Qed.

Lemma show_int_value f n : 0 <= n -> (Z.to_nat n < f)%nat -> parse_digits (digits_aux f n []) 0 = Some n.
Proof.
  revert n. induction f as [|f IH]; intros n Hn Hf; [lia|]. simpl.
  pose proof (Z.mod_pos_bound n 10 ltac:(lia)) as Hm.
  destruct (n <? 10) eqn:E.
  - apply Z.ltb_lt in E. simpl. rewrite digit_val_digit by lia. f_equal. rewrite Z.mod_small; lia.
  - apply Z.ltb_ge in E. assert (n / 10 < n) by (apply Z.div_lt; lia).
    rewrite digits_aux_app, parse_digits_app, IH by first [apply Z.div_pos; lia | lia].
    simpl. rewrite digit_val_digit by lia. f_equal. pose proof (Z.div_mod n 10). lia.
Qed.

Lemma show_int_shape n : 0 <= n -> exists d ds, show_int n = d :: ds /\ Forall is_digit (d :: ds).
Proof.
  intros Hn. unfold show_int. pose proof (digits_aux_digits (S (Z.to_nat n)) n [] Hn (Forall_nil_2 _)) as Hd.
  revert Hd. cbn [digits_aux]. destruct (n <? 10); [by eauto|].
  rewrite digits_aux_app. destruct (digits_aux (Z.to_nat n) (n / 10) []) as [|d ds]; simpl; by eauto.
Qed.

Lemma is_digit_not_space b : is_digit b -> is_space b = false.
Proof. unfold is_digit, is_space. intros Hb. repeat (apply orb_false_iff; split); apply Z.eqb_neq; lia. Qed.

Lemma digits_not_space l : Forall is_digit l -> Forall (fun b => is_space b = false) l.
Proof. intros Hl. eapply Forall_impl; [exact Hl|]. apply is_digit_not_space. Qed.

Lemma lstrip_cons b l : is_space b = false -> lstrip (b :: l) = b :: l.
Proof. simpl. by intros ->. Qed.

Lemma split_ws_app l r cur :
  Forall (fun b => is_space b = false) l -> split_ws (l ++ r) cur = split_ws r (reverse l ++ cur).
Proof.
  revert cur. induction l as [|b l IH]; intros cur Hl; [done|]. apply Forall_cons in Hl as [Hb Hl].
  simpl. rewrite Hb, IH by done. by rewrite reverse_cons, <- app_assoc.
Qed.

Lemma split_ws_nil c : c <> [] -> split_ws [] c = [reverse c].
Proof. by destruct c. Qed.

Lemma split_ws_sep r c : c <> [] -> split_ws (32 :: r) c = reverse c :: split_ws r [].
Proof. by destruct c. Qed.

Lemma reverse_cons_ne (d : Z) l : reverse (d :: l) <> [].
Proof. intros E. apply (f_equal length) in E. rewrite length_reverse in E. done. Qed.

(** [b"12 34".split() == [b"12", b"34"]]. *)
Lemma split_ws_two d1 l1 d2 l2 :
  Forall (fun b => is_space b = false) (d1 :: l1) -> Forall (fun b => is_space b = false) (d2 :: l2) ->
  split_ws ((d1 :: l1) ++ 32 :: d2 :: l2) [] = [d1 :: l1; d2 :: l2].
Proof.
  intros H1 H2. rewrite split_ws_app, app_nil_r, split_ws_sep, reverse_involutive by (done || apply reverse_cons_ne).
  rewrite <- (app_nil_r (d2 :: l2)) at 1. rewrite split_ws_app, app_nil_r, split_ws_nil by (done || apply reverse_cons_ne).
  by rewrite reverse_involutive.
Qed.

Lemma lstrip_reverse_ne p (d : Z) l :
  Forall (fun b => is_space b = false) (d :: l) -> lstrip (reverse (p ++ d :: l)) = reverse (p ++ d :: l).
Proof.
  intros Hl. rewrite reverse_app. destruct (reverse (d :: l)) as [|z r] eqn:E; [by apply reverse_cons_ne in E|].
  simpl. rewrite Forall_forall in Hl. rewrite Hl; [done|]. rewrite <- elem_of_reverse, E. by left.
Qed.

(** A line ending in a word strips to the line without its newline. *)
Lemma strip_line z p d l :
  is_space z = false -> Forall (fun b => is_space b = false) (d :: l) ->
  strip ((z :: p) ++ (d :: l) ++ [10]) = (z :: p) ++ d :: l.
Proof.
  intros Hz Hl. unfold strip. rewrite app_assoc. cbn [app]. rewrite lstrip_cons by done.
  rewrite app_comm_cons, reverse_snoc. cbn [lstrip is_space Z.eqb Pos.eqb orb].
  change (z :: p ++ d :: l) with ((z :: p) ++ d :: l). by rewrite lstrip_reverse_ne, reverse_involutive.
Qed.

(** The header line ["<w> <h>\n"] strips to ["<w> <h>"]. *)
Lemma strip_header d1 l1 d2 l2 :
  Forall (fun b => is_space b = false) (d1 :: l1) -> Forall (fun b => is_space b = false) (d2 :: l2) ->
  strip ((d1 :: l1) ++ 32 :: (d2 :: l2) ++ [10]) = (d1 :: l1) ++ 32 :: d2 :: l2.
Proof.
  intros H1 H2. pose proof (strip_line d1 (l1 ++ [32]) d2 l2) as E. cbn [app] in E |- *.
  rewrite <- !app_assoc in E. apply E; [by apply Forall_cons in H1 as []|done].
Qed.

Lemma read_tokens_header k d1 l1 d2 l2 data :
  Forall is_digit (d1 :: l1) -> Forall is_digit (d2 :: l2) ->
  read_tokens (S (S k)) [] ((d1 :: l1) ++ 32 :: (d2 :: l2) ++ 10 :: data) = Some (inr ([d1 :: l1; d2 :: l2], data)).
Proof.
  intros H1 H2. pose proof (digits_not_space _ H1) as S1. pose proof (digits_not_space _ H2) as S2.
  cbn [read_tokens length Nat.ltb Nat.leb].
  assert (Forall (fun b => b <> 10) ((d1 :: l1) ++ 32 :: d2 :: l2)) as Hn.
  { assert (forall b, is_digit b -> b <> 10) as Hd by (unfold is_digit; lia).
    apply Forall_app; split; [|constructor; [lia|]]; eapply Forall_impl; [exact H1|exact Hd|exact H2|exact Hd]. }
  rewrite app_comm_cons, app_assoc, readline_app by done. cbn match.
  replace (((d1 :: l1) ++ 32 :: d2 :: l2) ++ [10]) with ((d1 :: l1) ++ 32 :: (d2 :: l2) ++ [10])
    by (by rewrite <- app_assoc).
  rewrite strip_header by done. cbn [app].
  assert (d1 =? 35 = false) as -> by (apply Z.eqb_neq; apply Forall_cons in H1 as [H1 _]; unfold is_digit in H1; lia).
  change (d1 :: l1 ++ 32 :: d2 :: l2) with ((d1 :: l1) ++ 32 :: d2 :: l2). by rewrite split_ws_two.
Qed.

Lemma parse_int_show n : 0 <= n -> parse_int (show_int n) = Some n.
Proof.
  intros Hn. pose proof (show_int_value (S (Z.to_nat n)) n Hn ltac:(lia)) as Hv.
  destruct (show_int_shape n Hn) as (d & ds & E & Hd). unfold show_int in *. rewrite E in *.
  apply Forall_cons in Hd as [Hd _]. unfold is_digit in Hd. simpl.
  rewrite (proj2 (Z.eqb_neq d 45)), (proj2 (Z.eqb_neq d 43)) by lia. done.
Qed.

(** [read_pbm_p4] always returns or raises [ValueError]: the header loop
    ends within the length of the file. *)
Theorem read_pbm_p4_total file : is_Some (read_pbm_p4 file).
Proof.
  unfold read_pbm_p4. destruct (readline file) as [magic f1]. case_bool_decide; [by eexists|].
  destruct (read_tokens_some (S (length f1)) [] f1 ltac:(lia)) as [r ->].
  destruct r as [e|[tokens data]]; repeat case_match; by eexists.
Qed.

(** What [read_pbm_p4] makes of a file [pbm_encode] wrote: the bitmap when
    the raster has the size the header promises, [SizeMismatch] otherwise. *)
Lemma read_pbm_p4_encode w h data :
  0 <= w -> 0 <= h ->
  read_pbm_p4 (pbm_encode w h data) =
    Some (if bool_decide (Z.of_nat (length data) = (w + 7) / 8 * h) then inr (w, h, data)
          else inl (SizeMismatch (Z.of_nat (length data)) ((w + 7) / 8 * h))).
Proof.
  intros Hw Hh. pose proof (parse_int_show w Hw) as Pw. pose proof (parse_int_show h Hh) as Ph.
  destruct (show_int_shape w Hw) as (d1 & l1 & E1 & D1), (show_int_shape h Hh) as (d2 & l2 & E2 & D2).
  unfold read_pbm_p4, pbm_encode. rewrite E1, E2 in *. cbn [app readline Z.eqb Pos.eqb].
  rewrite bool_decide_eq_false_2 by (intros C; apply C; reflexivity).
  cbn [length]. rewrite (read_tokens_header _ d1 l1 d2 l2 data D1 D2). cbn [lookup_total list_lookup_total].
  rewrite Pw, Ph. by repeat case_bool_decide.
Qed.

(** C25: the P4 file that [pbm_encode] writes for a [w]x[h] bitmap with
    [((w + 7) // 8) * h] bytes is read back as [(w, h, data)]. *)
Theorem read_pbm_p4_roundtrip w h data :
  0 <= w -> 0 <= h -> Z.of_nat (length data) = (w + 7) / 8 * h ->
  read_pbm_p4 (pbm_encode w h data) = Some (inr (w, h, data)).
Proof. intros Hw Hh Hlen. rewrite read_pbm_p4_encode by done. by rewrite bool_decide_eq_true_2. Qed.

(** a raster shorter or longer than the header promises is rejected with
    [ValueError("PBM bytes %d != %d")], never drawn in part. *)
Theorem read_pbm_p4_size_mismatch w h data :
  0 <= w -> 0 <= h -> Z.of_nat (length data) <> (w + 7) / 8 * h ->
  read_pbm_p4 (pbm_encode w h data) = Some (inl (SizeMismatch (Z.of_nat (length data)) ((w + 7) / 8 * h))).
Proof. intros Hw Hh Hlen. rewrite read_pbm_p4_encode by done. by rewrite bool_decide_eq_false_2. Qed.

(** the magic number must be alone on its line: a valid P4 file that
    puts its size on the magic line (["P4 <w> <h>\n"], which the PBM format
    allows) is rejected as ["Not P4 PBM"]. *)
Theorem read_pbm_p4_magic_line w h data :
  0 <= w -> 0 <= h ->
  read_pbm_p4 ([80; 52; 32] ++ show_int w ++ [32] ++ show_int h ++ [10] ++ data) = Some (inl NotP4).
Proof.
  intros Hw Hh. destruct (show_int_shape w Hw) as (d1 & l1 & E1 & D1), (show_int_shape h Hh) as (d2 & l2 & E2 & D2).
  unfold read_pbm_p4. rewrite E1, E2.
  assert (forall b, is_digit b -> b <> 10) as Hd by (unfold is_digit; lia).
  replace ([80; 52; 32] ++ (d1 :: l1) ++ [32] ++ (d2 :: l2) ++ [10] ++ data)
    with ((80 :: (52 :: 32 :: (d1 :: l1) ++ [32])) ++ (d2 :: l2) ++ 10 :: data) by (cbn; by rewrite <- app_assoc).
  rewrite app_assoc, readline_app.
  2:{ assert (forall l, Forall is_digit l -> Forall (fun b => b <> 10) l) as N
        by (intros l Hl; eapply Forall_impl; [exact Hl|exact Hd]).
      apply Forall_app; split; [|by apply N]. do 3 (constructor; [lia|]).
      apply Forall_app; split; [by apply N|]. constructor; [lia|constructor]. }
  rewrite <- app_assoc, strip_line by (done || by apply digits_not_space).
  rewrite bool_decide_eq_true_2; [done|]. intros E. apply (f_equal length) in E. simpl in E. lia.
Qed.


(** ** [draw_pbm_to_display] copies the bitmap *)

Lemma py_index_in n i : 0 <= i < Z.of_nat n -> py_index n i = Some (Z.to_nat i).
Proof. intros Hi. unfold py_index. by rewrite (proj2 (andb_true_iff _ _)) by (rewrite Z.leb_le, Z.ltb_lt; lia). Qed.

Lemma hlsb_get_byte w h pbm x y :
  length pbm = hlsb_size w h -> in_box w h x y ->
  exists b, py_get pbm (hlsb_index w x y) = Some b /\ hlsb_get (mkHLSB w h pbm) x y = Z.testbit b (hlsb_bit x y).
Proof.
  intros Hl Hin. destruct (hlsb_idx_ok w h x y Hin) as [H0 H1].
  destruct (lookup_lt_is_Some_2 pbm (Z.to_nat (hlsb_index w x y))) as [b Eb]; [lia|].
  exists b. unfold py_get. rewrite py_index_in by lia. simpl. split; [done|].
  unfold hlsb_get, ba_get. simpl. by rewrite bool_decide_eq_true_2, Eb.
Qed.

Lemma vlsb_set_true_insert W H buf x y :
  vlsb_wf (mkVLSB W H buf) -> in_box W H x y ->
  vl_buf (vlsb_set (mkVLSB W H buf) x y true) =
    <[Z.to_nat (vlsb_index W x y) := (buf !!! Z.to_nat (vlsb_index W x y)) .| (1 .<< (y .& 7))]> buf.
Proof.
  intros [Hl _] Hin. destruct (vlsb_idx_ok W H x y Hin) as [H0 H1]. simpl in Hl.
  unfold vlsb_set, ba_set. simpl. rewrite decide_True by done. by rewrite alter_insert_total by lia.
Qed.


(** The loop with [x0 = y0 = 0] over points inside both surfaces raises
    nothing and sets exactly the pixels [copy_pass] sets. *)
Lemma pbm_loop_copy w h pbm W H pts buf :
  length pbm = hlsb_size w h -> vlsb_wf (mkVLSB W H buf) ->
  Forall (fun p => in_box w h p.2 p.1 /\ in_box W H p.2 p.1) pts ->
  pbm_loop pbm ((w + 7) / 8) 0 0 W pts buf =
    (vl_buf (copy_pass id (map swap_pt pts) (mkHLSB w h pbm) (mkVLSB W H buf)), None).
Proof.
  intros Hsrc. revert buf. induction pts as [|[y x] pts IH]; intros buf Hdst Hpts; [done|].
  apply Forall_cons in Hpts as [[Hin Hin'] Hpts]. simpl in Hin, Hin'. cbn [pbm_loop map].
  destruct (hlsb_get_byte w h pbm x y Hsrc Hin) as (b & Eb & Hg).
  unfold hlsb_index, hlsb_row_bytes in Eb. rewrite Eb. unfold copy_pass. cbn [foldl].
  rewrite hlsb_pixel_get. simpl fst. simpl snd. rewrite Hg.
  assert (0 <= hlsb_bit x y < 8) as Hb by (apply hlsb_bit_ok; unfold in_box in Hin; lia).
  rewrite shiftr_land1 by (unfold hlsb_bit in Hb; lia). fold (hlsb_bit x y).
  destruct (Z.testbit b (hlsb_bit x y)); simpl Z.b2z; cbn [Z.eqb]; [|by apply IH].
  destruct (vlsb_idx_ok W H x y Hin') as [H0 H1]. destruct Hdst as [Hl Hbytes]. simpl in Hl.
  rewrite !Z.add_0_l, py_index_in by (unfold vlsb_index in *; lia).
  change (x + y .>> 3 * W) with (vlsb_index W x y).
  rewrite <- (vlsb_set_true_insert W H buf x y) by done.
  exact (IH _ (vlsb_set_wf (mkVLSB W H buf) x y true (conj Hl Hbytes)) Hpts).
Qed.

(** A file [read_pbm_p4] accepts has the raster its header promises. *)
Lemma read_pbm_p4_size file w h pbm :
  read_pbm_p4 file = Some (inr (w, h, pbm)) -> length pbm = hlsb_size w h.
Proof.
  unfold read_pbm_p4. destruct (readline file) as [magic f1]. case_bool_decide; [done|].
  destruct (read_tokens _ _ _) as [[e|[tokens data]]|]; try done.
  repeat case_match; try done; case_bool_decide as Hl; intros; simplify_eq.
  unfold hlsb_size, hlsb_row_bytes. lia.
Qed.

Lemma vlsb_fold_set_get f c pts x y :
  vlsb_wf f -> in_box (vl_w f) (vl_h f) x y ->
  vlsb_get (foldl (fun f p => vlsb_set f p.2 p.1 c) f pts) x y =
    if bool_decide ((y, x) ∈ pts) then c else vlsb_get f x y.
Proof.
  revert f. induction pts as [|[py px] pts IH]; intros f Hwf Hin; [done|]. cbn [foldl].
  rewrite IH by (by apply vlsb_set_wf || done). simpl.
  destruct (decide ((px, py) = (x, y))) as [[= -> ->]|Hne].
  - rewrite vlsb_get_set_eq by done. repeat case_bool_decide; set_solver.
  - rewrite vlsb_get_set_ne by done. repeat case_bool_decide; try done; set_solver.
Qed.


Lemma set_fb_set_fb f g d : SSD1306.set_fb f (SSD1306.set_fb g d) = SSD1306.set_fb f d.
Proof. by destruct d. Qed.

Lemma fb_set_fb f d : SSD1306.fb (SSD1306.set_fb f d) = f.
Proof. done. Qed.

Lemma width_set_fb f d : SSD1306.width (SSD1306.set_fb f d) = SSD1306.width d.
Proof. done. Qed.

Lemma set_fb_wf f d :
  disp_wf d -> vlsb_wf f -> vl_w f = SSD1306.width d -> vl_h f = SSD1306.height d -> disp_wf (SSD1306.set_fb f d).
Proof. intros (? & ? & ? & ? & ? & _ & _ & _ & ?) ???. by split_and!. Qed.

Lemma copy_pass_vlsb_dims f pts (src : HLSB) (dst : VLSB) :
  vl_w (copy_pass f pts src dst) = vl_w dst /\ vl_h (copy_pass f pts src dst) = vl_h dst.
Proof.
  unfold copy_pass. revert dst. induction pts as [|p pts IH]; intros dst; [done|]. cbn [foldl].
  destruct (pixel_get src p.1 p.2); [|apply IH].
  by destruct (IH (pixel_set dst (f p).1 (f p).2 true)) as [-> ->].
Qed.

Lemma vlsb_fill_rect_dims f x y w h c :
  vlsb_wf f -> vlsb_wf (vlsb_fill_rect f x y w h c) /\
  vl_w (vlsb_fill_rect f x y w h c) = vl_w f /\ vl_h (vlsb_fill_rect f x y w h c) = vl_h f.
Proof.
  unfold vlsb_fill_rect. generalize (zrange2 y (y + h) x (x + w)). intros pts. revert f.
  induction pts as [|p pts IH]; intros f Hf; [done|]. cbn [foldl].
  by destruct (IH (vlsb_set f p.2 p.1 c)) as (? & -> & ->); [apply vlsb_set_wf|].
Qed.

Lemma pbm_frame_wf d w h pbm :
  disp_wf d -> disp_wf (SSD1306.set_fb (pbm_frame d w h pbm) d).
Proof.
  intros Hwf. pose proof Hwf as (_ & _ & _ & _ & _ & Ew & Eh & Hfb & _). unfold pbm_frame.
  pose proof (vlsb_fill_wf _ false Hfb) as Hfill.
  destruct (copy_pass_dims (Src:=HLSB) (Dst:=VLSB) id (map swap_pt (zrange2 0 (Z.min h (SSD1306.height d)) 0 (Z.min w (SSD1306.width d))))
    (mkHLSB w h pbm) (vlsb_fill (SSD1306.fb d) false)) as (Hcp & _ & _); [exact Hfill|].
  destruct (copy_pass_vlsb_dims id (map swap_pt (zrange2 0 (Z.min h (SSD1306.height d)) 0 (Z.min w (SSD1306.width d))))
    (mkHLSB w h pbm) (vlsb_fill (SSD1306.fb d) false)) as [Cw Ch].
  destruct (vlsb_fill_rect_dims _ 0 0 (SSD1306.width d) 1 false Hcp) as (? & Rw & Rh).
  apply set_fb_wf; [done|done|..]; [rewrite Rw, Cw|rewrite Rh, Ch]; done.
Qed.

Lemma draw_pbm_run (files : string -> option (list Z)) path file w h pbm s :
  files path = Some file -> read_pbm_p4 file = Some (inr (w, h, pbm)) -> disp_wf (ldisp s) ->
  let d' := SSD1306.set_fb (pbm_frame (ldisp s) w h pbm) (ldisp s) in
  draw_pbm_to_display files path 0 0 s = (inr tt, mkL (sw_state SSD1306.show d') (lmods s), map LBus (show_spec d')).
Proof.
  intros Hf Hr Hwf d'. pose proof (read_pbm_p4_size _ _ _ _ Hr) as Hsz.
  unfold draw_pbm_to_display. rewrite Hf, Hr. destruct s as [d mods]. simpl in Hwf, d'.
  pose proof (pbm_frame_wf d w h pbm Hwf) as Hd'. fold d' in Hd'.
  cbn [lbind on_display sw_get sw_modify SSD1306.fill ldisp lmods Z.eqb negb].
  destruct Hwf as (Hw0 & _ & Hh0 & _ & _ & Ew & Eh & Hfb & _).
  destruct (SSD1306.fb d) as [W H buf] eqn:Efb. simpl in Ew, Eh. subst W H.
  rewrite !Z.sub_0_r. unfold SSD1306.buffer. cbn [SSD1306.set_fb SSD1306.fb vlsb_fill vl_buf vl_w vl_h].
  rewrite (pbm_loop_copy w h pbm (SSD1306.width d) (SSD1306.height d)); [|done| |].
  2:{ by apply (vlsb_fill_wf (mkVLSB _ _ buf)). }
  2:{ apply Forall_forall. intros [y x] Hp. apply elem_of_zrange2 in Hp. unfold in_box. simpl. lia. }
  cbn [lbind on_display sw_modify ldisp lmods]. rewrite !set_fb_set_fb.
  destruct (copy_pass_vlsb_dims id (map swap_pt (zrange2 0 (Z.min h (SSD1306.height d)) 0 (Z.min w (SSD1306.width d))))
    (mkHLSB w h pbm) (mkVLSB (SSD1306.width d) (SSD1306.height d) (ba_fill buf false))) as [Cw Ch].
  cbn [SSD1306.fb SSD1306.set_fb SSD1306.width SSD1306.height] in *. simpl in Cw, Ch.
  assert (forall g : VLSB, vl_w g = SSD1306.width d -> vl_h g = SSD1306.height d ->
    mkVLSB (SSD1306.width d) (SSD1306.height d) (vl_buf g) = g) as Eta by (intros [] ??; simpl in *; by subst).
  rewrite (Eta _ Cw Ch).
  replace (SSD1306.set_fb _ d) with d' by (unfold d', pbm_frame; by rewrite Efb).
  destruct (show_run d' Hd') as [Htr _]. unfold sw_state, sw_trace, on_display in *. cbn [ldisp lmods].
  destruct (SSD1306.show d') as [[[] d4] evs]. simpl in *. subst evs. by rewrite ?app_nil_r.
Qed.

(** The frame [draw_pbm_to_display] leaves: the image's pixels inside the
    panel, below the wiped top row, and nothing else. *)
Lemma pbm_frame_get d w h pbm x y :
  disp_wf d -> in_box (SSD1306.width d) (SSD1306.height d) x y ->
  vlsb_get (pbm_frame d w h pbm) x y = bool_decide (1 <= y) && hlsb_get (mkHLSB w h pbm) x y.
Proof.
  intros Hwf Hin. pose proof Hwf as (_ & _ & _ & _ & _ & Ew & Eh & Hfb & _).
  pose proof (vlsb_fill_wf _ false Hfb) as Hfill.
  set (pts := map swap_pt (zrange2 0 (Z.min h (SSD1306.height d)) 0 (Z.min w (SSD1306.width d)))).
  destruct (copy_pass_dims (Src:=HLSB) (Dst:=VLSB) id pts (mkHLSB w h pbm) (vlsb_fill (SSD1306.fb d) false))
    as (Hcp & Cw & Ch); [exact Hfill|].
  unfold pbm_frame, vlsb_fill_rect. fold pts. rewrite vlsb_fold_set_get by (done || (simpl in Cw, Ch; rewrite Cw, Ch; simpl; by rewrite Ew, Eh)).
  pose proof Hin as [Hx0 Hy0]. case_bool_decide as Hy; rewrite ?elem_of_zrange2 in Hy; case_bool_decide as Hy2; [lia|done| |lia]. simpl.
  apply Bool.eq_true_iff_eq. rewrite <- vlsb_pixel_get.
  rewrite (copy_pass_get (Src:=HLSB) (Dst:=VLSB)) by (done || (simpl; by rewrite Ew, Eh)).
  rewrite vlsb_pixel_get, vlsb_get_fill by (done || by rewrite Ew, Eh).
  split; [intros [?|(p & Hp & Hs & Ep)]; [done|]|intros Hs].
  - unfold id in Ep. subst p. exact Hs.
  - right. exists (x, y). split; [|done]. unfold pts. apply list_elem_of_In, in_map_iff. exists (y, x).
    split; [done|]. apply list_elem_of_In, elem_of_zrange2. unfold in_box in Hin.
    destruct (decide (in_box w h x y)) as [[??]|Hout]; [lia|]. by rewrite hlsb_get_oob in Hs.
Qed.

(** C26: drawing a valid P4 file at the origin raises nothing, leaves the
    driver well formed, lights pixel [(x, y)] of the panel exactly when the
    image has it and [y >= 1] (the top row is wiped), and sends exactly
    that frame to the panel with one [show]. *)
Theorem draw_pbm_to_display_image (files : string -> option (list Z)) path file w h pbm s :
  files path = Some file -> read_pbm_p4 file = Some (inr (w, h, pbm)) -> disp_wf (ldisp s) ->
  let '(r, s', evs) := draw_pbm_to_display files path 0 0 s in
  r = inr tt /\ lmods s' = lmods s /\ disp_wf (ldisp s') /\
  evs = map LBus (show_spec (SSD1306.set_fb (SSD1306.fb (ldisp s')) (ldisp s))) /\
  forall x y, in_box (SSD1306.width (ldisp s)) (SSD1306.height (ldisp s)) x y ->
    vlsb_get (SSD1306.fb (ldisp s')) x y = bool_decide (1 <= y) && hlsb_get (mkHLSB w h pbm) x y.
Proof.
  intros Hf Hr Hwf. rewrite (draw_pbm_run files path file w h pbm s Hf Hr Hwf). cbn [ldisp lmods].
  pose proof (pbm_frame_wf (ldisp s) w h pbm Hwf) as Hd.
  destruct (show_run _ Hd) as (_ & Hwf' & Hfb). rewrite Hfb.
  change (SSD1306.fb (SSD1306.set_fb ?f ?d)) with f.
  split_and!; [done..|]. intros x y Hin. by apply pbm_frame_get.
Qed.

Section Logic.
Context (I : lstate -> Prop).

Lemma lspec_ret {A} (Q : A -> Prop) a : Q a -> lspec I Q (lret a).
Proof. by intros ? s ?. Qed.

Lemma lspec_bind {A B} (P : A -> Prop) (Q : B -> Prop) m f :
  lspec I P m -> (forall a, P a -> lspec I Q (f a)) -> lspec I Q (lbind m f).
Proof.
  intros Hm Hf s Hs. unfold lbind. specialize (Hm s Hs). destruct (m s) as [[[e|a] s1] e1]; simpl in *; [done|].
  destruct Hm as [H1 Ha]. specialize (Hf a Ha s1 H1). destruct (f a s1) as [[r2 s2] e2]. done.
Qed.

Lemma lpres_bind {A B} (P : A -> Prop) (Q : B -> Prop) m f :
  lpres I P m -> (forall a, P a -> lpres I Q (f a)) -> lpres I Q (lbind m f).
Proof.
  intros Hm Hf s Hs. unfold lbind. specialize (Hm s Hs). destruct (m s) as [[[e|a] s1] e1]; simpl in *; [naive_solver|].
  destruct Hm as [H1 Ha]. specialize (Hf a (Ha a eq_refl) s1 H1). destruct (f a s1) as [[r2 s2] e2]. done.
Qed.

Lemma lpres_of_spec {A} (Q : A -> Prop) m : lspec I Q m -> lpres I Q m.
Proof. intros Hm s Hs. specialize (Hm s Hs). destruct (m s) as [[[e|a] s1] e1]; naive_solver. Qed.

Lemma lpres_raise {A} (Q : A -> Prop) e : lpres I Q (lraise e).
Proof. by intros s Hs. Qed.

Lemma lspec_try {A} (Q : A -> Prop) m h :
  lpres I Q m -> (forall e, is_exception e = true -> lspec I Q (h e)) -> lspec I Q (ltry m h).
Proof.
  intros Hm Hh s Hs. unfold ltry. specialize (Hm s Hs). destruct (m s) as [[[e|a] s1] e1]; simpl in *.
  - destruct (is_exception e) eqn:He.
    + specialize (Hh e He s1 (proj1 Hm)). destruct (h e s1) as [[r2 s2] e2]. done.
    + split; [naive_solver|]. by destruct e.
  - naive_solver.
Qed.

Lemma lspec_finally {A} (Q : A -> Prop) m fin :
  lspec I Q m -> lspec I (fun _ => True) fin -> lspec I Q (lfinally m fin).
Proof.
  intros Hm Hf s Hs. unfold lfinally. specialize (Hm s Hs). destruct (m s) as [[r s1] e1]; simpl in *.
  specialize (Hf s1 (proj1 Hm)). destruct (fin s1) as [[[e|[]] s2] e2]; naive_solver.
Qed.

Lemma lspec_sleep ms : lspec I (fun _ => True) (sleep_ms ms).
Proof. by intros s Hs. Qed.

Lemma lspec_log : lspec I (fun _ => True) log.
Proof. by intros s Hs. Qed.
End Logic.

Lemma lspec_on_display {A} (m : SSD1306.drv A) :
  (forall d, disp_wf d -> disp_wf (sw_state m d)) -> lspec linv (fun _ => True) (on_display m).
Proof. intros Hm [d mods] Hd. unfold on_display, linv in *. simpl in *. specialize (Hm d Hd). unfold sw_state in Hm. by destruct (m d) as [[a d'] es]. Qed.

(** The loop of [draw_pbm_to_display] keeps the buffer a bytearray of the
    same length, also when it raises half way. *)
Lemma pbm_loop_bytes pbm rb x0 y0 dw pts buf :
  Forall is_byte buf ->
  length (pbm_loop pbm rb x0 y0 dw pts buf).1 = length buf /\ Forall is_byte (pbm_loop pbm rb x0 y0 dw pts buf).1.
Proof.
  revert buf. induction pts as [|[y x] pts IH]; intros buf Hb; [done|]. cbn [pbm_loop].
  destruct (py_get _ _); [|done]. case_match; [by apply IH|].
  destruct (py_index _ _) as [i|] eqn:Ei; [|done].
  assert (i < length buf)%nat as Hi.
  { unfold py_index in Ei. repeat case_match; simplify_eq; lia. }
  destruct (IH (<[i := (buf !!! i) .| (1 .<< ((y0 + y) .& 7))]> buf)) as [-> ?]; [|by rewrite length_insert].
  apply Forall_insert; [done|]. fold (set_bit (buf !!! i) ((y0 + y) .& 7)). apply set_bit_byte.
  - apply Forall_lookup_1 with buf i; [done|]. rewrite list_lookup_lookup_total_lt; [done|lia].
  - rewrite land7. apply Z.mod_pos_bound. lia.
Qed.

Section LauncherSafety.
Variable text : string -> Z -> Z -> VLSB -> VLSB.
Variable files : string -> option (list Z).
Variable games : string -> option game.
(** The font routine draws inside the surface it is given. *)
Hypothesis text_wf : forall str x y f,
  vlsb_wf f -> vlsb_wf (text str x y f) /\ vl_w (text str x y f) = vl_w f /\ vl_h (text str x y f) = vl_h f.

Lemma draw_pbm_pres path x0 y0 : lpres linv (fun _ => True) (draw_pbm_to_display files path x0 y0).
Proof.
  intros [d mods] Hd. unfold draw_pbm_to_display. destruct (files path) as [file|]; [|done].
  destruct (read_pbm_p4 file) as [[e|[[w h] pbm]]|]; [done| |done].
  cbn [lbind on_display sw_get sw_modify SSD1306.fill ldisp lmods Z.eqb negb].
  unfold linv in Hd. simpl in Hd. pose proof Hd as (_ & _ & _ & _ & _ & Ew & Eh & Hfb & _).
  pose proof (vlsb_fill_wf _ false Hfb) as [Hl Hb]. cbn [vlsb_fill vl_buf vl_w vl_h] in Hl, Hb.
  destruct (pbm_loop _ _ _ _ _ _ _) as [buf' err] eqn:E.
  pose proof (pbm_loop_bytes pbm ((w + 7) / 8) x0 y0 (SSD1306.width d)
    (zrange2 0 (Z.min h (SSD1306.height d - y0)) 0 (Z.min w (SSD1306.width d - x0)))
    (ba_fill (vl_buf (SSD1306.fb d)) false) Hb) as [Hl' Hb'].
  unfold SSD1306.buffer in E. cbn [SSD1306.fb SSD1306.set_fb vlsb_fill vl_buf] in E. rewrite E in Hl', Hb'. simpl in Hl', Hb'.
  cbn [lbind on_display sw_modify ldisp lmods]. rewrite !fb_set_fb. cbn [vlsb_fill vl_w vl_h]. rewrite !set_fb_set_fb.
  assert (disp_wf (SSD1306.set_fb (mkVLSB (vl_w (SSD1306.fb d)) (vl_h (SSD1306.fb d)) buf') d)) as Hd2.
  { apply set_fb_wf; [done|split; [simpl; lia|done]|done|done]. }
  destruct err as [e|]; [done|]. cbn [lbind on_display sw_modify ldisp lmods]. rewrite fb_set_fb, width_set_fb, set_fb_set_fb.
  assert (disp_wf (SSD1306.set_fb (vlsb_fill_rect (mkVLSB (vl_w (SSD1306.fb d)) (vl_h (SSD1306.fb d)) buf')
     0 0 (SSD1306.width d) 1 false) d)) as Hd3.
  { destruct (vlsb_fill_rect_dims (mkVLSB (vl_w (SSD1306.fb d)) (vl_h (SSD1306.fb d)) buf') 0 0 (SSD1306.width d) 1 false)
      as (? & Ew' & Eh'); [split; [simpl; lia|done]|].
    apply set_fb_wf; [done|done|rewrite Ew'; exact Ew|rewrite Eh'; exact Eh]. }
  pose proof (show_wf _ Hd3) as Hd4. unfold sw_state in Hd4. unfold on_display. cbn [ldisp].
  destruct (SSD1306.show _) as [[[] d4] es]. done.
Qed.
Lemma lspec_text str x y : lspec linv (fun _ => True) (display_text text str x y).
Proof.
  apply lspec_on_display. intros d Hd. unfold sw_state. simpl. pose proof Hd as (_ & _ & _ & _ & _ & Ew & Eh & Hfb & _).
  destruct (text_wf str x y _ Hfb) as (? & Ew' & Eh'). apply set_fb_wf; [done|done|by rewrite Ew'|by rewrite Eh'].
Qed.

Lemma lspec_fill c : lspec linv (fun _ => True) (on_display (SSD1306.fill c)).
Proof. apply lspec_on_display. intros d. apply fill_wf. Qed.

Lemma lspec_show : lspec linv (fun _ => True) (on_display SSD1306.show).
Proof. apply lspec_on_display, show_wf. Qed.

Lemma lpres_run_code name r : lpres linv (fun _ => True) (run_code name r).
Proof. intros s Hs. unfold run_code. by destruct (gr_raises r). Qed.

Lemma lpres_del_module name : lpres linv (fun _ => True) (del_module name).
Proof. by intros s Hs. Qed.

Lemma lpres_import name : lpres linv (fun _ => True) (import_module games name).
Proof.
  intros s Hs. unfold import_module. destruct (games name) as [g|]; [|done].
  case_decide; [done|]. unfold run_code. by destruct (gr_raises (g_body g)).
Qed.

Create HintDb launcher discriminated.
#[local] Hint Resolve lspec_text lspec_fill lspec_show lspec_sleep lspec_log lpres_run_code
  lpres_del_module lpres_import draw_pbm_pres lpres_of_spec : launcher.

(** Chains of [;?] whose steps all keep the invariant. *)
Ltac lchain :=
  repeat first
    [ eapply lspec_bind; [solve [eauto with launcher] | intros ? _]
    | eapply lpres_bind; [solve [eauto with launcher] | intros ? _] ];
  eauto with launcher.

Lemma load_safe name : lspec linv (fun _ => True) (load_and_display_image text files name).
Proof. unfold load_and_display_image. apply lspec_try; [by auto with launcher|intros e _; lchain]. Qed.

Lemma launch_safe name : lspec linv (fun _ => True) (launch_game text games name).
Proof.
  unfold launch_game. apply lspec_finally; [|lchain]. apply lspec_try; [|intros e _; lchain].
  eapply lpres_bind; [auto with launcher|intros _ _]. eapply lpres_bind; [auto with launcher|intros m _].
  destruct (g_play m); [auto with launcher|by apply lpres_of_spec, lspec_ret].
Qed.
#[local] Hint Resolve load_safe launch_safe : launcher.

Lemma menu_tick_safe game_files cur inp :
  (0 <= cur < Z.of_nat (length game_files))%Z ->
  lspec linv (fun c => 0 <= c < Z.of_nat (length game_files)) (menu_tick text files games game_files cur inp).
Proof.
  intros Hc. unfold menu_tick.
  assert (forall k, 0 <= k mod Z.of_nat (length game_files) < Z.of_nat (length game_files)) as Hm by (intros; apply Z.mod_pos_bound; lia).
  eapply lspec_bind with (P := fun c => 0 <= c < Z.of_nat (length game_files)).
  { destruct (negb (b_right inp)); [lchain; by apply lspec_ret|by apply lspec_ret]. }
  intros c1 Hc1. eapply lspec_bind with (P := fun c => 0 <= c < Z.of_nat (length game_files)).
  { destruct (negb (b_left inp)); [lchain; by apply lspec_ret|by apply lspec_ret]. }
  intros c2 Hc2. eapply lspec_bind; [|intros _ _; lchain; by apply lspec_ret].
  destruct (_ || _); [lchain|by apply lspec_ret].
Qed.
Lemma menu_loop_safe game_files cur ins :
  (0 <= cur < Z.of_nat (length game_files))%Z ->
  lspec linv (fun c => 0 <= c < Z.of_nat (length game_files)) (menu_loop text files games game_files cur ins).
Proof.
  revert cur. induction ins as [|i ins IH]; intros cur Hc; [by apply lspec_ret|].
  eapply lspec_bind; [by apply menu_tick_safe|]. intros c Hc'. by apply IH.
Qed.

(** the menu keeps its cursor on a game of the list, whatever the
    buttons do and whatever the games raise, and the display stays a
    well-formed driver; the only way out of the loop is a game's
    [sys.exit()]. *)
Theorem menu_loop_in_range game_files cur ins s :
  (0 <= cur < Z.of_nat (length game_files))%Z -> linv s ->
  let '(r, s', _) := menu_loop text files games game_files cur ins s in
  linv s' /\ match r with inr c => (0 <= c < Z.of_nat (length game_files))%Z | inl e => e = SystemExit end.
Proof.
  intros Hc Hs. pose proof (menu_loop_safe game_files cur ins Hc s Hs) as H.
  by destruct (menu_loop _ _ _ _ _ _ s) as [[r s'] evs].
Qed.

(** C10: the whole launcher, logo then menu, raises nothing but a game's
    [SystemExit]: a missing or malformed image and a crashing game are all
    handled, and the display stays well formed. *)
Theorem main_only_exits listing ins s :
  linv s ->
  let '(r, s', _) := main text files games listing ins s in
  linv s' /\ (r = inr tt \/ r = inl SystemExit).
Proof.
  intros Hs. assert (lspec linv (fun _ => True) (main text files games listing ins)) as H.
  { unfold main, show_logo, run_menu. eapply lspec_bind; [apply lspec_try; [lchain|intros e _; lchain]|intros _ _].
    destruct (game_list listing) as [|f fs] eqn:E; [lchain|].
    eapply lspec_bind; [auto with launcher|intros _ _].
    eapply lspec_bind; [apply (menu_loop_safe (f :: fs) 0); simpl; lia|intros _ _]. by apply lspec_ret. }
  specialize (H s Hs). destruct (main _ _ _ _ _ s) as [[[e|[]] s'] evs]; simpl in H; naive_solver.
Qed.

Lemma show_eq d : disp_wf d -> SSD1306.show d = (tt, sw_state SSD1306.show d, show_spec d).
Proof.
  intros Hd. destruct (show_run d Hd) as [Htr _]. unfold sw_state, sw_trace in *.
  destruct (SSD1306.show d) as [[[] d'] es]. simpl in *. by subst.
Qed.

Lemma on_display_show d mods :
  disp_wf d -> on_display SSD1306.show (mkL d mods) = (inr tt, mkL (sw_state SSD1306.show d) mods, map LBus (show_spec d)).
Proof.
  intros Hd. destruct (show_run d Hd) as [Htr _]. unfold on_display, sw_state, sw_trace in *. simpl.
  destruct (SSD1306.show d) as [[[] d'] es]. simpl in *. by subst.
Qed.

Lemma blank_wf d : disp_wf d -> disp_wf (blank d).
Proof. intros Hd. exact (fill_wf d 0 Hd). Qed.

(** A framebuffer that fits the driver [d]. *)
Definition fb_fits (d : SSD1306.state) (f : VLSB) : Prop :=
  vlsb_wf f /\ vl_w f = SSD1306.width d /\ vl_h f = SSD1306.height d.

Lemma fb_fits_fill d c : disp_wf d -> fb_fits d (vlsb_fill (SSD1306.fb d) c).
Proof. intros (_ & _ & _ & _ & _ & ? & ? & ? & _). split; [by apply vlsb_fill_wf|done]. Qed.

Lemma fb_fits_text d str x y f : fb_fits d f -> fb_fits d (text str x y f).
Proof. intros (Hf & Hw & Hh). destruct (text_wf str x y f Hf) as (? & E1 & E2). split_and!; [done|by rewrite E1|by rewrite E2]. Qed.

Lemma set_fb_fits d f : disp_wf d -> fb_fits d f -> disp_wf (SSD1306.set_fb f d).
Proof. intros Hd (? & ? & ?). by apply set_fb_wf. Qed.

Ltac solve_dwf :=
  repeat lazymatch goal with
  | |- disp_wf (sw_state SSD1306.show _) => apply show_wf
  | |- disp_wf (blank _) => apply blank_wf
  | |- disp_wf (SSD1306.set_fb _ _) => apply set_fb_fits
  | |- fb_fits _ (text _ _ _ _) => apply fb_fits_text
  | |- fb_fits _ (vlsb_fill _ _) => apply fb_fits_fill
  | |- disp_wf _ => assumption
  end.

Ltac lrun :=
  cbv [lret lraise lbind ltry lfinally on_display display_text sw_modify sw_get SSD1306.fill sleep_ms log];
  cbn [ldisp lmods Z.eqb negb is_exception];
  rewrite ?set_fb_set_fb, ?fb_set_fb;
  repeat (rewrite show_eq by solve_dwf; cbn [ldisp lmods app map]).





(** C5: [launch_game] implements the launcher's contract with a game. *)
Theorem launch_game_refines name g s :
  games name = Some g -> linv s -> launch_game text games name s = launch_contract text name g s.
Proof.
  intros Hg Hs. destruct s as [d mods]. unfold linv in Hs. simpl in Hs.
  unfold launch_game, launch_contract, lfinally, ltry, lbind, del_module, import_module, game_outcome, game_trace.
  rewrite Hg. cbn [ldisp lmods]. rewrite decide_False by (intros Hin; apply list_elem_of_filter in Hin; naive_solver).
  destruct g as [[bus1 [e1|]] play]; cbn [run_code gr_raises gr_bus g_body g_play].
  - destruct (is_exception e1) eqn:He; lrun.
    + destruct e1; try discriminate He; by rewrite <- ?app_assoc.
    + by destruct e1.
  - destruct play as [[bus2 [e2|]]|]; cbn [run_code gr_raises gr_bus]; [destruct (is_exception e2) eqn:He|..]; lrun.
    + destruct e2; try discriminate He; by rewrite <- ?app_assoc.
    + by destruct e2.
    + done.
    + done.
Qed.

(** a game whose image is missing or is not a valid P4 file is still
    shown: the menu puts up the placeholder with its name, sends that
    frame, logs the problem, and goes on. *)
Theorem load_missing_image_fallback name s :
  linv s ->
  (forall file, files (GAMES_FOLDER +:+ "/" +:+ name +:+ ".pbm")%string = Some file ->
     exists e, read_pbm_p4 file = Some (inl e)) ->
  load_and_display_image text files name s =
    (inr tt, mkL (sw_state SSD1306.show (no_image_screen text name (ldisp s))) (lmods s),
     map LBus (show_spec (no_image_screen text name (ldisp s))) ++ [LPrint]).
Proof.
  intros Hs Hbad. destruct s as [d mods]. unfold linv in Hs. simpl in Hs.
  unfold load_and_display_image, ltry, draw_pbm_to_display.
  destruct (files _) as [file|] eqn:Ef.
  - destruct (Hbad file eq_refl) as [e ->]. by lrun.
  - by lrun.
Qed.

End LauncherSafety.


(** ** Examples *)

Lemma demo_text_wf str x y f :
  vlsb_wf f -> vlsb_wf (demo_text str x y f) /\ vl_w (demo_text str x y f) = vl_w f /\ vl_h (demo_text str x y f) = vl_h f.
Proof. done. Qed.

Lemma demo_lstate_inv : linv demo_lstate.
Proof. apply fresh_wf; unfold COL_OFFSET, RAM_COLS; [lia|lia|lia|reflexivity]. Qed.

Lemma read_pbm_p4_roundtrip_witness :
  (0 <= 8 /\ 0 <= 2 /\ Z.of_nat (length [255; 1]) = (8 + 7) / 8 * 2) /\
  read_pbm_p4 (pbm_encode 8 2 [255; 1]) = Some (inr (8, 2, [255; 1])).
Proof. split; [vm_compute; repeat split; discriminate|apply read_pbm_p4_roundtrip; vm_compute; (discriminate || reflexivity)]. Defined.

Lemma read_pbm_p4_size_mismatch_witness :
  (0 <= 8 /\ 0 <= 2 /\ Z.of_nat (length [255]) <> (8 + 7) / 8 * 2) /\
  read_pbm_p4 (pbm_encode 8 2 [255]) = Some (inl (SizeMismatch 1 2)).
Proof.
  split; [vm_compute; repeat split; discriminate|].
  exact (read_pbm_p4_size_mismatch 8 2 [255] ltac:(discriminate) ltac:(discriminate) ltac:(discriminate)).
Defined.

Lemma read_pbm_p4_magic_line_witness :
  (0 <= 8 /\ 0 <= 1) /\ read_pbm_p4 ([80; 52; 32] ++ show_int 8 ++ [32] ++ show_int 1 ++ [10] ++ [255]) = Some (inl NotP4).
Proof. split; [split; discriminate|apply read_pbm_p4_magic_line; discriminate]. Defined.

Lemma draw_pbm_to_display_image_witness :
  (demo_files "games/dino.pbm" = Some (pbm_encode 8 2 [255; 1]) /\
   read_pbm_p4 (pbm_encode 8 2 [255; 1]) = Some (inr (8, 2, [255; 1])) /\ disp_wf (ldisp demo_lstate)) /\
  let '(r, s', evs) := draw_pbm_to_display demo_files "games/dino.pbm" 0 0 demo_lstate in
  r = inr tt /\ lmods s' = lmods demo_lstate /\ disp_wf (ldisp s') /\
  evs = map LBus (show_spec (SSD1306.set_fb (SSD1306.fb (ldisp s')) (ldisp demo_lstate))) /\
  forall x y, in_box (SSD1306.width (ldisp demo_lstate)) (SSD1306.height (ldisp demo_lstate)) x y ->
    vlsb_get (SSD1306.fb (ldisp s')) x y = bool_decide (1 <= y) && hlsb_get (mkHLSB 8 2 [255; 1]) x y.
Proof.
  split; [split_and!; [reflexivity|vm_compute; reflexivity|exact demo_lstate_inv]|].
  apply (draw_pbm_to_display_image demo_files "games/dino.pbm" (pbm_encode 8 2 [255; 1]));
    [reflexivity|vm_compute; reflexivity|exact demo_lstate_inv].
Defined.

Lemma menu_loop_in_range_witness :
  (0 <= 0 < Z.of_nat (length ["2048"; "dino"]) /\ linv demo_lstate)%Z /\
  let '(r, s', _) := menu_loop demo_text demo_files demo_games ["2048"; "dino"] 0
                       [mkButtons false true true true; mkButtons true true false true] demo_lstate in
  linv s' /\ match r with inr c => (0 <= c < Z.of_nat (length ["2048"; "dino"]))%Z | inl e => e = SystemExit end.
Proof.
  split; [split; [simpl; lia|exact demo_lstate_inv]|].
  apply (menu_loop_in_range demo_text demo_files demo_games demo_text_wf); [simpl; lia|exact demo_lstate_inv].
Defined.

Lemma main_only_exits_witness :
  linv demo_lstate /\
  let '(r, s', _) := main demo_text demo_files demo_games ["dino.py"; "2048.py"; "logo.pbm"]
                       [mkButtons true true false true] demo_lstate in
  linv s' /\ (r = inr tt \/ r = inl SystemExit).
Proof. split; [exact demo_lstate_inv|apply (main_only_exits demo_text demo_files demo_games demo_text_wf); exact demo_lstate_inv]. Defined.

Lemma launch_game_refines_witness :
  (demo_games "2048" = Some (mkGame (mkRun [Cmd 0xAE] (Some GameError)) None) /\ linv demo_lstate) /\
  launch_game demo_text demo_games "2048" demo_lstate =
    launch_contract demo_text "2048" (mkGame (mkRun [Cmd 0xAE] (Some GameError)) None) demo_lstate.
Proof.
  split; [split; [reflexivity|exact demo_lstate_inv]|].
  apply (launch_game_refines demo_text demo_files demo_games demo_text_wf); [reflexivity|exact demo_lstate_inv].
Defined.

Lemma load_missing_image_fallback_witness :
  (linv demo_lstate /\ forall file, demo_files "games/2048.pbm" = Some file -> exists e, read_pbm_p4 file = Some (inl e)) /\
  load_and_display_image demo_text demo_files "2048" demo_lstate =
    (inr tt, mkL (sw_state SSD1306.show (no_image_screen demo_text "2048" (ldisp demo_lstate))) (lmods demo_lstate),
     map LBus (show_spec (no_image_screen demo_text "2048" (ldisp demo_lstate))) ++ [LPrint]).
Proof.
  assert (forall file, demo_files "games/2048.pbm" = Some file -> exists e, read_pbm_p4 file = Some (inl e)) as Hb
    by (intros file E; discriminate E).
  split; [split; [exact demo_lstate_inv|exact Hb]|].
  apply (load_missing_image_fallback demo_text demo_files demo_text_wf); [exact demo_lstate_inv|exact Hb].
Defined.

End Launcher.
