(* ===== verification/Font.v ===== *)
(** * The 3x5 bitmap font of the portrait games

    2048, Klotski and Minesweeper each carry a copy of the same text
    renderer: a dict [GLYPH] from one-character strings to five rows of
    three bits (most significant bit leftmost), [draw_glyph] that draws the
    set bits as [scale] x [scale] squares through [draw_pixel],
    [text_width], [draw_text] that advances by [3*scale + spacing*scale]
    per character, [draw_text_center] on the 64-pixel-wide portrait screen,
    and [draw_rect].  Only the tables differ between the games.

    Drawing is modelled as the sequence of [draw_pixel(x, y, c)] calls it
    makes, the [(x, y, c)] lists that [Rotate.draw_calls] performs on the
    driver.  The theorems place every call of a glyph, of a text and of a
    centered text inside its box, and show that a character missing from a
    table is drawn as the space. *)

From Stdlib Require Import Ascii String.
From stdpp Require Import strings pretty.
From S2P Require Import Prelude.

Local Open Scope Z_scope.

(** A Python dict of glyphs, in the order of its literal. *)
Abbreviation glyph_table := (list (ascii * list Z)).

(** A call [draw_pixel(x, y, c)]. *)
Abbreviation op := (Z * Z * Z)%type.

(** [d.get(k)] (the literals have no repeated key). *)
Fixpoint dict_get (t : glyph_table) (k : ascii) : option (list Z) :=
  match t with
  | [] => None
  | (k', v) :: t' => if ascii_dec k' k then Some v else dict_get t' k
  end.

Definition W : Z := 64.

Section Font.
Variable GLYPH : glyph_table.

(** [rows = GLYPH.get(ch, GLYPH[" "])]; every table has the space. *)
Definition glyph_rows (ch : ascii) : list Z :=
  match dict_get GLYPH ch with
  | Some rows => rows
  | None => default [] (dict_get GLYPH " "%char)
  end.

Definition draw_glyph (ch : ascii) (x y scale c : Z) : list op :=
  let rows := glyph_rows ch in
  flat_map (fun ry =>
    let bits := rows !!! Z.to_nat ry in
    flat_map (fun rx =>
      if negb ((bits .>> (2 - rx)) .& 1 =? 0) then
        flat_map (fun sy => map (fun sx => (x + rx * scale + sx, y + ry * scale + sy, c)) (zrange 0 scale))
          (zrange 0 scale)
      else []) (zrange 0 3)) (zrange 0 5).

Definition text_width (s : string) (scale spacing : Z) : Z :=
  let n := Z.of_nat (String.length s) in
  if decide (n = 0) then 0 else n * (3 * scale) + (n - 1) * (spacing * scale).

(** The loop [for ch in s: draw_glyph(ch, cx, y, ...); cx += step]. *)
Fixpoint draw_chars (chs : list ascii) (cx y scale step c : Z) : list op :=
  match chs with
  | [] => []
  | ch :: chs' => draw_glyph ch cx y scale c ++ draw_chars chs' (cx + step) y scale step c
  end.

Definition draw_text (s : string) (x y scale spacing c : Z) : list op :=
  let step := 3 * scale + spacing * scale in
  draw_chars (list_ascii_of_string s) x y scale step c.

Definition draw_text_center (s : string) (y scale : Z) : list op :=
  let w := text_width s scale 1 in
  let x := (W - w) / 2 in
  draw_text s x y scale 1 1.
End Font.

Definition draw_rect (x y w h c : Z) : list op :=
  flat_map (fun i => [(x + i, y, c); (x + i, y + h - 1, c)]) (zrange 0 w) ++
  flat_map (fun j => [(x, y + j, c); (x + w - 1, y + j, c)]) (zrange 0 h).

(** Every call of [ops] lands in the rectangle [[x0, x1) x [y0, y1)]. *)
Definition ops_in (x0 x1 y0 y1 : Z) (ops : list op) : Prop :=
  Forall (fun p => x0 <= p.1.1 < x1 /\ y0 <= p.1.2 < y1) ops.
#[export] Instance ops_in_dec x0 x1 y0 y1 ops : Decision (ops_in x0 x1 y0 y1 ops).
Proof. unfold ops_in. apply _. Defined.

(** The same calls moved by [(dx, dy)]. *)
Definition shift (dx dy : Z) (ops : list op) : list op :=
  map (fun p => (p.1.1 + dx, p.1.2 + dy, p.2)) ops.

(** ** Where the calls land *)

Lemma length_list_ascii_of_string s : length (list_ascii_of_string s) = String.length s.
Proof. induction s as [|a s IH]; simpl; congruence. Qed.

Section FontLemmas.
Variable GLYPH : glyph_table.

Lemma elem_of_draw_glyph ch x y scale c p :
  p ∈ draw_glyph GLYPH ch x y scale c <->
  exists rx ry sx sy, 0 <= ry < 5 /\ 0 <= rx < 3 /\ 0 <= sy < scale /\ 0 <= sx < scale /\
    negb (((glyph_rows GLYPH ch !!! Z.to_nat ry) .>> (2 - rx)) .& 1 =? 0) = true /\
    p = (x + rx * scale + sx, y + ry * scale + sy, c).
Proof.
  unfold draw_glyph. rewrite elem_of_flat_map. setoid_rewrite elem_of_flat_map. setoid_rewrite elem_of_zrange.
  split.
  - intros (ry & Hry & rx & Hrx & Hp). case_match eqn:Hb; [|by apply not_elem_of_nil in Hp].
    apply elem_of_flat_map in Hp as (sy & Hsy & Hp). apply elem_of_map_iff in Hp as (sx & -> & Hsx).
    apply elem_of_zrange in Hsy, Hsx. exists rx, ry, sx, sy. naive_solver lia.
  - intros (rx & ry & sx & sy & Hry & Hrx & Hsy & Hsx & Hb & ->). exists ry. split; [lia|]. exists rx. split; [lia|].
    rewrite Hb. apply elem_of_flat_map. exists sy. split; [apply elem_of_zrange; lia|].
    apply elem_of_map_iff. exists sx. split; [done|apply elem_of_zrange; lia].
Qed.

(** A glyph stays in its [3*scale] x [5*scale] box. *)
Lemma draw_glyph_in ch x y scale c :
  ops_in x (x + 3 * scale) y (y + 5 * scale) (draw_glyph GLYPH ch x y scale c).
Proof.
  apply Forall_forall. intros p Hp. apply elem_of_draw_glyph in Hp as (rx & ry & sx & sy & ? & ? & ? & ? & _ & ->).
  simpl. nia.
Qed.

Lemma ops_in_app x0 x1 y0 y1 l1 l2 : ops_in x0 x1 y0 y1 l1 -> ops_in x0 x1 y0 y1 l2 -> ops_in x0 x1 y0 y1 (l1 ++ l2).
Proof. apply Forall_app_2. Qed.

Lemma ops_in_app_iff x0 x1 y0 y1 l1 l2 :
  ops_in x0 x1 y0 y1 (l1 ++ l2) <-> ops_in x0 x1 y0 y1 l1 /\ ops_in x0 x1 y0 y1 l2.
Proof. apply Forall_app. Qed.

Lemma ops_in_mono x0 x1 y0 y1 x0' x1' y0' y1' l :
  x0' <= x0 -> x1 <= x1' -> y0' <= y0 -> y1 <= y1' -> ops_in x0 x1 y0 y1 l -> ops_in x0' x1' y0' y1' l.
Proof. intros ???? H. eapply Forall_impl; [exact H|]. intros p Hp. cbv beta in Hp. lia. Qed.

Lemma draw_chars_in chs cx y scale spacing c :
  0 <= scale -> 0 <= spacing -> chs <> [] ->
  ops_in cx (cx + Z.of_nat (length chs) * (3 * scale) + (Z.of_nat (length chs) - 1) * (spacing * scale))
    y (y + 5 * scale) (draw_chars GLYPH chs cx y scale (3 * scale + spacing * scale) c).
Proof.
  intros Hs Hsp. revert cx. induction chs as [|ch chs IH]; intros cx Hne; [done|]. simpl.
  apply ops_in_app.
  - eapply ops_in_mono; [..|apply draw_glyph_in]; nia.
  - destruct chs as [|ch' chs']; [constructor|].
    eapply ops_in_mono; [..|apply IH]; [nia..|done].
Qed.

(** A text stays in its [text_width] x [5*scale] box. *)
Lemma draw_text_in s x y scale spacing c :
  0 <= scale -> 0 <= spacing ->
  ops_in x (x + text_width s scale spacing) y (y + 5 * scale) (draw_text GLYPH s x y scale spacing c).
Proof.
  intros Hs Hsp. unfold draw_text, text_width. rewrite <- (length_list_ascii_of_string s).
  destruct (list_ascii_of_string s) as [|ch chs] eqn:E; [constructor|].
  rewrite decide_False by (simpl; lia).
  eapply ops_in_mono; [| | | |apply (draw_chars_in (ch :: chs) x y scale spacing c Hs Hsp)]; [lia..|discriminate].
Qed.

(** A centered text no wider than the screen stays on it horizontally. *)
Lemma draw_text_center_in s y scale :
  0 <= scale -> text_width s scale 1 <= W ->
  ops_in 0 W y (y + 5 * scale) (draw_text_center GLYPH s y scale).
Proof.
  intros Hs Hw. unfold draw_text_center. eapply ops_in_mono; [..|apply draw_text_in]; try lia.
  - apply Z.div_pos; lia.
  - assert (0 <= text_width s scale 1).
    { unfold text_width. case_decide; [lia|]. nia. }
    Z.div_mod_to_equations. lia.
Qed.

(** A character the table lacks is drawn as the space. *)
Lemma draw_glyph_missing ch x y scale c :
  dict_get GLYPH ch = None -> draw_glyph GLYPH ch x y scale c = draw_glyph GLYPH " "%char x y scale c.
Proof.
  intros Hn. unfold draw_glyph, glyph_rows. rewrite Hn.
  by destruct (dict_get GLYPH " "%char).
Qed.
End FontLemmas.

Lemma draw_rect_in x y w h c :
  0 < w -> 0 < h -> ops_in x (x + w) y (y + h) (draw_rect x y w h c).
Proof.
  intros Hw Hh. apply Forall_forall. intros p Hp. apply elem_of_app in Hp as [Hp|Hp];
  apply elem_of_flat_map in Hp as (i & Hi & Hp); apply elem_of_zrange in Hi;
  rewrite !elem_of_cons, elem_of_nil in Hp; destruct Hp as [->|[->|[]]]; simpl; lia.
Qed.

(** ** Drawing commutes with translation *)

Lemma map_flat_map {A B C} (f : B -> C) (g : A -> list B) (l : list A) :
  map f (flat_map g l) = flat_map (fun a => map f (g a)) l.
Proof. induction l as [|a l IH]; [done|]. simpl. by rewrite map_app, IH. Qed.

Lemma shift_app dx dy l1 l2 : shift dx dy (l1 ++ l2) = shift dx dy l1 ++ shift dx dy l2.
Proof. apply map_app. Qed.

Lemma ops_in_shift x0 x1 y0 y1 dx dy l :
  ops_in x0 x1 y0 y1 (shift dx dy l) <-> ops_in (x0 - dx) (x1 - dx) (y0 - dy) (y1 - dy) l.
Proof.
  unfold ops_in, shift. rewrite Forall_map. split; intros H; (eapply Forall_impl; [exact H|]); intros [[x y] c]; simpl; lia.
Qed.

Lemma elem_of_shift p dx dy l : p ∈ l -> (p.1.1 + dx, p.1.2 + dy, p.2) ∈ shift dx dy l.
Proof. intros Hp. apply elem_of_map_iff. by exists p. Qed.

Section Shift.
Variable GLYPH : glyph_table.

Lemma draw_glyph_shift ch x y scale c dx dy :
  draw_glyph GLYPH ch (x + dx) (y + dy) scale c = shift dx dy (draw_glyph GLYPH ch x y scale c).
Proof.
  unfold draw_glyph, shift. rewrite map_flat_map. apply flat_map_ext. intros ry.
  rewrite map_flat_map. apply flat_map_ext. intros rx. case_match; [|done].
  rewrite map_flat_map. apply flat_map_ext. intros sy. rewrite map_map. apply map_ext. intros sx.
  simpl. f_equal. f_equal; lia.
Qed.

Lemma draw_chars_shift chs x y scale step c dx dy :
  draw_chars GLYPH chs (x + dx) (y + dy) scale step c = shift dx dy (draw_chars GLYPH chs x y scale step c).
Proof.
  revert x. induction chs as [|ch chs IH]; intros x; [done|]. simpl.
  rewrite shift_app, <- draw_glyph_shift, <- IH. do 2 f_equal. lia.
Qed.

Lemma draw_text_shift s x y scale spacing c dx dy :
  draw_text GLYPH s (x + dx) (y + dy) scale spacing c = shift dx dy (draw_text GLYPH s x y scale spacing c).
Proof. apply draw_chars_shift. Qed.
End Shift.

(** ** Lengths of [str(n)] *)

Lemma pretty_N_go_length n x s :
  (x < 10 ^ N.of_nat n)%N -> (String.length (pretty_N_go x s) <= n + String.length s)%nat.
Proof.
  revert x s. induction n as [|n IH]; intros x s Hx.
  - assert (x = 0%N) as -> by lia. rewrite pretty_N_go_0. lia.
  - destruct (decide (x = 0%N)) as [->|Hne]; [rewrite pretty_N_go_0; lia|].
    rewrite pretty_N_go_step by lia. etransitivity; [apply IH|simpl; lia].
    rewrite Nat2N.inj_succ, N.pow_succ_r' in Hx. apply N.div_lt_upper_bound; lia.
Qed.

(** [len(str(z)) <= n] for [0 <= z < 10 ** n]. *)
Lemma pretty_Z_length z n :
  (1 <= n)%nat -> 0 <= z < 10 ^ Z.of_nat n -> (String.length (pretty z) <= n)%nat.
Proof.
  intros Hn Hz. destruct z as [|p|p]; [simpl; lia| |lia]. unfold pretty, pretty_Z, pretty, pretty_positive, pretty, pretty_N.
  rewrite decide_False by done. etransitivity; [apply pretty_N_go_length with (n := n)|simpl; lia].
  apply N2Z.inj_lt. rewrite N2Z.inj_pow, nat_N_Z. simpl. lia.
Qed.

Lemma substring_0_length n s : (String.length (substring 0 n s) <= n)%nat.
Proof. revert n. induction s as [|a s IH]; intros [|n]; simpl; try lia. specialize (IH n). lia. Qed.

Lemma substring_0_length_le n s : (String.length (substring 0 n s) <= String.length s)%nat.
Proof. revert n. induction s as [|a s IH]; intros [|n]; simpl; try lia. specialize (IH n). lia. Qed.

(** [s[:n]] is [s] when [s] has at most [n] characters. *)
Lemma substring_0_full n s : (String.length s <= n)%nat -> substring 0 n s = s.
Proof. revert n. induction s as [|a s IH]; intros [|n] Hn; simpl in *; [done|done|lia|]. f_equal. apply IH. lia. Qed.

Lemma text_width_le s scale spacing n :
  0 <= scale -> 0 <= spacing -> (String.length s <= n)%nat -> (1 <= n)%nat ->
  text_width s scale spacing <= Z.of_nat n * (3 * scale) + (Z.of_nat n - 1) * (spacing * scale).
Proof. intros Hs Hsp Hl Hn. unfold text_width. case_decide; nia. Qed.

Lemma ops_in_flat_map {A} x0 x1 y0 y1 (f : A -> list op) (l : list A) :
  (forall a, a ∈ l -> ops_in x0 x1 y0 y1 (f a)) -> ops_in x0 x1 y0 y1 (flat_map f l).
Proof.
  induction l as [|a l IH]; intros H; [constructor|]. simpl. apply ops_in_app.
  - apply H. by left.
  - apply IH. intros b Hb. apply H. by right.
Qed.

(** Texts of at most [n] characters: the boxes the screens rely on. *)
Lemma text_small_in GLYPH str x y n :
  (String.length str <= n)%nat -> (1 <= n)%nat ->
  ops_in x (x + Z.of_nat n * 4 - 1) y (y + 5) (draw_text GLYPH str x y 1 1 1).
Proof.
  intros Hl Hn. eapply ops_in_mono; [..|apply (draw_text_in GLYPH str x y 1 1 1)]; try lia.
  pose proof (text_width_le str 1 1 n ltac:(lia) ltac:(lia) Hl Hn). lia.
Qed.

Lemma text_center_fits GLYPH str y scale n :
  0 <= scale -> (String.length str <= n)%nat -> (1 <= n)%nat ->
  Z.of_nat n * (3 * scale) + (Z.of_nat n - 1) * scale <= W ->
  ops_in 0 W y (y + 5 * scale) (draw_text_center GLYPH str y scale).
Proof.
  intros Hs Hl Hn Hw. apply draw_text_center_in; [done|].
  pose proof (text_width_le str scale 1 n Hs ltac:(lia) Hl Hn). lia.
Qed.

(** Decides [ops_in] on calls with no unknowns. *)
Ltac ops_eval := eapply bool_decide_unpack; vm_compute; reflexivity.
