(* ===== verification/TextScreens.v ===== *)
(** * The text screens of the sideways games

    Asteroids, Donkey Kong, Galaga and Frogger carry copies of the same
    text screens: [show_centered_sideways(lines)], which lays the lines out
    on a 128 x 64 [MONO_HLSB] buffer (cut at 16 characters, centred, 10
    rows apart) before rotating it into the portrait panel, and Galaga's
    [show_centered_portrait(lines)], the same layout on the 64 x 128
    portrait surface (cut at 8 characters).  Both are [centered_lines], the
    [Canvas] calls of the layout loop; the 8 x 8 glyphs of [framebuf.text]
    are library code, so a line is its [Text] call.  After a game ends, each
    game shows its game-over screen and polls UP (play again) and DOWN
    ([sys.exit()]) every 20 ms: [retry_loop], run on fuel.

    The theorems show that every line of a screen of at most six lines
    (sideways) or twelve lines (portrait) lies on its surface, that the
    game-over screens of the four games do, and that the retry loop
    answers at the first poll that sees UP or DOWN. *)

From Stdlib Require Import String.
From stdpp Require Import list strings pretty.
From S2P Require Import Prelude Input Canvas Font.

Local Open Scope Z_scope.

Module TextScreens.

(** The layout loop: [total_h = len(lines) * line_h - 2], [y] centred and
    at least 0, each line cut at [maxlen] characters and centred at [x] at
    least 0. *)
Definition centered_lines (sw sh maxlen : Z) (lines : list string) : list fbcall :=
  let line_h := 10 in
  let total_h := Z.of_nat (length lines) * line_h - 2 in
  let y := Z.max 0 ((sh - total_h) `div` 2) in
  imap (fun i t =>
          let t := if maxlen <? Z.of_nat (String.length t) then substring 0 (Z.to_nat maxlen) t else t in
          let x := Z.max 0 ((sw - Z.of_nat (String.length t) * 8) `div` 2) in
          Text t x (y + Z.of_nat i * line_h) 1) lines.

(** [show_centered_sideways(lines)]: what is drawn on the 128 x 64 buffer
    before the rotation. *)
Definition sideways_screen (lines : list string) : list fbcall := Fill 0 :: centered_lines 128 64 16 lines.

(** Galaga's [show_centered_portrait(lines)] on the 64 x 128 surface. *)
Definition portrait_screen (lines : list string) : list fbcall := Fill 0 :: centered_lines 64 128 8 lines.

(** The game-over screens. *)
Definition asteroids_over_lines (score wave : Z) : list string :=
  ["GAME OVER"; String.append "SCORE " (pretty score); String.append "WAVE " (pretty wave); ""; "UP: RETRY"; "DOWN: QUIT"].
Definition dk_over_lines (score level : Z) : list string :=
  ["GAME OVER"; String.append "SCORE " (pretty score); String.append "LEVEL " (pretty level); ""; "UP: RETRY"; "DOWN: QUIT"].
Definition galaga_over_lines (score level : Z) : list string :=
  ["GAME OVER"; String.append "SCORE " (pretty score); String.append "LEVEL " (pretty level); ""; "UP: RETRY"; "DOWN: QUIT"].
Definition frogger_over_lines (score : Z) : list string :=
  ["GAME OVER"; String.append "SCORE " (pretty score); ""; "UP: RETRY"; "DOWN: QUIT"].

(** A text call on a [sw] x [sh] surface: its 8 x 8 glyphs all on it. *)
Definition text_on (sw sh : Z) (k : fbcall) : Prop :=
  match k with
  | Text s x y _ => 0 <= x /\ x + Z.of_nat (String.length s) * 8 <= sw /\ 0 <= y /\ y + 8 <= sh
  | _ => True
  end.

Section Retry.
Variable env : Z -> levels.

(** [while True: if not btn_up.value(): ...; if not btn_down.value():
    ...; time.sleep_ms(20)]: [Some (true, T')] plays again, [Some (false,
    T')] calls [sys.exit()], both after the 180 ms sleep. *)
Fixpoint retry_loop (fuel : nat) (T : Z) : option (bool * Z) :=
  match fuel with
  | O => None
  | S f =>
      if pressed BUp (env T) then Some (true, T + 180)
      else if pressed BDown (env T) then Some (false, T + 180)
      else retry_loop f (T + 20)
  end.

End Retry.

(** ** The screens fit *)

Lemma half_bounds a : 0 <= a -> 0 <= a `div` 2 /\ 2 * (a `div` 2) <= a.
Proof. intros. pose proof (Z.div_mod a 2). pose proof (Z.mod_pos_bound a 2). lia. Qed.

(** The cut line is at most [maxlen] characters long. *)
Lemma cut_length maxlen t :
  0 <= maxlen ->
  Z.of_nat (String.length (if maxlen <? Z.of_nat (String.length t) then substring 0 (Z.to_nat maxlen) t else t))
    <= maxlen.
Proof.
  intros. destruct (maxlen <? _) eqn:E; zbool; [|lia].
  pose proof (substring_0_length (Z.to_nat maxlen) t). lia.
Qed.

(** Every line of a screen of [n] lines with [10 n - 2 <= sh] lies on the
    [sw] x [sh] surface when [maxlen] glyphs fit its width. *)
Lemma centered_lines_on sw sh maxlen lines :
  0 <= maxlen -> 8 * maxlen <= sw -> Z.of_nat (length lines) * 10 - 2 <= sh ->
  Forall (text_on sw sh) (centered_lines sw sh maxlen lines).
Proof.
  intros Hm Hw Hh. unfold centered_lines. apply Forall_lookup_2. intros i k Hk.
  pose proof (lookup_lt_Some _ _ _ Hk) as Hi. rewrite length_imap in Hi.
  apply list_lookup_imap_Some in Hk as (t & _ & ->). cbv zeta. unfold text_on.
  pose proof (cut_length maxlen t Hm) as Hl.
  set (L := Z.of_nat (String.length _)) in *.
  assert (0 <= L) by lia.
  destruct (half_bounds (sw - L * 8)) as [Hx1 Hx2]; [lia|].
  destruct (Z.le_gt_cases 0 ((sh - (Z.of_nat (length lines) * 10 - 2)) `div` 2)) as [Hy|Hy].
  - destruct (half_bounds (sh - (Z.of_nat (length lines) * 10 - 2))) as [Hy1 Hy2]; [lia|]. lia.
  - assert (0 <= sh - (Z.of_nat (length lines) * 10 - 2)) as Hs by lia.
    destruct (half_bounds _ Hs). lia.
Qed.

(** A sideways screen of at most six lines (cut at 16 characters) and a
    portrait screen of at most twelve lines (cut at 8) have every line on
    their surface, 128 x 64 and 64 x 128. *)
Lemma screens_fit lines :
  ((length lines <= 6)%nat -> Forall (text_on 128 64) (sideways_screen lines)) /\
  ((length lines <= 12)%nat -> Forall (text_on 64 128) (portrait_screen lines)).
Proof.
  unfold sideways_screen, portrait_screen.
  split; intros Hn; constructor; [done| |done|]; apply centered_lines_on; lia.
Qed.

(** C35: The game-over screens of Asteroids, Donkey Kong, Galaga and
    Frogger have every line on the 128 x 64 buffer whatever the score,
    wave and level: a long [SCORE] line is cut at 16 characters. *)
Theorem game_over_screens_fit score level :
  Forall (text_on 128 64) (sideways_screen (asteroids_over_lines score level)) /\
  Forall (text_on 128 64) (sideways_screen (dk_over_lines score level)) /\
  Forall (text_on 128 64) (sideways_screen (galaga_over_lines score level)) /\
  Forall (text_on 128 64) (sideways_screen (frogger_over_lines score)).
Proof. split_and!; apply screens_fit; simpl; lia. Qed.

(** ** The retry loop *)

Section RetryLemmas.
Variable env : Z -> levels.

(** The retry loop answers at the first poll that sees UP or DOWN, UP
    first, 180 ms later, as long as that poll is within its fuel. *)
Lemma retry_loop_first fuel T k :
  (k < fuel)%nat ->
  (forall j, (j < k)%nat ->
     pressed BUp (env (T + 20 * Z.of_nat j)) = false /\ pressed BDown (env (T + 20 * Z.of_nat j)) = false) ->
  (pressed BUp (env (T + 20 * Z.of_nat k)) = true ->
     retry_loop env fuel T = Some (true, T + 20 * Z.of_nat k + 180)) /\
  (pressed BUp (env (T + 20 * Z.of_nat k)) = false -> pressed BDown (env (T + 20 * Z.of_nat k)) = true ->
     retry_loop env fuel T = Some (false, T + 20 * Z.of_nat k + 180)).
Proof.
  revert fuel T. induction k as [|k IH]; intros [|f] T Hk Hbefore; try lia; simpl.
  - rewrite Z.add_0_r. split; intros Hu; rewrite Hu; [done|]. by intros ->.
  - destruct (Hbefore 0%nat ltac:(lia)) as [Hu Hd]. rewrite Z.add_0_r in Hu, Hd. rewrite Hu, Hd.
    replace (T + 20 * Z.of_nat (S k)) with (T + 20 + 20 * Z.of_nat k) by lia.
    apply IH; [lia|]. intros j Hj. replace (T + 20 + 20 * Z.of_nat j) with (T + 20 * Z.of_nat (S j)) by lia.
    apply Hbefore. lia.
Qed.

End RetryLemmas.

End TextScreens.
