(* ===== verification/Render2048.v ===== *)
(** * What 2048 draws ([src/2048.py], font and rendering)

    The 3x5 font of 2048 ([GLYPH3x5]) with the renderer of [Font.v], the
    ultra-narrow 2x5 digits of 4-digit tiles ([DIG2x5], [draw_digit2],
    [draw_digits_2x5]), [draw_tile_number], [draw_board] and the drawing of
    the three screens, each as the sequence of [draw_pixel] calls it makes.
    [str(v)] is stdpp's decimal [pretty], which agrees with Python's [str]
    on integers.

    Theorems: the frame and the tiles of [draw_board] stay inside the
    board's frame for every well-formed board; a tile label stays inside
    its 13x13 cell except for the two-digit tiles, whose 14-pixel label
    spills out of the cell; the 2x5 font draws 9 as 5 and 8 as 6; and the
    font lacks [L] and [Y], so the screens show blanks for them. *)

From Stdlib Require Import Ascii String.
From stdpp Require Import numbers pretty strings.
From S2P Require Import Prelude Grid Font Game2048.

Local Open Scope Z_scope.

Module Render2048.
Import Game2048.

(** ** The 3x5 font

    The rows are the source's binary literals ([0b101] is 5). *)

Definition GLYPH3x5 : glyph_table := [
  ("0"%char, [7; 5; 5; 5; 7]);
  ("1"%char, [2; 6; 2; 2; 7]);
  ("2"%char, [7; 1; 7; 4; 7]);
  ("3"%char, [7; 1; 7; 1; 7]);
  ("4"%char, [5; 5; 7; 1; 1]);
  ("5"%char, [7; 4; 7; 1; 7]);
  ("6"%char, [7; 4; 7; 5; 7]);
  ("7"%char, [7; 1; 2; 2; 2]);
  ("8"%char, [7; 5; 7; 5; 7]);
  ("9"%char, [7; 5; 7; 1; 7]);
  ("A"%char, [7; 5; 7; 5; 5]);
  ("B"%char, [6; 5; 6; 5; 6]);
  ("C"%char, [7; 4; 4; 4; 7]);
  ("D"%char, [6; 5; 5; 5; 6]);
  ("E"%char, [7; 4; 7; 4; 7]);
  ("G"%char, [7; 4; 5; 5; 7]);
  ("I"%char, [7; 2; 2; 2; 7]);
  ("M"%char, [5; 7; 7; 5; 5]);
  ("N"%char, [5; 7; 7; 7; 5]);
  ("O"%char, [7; 5; 5; 5; 7]);
  ("P"%char, [6; 5; 6; 4; 4]);
  ("Q"%char, [7; 5; 5; 7; 1]);
  ("R"%char, [6; 5; 6; 5; 5]);
  ("S"%char, [7; 4; 7; 1; 7]);
  ("T"%char, [7; 2; 2; 2; 2]);
  ("U"%char, [5; 5; 5; 5; 7]);
  ("V"%char, [5; 5; 5; 5; 2]);
  ("W"%char, [5; 5; 5; 7; 7]);
  (" "%char, [0; 0; 0; 0; 0]);
  (":"%char, [0; 2; 0; 2; 0]);
  ("-"%char, [0; 0; 7; 0; 0]);
  ("/"%char, [1; 2; 2; 4; 4])].

Definition draw_glyph3x5 := draw_glyph GLYPH3x5.
Definition text_width_3x5 := text_width.
Definition draw_text_3x5 := draw_text GLYPH3x5.
Definition draw_text_center := Font.draw_text_center GLYPH3x5.

(** ** The 2x5 digits *)

Definition DIG2x5 : glyph_table := [
  ("0"%char, [3; 2; 2; 2; 3]);
  ("1"%char, [1; 3; 1; 1; 3]);
  ("2"%char, [3; 1; 3; 2; 3]);
  ("3"%char, [3; 1; 3; 1; 3]);
  ("4"%char, [2; 2; 3; 1; 1]);
  ("5"%char, [3; 2; 3; 1; 3]);
  ("6"%char, [3; 2; 3; 2; 3]);
  ("7"%char, [3; 1; 1; 2; 2]);
  ("8"%char, [3; 2; 3; 2; 3]);
  ("9"%char, [3; 2; 3; 1; 3])].

Definition draw_digit2 (dch : ascii) (x y c : Z) : list op :=
  match dict_get DIG2x5 dch with
  | None | Some [] => []
  | Some rows =>
      flat_map (fun ry =>
        let bits := rows !!! Z.to_nat ry in
        (if negb ((bits .>> 1) .& 1 =? 0) then [(x + 0, y + ry, c)] else []) ++
        (if negb ((bits .>> 0) .& 1 =? 0) then [(x + 1, y + ry, c)] else [])) (zrange 0 5)
  end.

Definition text_width_2x5_digits (s : string) (spacing : Z) : Z :=
  let n := Z.of_nat (String.length s) in
  if decide (n = 0) then 0 else n * 2 + (n - 1) * spacing.

Fixpoint draw_digits_go (chs : list ascii) (cx y spacing : Z) : list op :=
  match chs with
  | [] => []
  | ch :: chs' => draw_digit2 ch cx y 1 ++ draw_digits_go chs' (cx + 2 + spacing) y spacing
  end.

Definition draw_digits_2x5 (s : string) (x y spacing : Z) : list op :=
  draw_digits_go (list_ascii_of_string s) x y spacing.

(** ** Tiles and the board *)

Definition draw_tile_number (v x y cell : Z) : list op :=
  let s := pretty v in
  if (String.length s <=? 2)%nat then
    let sc := 2 in let spacing := 1 in
    let tw := text_width_3x5 s sc spacing in
    let tx := x + (cell - tw) / 2 in
    let ty := y + (cell - 5 * sc) / 2 in
    draw_text_3x5 s tx ty sc spacing 1
  else if (String.length s =? 3)%nat then
    let sc := 1 in let spacing := 0 in
    let tw := text_width_3x5 s sc spacing in
    let tx := x + (cell - tw) / 2 in
    let ty := y + (cell - 5 * sc) / 2 in
    draw_text_3x5 s tx ty sc spacing 1
  else
    let tw := text_width_2x5_digits s 0 in
    let tx := x + (cell - tw) / 2 in
    let ty := y + (cell - 5) / 2 in
    draw_digits_2x5 s tx ty 0.

Definition gap : Z := 2.
Definition cell_px : Z := 13.
Definition bw : Z := Z.of_nat SIZE * cell_px + (Z.of_nat SIZE - 1) * gap.
Definition bh : Z := Z.of_nat SIZE * cell_px + (Z.of_nat SIZE - 1) * gap.
Definition bx : Z := (W - bw) / 2.
Definition by_ : Z := 22.

(** The cell [(r, c)] of the grid: its frame, and its number when not 0. *)
Definition draw_cell (b : Board) (rc : Z * Z) : list op :=
  let '(r, c) := rc in
  let v := cell b (Z.to_nat r) (Z.to_nat c) in
  let x := bx + c * (cell_px + gap) in
  let y := by_ + r * (cell_px + gap) in
  draw_rect x y cell_px cell_px 1 ++ (if decide (v = 0) then [] else draw_tile_number v x y cell_px).

(** The grid part of [draw_board]: the outer frame and the cells. *)
Definition draw_grid (b : Board) : list op :=
  draw_rect (bx - 2) (by_ - 2) (bw + 4) (bh + 4) 1 ++
  flat_map (draw_cell b) (zrange2 0 (Z.of_nat SIZE) 0 (Z.of_nat SIZE)).

Definition draw_board (b : Board) (score best : Z) : list op :=
  draw_text_3x5 "SCORE" 2 2 1 1 1 ++
  draw_text_3x5 (substring 0 10 (pretty score)) 2 10 1 1 1 ++
  draw_text_3x5 "BEST" 40 2 1 1 1 ++
  draw_text_3x5 (substring 0 10 (pretty best)) 40 10 1 1 1 ++
  draw_grid b ++
  draw_text_center "UP/DN/L/R" 112 1.

(** ** The screens (their drawing; the button loops are [Game2048.tick]'s) *)

Definition title_ops : list op :=
  draw_text_center "2048" 22 4 ++ draw_text_center "UP START" 78 2 ++ draw_text_center "DN QUIT" 98 2.

Definition game_over_ops (score : Z) : list op :=
  draw_text_center "GAME" 16 3 ++ draw_text_center "OVER" 40 3 ++
  draw_text_center "SCORE" 76 2 ++ draw_text_center (pretty score) 96 2 ++
  draw_text_center "UP AGAIN" 116 2.

Definition win_ops (score : Z) : list op :=
  draw_text_center "YOU WIN" 16 2 ++ draw_text_center "2048" 40 3 ++
  draw_text_center "UP CONT" 82 2 ++ draw_text_center "DN QUIT" 104 2 ++
  draw_text_center ("S" +:+ pretty score) 122 1.

(** The tiles a 4x4 game can hold: empty, or [2 ** k] up to [2 ** 17]. *)
Definition tile_small (v : Z) : Prop := v = 0 \/ exists k, 1 <= k <= 17 /\ v = 2 ^ k.

#[export] Instance tile_small_dec v : Decision (tile_small v).
Proof.
  assert (H : tile_small v <-> v = 0 \/ Exists (fun k => v = 2 ^ k) (zrange 1 18)).
  { unfold tile_small. rewrite Exists_exists. setoid_rewrite elem_of_zrange.
    split; intros [?|(k & ? & ?)]; auto; right; exists k; split; lia. }
  exact (dec_of_iff H _).
Defined.

(** A board for the examples. *)
Definition demo_board : Board := [[2; 0; 0; 0]; [0; 16; 0; 0]; [0; 0; 1024; 0]; [0; 0; 0; 131072]].


(** ** Where the tiles are drawn *)

Lemma draw_digit2_shift ch x y c dx dy :
  draw_digit2 ch (x + dx) (y + dy) c = shift dx dy (draw_digit2 ch x y c).
Proof.
  unfold draw_digit2. destruct (dict_get DIG2x5 ch) as [[|r rows]|]; [done| |done].
  unfold shift. rewrite map_flat_map. apply flat_map_ext. intros ry. rewrite map_app.
  f_equal; case_match; simpl; try done; do 3 f_equal; lia.
Qed.

Lemma draw_digits_go_shift chs x y spacing dx dy :
  draw_digits_go chs (x + dx) (y + dy) spacing = shift dx dy (draw_digits_go chs x y spacing).
Proof.
  revert x. induction chs as [|ch chs IH]; intros x; [done|]. simpl.
  rewrite shift_app, <- draw_digit2_shift, <- IH. do 2 f_equal. lia.
Qed.

Lemma draw_tile_number_shift v x y cell :
  draw_tile_number v x y cell = shift x y (draw_tile_number v 0 0 cell).
Proof.
  unfold draw_tile_number, draw_text_3x5, draw_digits_2x5.
  repeat case_match; rewrite ?Z.add_0_l;
    first [ rewrite <- draw_text_shift | rewrite <- draw_digits_go_shift ]; f_equal; lia.
Qed.

(** The labels of the tiles drawn at the origin of a 13-pixel cell,
    checked by evaluation: which stay off the cell's frame, and the box all
    of them stay in. *)
Lemma tile_labels_inside_check :
  Forall (fun k => ops_in 1 (cell_px - 1) 1 (cell_px - 1) (draw_tile_number (2 ^ k) 0 0 cell_px) <-> ~ (4 <= k <= 6))
    (zrange 1 17).
Proof. eapply bool_decide_unpack. vm_compute. reflexivity. Qed.

Lemma tile_labels_box_check :
  Forall (fun k => ops_in (-1) (cell_px) 1 (cell_px - 1) (draw_tile_number (2 ^ k) 0 0 cell_px)) (zrange 1 18).
Proof. eapply bool_decide_unpack. vm_compute. reflexivity. Qed.

Lemma grid_geometry : bx = 3 /\ bw = 58 /\ bh = 58 /\ by_ = 22.
Proof. done. Qed.

Lemma cell_tile_small b r c :
  grid_shape SIZE SIZE b -> Forall (Forall tile_small) b -> (r < SIZE)%nat -> (c < SIZE)%nat -> tile_small (cell b r c).
Proof.
  intros Hs Hb Hr Hc. pose proof (grid_shape_row _ _ b r Hs Hr) as Hl. destruct Hs as [Hlen _].
  unfold cell. destruct (lookup_lt_is_Some_2 b r ltac:(lia)) as [row Er].
  rewrite (list_lookup_total_alt b), Er in Hl |- *. simpl in *.
  destruct (lookup_lt_is_Some_2 row c ltac:(lia)) as [v Ev]. rewrite (list_lookup_total_alt row), Ev. simpl.
  eapply Forall_lookup_1; [eapply Forall_lookup_1; [exact Hb|exact Er]|exact Ev].
Qed.

Lemma draw_cell_in b r c :
  tile_small (cell b (Z.to_nat r) (Z.to_nat c)) ->
  ops_in (bx + c * (cell_px + gap) - 1) (bx + c * (cell_px + gap) + cell_px)
    (by_ + r * (cell_px + gap)) (by_ + r * (cell_px + gap) + cell_px) (draw_cell b (r, c)).
Proof.
  intros Ht. unfold draw_cell. apply ops_in_app.
  - eapply ops_in_mono; [..|apply draw_rect_in]; unfold cell_px; lia.
  - case_decide as Hv; [constructor|]. destruct Ht as [?|(k & Hk & ->)]; [done|].
    rewrite draw_tile_number_shift, ops_in_shift.
    pose proof tile_labels_box_check as Hbox. rewrite Forall_forall in Hbox.
    eapply ops_in_mono; [..|apply Hbox, elem_of_zrange; lia]; unfold cell_px; lia.
Qed.

(** The frame and the cells of [draw_board] stay inside the frame. *)
Lemma draw_grid_in b :
  grid_shape SIZE SIZE b -> Forall (Forall tile_small) b ->
  ops_in (bx - 2) (bx + bw + 2) (by_ - 2) (by_ + bh + 2) (draw_grid b).
Proof.
  intros Hs Hb. unfold draw_grid. apply ops_in_app.
  - eapply ops_in_mono; [..|apply draw_rect_in]; unfold bw, bh, SIZE, cell_px, gap; simpl; lia.
  - apply ops_in_flat_map. intros [r c] Hrc. apply elem_of_zrange2 in Hrc. unfold SIZE in Hrc. simpl in Hrc.
    eapply ops_in_mono; [..|apply draw_cell_in, cell_tile_small; [done|done|unfold SIZE; lia..]];
      unfold bx, bw, bh, W, cell_px, gap, SIZE; simpl; lia.
Qed.

(** the label of a tile [2 ** k] (1 <= k <= 16) stays off the frame of
    its 13-pixel cell exactly when the tile is not 16, 32 or 64: the
    two-digit labels are 14 pixels wide and overflow the cell. *)
Theorem tile_label_in_cell k x y :
  1 <= k <= 16 ->
  ops_in (x + 1) (x + cell_px - 1) (y + 1) (y + cell_px - 1) (draw_tile_number (2 ^ k) x y cell_px) <->
  ~ (4 <= k <= 6).
Proof.
  intros Hk. rewrite draw_tile_number_shift, ops_in_shift.
  replace (x + 1 - x) with 1 by lia. replace (x + cell_px - 1 - x) with (cell_px - 1) by lia.
  replace (y + 1 - y) with 1 by lia. replace (y + cell_px - 1 - y) with (cell_px - 1) by lia.
  pose proof tile_labels_inside_check as H. rewrite Forall_forall in H. apply H, elem_of_zrange. lia.
Qed.

(** every screen of 2048 draws inside the 64x128 portrait surface:
    the board (for every 4x4 board of tiles up to [2 ** 17], any score
    and a best score below a million), the title, the game-over screen and
    the win screen (for scores below [10 ** 8]). *)
Theorem screens_on_screen b score best :
  grid_shape SIZE SIZE b -> Forall (Forall tile_small) b -> 0 <= score < 10 ^ 8 -> 0 <= best < 10 ^ 6 ->
  ops_in 0 W 0 128 (draw_board b score best) /\ ops_in 0 W 0 128 title_ops /\
  ops_in 0 W 0 128 (game_over_ops score) /\ ops_in 0 W 0 128 (win_ops score).
Proof.
  intros Hs Hb Hsc Hbe.
  pose proof (pretty_Z_length score 8 ltac:(lia) Hsc) as Ls. pose proof (pretty_Z_length best 6 ltac:(lia) Hbe) as Lb.
  split_and!.
  - unfold draw_board. rewrite !ops_in_app_iff. split_and!.
    + eapply ops_in_mono; [..|apply (text_small_in GLYPH3x5 _ _ _ 5)]; [unfold W; lia..|simpl; lia|lia].
    + eapply ops_in_mono; [..|apply (text_small_in GLYPH3x5 _ _ _ 10)]; [unfold W; lia..|apply substring_0_length|lia].
    + eapply ops_in_mono; [..|apply (text_small_in GLYPH3x5 _ _ _ 4)]; [unfold W; lia..|simpl; lia|lia].
    + eapply ops_in_mono; [..|apply (text_small_in GLYPH3x5 _ _ _ 6)]; [unfold W; lia..| |lia].
      etransitivity; [apply substring_0_length_le|exact Lb].
    + destruct grid_geometry as (Ex & Ew & Eh & Ey).
      eapply ops_in_mono; [..|apply draw_grid_in]; [rewrite ?Ex, ?Ew, ?Eh, ?Ey; unfold W; lia..|done|done].
    + eapply ops_in_mono; [..|apply (text_center_fits GLYPH3x5 _ _ _ 9)]; [unfold W; lia..|simpl; lia|lia|unfold W; lia].
  - ops_eval.
  - unfold game_over_ops. rewrite !ops_in_app_iff. split_and!; [ops_eval|ops_eval|ops_eval| |ops_eval].
    eapply ops_in_mono; [..|apply (text_center_fits GLYPH3x5 _ _ _ 8)]; [unfold W; lia..|done|lia|unfold W; lia].
  - unfold win_ops. rewrite !ops_in_app_iff. split_and!; [ops_eval..|].
    eapply ops_in_mono; [..|apply (text_center_fits GLYPH3x5 _ _ _ 9)]; [unfold W; lia..|change ("S" +:+ pretty score) with (String "S"%char (pretty score)); cbn [String.length]; lia|lia|unfold W; lia].
Qed.

(** the fonts of 2048 misdraw text: the 2x5 digits draw 9 exactly as
    5 and 8 exactly as 6 (so 4096 and 8192 read as 4056 and 6152), and the
    3x5 table has no [Y] and no [L], which are drawn as blanks in
    ["YOU WIN"] and ["UP/DN/L/R"]. *)
Theorem font_defects x y c :
  draw_digit2 "9"%char x y c = draw_digit2 "5"%char x y c /\
  draw_digit2 "8"%char x y c = draw_digit2 "6"%char x y c /\
  draw_text_center "YOU WIN" 16 2 = draw_text_center " OU WIN" 16 2 /\
  draw_text_center "UP/DN/L/R" 112 1 = draw_text_center "UP/DN/ /R" 112 1.
Proof. split_and!; [reflexivity|reflexivity|vm_compute; reflexivity|vm_compute; reflexivity]. Qed.

(** ** Examples *)

Lemma tile_label_in_cell_witness :
  (1 <= 7 <= 16) /\
  (ops_in (3 + 1) (3 + cell_px - 1) (22 + 1) (22 + cell_px - 1) (draw_tile_number (2 ^ 7) 3 22 cell_px) <-> ~ (4 <= 7 <= 6)).
Proof. split; [lia|]. apply tile_label_in_cell. lia. Defined.

Lemma demo_board_small : grid_shape SIZE SIZE demo_board /\ Forall (Forall tile_small) demo_board.
Proof. split; [split; [done|repeat constructor]|]. eapply bool_decide_unpack. vm_compute. reflexivity. Qed.

Lemma screens_on_screen_witness :
  (grid_shape SIZE SIZE demo_board /\ Forall (Forall tile_small) demo_board /\
   0 <= 2048 < 10 ^ 8 /\ 0 <= 99999 < 10 ^ 6) /\
  ops_in 0 W 0 128 (draw_board demo_board 2048 99999) /\ ops_in 0 W 0 128 title_ops /\
  ops_in 0 W 0 128 (game_over_ops 2048) /\ ops_in 0 W 0 128 (win_ops 2048).
Proof.
  destruct demo_board_small as [Hs Hb].
  split; [split_and!; [exact Hs|exact Hb|lia..]|].
  apply screens_on_screen; [exact Hs|exact Hb|lia|lia].
Defined.

End Render2048.
