(* ===== verification/RenderKlotski.v ===== *)
(** * What Klotski draws ([src/klotski.py], font and rendering)

    Klotski's copy of the 3x5 font ([GLYPH]), [pattern_fill], [render] and
    the drawing of the title and win screens, as the [draw_pixel] calls
    they make.  [render] walks the board in row order and draws each piece
    the first time it meets it: its frame at its top-left cell, its fill
    pattern inside, and a second frame around the grabbed piece; a piece
    id missing from [PIECES] raises [KeyError] ([None]).

    Theorems: on the board of a valid layout, with the cursor on the board,
    fewer than 10000 moves and a puzzle number of one digit, [render]
    raises nothing and draws inside the 64x128 surface; the title and win
    screens put their last label below the bottom of the surface; and the
    font has no [H] and no [Z], which the screens show as blanks. *)

From Stdlib Require Import Ascii String.
From stdpp Require Import gmap pretty strings.
From S2P Require Import Prelude Grid Font Klotski.

Local Open Scope Z_scope.

Module RenderKlotski.
Import Klotski.

(** ** The 3x5 font (the rows are the source's binary literals) *)

Definition GLYPH : glyph_table := [
  ("0"%char, [7; 5; 5; 5; 7]);
  ("1"%char, [2; 6; 2; 2; 7]);
  ("2"%char, [7; 1; 7; 4; 7]);
  ("3"%char, [7; 1; 7; 1; 7]);
  ("4"%char, [5; 5; 7; 1; 1]);
  ("5"%char, [7; 4; 7; 1; 7]);
  ("6"%char, [7; 4; 7; 5; 7]);
  ("7"%char, [7; 1; 2; 2; 2]);
  ("8"%char, [7; 5; 7; 5; 7]);
  ("9"%char, [7; 5; 7; 1; 7]);
  ("A"%char, [7; 5; 7; 5; 5]);
  ("B"%char, [6; 5; 6; 5; 6]);
  ("C"%char, [7; 4; 4; 4; 7]);
  ("D"%char, [6; 5; 5; 5; 6]);
  ("E"%char, [7; 4; 7; 4; 7]);
  ("G"%char, [7; 4; 5; 5; 7]);
  ("I"%char, [7; 2; 2; 2; 7]);
  ("K"%char, [5; 6; 4; 6; 5]);
  ("L"%char, [4; 4; 4; 4; 7]);
  ("M"%char, [5; 7; 7; 5; 5]);
  ("N"%char, [5; 7; 7; 7; 5]);
  ("O"%char, [7; 5; 5; 5; 7]);
  ("P"%char, [6; 5; 6; 4; 4]);
  ("R"%char, [6; 5; 6; 5; 5]);
  ("S"%char, [7; 4; 7; 1; 7]);
  ("T"%char, [7; 2; 2; 2; 2]);
  ("U"%char, [5; 5; 5; 5; 7]);
  ("V"%char, [5; 5; 5; 5; 2]);
  ("W"%char, [5; 5; 5; 7; 7]);
  ("X"%char, [5; 5; 2; 5; 5]);
  ("Y"%char, [5; 5; 2; 2; 2]);
  (" "%char, [0; 0; 0; 0; 0]);
  (":"%char, [0; 2; 0; 2; 0]);
  ("-"%char, [0; 0; 7; 0; 0]);
  ("+"%char, [0; 2; 7; 2; 0])].

Definition draw_text := Font.draw_text GLYPH.
Definition draw_text_center := Font.draw_text_center GLYPH.

(** ** [pattern_fill] and [render] *)

(** The fill pattern of piece [pid] at [(i, j)] inside its frame. *)
Definition pattern_on (pid i j : Z) : bool :=
  if bool_decide (pid = 1) then (i + j) mod 2 =? 0
  else if bool_decide (pid = 2 \/ pid = 3) then i mod 2 =? 0
  else if bool_decide (pid = 4) then (i mod 3 =? 0) && (j mod 2 =? 0)
  else if bool_decide (pid = 5 \/ pid = 6) then j mod 2 =? 0
  else ((i + pid) mod 3 =? 0) && ((j + pid) mod 2 =? 0).

Definition pattern_fill (x y w h pid : Z) : list op :=
  flat_map (fun j =>
    flat_map (fun i => if pattern_on pid i j then [(x + i, y + j, 1)] else []) (zrange 1 (w - 1)))
    (zrange 1 (h - 1)).

Definition CELL : Z := 14.
Definition GAP : Z := 2.
Definition GRID_W : Z := BC * CELL + (BC - 1) * GAP.
Definition GRID_H : Z := BR * CELL + (BR - 1) * GAP.
Definition GRID_X : Z := (W - GRID_W) / 2.
Definition GRID_Y : Z := 24.

(** One cell of the loop [for r in range(BR): for c in range(BC)] of
    [render]: the ids drawn so far and the calls made. *)
Definition piece_step (board : KBoard) (grabbed_pid : option Z) (acc : option (list Z * list op)) (rc : Z * Z)
    : option (list Z * list op) :=
  match acc with
  | None => None
  | Some (drawn, ops) =>
      let '(r, c) := rc in
      let pid := kcell board r c in
      if bool_decide (pid = 0) || bool_decide (pid ∈ drawn) then Some (drawn, ops) else
      let drawn' := pid :: drawn in
      match piece_top_left board pid with
      | None => Some (drawn', ops)
      | Some (pr, pc) =>
          match PIECES pid with
          | None => None
          | Some (pw, ph) =>
              let x := GRID_X + pc * (CELL + GAP) in
              let y := GRID_Y + pr * (CELL + GAP) in
              let w := pw * CELL + (pw - 1) * GAP in
              let h := ph * CELL + (ph - 1) * GAP in
              Some (drawn', ops ++ draw_rect x y w h 1 ++ pattern_fill x y w h pid ++
                            (if bool_decide (grabbed_pid = Some pid) then draw_rect (x - 1) (y - 1) (w + 2) (h + 2) 1 else []))
          end
      end
  end.

Definition render (board : KBoard) (cur_r cur_c : Z) (grabbed_pid : option Z) (moves pidx : Z) : option (list op) :=
  let header :=
    draw_text "KLOT" 2 2 1 1 1 ++ draw_text "P" 38 2 1 1 1 ++ draw_text (pretty (pidx + 1)) 46 2 1 1 1 ++
    draw_text "M" 38 10 1 1 1 ++ draw_text (pretty moves) 46 10 1 1 1 in
  let exit_x := GRID_X + 1 * (CELL + GAP) in
  let exit_y := GRID_Y + GRID_H + 2 in
  let door := draw_rect exit_x exit_y (2 * CELL + GAP) 6 1 in
  match foldl (piece_step board grabbed_pid) (Some ([], [])) all_cells with
  | None => None
  | Some (_, pieces) =>
      let cx := GRID_X + cur_c * (CELL + GAP) in
      let cy := GRID_Y + cur_r * (CELL + GAP) in
      Some (header ++ door ++ pieces ++ draw_rect (cx - 1) (cy - 1) (CELL + 2) (CELL + 2) 1 ++
            draw_text_center "UD GRAB" 112 1 ++ draw_text_center "HOLD UD RESET" 122 1)
  end.

Definition title_ops (pidx : Z) : list op :=
  draw_text_center "KLOTSKI" 16 2 ++ draw_text_center (pretty (pidx + 1)) 64 2 ++
  draw_text_center "LR PICK" 92 2 ++ draw_text_center "UP START" 110 2 ++ draw_text_center "DN MENU" 124 2.

Definition win_ops (moves pidx : Z) : list op :=
  draw_text_center "CLEARED" 10 2 ++ draw_text_center "PUZZLE" 34 2 ++
  draw_text_center (pretty (pidx + 1)) 52 3 ++ draw_text_center "MOVES" 78 2 ++
  draw_text_center (pretty moves) 96 2 ++ draw_text_center "UP AGAIN" 114 2 ++ draw_text_center "RT NEXT" 126 2.

(** ** Where [render] draws *)

Lemma klotski_geometry : GRID_X = 1 /\ GRID_Y = 24 /\ GRID_H = 78 /\ CELL = 14 /\ GAP = 2.
Proof. done. Qed.

Lemma pattern_fill_in x y w h pid : ops_in (x + 1) (x + w - 1) (y + 1) (y + h - 1) (pattern_fill x y w h pid).
Proof.
  apply Forall_forall. intros p Hp. apply elem_of_flat_map in Hp as (j & Hj & Hp).
  apply elem_of_flat_map in Hp as (i & Hi & Hp). apply elem_of_zrange in Hi, Hj.
  destruct (pattern_on pid i j); [|by apply not_elem_of_nil in Hp].
  apply list_elem_of_singleton in Hp as ->. simpl. lia.
Qed.

Section Valid.
Context (L : layout) (HL : valid_layout L = true).

(** The frame, the pattern and the grab frame of a piece of a valid
    layout stay inside the grid with a margin of one pixel. *)
Lemma piece_step_in grabbed drawn ops r c :
  0 <= r < BR -> 0 <= c < BC -> ops_in 0 W (GRID_Y - 1) (GRID_Y + GRID_H + 1) ops ->
  exists drawn' ops', piece_step (Klotski.render L) grabbed (Some (drawn, ops)) (r, c) = Some (drawn', ops') /\
    ops_in 0 W (GRID_Y - 1) (GRID_Y + GRID_H + 1) ops'.
Proof.
  intros Hr Hc Hops. unfold piece_step. rewrite kcell_render by done.
  destruct (owner_cases L r c) as [[E _]|[Hid _]]; [rewrite E; simpl; eauto|].
  set (pid := owner L r c) in *. case_match; [eauto|].
  rewrite (piece_top_left_render_eq L HL pid Hid). destruct (L pid) as [pr pc] eqn:EL.
  destruct (pieces_dims pid Hid) as (w & h & Ew & ? & ?). rewrite Ew.
  pose proof (valid_in_board L HL pid Hid) as Hb. rewrite EL in Hb. apply (in_board_iff _ _ _ _ Ew) in Hb.
  simpl in Hb. destruct klotski_geometry as (Ex & Ey & Eh & Ec & Eg).
  do 2 eexists. split; [reflexivity|]. rewrite !ops_in_app_iff. unfold BR, BC in Hb. split_and!; [done| | |].
  - eapply ops_in_mono; [..|apply draw_rect_in]; rewrite ?Ex, ?Ey, ?Eh, ?Ec, ?Eg; unfold W; nia.
  - eapply ops_in_mono; [..|apply pattern_fill_in]; rewrite ?Ex, ?Ey, ?Eh, ?Ec, ?Eg; unfold W; nia.
  - destruct (bool_decide (grabbed = Some pid)); [|constructor].
    eapply ops_in_mono; [..|apply draw_rect_in]; rewrite ?Ex, ?Ey, ?Eh, ?Ec, ?Eg; unfold W; nia.
Qed.

Lemma pieces_in grabbed cells drawn ops :
  Forall (fun rc => 0 <= rc.1 < BR /\ 0 <= rc.2 < BC) cells -> ops_in 0 W (GRID_Y - 1) (GRID_Y + GRID_H + 1) ops ->
  exists drawn' ops', foldl (piece_step (Klotski.render L) grabbed) (Some (drawn, ops)) cells = Some (drawn', ops') /\
    ops_in 0 W (GRID_Y - 1) (GRID_Y + GRID_H + 1) ops'.
Proof.
  revert drawn ops. induction cells as [|[r c] cells IH]; intros drawn ops Hcells Hops; [eauto|].
  apply Forall_cons in Hcells as [[Hr Hc] Hcells]. cbn [foldl].
  destruct (piece_step_in grabbed drawn ops r c Hr Hc Hops) as (d' & o' & -> & Ho'). by apply IH.
Qed.
End Valid.

(** On the board of a valid layout, with the cursor on the board, fewer
    than 10000 moves and a puzzle number of one digit, [render] raises no
    [KeyError] and draws inside the surface. *)
Lemma render_on_screen L cur_r cur_c grabbed moves pidx :
  valid_layout L = true -> 0 <= cur_r < BR -> 0 <= cur_c < BC -> 0 <= moves < 10 ^ 4 -> 0 <= pidx < 9 ->
  exists ops, render (Klotski.render L) cur_r cur_c grabbed moves pidx = Some ops /\ ops_in 0 W 0 128 ops.
Proof.
  intros HL Hr Hc Hm Hp. unfold render.
  destruct (pieces_in L HL grabbed all_cells [] []) as (d & ops & -> & Hops); [|constructor|].
  { apply Forall_forall. intros [r c] Hrc%elem_of_all_cells. done. }
  eexists. split; [reflexivity|]. destruct klotski_geometry as (Ex & Ey & Eh & Ec & Eg).
  rewrite !ops_in_app_iff. split_and!; [ops_eval|ops_eval| |ops_eval| | | | |ops_eval|ops_eval].
  - eapply ops_in_mono; [..|apply (text_small_in GLYPH _ _ _ 1)]; [unfold W; lia..| |lia].
    apply pretty_Z_length; simpl; lia.
  - eapply ops_in_mono; [..|apply (text_small_in GLYPH _ _ _ 4)]; [unfold W; lia..| |lia].
    apply pretty_Z_length; simpl; lia.
  - ops_eval.
  - eapply ops_in_mono; [..|exact Hops]; rewrite ?Ey, ?Eh; lia.
  - eapply ops_in_mono; [..|apply draw_rect_in]; rewrite ?Ex, ?Ey, ?Ec, ?Eg; unfold W, BR, BC in *; lia.
Qed.

(** C21: in every state of the game loop of [main()] with fewer than
    10000 moves, [render] raises no [KeyError] and every pixel it draws
    (header, exit door, pieces with their grab frame, cursor and footer)
    is on the 64x128 surface. *)
Theorem reachable_render_on_screen s :
  kreach s -> 0 <= moves s < 10 ^ 4 ->
  exists ops, render (board s) (cur_r s) (cur_c s) (grabbed s) (moves s) (pidx s) = Some ops /\ ops_in 0 W 0 128 ops.
Proof.
  intros Hs Hm. destruct (kreach_inv s Hs) as ((L & HL & ->) & Hr & Hc & _ & Hp).
  apply render_on_screen; [done..|]. simpl in Hp. lia.
Qed.

Lemma reachable_render_on_screen_witness :
  kreach (start 0) /\ 0 <= moves (start 0) < 10 ^ 4 /\
  exists ops, render (board (start 0)) 4 1 None 0 0 = Some ops /\ ops_in 0 W 0 128 ops.
Proof.
  assert (H : kreach (start 0)) by (apply (kreach_start 0 (true, false, false, false)); [constructor|reflexivity]).
  split; [exact H|split; [simpl; lia|]]. exact (reachable_render_on_screen _ H ltac:(simpl; lia)).
Defined.

(** the title and the win screen do not fit the surface, whatever
    the puzzle number and the move count: their last labels, ["DN MENU"]
    at row 124 and ["RT NEXT"] at row 126, are ten rows high at scale 2
    and run past row 127. *)
Theorem screens_off_bottom pidx moves :
  ~ ops_in 0 W 0 128 (title_ops pidx) /\ ~ ops_in 0 W 0 128 (win_ops moves pidx).
Proof.
  unfold title_ops, win_ops. rewrite !ops_in_app_iff. split; intros H; destruct_and! H;
    match goal with H : ops_in _ _ _ _ (draw_text_center ?s ?y _) |- _ => revert H end;
    [change (~ ops_in 0 W 0 128 (draw_text_center "DN MENU" 124 2))
    |change (~ ops_in 0 W 0 128 (draw_text_center "RT NEXT" 126 2))]; ops_eval.
Qed.

(** Klotski's font has no [H] and no [Z]: the footer of the board
    reads [" OLD UD RESET"] and the win screen ["PU  LE"]. *)
Theorem font_missing_letters :
  dict_get GLYPH "H"%char = None /\ dict_get GLYPH "Z"%char = None /\ 
  draw_text_center "HOLD UD RESET" 122 1 = draw_text_center " OLD UD RESET" 122 1 /\ 
  draw_text_center "PUZZLE" 34 2 = draw_text_center "PU  LE" 34 2.
Proof. split_and!; vm_compute; reflexivity. Qed.

End RenderKlotski.
