(* ===== verification/RenderMines.v ===== *)
(** * What Minesweeper draws ([src/minesweeper.py], font and rendering)

    Minesweeper's copy of the 3x5 font ([GLYPH]), [draw_flag],
    [draw_mine], [draw_header], [draw_grid] (a frame per cell, the cursor
    frame, and the cell's mark: a flag, a mine or its number),
    [draw_hints], [render_game] and the title and end screens, as the
    [draw_pixel] calls they make; [fill(0)] and [show()] are left to
    [Display.v].  The grids are those of [Minesweeper.v].

    Theorems: every mark lies strictly inside its cell's frame; in every
    state of the game loop, [render_game] draws inside the 64x128 surface
    except the left side of the cursor frame on column 0, which falls on
    x = -1; the title and end screens fit the surface, as the comment at
    the top of the source says. *)

From Stdlib Require Import Ascii String.
From stdpp Require Import gmap pretty strings.
From S2P Require Import Prelude Grid Font Input Minesweeper.

Local Open Scope Z_scope.

Module RenderMines.
Import Minesweeper.

(** ** The 3x5 font (the rows are the source's binary literals) *)

Definition GLYPH : glyph_table := [
  ("0"%char, [7; 5; 5; 5; 7]);
  ("1"%char, [2; 6; 2; 2; 7]);
  ("2"%char, [7; 1; 7; 4; 7]);
  ("3"%char, [7; 1; 7; 1; 7]);
  ("4"%char, [5; 5; 7; 1; 1]);
  ("5"%char, [7; 4; 7; 1; 7]);
  ("6"%char, [7; 4; 7; 5; 7]);
  ("7"%char, [7; 1; 2; 2; 2]);
  ("8"%char, [7; 5; 7; 5; 7]);
  ("9"%char, [7; 5; 7; 1; 7]);
  ("A"%char, [7; 5; 7; 5; 5]);
  ("B"%char, [6; 5; 6; 5; 6]);
  ("C"%char, [7; 4; 4; 4; 7]);
  ("D"%char, [6; 5; 5; 5; 6]);
  ("E"%char, [7; 4; 7; 4; 7]);
  ("F"%char, [7; 4; 7; 4; 4]);
  ("G"%char, [7; 4; 5; 5; 7]);
  ("I"%char, [7; 2; 2; 2; 7]);
  ("L"%char, [4; 4; 4; 4; 7]);
  ("M"%char, [5; 7; 7; 5; 5]);
  ("N"%char, [5; 7; 7; 7; 5]);
  ("O"%char, [7; 5; 5; 5; 7]);
  ("P"%char, [6; 5; 6; 4; 4]);
  ("R"%char, [6; 5; 6; 5; 5]);
  ("S"%char, [7; 4; 7; 1; 7]);
  ("T"%char, [7; 2; 2; 2; 2]);
  ("U"%char, [5; 5; 5; 5; 7]);
  ("V"%char, [5; 5; 5; 5; 2]);
  ("W"%char, [5; 5; 5; 7; 7]);
  ("Y"%char, [5; 5; 2; 2; 2]);
  (" "%char, [0; 0; 0; 0; 0]);
  (":"%char, [0; 2; 0; 2; 0]);
  ("-"%char, [0; 0; 7; 0; 0]);
  ("+"%char, [0; 2; 7; 2; 0])].

Definition draw_text := Font.draw_text GLYPH.
Definition draw_text_center := Font.draw_text_center GLYPH.

(** ** Marks *)

Definition draw_flag (cx cy : Z) : list op :=
  [(cx, cy - 2, 1); (cx, cy - 1, 1); (cx, cy, 1); (cx, cy + 1, 1);
   (cx + 1, cy - 2, 1); (cx + 2, cy - 1, 1); (cx + 1, cy, 1);
   (cx - 1, cy + 2, 1); (cx, cy + 2, 1); (cx + 1, cy + 2, 1)].

Definition draw_mine (cx cy : Z) : list op :=
  [(cx, cy, 1)] ++
  flat_map (fun d => [(cx + d, cy, 1); (cx, cy + d, 1)]) [-2; -1; 1; 2] ++
  [(cx - 1, cy - 1, 1); (cx + 1, cy - 1, 1); (cx - 1, cy + 1, 1); (cx + 1, cy + 1, 1)].

(** ** The game screen *)

Definition draw_header (mines_left elapsed_ms : Z) : list op :=
  draw_text "MINES" 2 2 1 1 1 ++ draw_text (pretty mines_left) 2 10 1 1 1 ++
  draw_text "TIME" 40 2 1 1 1 ++ draw_text (pretty (elapsed_ms `div` 1000)) 40 10 1 1 1.

(** What [draw_grid] draws in the cell [(r, c)] with top-left [(x, y)]
    after its frame: the [if vis[r][c] == COVERED ... else ...] block. *)
Definition cell_mark (mines : BGrid) (nums vis : ZGrid) (flag : BGrid) (reveal_all_mines : bool)
    (r c x y : Z) : list op :=
  if mget vis r c =? COVERED then
    if mget flag r c then draw_flag (x + CELL `div` 2) (y + CELL `div` 2)
    else if reveal_all_mines && mget mines r c then draw_mine (x + CELL `div` 2) (y + CELL `div` 2)
    else []
  else if mget mines r c then draw_mine (x + CELL `div` 2) (y + CELL `div` 2)
  else
    let n := mget nums r c in
    if 0 <? n then
      let s := pretty n in
      let tw := text_width s 1 0 in
      draw_text s (x + (CELL - tw) `div` 2) (y + (CELL - 5) `div` 2) 1 0 1
    else [].

(** One pass of the double loop of [draw_grid]. *)
Definition cell_ops (mines : BGrid) (nums vis : ZGrid) (flag : BGrid) (cur_r cur_c : Z)
    (reveal_all_mines : bool) (rc : Z * Z) : list op :=
  let '(r, c) := rc in
  let x := GRID_X + c * (CELL + GAP) in
  let y := GRID_Y + r * (CELL + GAP) in
  draw_rect x y CELL CELL 1 ++
  (if bool_decide (r = cur_r) && bool_decide (c = cur_c)
   then draw_rect (x - 1) (y - 1) (CELL + 2) (CELL + 2) 1 else []) ++
  cell_mark mines nums vis flag reveal_all_mines r c x y.

Definition draw_grid (mines : BGrid) (nums vis : ZGrid) (flag : BGrid) (cur_r cur_c : Z)
    (reveal_all_mines : bool) : list op :=
  flat_map (cell_ops mines nums vis flag cur_r cur_c reveal_all_mines) board_cells.

Definition draw_hints : list op :=
  draw_text_center "UD REVEAL" 96 1 ++ draw_text_center "LR FLAG" 108 1.

Definition render_game (mines : BGrid) (nums vis : ZGrid) (flag : BGrid) (cur_r cur_c : Z)
    (mines_left elapsed_ms : Z) (reveal_all_mines : bool) : list op :=
  draw_header mines_left elapsed_ms ++ draw_grid mines nums vis flag cur_r cur_c reveal_all_mines ++ draw_hints.

(** The frame [main()] draws at the top of its loop for the state [s],
    [elapsed] ms after the first reveal. *)
Definition game_frame (s : mstate) (elapsed : Z) : list op :=
  render_game (mines s) (nums s) (vis s) (flag s) (cur_r s) (cur_c s)
    (MINES - count_flags (flag s)) (if started s then elapsed else 0) false.

(** ** The other screens *)

Definition title_ops : list op :=
  draw_text_center "MINE" 22 3 ++ draw_text_center "SWEEPER" 48 2 ++
  draw_text_center "UP START" 82 2 ++ draw_text_center "DN MENU" 104 2.

Definition end_ops (win : bool) (elapsed_ms : Z) : list op :=
  (if win then draw_text_center "YOU WIN" 10 2 else draw_text_center "BOOM" 10 3) ++
  draw_text_center "TIME" 44 2 ++ draw_text_center (pretty (elapsed_ms `div` 1000)) 62 2 ++
  draw_text_center "UP AGAIN" 88 2 ++ draw_text_center "DN MENU" 108 2.

(** ** Where the calls land *)

Lemma mines_geometry : GRID_X = 0 /\ GRID_Y = 22 /\ CELL = 7 /\ GAP = 1.
Proof. done. Qed.

Lemma draw_flag_in cx cy : ops_in (cx - 1) (cx + 3) (cy - 2) (cy + 3) (draw_flag cx cy).
Proof. repeat constructor; simpl; lia. Qed.

Lemma draw_mine_in cx cy : ops_in (cx - 2) (cx + 3) (cy - 2) (cy + 3) (draw_mine cx cy).
Proof. repeat constructor; simpl; lia. Qed.

(** A number of one digit, centred in the cell with no spacing. *)
Lemma cell_number_in n x y :
  0 < n < 10 ->
  ops_in (x + 1) (x + CELL - 1) (y + 1) (y + CELL - 1)
    (draw_text (pretty n) (x + (CELL - text_width (pretty n) 1 0) `div` 2) (y + (CELL - 5) `div` 2) 1 0 1).
Proof.
  intros Hn. pose proof (pretty_Z_length n 1 ltac:(lia) ltac:(simpl; lia)) as Hl.
  assert (0 <= text_width (pretty n) 1 0 <= 3) as Hw by (unfold text_width; case_decide; lia).
  eapply ops_in_mono; [..|apply draw_text_in]; unfold CELL; [..|lia|lia]; Z.div_mod_to_equations; lia.
Qed.

Lemma count_flags_bounds flag : 0 <= count_flags flag <= 64.
Proof.
  unfold count_flags. pose proof (length_filter (fun rc => mget flag rc.1 rc.2 = true) board_cells).
  assert (length board_cells = 64%nat) by reflexivity. lia.
Qed.

Lemma count_mine_neighbors_le mines r c : (count_mine_neighbors mines r c <= 8)%nat.
Proof.
  unfold count_mine_neighbors. etransitivity; [apply length_filter|].
  unfold neighbors. cbn [flat_map Z.eqb andb app]. repeat case_match; simpl; lia.
Qed.

(** The texts of [mines_left] have at most three characters. *)
Lemma pretty_mines_left_check :
  Forall (fun z => (String.length (pretty z) <= 3)%nat) (zrange (-54) 11).
Proof. vm_compute. repeat constructor. Qed.

(** Whatever [draw_grid] draws in a cell after its frame, a flag, a mine
    or a number of one digit, lies strictly inside the frame. *)
Lemma cell_mark_in mines nums vis flag reveal_all_mines r c x y :
  (mget vis r c <> COVERED -> mget mines r c = false -> mget nums r c < 10) ->
  ops_in (x + 1) (x + CELL - 1) (y + 1) (y + CELL - 1) (cell_mark mines nums vis flag reveal_all_mines r c x y).
Proof.
  intros Hn. unfold cell_mark. change (CELL `div` 2) with 3.
  destruct (mget vis r c =? COVERED) eqn:Ev; [apply Z.eqb_eq in Ev|apply Z.eqb_neq in Ev].
  - destruct (mget flag r c); [|destruct (reveal_all_mines && mget mines r c); [|apply Forall_nil_2]].
    + eapply ops_in_mono; [..|apply draw_flag_in]; unfold CELL; lia.
    + eapply ops_in_mono; [..|apply draw_mine_in]; unfold CELL; lia.
  - destruct (mget mines r c) eqn:Em.
    + eapply ops_in_mono; [..|apply draw_mine_in]; unfold CELL; lia.
    + destruct (0 <? mget nums r c) eqn:Ep; [|apply Forall_nil_2]. apply Z.ltb_lt in Ep.
      apply cell_number_in. specialize (Hn Ev eq_refl). lia.
Qed.

(** A revealed cell without a mine holds a number of one digit. *)
Lemma minv_nums_small s r c :
  minv s -> in_bounds r c = true ->
  mget (vis s) r c <> COVERED -> mget (mines s) r c = false -> mget (nums s) r c < 10.
Proof.
  intros (_ & _ & _ & _ & _ & _ & Hst) Hb Hv Hm. destruct (started s).
  - destruct Hst as [Hc _]. rewrite (Hc r c Hb), Hm. pose proof (count_mine_neighbors_le (mines s) r c). lia.
  - by destruct (Hst r c Hb) as [_ ?].
Qed.

(** A cell, with the cursor frame when the cursor is on it, off column 0. *)
Lemma cell_ops_in mines nums vis flag cur_r cur_c rev r c :
  in_bounds r c = true -> cur_c <> 0 ->
  (mget vis r c <> COVERED -> mget mines r c = false -> mget nums r c < 10) ->
  ops_in 0 W 21 86 (cell_ops mines nums vis flag cur_r cur_c rev (r, c)).
Proof.
  intros Hb Hc Hn. apply in_bounds_iff in Hb. unfold ROWS, COLS in Hb. unfold cell_ops.
  destruct mines_geometry as (Ex & Ey & Ec & Eg). rewrite !ops_in_app_iff. split_and!.
  - eapply ops_in_mono; [..|apply draw_rect_in]; rewrite ?Ex, ?Ey, ?Ec, ?Eg; unfold W; lia.
  - destruct (bool_decide (r = cur_r) && bool_decide (c = cur_c)) eqn:E; [|apply Forall_nil_2].
    apply andb_true_iff in E as [_ E]. apply bool_decide_eq_true_1 in E.
    eapply ops_in_mono; [..|apply draw_rect_in]; rewrite ?Ex, ?Ey, ?Ec, ?Eg; unfold W; lia.
  - eapply ops_in_mono; [..|apply cell_mark_in, Hn]; rewrite ?Ex, ?Ey, ?Ec, ?Eg; unfold W; lia.
Qed.

(** The cursor frame on column 0 starts at x = -1. *)
Lemma cursor_col0_off mines nums vis flag cur_r rev :
  0 <= cur_r < ROWS ->
  (-1, GRID_Y + cur_r * (CELL + GAP) - 1, 1) ∈ draw_grid mines nums vis flag cur_r 0 rev.
Proof.
  intros Hr. apply elem_of_flat_map. exists (cur_r, 0). split.
  - apply elem_of_board_cells, in_bounds_iff. unfold COLS. lia.
  - unfold cell_ops. rewrite !bool_decide_eq_true_2 by done. apply elem_of_app. right.
    apply elem_of_app. left. apply elem_of_app. left. apply elem_of_flat_map. exists 0.
    split; [apply elem_of_zrange; unfold CELL; lia|]. left.
Qed.

Lemma header_in mines_left elapsed_ms :
  -54 <= mines_left <= 10 -> 0 <= elapsed_ms < 10 ^ 9 -> ops_in 0 W 0 128 (draw_header mines_left elapsed_ms).
Proof.
  intros Hm He. unfold draw_header. rewrite !ops_in_app_iff. split_and!; [ops_eval| |ops_eval|].
  - eapply ops_in_mono; [..|apply (text_small_in GLYPH _ _ _ 3)]; [unfold W; lia..| |lia].
    apply (proj1 (Forall_forall _ _) pretty_mines_left_check). apply elem_of_zrange. lia.
  - eapply ops_in_mono; [..|apply (text_small_in GLYPH _ _ _ 6)]; [unfold W; lia..| |lia].
    apply pretty_Z_length; [lia|]. simpl. Z.div_mod_to_equations. lia.
Qed.

(** Under the invariant of the loop, [render_game] draws on the surface
    exactly when the cursor is off column 0. *)
Lemma render_game_on_screen_iff s mines_left elapsed rev :
  minv s -> -54 <= mines_left <= 10 -> 0 <= elapsed < 10 ^ 9 ->
  (ops_in 0 W 0 128 (render_game (mines s) (nums s) (vis s) (flag s) (cur_r s) (cur_c s) mines_left elapsed rev)
   <-> cur_c s <> 0).
Proof.
  intros Hinv Hm He. pose proof Hinv as (_ & _ & _ & _ & Hcur & _). apply in_bounds_iff in Hcur.
  unfold render_game. rewrite !ops_in_app_iff. split.
  - intros (_ & Hg & _) Hc0. rewrite Hc0 in Hg.
    pose proof (cursor_col0_off (mines s) (nums s) (vis s) (flag s) (cur_r s) rev ltac:(lia)) as Hp.
    apply (proj1 (Forall_forall _ _) Hg) in Hp. simpl in Hp. lia.
  - intros Hc0. split_and!; [by apply header_in| |unfold draw_hints; ops_eval].
    apply ops_in_flat_map. intros [r c] Hrc%elem_of_board_cells.
    eapply ops_in_mono; [..|apply cell_ops_in]; [lia..|done|done|].
    by apply minv_nums_small.
Qed.

(** in every state of the game loop of [main()], the calls of
    [draw_grid] for each cell after its frame (a flag, a mine, or the
    number of neighbouring mines) land strictly inside the cell's frame,
    with or without [reveal_all_mines]. *)
Theorem reachable_marks_inside s rev r c :
  mreach s -> in_bounds r c = true ->
  let x := GRID_X + c * (CELL + GAP) in let y := GRID_Y + r * (CELL + GAP) in
  ops_in (x + 1) (x + CELL - 1) (y + 1) (y + CELL - 1) (cell_mark (mines s) (nums s) (vis s) (flag s) rev r c x y).
Proof. intros Hs Hb x y. apply cell_mark_in, (minv_nums_small s r c (mreach_inv s Hs) Hb). Qed.

Lemma reachable_marks_inside_witness :
  mreach demo_started /\ in_bounds 3 4 = true /\
  ops_in 33 38 47 52 (cell_mark (mines demo_started) (nums demo_started) (vis demo_started) (flag demo_started) true 3 4 32 46).
Proof.
  assert (H : mreach demo_started).
  { apply (mreach_next new_game (false, false, false, false) (Some Reveal) 500 demo_rnd); [constructor|vm_compute; reflexivity]. }
  split; [exact H|split; [reflexivity|]]. exact (reachable_marks_inside demo_started true 3 4 H eq_refl).
Defined.

(** C20: in every state of the game loop of [main()], less than 10^9 ms
    into the game, the frame [render_game] draws at the top of the loop
    lies on the 64x128 surface exactly when the cursor is off column 0:
    on column 0 the left side of the cursor frame falls on x = -1, where
    [draw_pixel] drops it. *)
Theorem reachable_frame_on_screen_iff s elapsed :
  mreach s -> 0 <= elapsed < 10 ^ 9 -> (ops_in 0 W 0 128 (game_frame s elapsed) <-> cur_c s <> 0).
Proof.
  intros Hs He. unfold game_frame. pose proof (count_flags_bounds (flag s)).
  apply render_game_on_screen_iff; [by apply mreach_inv|unfold MINES; lia|by destruct (started s)].
Qed.

Lemma reachable_frame_on_screen_iff_witness :
  mreach new_game /\ 0 <= 1500 < 10 ^ 9 /\ ~ ops_in 0 W 0 128 (game_frame new_game 1500).
Proof.
  assert (H : mreach new_game) by constructor.
  split; [exact H|split; [lia|]]. rewrite (reachable_frame_on_screen_iff new_game 1500 H ltac:(lia)). simpl. lia.
Defined.

(** the title screen and both end screens (for a game shorter than
    10^11 ms) draw inside the 64x128 surface, as the comment at the top of
    the source promises for the end screen. *)
Theorem mines_screens_on_screen win elapsed :
  0 <= elapsed < 10 ^ 11 -> ops_in 0 W 0 128 title_ops /\ ops_in 0 W 0 128 (end_ops win elapsed).
Proof.
  intros He. split; [ops_eval|]. unfold end_ops. rewrite !ops_in_app_iff.
  split_and!; [destruct win; ops_eval|ops_eval| |ops_eval|ops_eval].
  eapply ops_in_mono; [..|apply (text_center_fits GLYPH _ _ _ 8)]; [unfold W; lia..| |lia|unfold W; lia].
  apply pretty_Z_length; [lia|]. simpl. Z.div_mod_to_equations. lia.
Qed.

Lemma mines_screens_on_screen_witness :
  0 <= 754000 < 10 ^ 11 /\ ops_in 0 W 0 128 title_ops /\ ops_in 0 W 0 128 (end_ops false 754000).
Proof. split; [lia|]. apply mines_screens_on_screen. lia. Defined.

End RenderMines.
