(* ===== verification/Frogger.v ===== *)
(** * Frogger ([src/frogger.py]): lanes, collisions and the game loop

    The lanes are the dicts [make_lane] builds, here a [lane] record whose
    [type] string is the enumeration [ltype]; the dict [lanes] of
    [build_level] is an association list from rows to lanes, in the order
    of its keys (the order [move_lanes] visits them).  The random draws
    are an argument [rnd : nat -> Z], the k-th raw draw, which the
    [randint] and [choice] of [Prelude] reduce into their range; the draws
    are threaded as a counter.  The clock is [Input]'s: a time [T] in real milliseconds
    and [ticks_ms T].  One pass of the [while True] loop of [play_once] is
    [ftick]; [freach] are the states at the top of that loop. *)

From stdpp Require Import list.
From S2P Require Import Prelude Input.

Local Open Scope Z_scope.

Module Frogger.

(** ** Constants *)

Definition WIDTH : Z := 64.
Definition HEIGHT : Z := 128.
Definition TILE : Z := 8.
Definition COLS : Z := WIDTH `div` TILE.
Definition ROWS : Z := HEIGHT `div` TILE.
Definition FROG_W : Z := 6.
Definition FROG_H : Z := 6.
Definition ROW_GOALS : Z := 0.
Definition ROW_HUD : Z := 14.
Definition ROW_START : Z := 15.
Definition GOAL_COLS : list Z := [1; 3; 5].

(** ** Lanes *)

Inductive ltype := Safe | Road | River.

#[export] Instance ltype_eq_dec : EqDecision ltype.
Proof. solve_decision. Defined.

(** [lane["type"], ["row"], ["dir"], ["speed"], ["period"], ["last"],
    ["objs"]]; an object is [[x, w]]. *)
Record lane := mkLane {
  l_type : ltype; l_row : Z; l_dir : Z; l_speed : Z; l_period : Z; l_last : Z; l_objs : list (Z * Z) }.

Definition moving (t : ltype) : bool := bool_decide (t = Road \/ t = River).

(** The loop [for _ in range(count)] of [make_lane]: each object at [x],
    the next one a width and a gap further. *)
Fixpoint place_objs (rnd : nat -> Z) (k : nat) (count : nat) (x : Z) (w_choices : list Z) (gap_min gap_max : Z)
    : list (Z * Z) * Z * nat :=
  match count with
  | O => ([], x, k)
  | S n =>
      let '(w, k1) := choice rnd k w_choices in
      let '(g, k2) := randint rnd k1 gap_min gap_max in
      let '(objs, x', k3) := place_objs rnd k2 n (x + w + g) w_choices gap_min gap_max in
      ((x, w) :: objs, x', k3)
  end.

(** [make_lane(ltype, row, dir, speed_px, period_ms, obj_min, obj_max,
    w_choices, gap_min, gap_max)] at time [now]. *)
Definition make_lane (rnd : nat -> Z) (k : nat) (now : Z) (t : ltype) (row dir speed_px period_ms obj_min obj_max : Z)
    (w_choices : list Z) (gap_min gap_max : Z) : lane * nat :=
  if moving t then
    let '(x, k1) := randint rnd k 0 10 in
    let '(count, k2) := randint rnd k1 obj_min obj_max in
    let '(objs, x', k3) := place_objs rnd k2 (Z.to_nat count) x w_choices gap_min gap_max in
    let '(w, k4) := choice rnd k3 w_choices in
    (mkLane t row dir speed_px period_ms now (objs ++ [(x', w)]), k4)
  else (mkLane t row dir speed_px period_ms now [], k).

(** [make_lane("safe", row)] with the defaults of its signature. *)
Definition safe_lane (rnd : nat -> Z) (k : nat) (now row : Z) : lane * nat :=
  make_lane rnd k now Safe row 1 1 200 2 3 [14; 18; 22] 10 18.

(** The arguments of the [make_lane] calls of [build_level(level)] for a
    moving lane, at speed [s]: row, type, dir, period, widths, gaps. *)
Definition level_lanes (level : Z) : list (Z * ltype * Z * Z * list Z * Z * Z) := [
  (1, River, 1, Z.max 120 (220 - level * 6), [12; 14; 16], 12, 22);
  (2, River, -1, Z.max 110 (210 - level * 6), [14; 16; 18], 12, 22);
  (3, River, 1, Z.max 100 (200 - level * 6), [12; 14; 18], 12, 22);
  (4, Safe, 1, 200, [14; 18; 22], 10, 18);
  (5, Road, -1, Z.max 115 (210 - level * 6), [10; 12; 14], 10, 18);
  (6, Road, 1, Z.max 110 (205 - level * 6), [12; 14; 16], 10, 18);
  (7, Safe, 1, 200, [14; 18; 22], 10, 18);
  (8, Road, -1, Z.max 105 (200 - level * 6), [10; 12; 14], 10, 18);
  (9, Road, 1, Z.max 95 (180 - level * 6), [12; 14; 16], 12, 22);
  (10, Safe, 1, 200, [14; 18; 22], 10, 18);
  (11, Road, -1, Z.max 105 (200 - level * 6), [10; 12; 14], 12, 22);
  (12, Safe, 1, 200, [14; 18; 22], 10, 18);
  (13, Road, 1, Z.max 110 (210 - level * 6), [12; 14; 16], 12, 22)].

(** [build_level(level)]: the goal row, rows 1-13 in order, the HUD row
    and the start row; the safe rows take the defaults (speed 1). *)
Definition build_level (rnd : nat -> Z) (k : nat) (now level : Z) : list (Z * lane) * nat :=
  let s := Z.min (1 + level `div` 3) 3 in
  let '(l0, k0) := safe_lane rnd k now ROW_GOALS in
  let '(mid, k1) := foldl (fun '(acc, k) '(row, t, dir, period, ws, gmin, gmax) =>
      let '(ln, k') := (if moving t then make_lane rnd k now t row dir s period 2 3 ws gmin gmax
                        else safe_lane rnd k now row) in
      (acc ++ [(row, ln)], k')) ([], k0) (level_lanes level) in
  let '(l14, k2) := safe_lane rnd k1 now ROW_HUD in
  let '(l15, k3) := safe_lane rnd k2 now ROW_START in
  ((ROW_GOALS, l0) :: mid ++ [(ROW_HUD, l14); (ROW_START, l15)], k3).

(** [lanes.get(row)]. *)
Fixpoint lanes_get (lanes : list (Z * lane)) (row : Z) : option lane :=
  match lanes with
  | [] => None
  | (r, ln) :: lanes' => if r =? row then Some ln else lanes_get lanes' row
  end.

(** ** Geometry and collisions *)

Definition clamp (v lo hi : Z) : Z := if v <? lo then lo else if v >? hi then hi else v.

Definition rects_overlap (ax ay aw ah bx by_ bw bh : Z) : bool :=
  (ax <? bx + bw) && (ax + aw >? bx) && (ay <? by_ + bh) && (ay + ah >? by_).

Definition frog_pixel_pos (frog_col frog_row : Z) : Z * Z :=
  (frog_col * TILE + (TILE - FROG_W) `div` 2, frog_row * TILE + (TILE - FROG_H) `div` 2).

Definition reset_frog : Z * Z := (COLS `div` 2, ROW_START).

(** [int(ox) % (WIDTH + 40) - 40]: where an object is drawn and tested. *)
Definition obj_x (ox : Z) : Z := ox mod (WIDTH + 40) - 40.

(** The loop of [_find_log_under_frog] over the objects. *)
Fixpoint find_log (frog_center : Z) (objs : list (Z * Z)) : option (Z * Z) :=
  match objs with
  | [] => None
  | (ox, ow) :: objs' =>
      let lft := obj_x ox in let rgt := obj_x ox + ow in
      if (lft <=? frog_center) && (frog_center <=? rgt) then Some (lft, rgt) else find_log frog_center objs'
  end.

Definition find_log_under_frog (river_lane : lane) (frog_col : Z) : option (Z * Z) :=
  find_log (frog_col * TILE + TILE `div` 2) (l_objs river_lane).

Definition check_road_collision (ln : lane) (frog_col frog_row : Z) : bool :=
  let '(fx, fy) := frog_pixel_pos frog_col frog_row in
  let y := frog_row * TILE in
  existsb (fun '(ox, ow) => rects_overlap fx fy FROG_W FROG_H (obj_x ox) (y + 2) ow (TILE - 4)) (l_objs ln).

(** ** [move_lanes] *)

(** [lane["last"] = now; for obj in lane["objs"]: obj[0] += dir * speed]. *)
Definition advance_lane (now : Z) (ln : lane) : lane :=
  mkLane (l_type ln) (l_row ln) (l_dir ln) (l_speed ln) (l_period ln) now
    (map (fun '(ox, ow) => (ox + l_dir ln * l_speed ln, ow)) (l_objs ln)).

(** One pass of [for row, lane in lanes.items()]: the lanes so far and
    [carry_dx]. *)
Definition lanes_step (now frog_row : Z) (acc : list (Z * lane) * Z) (rl : Z * lane) : list (Z * lane) * Z :=
  let '(out, carry) := acc in
  let '(row, ln) := rl in
  if negb (moving (l_type ln)) || (ticks_diff now (l_last ln) <? l_period ln) then (out ++ [(row, ln)], carry)
  else (out ++ [(row, advance_lane now ln)],
        if bool_decide (l_type ln = River) && (row =? frog_row) then l_dir ln * l_speed ln else carry).

(** [move_lanes(lanes, frog_col, frog_row)] at time [T]: the lanes after
    the pass, [carry_dx], [drowned] and [log_bounds]. *)
Definition move_lanes (lanes : list (Z * lane)) (frog_col frog_row T : Z) : list (Z * lane) * Z * bool * option (Z * Z) :=
  let '(lanes', carry) := foldl (lanes_step (ticks_ms T) frog_row) ([], 0) lanes in
  match lanes_get lanes' frog_row with
  | Some ln =>
      if bool_decide (l_type ln = River) then
        match find_log_under_frog ln frog_col with
        | None => (lanes', carry, true, None)
        | Some b => (lanes', carry, false, Some b)
        end
      else (lanes', carry, false, None)
  | None => (lanes', carry, false, None)
  end.

(** ** One pass of the loop of [play_once] *)

(** The locals of [play_once] the loop updates; [draws] counts the random
    draws made so far. *)
Record fstate := mkF {
  lanes : list (Z * lane); frog_col : Z; frog_row : Z; best_row : Z; goals : list bool;
  lives : Z; score : Z; level : Z; last_move : Z; draws : nat }.

(** How a pass ends: [FNext] goes round the loop again (also after
    [continue]), [FOver] is [break] to the game-over screen, which shows
    the score. *)
Inductive fresult := FNext (s : fstate) | FOver (final_score : Z).

Definition fbind (r : fresult) (k : fstate -> fresult) : fresult :=
  match r with FNext s => k s | FOver sc => FOver sc end.

Definition set_lanes (s : fstate) (ls : list (Z * lane)) : fstate :=
  mkF ls (frog_col s) (frog_row s) (best_row s) (goals s) (lives s) (score s) (level s) (last_move s) (draws s).

Definition set_col (s : fstate) (c : Z) : fstate :=
  mkF (lanes s) c (frog_row s) (best_row s) (goals s) (lives s) (score s) (level s) (last_move s) (draws s).

(** [frog_col, frog_row = reset_frog(); best_row = frog_row]. *)
Definition reset (s : fstate) : fstate :=
  let '(c, r) := reset_frog in
  mkF (lanes s) c r r (goals s) (lives s) (score s) (level s) (last_move s) (draws s).

(** [lives -= 1; frog_die_anim(); if lives <= 0: break; reset]. *)
Definition lose_life (s : fstate) : fresult :=
  let l := lives s - 1 in
  if l <=? 0 then FOver (score s)
  else FNext (reset (mkF (lanes s) (frog_col s) (frog_row s) (best_row s) (goals s) l (score s) (level s)
                         (last_move s) (draws s))).

(** The sticky log carry: the frog centre moved by [carry_dx], kept two
    pixels inside the log, back to a column. *)
Definition log_carry (s : fstate) (carry : Z) (log_bounds : option (Z * Z)) : fstate :=
  match lanes_get (lanes s) (frog_row s), log_bounds with
  | Some ln, Some (lft, rgt) =>
      if bool_decide (l_type ln = River) then
        let c0 := frog_col s * TILE + TILE `div` 2 + carry in
        let margin := 2 in
        let c1 := if c0 <? lft + margin then lft + margin else c0 in
        let c2 := if c1 >? rgt - margin then rgt - margin else c1 in
        set_col s (clamp (c2 `div` TILE) 0 (COLS - 1))
      else s
  | _, _ => s
  end.

(** [dx, dy = inp.read_move()] at time [T] and the move it makes. *)
Definition input_move (env : Z -> levels) (T : Z) (s : fstate) : fstate :=
  let '(lm, (dx, dy)) := read_move env (last_move s) T in
  if negb (dx =? 0) || negb (dy =? 0) then
    let c := clamp (frog_col s + dx) 0 (COLS - 1) in
    let r := clamp (frog_row s + dy) 0 ROW_START in
    if r <? best_row s then mkF (lanes s) c r r (goals s) (lives s) (score s + 10) (level s) lm (draws s)
    else mkF (lanes s) c r (best_row s) (goals s) (lives s) (score s) (level s) lm (draws s)
  else mkF (lanes s) (frog_col s) (frog_row s) (best_row s) (goals s) (lives s) (score s) (level s) lm (draws s).

(** [GOAL_COLS.index(c)]. *)
Fixpoint index_of (l : list Z) (c : Z) : nat :=
  match l with [] => O | x :: l' => if x =? c then O else S (index_of l' c) end.

(** The [if frog_row == ROW_GOALS] block, a new level built at time [T]. *)
Definition goal_row (rnd : nat -> Z) (T : Z) (s : fstate) : fresult :=
  if frog_row s =? ROW_GOALS then
    if bool_decide (frog_col s ∈ GOAL_COLS) then
      let idx := index_of GOAL_COLS (frog_col s) in
      if negb (goals s !!! idx) then
        let g := <[idx := true]> (goals s) in
        let s1 := reset (mkF (lanes s) (frog_col s) (frog_row s) (best_row s) g (lives s) (score s + 200)
                             (level s) (last_move s) (draws s)) in
        if forallb id g then
          let lv := level s + 1 in
          let '(ls, k) := build_level rnd (draws s1) (ticks_ms T) lv in
          FNext (mkF ls (frog_col s1) (frog_row s1) (best_row s1) [false; false; false] (lives s1) (score s1) lv
                     (last_move s1) k)
        else FNext s1
      else lose_life s
    else lose_life s
  else FNext s.

(** The road collision check at the end of the pass. *)
Definition road_check (s : fstate) : fresult :=
  match lanes_get (lanes s) (frog_row s) with
  | Some ln =>
      if bool_decide (l_type ln = Road) && check_road_collision ln (frog_col s) (frog_row s) then lose_life s
      else FNext s
  | None => FNext s
  end.

(** One pass of [while True] in [play_once]: [move_lanes] at [T1], the
    input at [T2] (also the time of a new level), then [draw_game] and
    [sleep_ms(20)], which change no state. *)
Definition ftick (env : Z -> levels) (rnd : nat -> Z) (T1 T2 : Z) (s : fstate) : fresult :=
  let '(ls, carry, drowned, log_bounds) := move_lanes (lanes s) (frog_col s) (frog_row s) T1 in
  let s1 := set_lanes s ls in
  if drowned then lose_life s1
  else fbind (goal_row rnd T2 (input_move env T2 (log_carry s1 carry log_bounds))) road_check.

(** The start of [play_once] after the title: level 1, score 0, three
    lives, the lanes of level 1 built at [T0], the frog at the start,
    [Input()] created at [T0]. *)
Definition fstart (rnd : nat -> Z) (k : nat) (T0 : Z) : fstate :=
  let '(ls, k') := build_level rnd k (ticks_ms T0) 1 in
  let '(c, r) := reset_frog in
  mkF ls c r r [false; false; false] 3 0 1 (ticks_ms T0) k'.

(** The states at the top of the loop. *)
Inductive freach : fstate -> Prop :=
| freach_start rnd k T0 : freach (fstart rnd k T0)
| freach_step s env rnd T1 T2 s' : freach s -> ftick env rnd T1 T2 s = FNext s' -> freach s'.

(** ** What the loop keeps *)

(** The part of a lane [move_lanes] never changes. *)
Definition lane_shape (rl : Z * lane) : Z * ltype * Z * Z := (rl.1, l_type rl.2, l_dir rl.2, l_speed rl.2).

(** [lanes.get(row)] on the shapes. *)
Fixpoint shape_get (sh : list (Z * ltype * Z * Z)) (row : Z) : option (ltype * Z * Z) :=
  match sh with
  | [] => None
  | (r, t, d, sp) :: sh' => if r =? row then Some (t, d, sp) else shape_get sh' row
  end.

(** The lanes of [build_level] at speed [s]. *)
Definition level_shape (s : Z) : list (Z * ltype * Z * Z) :=
  [(0, Safe, 1, 1); (1, River, 1, s); (2, River, -1, s); (3, River, 1, s); (4, Safe, 1, 1);
   (5, Road, -1, s); (6, Road, 1, s); (7, Safe, 1, 1); (8, Road, -1, s); (9, Road, 1, s);
   (10, Safe, 1, 1); (11, Road, -1, s); (12, Safe, 1, 1); (13, Road, 1, s); (14, Safe, 1, 1); (15, Safe, 1, 1)].

(** Lanes whose objects move at most three pixels a step and whose start
    row is safe. *)
Definition lanes_wf (ls : list (Z * lane)) : Prop :=
  Forall (fun sh => Z.abs (sh.1.2 * sh.2) <= 3) (map lane_shape ls) /\
  (forall t d sp, shape_get (map lane_shape ls) ROW_START = Some (t, d, sp) -> t = Safe).

(** The invariant at the top of the loop: the frog on the board below the
    goal row, [best_row] between the goal row and the frog, three goals
    not all filled, one to three lives, a score in tens, a level from 1. *)
Definition finv (s : fstate) : Prop :=
  lanes_wf (lanes s) /\ 0 <= frog_col s <= COLS - 1 /\ 1 <= best_row s <= frog_row s /\ frog_row s <= ROW_START /\
  length (goals s) = 3%nat /\ forallb id (goals s) = false /\ 1 <= lives s <= 3 /\
  0 <= score s /\ score s mod 10 = 0 /\ 1 <= level s.

(** What a pass from [s] ends with: the invariant again, at most one life
    lost and the score kept or raised; or the game-over screen, reached
    on the last life, with the score so far. *)
Definition tick_post (s : fstate) (r : fresult) : Prop :=
  match r with
  | FNext s' => finv s' /\ lives s - 1 <= lives s' <= lives s /\ score s <= score s'
  | FOver sc => lives s = 1 /\ score s <= sc
  end.

(** What holds between the phases of a pass: the frog may stand on the
    goal row, where [best_row] may be 0. *)
Definition pinv (s : fstate) : Prop :=
  lanes_wf (lanes s) /\ 0 <= frog_col s <= COLS - 1 /\ 0 <= best_row s <= frog_row s /\ frog_row s <= ROW_START /\
  (frog_row s = ROW_GOALS \/ 1 <= best_row s) /\
  length (goals s) = 3%nat /\ forallb id (goals s) = false /\ 1 <= lives s <= 3 /\
  0 <= score s /\ score s mod 10 = 0 /\ 1 <= level s.

(** ** Constants *)

Lemma frog_consts :
  COLS `div` 2 = 4 /\ TILE `div` 2 = 4 /\ (TILE - FROG_W) `div` 2 = 1 /\ (TILE - FROG_H) `div` 2 = 1 /\
  COLS = 8 /\ TILE = 8 /\ ROW_START = 15 /\ ROW_GOALS = 0 /\ FROG_W = 6 /\ FROG_H = 6.
Proof. done. Qed.

(** Replace the constants by their values everywhere. *)
Ltac fconsts :=
  let E := fresh in
  pose proof frog_consts as E; destruct_and! E;
  repeat match goal with H : ?c = ?v |- _ => is_const c; rewrite H in *; clear H end.

(** ** Lanes *)

Lemma lanes_get_shape ls r ln :
  lanes_get ls r = Some ln -> shape_get (map lane_shape ls) r = Some (l_type ln, l_dir ln, l_speed ln).
Proof. induction ls as [|[r' ln'] ls IH]; [done|]. simpl. case_match; [by intros [= ->]|done]. Qed.

(** The pass of [move_lanes] keeps the rows, types, directions and
    speeds, and [carry_dx] is 0 or the step of one of the lanes. *)
Lemma lanes_step_fold now fr ls out c :
  exists ls' c', foldl (lanes_step now fr) (out, c) ls = (out ++ ls', c') /\
    map lane_shape ls' = map lane_shape ls /\ (c' = c \/ exists rl, rl ∈ ls /\ c' = l_dir rl.2 * l_speed rl.2).
Proof.
  revert out c. induction ls as [|[r ln] ls IH]; intros out c.
  - exists [], c. rewrite app_nil_r. auto.
  - assert (exists ln' c1, lanes_step now fr (out, c) (r, ln) = (out ++ [(r, ln')], c1) /\
              lane_shape (r, ln') = lane_shape (r, ln) /\ (c1 = c \/ c1 = l_dir ln * l_speed ln))
      as (ln' & c1 & Est & Hsh & Hc1).
    { unfold lanes_step. destruct (_ || _); [exists ln, c; auto|].
      eexists _, _. split; [reflexivity|]. split; [done|]. case_match; auto. }
    cbn [foldl]. rewrite Est. destruct (IH (out ++ [(r, ln')]) c1) as (ls' & c' & -> & Hs & Hc).
    exists ((r, ln') :: ls'), c'. rewrite <- app_assoc. split; [done|]. split; [simpl; by rewrite Hsh, Hs|].
    destruct Hc as [->|(rl & Hrl & ->)].
    + destruct Hc1 as [-> | ->]; [auto|]. right. exists (r, ln). split; [left|done].
    + right. exists rl. split; [by right|done].
Qed.

Lemma find_log_bounds c objs L R : find_log c objs = Some (L, R) -> L <= c <= R.
Proof.
  induction objs as [|[ox ow] objs IH]; [done|]. simpl.
  destruct ((_ <=? c) && (c <=? _)) eqn:E; [|done]. intros [= <- <-].
  apply andb_true_iff in E as [? ?]. zbool. lia.
Qed.

(** What [move_lanes] returns. *)
Lemma move_lanes_spec ls fc fr T :
  let '(ls', carry, drowned, lb) := move_lanes ls fc fr T in
  map lane_shape ls' = map lane_shape ls /\
  (carry = 0 \/ exists rl, rl ∈ ls /\ carry = l_dir rl.2 * l_speed rl.2) /\
  (forall L R, lb = Some (L, R) -> L <= fc * TILE + TILE `div` 2 <= R).
Proof.
  unfold move_lanes. destruct (lanes_step_fold (ticks_ms T) fr ls [] 0) as (ls' & c' & -> & Hs & Hc).
  simpl. repeat case_match; simplify_eq; (split; [done|]); (split; [done|]); intros L R HL; simplify_eq.
  eapply find_log_bounds. eassumption.
Qed.

Lemma lanes_wf_shape ls ls' : map lane_shape ls' = map lane_shape ls -> lanes_wf ls -> lanes_wf ls'.
Proof. unfold lanes_wf. by intros ->. Qed.

Lemma lanes_wf_carry ls rl : lanes_wf ls -> rl ∈ ls -> Z.abs (l_dir rl.2 * l_speed rl.2) <= 3.
Proof.
  intros [Hf _] Hrl. apply (Forall_forall _ _) with (x := lane_shape rl) in Hf; [done|].
  apply elem_of_map_iff. eauto.
Qed.

Lemma lanes_wf_start ls ln : lanes_wf ls -> lanes_get ls ROW_START = Some ln -> l_type ln = Safe.
Proof. intros [_ H] Hg%lanes_get_shape. eapply H. exact Hg. Qed.

(** ** [build_level] *)

Lemma make_lane_fields rnd k now t row dir sp per a b ws g1 g2 :
  exists objs k', make_lane rnd k now t row dir sp per a b ws g1 g2 = (mkLane t row dir sp per now objs, k').
Proof.
  unfold make_lane. destruct (moving t); [|eauto]. simpl.
  destruct (place_objs _ _ _ _ _ _ _) as [[??]?]. eauto.
Qed.

Lemma moving_types : moving Safe = false /\ moving Road = true /\ moving River = true.
Proof. done. Qed.

(** [build_level] lays out the rows 0-15 as [level_shape] at the speed
    [min(1 + level // 3, 3)]. *)
Lemma build_level_shape rnd k now level :
  map lane_shape (build_level rnd k now level).1 = level_shape (Z.min (1 + level `div` 3) 3).
Proof.
  destruct moving_types as (Es & Er & Ev). unfold build_level, safe_lane.
  repeat first
    [ match goal with |- context [make_lane ?r ?k ?n ?t ?row ?d ?sp ?p ?a ?b ?w ?g1 ?g2] =>
        destruct (make_lane_fields r k n t row d sp p a b w g1 g2) as (? & ? & ->) end
    | rewrite Er | rewrite Ev | rewrite Es
    | progress cbn [foldl level_lanes fst snd app] ].
  reflexivity.
Qed.

(** ** The invariant, phase by phase *)

Lemma build_level_wf rnd k now level : 0 <= level -> lanes_wf (build_level rnd k now level).1.
Proof.
  intros Hl. unfold lanes_wf. rewrite build_level_shape.
  assert (1 <= Z.min (1 + level `div` 3) 3 <= 3) by (pose proof (Z.div_pos level 3); lia).
  split; [repeat constructor; simpl; lia|]. intros t d sp E. simpl in E. by simplify_eq.
Qed.

Lemma finv_pinv s : finv s -> pinv s.
Proof. unfold finv, pinv. intros; destruct_and!; split_and!; auto; lia. Qed.

Lemma pinv_set_lanes s ls : map lane_shape ls = map lane_shape (lanes s) -> pinv s -> pinv (set_lanes s ls).
Proof. intros Hs (Hw & ?). split; [exact (lanes_wf_shape _ _ Hs Hw)|done]. Qed.

Lemma lose_life_inv s s' :
  pinv s -> lose_life s = FNext s' ->
  finv s' /\ lives s' = lives s - 1 /\ score s' = score s /\ frog_row s' = ROW_START.
Proof.
  unfold lose_life. case_ifs; [done|]. intros Hp [= <-]. unfold pinv in Hp. destruct_and! Hp.
  unfold finv, reset, reset_frog; simpl. fconsts. split_and!; auto; lia.
Qed.

Lemma log_carry_pinv s carry lb :
  pinv s -> pinv (log_carry s carry lb) /\ best_row (log_carry s carry lb) = best_row s /\
    lives (log_carry s carry lb) = lives s /\ score (log_carry s carry lb) = score s.
Proof.
  intros Hp. unfold log_carry. destruct (lanes_get _ _), lb as [[L R]|]; try done.
  case_bool_decide; [|done]. unfold pinv in *. destruct_and! Hp. unfold set_col; simpl.
  split_and!; auto. all: unfold clamp in *; fconsts; case_ifs; lia.
Qed.

Lemma input_move_pinv env T s :
  pinv s -> 1 <= best_row s -> pinv (input_move env T s) /\ lives (input_move env T s) = lives s /\
    score s <= score (input_move env T s).
Proof.
  intros (Hw & Hc & Hb & Hr & Hg & Hl & Hf & Hv & Hs & Hm & Hlev) Hb1. unfold input_move.
  destruct (read_move env (last_move s) T) as [lm [dx dy]].
  unfold pinv, clamp in *. fconsts. case_ifs; simpl; split_and!; auto; try lia.
  all: by rewrite Z.add_mod, Hm.
Qed.

Lemma goal_row_inv rnd T s s' :
  pinv s -> goal_row rnd T s = FNext s' ->
  finv s' /\ score s <= score s' /\ (lives s' = lives s \/ lives s' = lives s - 1 /\ frog_row s' = ROW_START).
Proof.
  intros Hp. pose proof Hp as (Hw & Hc & Hb & Hr & Hg & Hl & Hf & Hv & Hs & Hm & Hlev).
  unfold goal_row. destruct (frog_row s =? ROW_GOALS) eqn:E0; zbool.
  2: { intros [= <-]. split_and!; try lia. unfold finv. split_and!; auto; lia. }
  assert (Hlose : lose_life s = FNext s' -> finv s' /\ score s <= score s' /\
            (lives s' = lives s \/ lives s' = lives s - 1 /\ frog_row s' = ROW_START)).
  { intros Hd. destruct (lose_life_inv s s' Hp Hd) as (? & ? & ? & ?). split_and!; auto; lia. }
  case_bool_decide; [|exact Hlose]. destruct (negb _) eqn:Eg; [|exact Hlose].
  set (g := <[_ := true]> (goals s)).
  assert (length g = 3%nat) by (subst g; by rewrite length_insert).
  assert ((score s + 200) mod 10 = 0) by (by rewrite Z.add_mod, Hm).
  destruct (forallb id g) eqn:Ea.
  - destruct (build_level _ _ _ _) as [ls k] eqn:Eb. intros [= <-].
    match type of Eb with build_level ?a ?b ?c ?d = _ =>
      pose proof (build_level_wf a b c d ltac:(lia)) as Hw'; rewrite Eb in Hw' end.
    unfold finv, reset, reset_frog; simpl. fconsts. split_and!; auto; lia.
  - intros [= <-]. unfold finv, reset, reset_frog; simpl. fconsts. split_and!; auto; lia.
Qed.

Lemma road_check_inv s s' :
  finv s -> road_check s = FNext s' ->
  finv s' /\ score s' = score s /\ (lives s' = lives s \/ lives s' = lives s - 1).
Proof.
  intros Hi. unfold road_check. destruct (lanes_get _ _); [|intros [= <-]; auto].
  destruct (_ && _); [|intros [= <-]; auto]. intros Hd.
  destruct (lose_life_inv s s' (finv_pinv s Hi) Hd) as (? & ? & ? & ?). auto.
Qed.

(** The start row is safe: no road collision there. *)
Lemma road_check_start s : finv s -> frog_row s = ROW_START -> road_check s = FNext s.
Proof.
  intros [Hw _] Hr. unfold road_check. rewrite Hr. destruct (lanes_get _ _) as [ln|] eqn:E; [|done].
  rewrite (lanes_wf_start _ _ Hw E). done.
Qed.

Lemma lose_life_over s sc : pinv s -> lose_life s = FOver sc -> lives s = 1 /\ sc = score s.
Proof. intros Hp. unfold lose_life. case_ifs; [|done]. intros [= <-]. destruct Hp; destruct_and!. lia. Qed.

Lemma goal_row_over rnd T s sc : pinv s -> goal_row rnd T s = FOver sc -> lives s = 1 /\ sc = score s.
Proof.
  intros Hp. unfold goal_row. destruct (_ =? _); [|done].
  case_bool_decide; [|by apply lose_life_over]. destruct (negb _); [|by apply lose_life_over].
  destruct (forallb _ _); [by destruct (build_level _ _ _ _)|done].
Qed.

Lemma road_check_over s sc : finv s -> road_check s = FOver sc -> lives s = 1 /\ sc = score s.
Proof.
  intros Hi. unfold road_check. destruct (lanes_get _ _); [|done].
  destruct (_ && _); [|done]. apply lose_life_over, finv_pinv, Hi.
Qed.

(** One pass from a state of the invariant ends as [tick_post] says. *)
Lemma ftick_post env rnd T1 T2 s : finv s -> tick_post s (ftick env rnd T1 T2 s).
Proof.
  intros Hi. pose proof (finv_pinv s Hi) as Hp. unfold ftick.
  pose proof (move_lanes_spec (lanes s) (frog_col s) (frog_row s) T1) as Hm.
  destruct (move_lanes _ _ _ _) as [[[ls carry] drowned] lb]. destruct Hm as (Hs & _ & _).
  pose proof (pinv_set_lanes s ls Hs Hp) as Hp1.
  destruct drowned.
  { destruct (lose_life _) as [s'|sc] eqn:Ed; simpl.
    - destruct (lose_life_inv _ _ Hp1 Ed) as (? & ? & ? & ?). simpl in *. split_and!; auto; lia.
    - destruct (lose_life_over _ _ Hp1 Ed) as [? ->]. simpl in *. lia. }
  destruct (log_carry_pinv (set_lanes s ls) carry lb Hp1) as (Hp2 & Eb & El & Es). simpl in Eb, El, Es.
  destruct (input_move_pinv env T2 _ Hp2 ltac:(destruct Hi; destruct_and!; lia)) as (Hp3 & El3 & Es3).
  destruct (goal_row _ _ _) as [s4|sc] eqn:Eg; simpl.
  - destruct (goal_row_inv _ _ _ _ Hp3 Eg) as (Hi4 & Es4 & Hl4).
    destruct Hl4 as [Hl4|[Hl4 Hr4]].
    + destruct (road_check s4) as [s5|sc] eqn:Er; simpl.
      * destruct (road_check_inv _ _ Hi4 Er) as (? & ? & ?). split_and!; auto; lia.
      * destruct (road_check_over _ _ Hi4 Er) as [? ->]. lia.
    + rewrite (road_check_start s4 Hi4 Hr4). simpl. split_and!; auto; lia.
  - destruct (goal_row_over _ _ _ _ Hp3 Eg) as [? ->]. lia.
Qed.

Lemma fstart_inv rnd k T0 : finv (fstart rnd k T0).
Proof.
  unfold fstart. pose proof (build_level_wf rnd k (ticks_ms T0) 1 ltac:(lia)) as Hw.
  destruct (build_level _ _ _ _) as [ls k']. unfold finv, reset_frog; simpl. fconsts. split_and!; auto; lia.
Qed.

Lemma freach_inv s : freach s -> finv s.
Proof.
  induction 1 as [|s env rnd T1 T2 s' _ IH E]; [apply fstart_inv|].
  pose proof (ftick_post env rnd T1 T2 s IH) as Hp. rewrite E in Hp. apply Hp.
Qed.

(** ** The log carry *)

(** With a log under the frog's centre and a carry of at most three
    pixels, the centre stays in the frog's own column. *)
Lemma log_carry_id s carry L R :
  Z.abs carry <= 3 -> 0 <= frog_col s <= COLS - 1 -> L <= frog_col s * TILE + TILE `div` 2 <= R ->
  log_carry s carry (Some (L, R)) = s.
Proof.
  intros Hc Hcol Hb. unfold log_carry. destruct (lanes_get _ _) as [ln|]; [|done].
  case_bool_decide; [|done]. unfold clamp, COLS, TILE, WIDTH in *. simpl in *.
  destruct s as [? fc ????????]; simpl in *. unfold set_col; simpl. f_equal.
  case_ifs; Z.div_mod_to_equations; lia.
Qed.

(** C13: the sticky log carry of [play_once] never moves the frog: in
    every state of the loop, whatever the time, the carry block leaves the
    state [move_lanes] produced as it was.  The carry of at most three
    pixels is lost when the centre goes back to a column, so a frog on a
    log stays in its column until the log leaves it and it drowns. *)
Theorem log_carry_inert s T :
  freach s ->
  let '(ls, carry, drowned, lb) := move_lanes (lanes s) (frog_col s) (frog_row s) T in
  log_carry (set_lanes s ls) carry lb = set_lanes s ls.
Proof.
  intros Hs%freach_inv. pose proof (move_lanes_spec (lanes s) (frog_col s) (frog_row s) T) as Hm.
  destruct (move_lanes _ _ _ _) as [[[ls carry] drowned] [[L R]|]]; [|unfold log_carry; by destruct (lanes_get _ _)]. simpl.
  destruct Hm as (_ & Hc & Hb). destruct Hs as (Hw & Hcol & _).
  apply log_carry_id; [|done|exact (Hb L R eq_refl)].
  destruct Hc as [->|(rl & Hrl & ->)]; [done|exact (lanes_wf_carry _ _ Hw Hrl)].
Qed.

(** C12: one pass of the loop of [play_once] from any state the game
    reaches, whatever the buttons, the times and the random draws, ends
    in a state of the invariant (frog on the board below the goal row,
    goals not all filled, one to three lives, a score in tens) with at
    most one life lost and the score kept or raised, or ends the game on
    the last life with the score so far. *)
Theorem frogger_reachable_safe s env rnd T1 T2 : freach s -> tick_post s (ftick env rnd T1 T2 s).
Proof. intros Hs. apply ftick_post, freach_inv, Hs. Qed.

(** [check_road_collision] reports a hit exactly when a car of the
    lane overlaps one of the six columns of the frog: the rows of a car
    always meet the frog's rows. *)
Theorem check_road_collision_iff ln c r :
  check_road_collision ln c r = true <->
  exists ox ow, (ox, ow) ∈ l_objs ln /\ obj_x ox < c * TILE + 7 /\ c * TILE + 1 < obj_x ox + ow.
Proof.
  unfold check_road_collision, frog_pixel_pos. fconsts. rewrite existsb_exists.
  split.
  - intros ([ox ow] & Hin%list_elem_of_In & Ho). unfold rects_overlap in Ho.
    repeat rewrite andb_true_iff in Ho. destruct_and! Ho. zbool. exists ox, ow. split_and!; [done|lia|lia].
  - intros (ox & ow & Hin & ? & ?). exists (ox, ow). split; [by apply list_elem_of_In|].
    unfold rects_overlap. repeat rewrite andb_true_iff. split_and!; apply Z.ltb_lt || apply Z.gtb_lt; lia.
Qed.


(** ** Examples *)

Lemma frogger_reachable_safe_witness :
  freach (fstart (fun k => Z.of_nat k * 37 mod 101) 0 0) /\
  tick_post (fstart (fun k => Z.of_nat k * 37 mod 101) 0 0)
    (ftick (fun _ => mkLevels 0 1 1 1) (fun k => Z.of_nat k * 37 mod 101) 500 500
       (fstart (fun k => Z.of_nat k * 37 mod 101) 0 0)).
Proof.
  assert (H : freach (fstart (fun k => Z.of_nat k * 37 mod 101) 0 0)) by constructor.
  split; [exact H|exact (frogger_reachable_safe _ _ _ _ _ H)].
Defined.

Lemma log_carry_inert_witness :
  freach (fstart (fun k => Z.of_nat k * 37 mod 101) 0 0) /\
  let s := fstart (fun k => Z.of_nat k * 37 mod 101) 0 0 in
  let '(ls, carry, drowned, lb) := move_lanes (lanes s) (frog_col s) (frog_row s) 300 in
  log_carry (set_lanes s ls) carry lb = set_lanes s ls.
Proof.
  assert (H : freach (fstart (fun k => Z.of_nat k * 37 mod 101) 0 0)) by constructor.
  split; [exact H|exact (log_carry_inert _ 300 H)].
Defined.

End Frogger.
