(* ===== verification/FroggerText.v ===== *)
(** * Frogger's text screens ([src/frogger.py], lines 90-185)

    [_wrap_to_8_chars] breaks a message into lines of at most
    [max_chars] characters, and [show_centered_portrait] and
    [show_centered_sideways] place the lines: each line is one
    [framebuf.text] call (8x8 pixels a character), modelled as the call's
    arguments [(text, x, y)].  A Python [str] is its list of code points
    ([Z]); [str.strip()] is MicroPython's, which strips the same six
    whitespace characters as [bytes.strip()], so it is [Launcher.strip].

    Theorems: every line of [_wrap_to_8_chars] has at most [max_chars]
    characters and the lines keep every character of the message but the
    spaces, in order; the portrait screen puts every line inside the 64x128
    surface when the wrapped message has at most 13 lines, and the
    sideways screen every line inside the 128x64 landscape buffer when
    there are at most six. *)

From Stdlib Require Import Ascii String.
From stdpp Require Import list.
From S2P Require Import Prelude Launcher.

Local Open Scope Z_scope.

Module FroggerText.

Definition SP : Z := 32.
Definition NL : Z := 10.

(** [s.split(" ")]; [cur] is the word being read, reversed. *)
Fixpoint split_sp (l : list Z) (cur : list Z) : list (list Z) :=
  match l with
  | [] => [reverse cur]
  | c :: l' => if c =? SP then reverse cur :: split_sp l' [] else split_sp l' (c :: cur)
  end.

(** [[w[i:i+m] for i in range(0, len(w), m)]], with fuel [length w]. *)
Fixpoint chunks_fuel (fuel m : nat) (w : list Z) : list (list Z) :=
  match fuel, w with
  | O, _ | _, [] => []
  | S f, _ => take m w :: chunks_fuel f m (drop m w)
  end.

Definition chunks (m : nat) (w : list Z) : list (list Z) := chunks_fuel (length w) m w.

(** One pass of [for w in words] of [_wrap_to_8_chars]: [out] and [line]. *)
Definition wrap_step (m : nat) (acc : list (list Z) * list Z) (w : list Z) : list (list Z) * list Z :=
  let '(out, line) := acc in
  match w with
  | [] => (out, line)
  | _ =>
      let flush := match line with [] => out | _ => out ++ [line] end in
      if (m <? length w)%nat then (flush ++ chunks m w, [])
      else
        let trial := match line with [] => w | _ => line ++ [SP] ++ w end in
        if (length trial <=? m)%nat then (out, trial) else (flush, w)
  end.

(** [str(s).replace("\n", " ").strip()]. *)
Definition wrap_prep (s : list Z) : list Z := Launcher.strip (map (fun c => if c =? NL then SP else c) s).

(** [_wrap_to_8_chars(s, max_chars)]. *)
Definition wrap_to_8_chars (s : list Z) (m : nat) : list (list Z) :=
  let s1 := wrap_prep s in
  if (length s1 <=? m)%nat then [s1]
  else
    let '(out, line) := foldl (wrap_step m) ([], []) (split_sp s1 []) in
    match line with [] => out | _ => out ++ [line] end.

(** The [wrapped] list of [show_centered_portrait(lines)]. *)
Definition portrait_lines (lines : list (list Z)) : list (list Z) :=
  flat_map (fun t => match t with [] => [[]] | _ => wrap_to_8_chars t 8 end) lines.

(** The [oled.text(t, x, y, 1)] calls of [show_centered_portrait(lines)]. *)
Definition portrait_calls (lines : list (list Z)) : list (list Z * Z * Z) :=
  let wrapped := portrait_lines lines in
  let line_h := 10 in
  let total_h := Z.of_nat (length wrapped) * line_h - 2 in
  let y0 := Z.max ((128 - total_h) `div` 2) 0 in
  imap (fun i t => (t, Z.max ((64 - Z.of_nat (length t) * 8) `div` 2) 0, y0 + Z.of_nat i * line_h)) wrapped.

(** The [fb.text(t, x, y + i * line_h, 1)] calls of
    [show_centered_sideways(lines)] on the 128x64 landscape buffer. *)
Definition sideways_calls (lines : list (list Z)) : list (list Z * Z * Z) :=
  let line_h := 10 in
  let total_h := Z.of_nat (length lines) * line_h - 2 in
  let y := Z.max ((64 - total_h) `div` 2) 0 in
  imap (fun i t =>
    let t' := if (16 <? length t)%nat then take 16 t else t in
    (t', Z.max ((128 - Z.of_nat (length t') * 8) `div` 2) 0, y + Z.of_nat i * line_h)) lines.

(** A string literal of the source as its code points. *)
Definition py_str (s : String.string) : list Z := map (fun a => Z.of_nat (Ascii.nat_of_ascii a)) (list_ascii_of_string s).

(** The splash text of [show_splash()] and the [GAME OVER] lines for a
    score of 1230. *)
Definition splash_lines : list (list Z) := map py_str ["FROGGER"; ""; "UP: Start"; "DOWN: Quit"]%string.
Definition game_over_lines : list (list Z) :=
  map py_str ["GAME OVER"; "SCORE 1230"; ""; "UP: RETRY"; "DOWN: QUIT"]%string.

(** The characters of a message but its spaces. *)
Definition nsp (l : list Z) : list Z := filter (fun c => c <> SP) l.

(** A text call whose 8x8 characters all land in a [w] x [h] surface. *)
Definition call_fits (w h : Z) (c : list Z * Z * Z) : Prop :=
  0 <= c.1.2 /\ c.1.2 + Z.of_nat (length c.1.1) * 8 <= w /\ 0 <= c.2 /\ c.2 + 8 <= h.

(** ** [_wrap_to_8_chars] *)

Lemma chunks_fuel_short f m w : Forall (fun c => (length c <= m)%nat) (chunks_fuel f m w).
Proof.
  revert w. induction f as [|f IH]; intros [|x w]; simpl; try constructor; [|apply IH].
  rewrite length_take. lia.
Qed.

Lemma concat_chunks_fuel f m w : (1 <= m)%nat -> (length w <= f)%nat -> concat (chunks_fuel f m w) = w.
Proof.
  intros Hm. revert w. induction f as [|f IH]; intros [|x w] Hl; simpl in *; try done; [lia|].
  rewrite IH; [apply (take_drop m (x :: w))|]. rewrite length_drop. simpl. lia.
Qed.

Lemma nsp_app l1 l2 : nsp (l1 ++ l2) = nsp l1 ++ nsp l2.
Proof. apply filter_app. Qed.

Lemma nsp_sp l : nsp (SP :: l) = nsp l.
Proof. unfold nsp. rewrite filter_cons_False; [done|tauto]. Qed.

Lemma nsp_split_sp l cur : nsp (concat (split_sp l cur)) = nsp (reverse cur ++ l).
Proof.
  revert cur. induction l as [|c l IH]; intros cur; simpl.
  - by rewrite !app_nil_r.
  - destruct (c =? SP) eqn:E; zbool.
    + subst c. rewrite concat_cons, !nsp_app, IH, nsp_sp. done.
    + rewrite IH, reverse_cons, <- app_assoc. done.
Qed.

(** One pass of the loop keeps the lines short and the characters. *)
Lemma wrap_step_spec m acc w :
  (1 <= m)%nat -> Forall (fun c => (length c <= m)%nat) acc.1 -> (length acc.2 <= m)%nat ->
  Forall (fun c => (length c <= m)%nat) (wrap_step m acc w).1 /\ (length (wrap_step m acc w).2 <= m)%nat /\
  nsp (concat (wrap_step m acc w).1 ++ (wrap_step m acc w).2) = nsp (concat acc.1 ++ acc.2) ++ nsp w.
Proof.
  destruct acc as [out line]. simpl. intros Hm Hout Hline.
  assert (Hflush : Forall (fun c => (length c <= m)%nat) (match line with [] => out | _ => out ++ [line] end) /\
            concat (match line with [] => out | _ => out ++ [line] end) = concat out ++ line).
  { destruct line; [by rewrite app_nil_r|]. rewrite concat_app. simpl. rewrite app_nil_r.
    split; [apply Forall_app; split; [done|by constructor]|done]. }
  destruct Hflush as [Hf Hc]. destruct w as [|x w]; [rewrite !app_nil_r; auto|].
  set (w' := x :: w). destruct (m <? length w')%nat eqn:E1; [apply Nat.ltb_lt in E1|apply Nat.ltb_ge in E1].
  - simpl. split_and!; [apply Forall_app; split; [done|apply chunks_fuel_short]|lia|].
    unfold chunks. rewrite concat_app, concat_chunks_fuel, Hc, app_nil_r, !nsp_app by lia. done.
  - destruct (length _ <=? m)%nat eqn:E2; [apply Nat.leb_le in E2|apply Nat.leb_gt in E2]; simpl.
    + split_and!; [done|done|]. destruct line; simpl; rewrite ?app_nil_r, ?nsp_app; [done|].
      change (z :: line ++ SP :: w') with ((z :: line) ++ SP :: w'). rewrite nsp_app, nsp_sp, app_assoc. done.
    + split_and!; [done|done|]. rewrite Hc, !nsp_app. done.
Qed.

Lemma wrap_fold_spec m ws acc :
  (1 <= m)%nat -> Forall (fun c => (length c <= m)%nat) acc.1 -> (length acc.2 <= m)%nat ->
  Forall (fun c => (length c <= m)%nat) (foldl (wrap_step m) acc ws).1 /\
  (length (foldl (wrap_step m) acc ws).2 <= m)%nat /\
  nsp (concat (foldl (wrap_step m) acc ws).1 ++ (foldl (wrap_step m) acc ws).2) = nsp (concat acc.1 ++ acc.2) ++ nsp (concat ws).
Proof.
  revert acc. induction ws as [|w ws IH]; intros acc Hm Ho Hl; simpl; [rewrite !app_nil_r; auto|].
  destruct (wrap_step_spec m acc w Hm Ho Hl) as (Ho' & Hl' & Hn').
  destruct (IH _ Hm Ho' Hl') as (? & ? & ->). rewrite Hn', <- app_assoc, <- nsp_app. auto.
Qed.

Lemma wrap_spec s m :
  (1 <= m)%nat ->
  Forall (fun c => (length c <= m)%nat) (wrap_to_8_chars s m) /\ nsp (concat (wrap_to_8_chars s m)) = nsp (wrap_prep s).
Proof.
  intros Hm. unfold wrap_to_8_chars. destruct (length (wrap_prep s) <=? m)%nat eqn:E.
  { apply Nat.leb_le in E. simpl. rewrite app_nil_r. auto. }
  destruct (wrap_fold_spec m (split_sp (wrap_prep s) []) ([], []) Hm ltac:(constructor) ltac:(simpl; lia))
    as (Ho & Hl & Hn).
  destruct (foldl _ _ _) as [out line]. simpl in *. rewrite nsp_split_sp in Hn. simpl in Hn.
  destruct line as [|x line].
  - rewrite app_nil_r in Hn. auto.
  - split; [apply Forall_app; split; [done|by constructor]|]. rewrite concat_app. simpl. rewrite app_nil_r. done.
Qed.

(** ** Where the lines go *)

(** A column of text calls, one every 10 rows from [y0], fits a [w] x [h]
    surface exactly when its first and last lines do. *)
Lemma column_fits w h y0 (g : list Z -> list Z) (xf : list Z -> Z) ts :
  (forall t, t ∈ ts -> 0 <= xf (g t) /\ xf (g t) + Z.of_nat (length (g t)) * 8 <= w) ->
  Forall (call_fits w h) (imap (fun i t => (g t, xf (g t), y0 + Z.of_nat i * 10)) ts) <->
  ts = [] \/ (0 <= y0 /\ y0 + (Z.of_nat (length ts) - 1) * 10 + 8 <= h).
Proof.
  intros Hx. rewrite Forall_lookup. split.
  - intros Hf. destruct ts as [|t ts']; [by left|right].
    destruct (lookup_lt_is_Some_2 (t :: ts') (length ts')) as [u Hu]; [simpl; lia|].
    pose proof (Hf 0%nat (g t, xf (g t), y0 + Z.of_nat 0 * 10)) as H0.
    pose proof (Hf (length ts') (g u, xf (g u), y0 + Z.of_nat (length ts') * 10)) as Hn.
    rewrite list_lookup_imap in H0, Hn. rewrite Hu in Hn. specialize (H0 eq_refl). specialize (Hn eq_refl).
    unfold call_fits in *; simpl in *. lia.
  - intros Hc i c. rewrite list_lookup_imap. destruct (ts !! i) as [t|] eqn:Ei; [|done]. intros [= <-].
    destruct Hc as [->|[Hy0 Hyn]]; [done|].
    pose proof (lookup_lt_Some _ _ _ Ei). pose proof (Hx t (list_elem_of_lookup_2 _ _ _ Ei)).
    unfold call_fits; simpl. lia.
Qed.

(** A line of at most [n] characters centred in [8 * n] pixels. *)
Lemma centred_x w n (t : list Z) :
  (length t <= n)%nat -> w = Z.of_nat n * 8 ->
  0 <= Z.max ((w - Z.of_nat (length t) * 8) `div` 2) 0 /\
  Z.max ((w - Z.of_nat (length t) * 8) `div` 2) 0 + Z.of_nat (length t) * 8 <= w.
Proof. intros Hl ->. Z.div_mod_to_equations. lia. Qed.

Lemma portrait_lines_short lines : Forall (fun t => (length t <= 8)%nat) (portrait_lines lines).
Proof.
  apply Forall_forall. intros t Ht. apply elem_of_flat_map in Ht as (u & _ & Ht).
  destruct u as [|x u]; [apply list_elem_of_singleton in Ht as ->; simpl; lia|].
  destruct (wrap_spec (x :: u) 8 ltac:(lia)) as [Hw _]. exact (proj1 (Forall_forall _ _) Hw t Ht).
Qed.

(** C28: [_wrap_to_8_chars(s, max_chars)], for [max_chars >= 1], returns
    lines of at most [max_chars] characters which, spaces aside, hold the
    characters of the stripped message in order: no character is lost,
    long words being cut into pieces. *)
Theorem wrap_to_8_chars_spec s m :
  (1 <= m)%nat ->
  Forall (fun c => (length c <= m)%nat) (wrap_to_8_chars s m) /\ nsp (concat (wrap_to_8_chars s m)) = nsp (wrap_prep s).
Proof. apply wrap_spec. Qed.

Lemma wrap_to_8_chars_spec_witness :
  (1 <= 8)%nat /\
  Forall (fun c => (length c <= 8)%nat) (wrap_to_8_chars (py_str "DOWN: Quit") 8) /\
  nsp (concat (wrap_to_8_chars (py_str "DOWN: Quit") 8)) = nsp (wrap_prep (py_str "DOWN: Quit")).
Proof. split; [lia|]. apply wrap_to_8_chars_spec. lia. Defined.

(** [show_centered_portrait(lines)] draws every line inside the 64x128
    surface exactly when the message wraps to at most 13 lines; with more,
    the block starts at row 0 and its last lines run off the bottom. *)
Theorem portrait_fits_iff lines :
  Forall (call_fits 64 128) (portrait_calls lines) <-> (length (portrait_lines lines) <= 13)%nat.
Proof.
  unfold portrait_calls. rewrite (column_fits 64 128 _ id (fun t => Z.max ((64 - Z.of_nat (length t) * 8) `div` 2) 0)).
  - destruct (portrait_lines lines) as [|t ts]; [simpl; split; auto; lia|].
    simpl length. split; [intros [?|[? ?]]; [done|] | intros ?; right]; Z.div_mod_to_equations; lia.
  - intros t Ht. apply (centred_x _ 8); [|done]. exact (proj1 (Forall_forall _ _) (portrait_lines_short lines) t Ht).
Qed.

(** [show_centered_sideways(lines)] cuts every line to 16 characters
    and draws every line inside the 128x64 landscape buffer exactly when
    there are at most six lines, as for the five lines of the game-over
    screen. *)
Theorem sideways_fits_iff lines :
  Forall (call_fits 128 64) (sideways_calls lines) <-> (length lines <= 6)%nat.
Proof.
  unfold sideways_calls.
  rewrite (column_fits 128 64 _ (fun t => if (16 <? length t)%nat then take 16 t else t)
             (fun t => Z.max ((128 - Z.of_nat (length t) * 8) `div` 2) 0)).
  - destruct lines as [|t ts]; [simpl; split; auto; lia|].
    simpl length. split; [intros [?|[? ?]]; [done|] | intros ?; right]; Z.div_mod_to_equations; lia.
  - intros t _. apply (centred_x _ 16); [|done]. destruct (16 <? length t)%nat eqn:E; [|apply Nat.ltb_ge in E; lia].
    rewrite length_take. lia.
Qed.

End FroggerText.
