(* ===== verification/FroggerDraw.v ===== *)
(** * What Frogger draws ([src/frogger.py], [draw_frog] and [draw_game])

    [draw_game(lanes, frog_col, frog_row, goals_filled, lives)] draws the
    goal row (the underline, a [rect] per goal column and a [fill_rect] in
    the filled ones), every lane but the goal, HUD and start rows (the
    river's dotted line, a car as a [fill_rect], a log as a [rect] with a
    stripe), the HUD line with [L:%d], and the frog at [frog_pixel_pos];
    then [oled.show()], the driver's.  The calls are [Canvas]'s.

    The theorems show that the frog's pixels lie in the box the road test
    uses, that the frog of every reachable state is drawn on the screen,
    and that [check_road_collision] reports a hit exactly when a drawn car
    and the drawn frog share a pixel. *)

From Stdlib Require Import String.
From stdpp Require Import list strings pretty.
From S2P Require Import Prelude Input Canvas Frogger.

Local Open Scope Z_scope.

Module FroggerDraw.
Import Frogger.

Definition draw_frog (x y : Z) : list fbcall :=
  [FillRect x y FROG_W FROG_H 1; Pixel (x + 1) (y + 1) 0; Pixel (x + FROG_W - 2) (y + 1) 0].

(** [for i, gc in enumerate(GOAL_COLS)]: the goal box, filled when
    [goals_filled[i]]. *)
Definition goal_calls (goals_filled : list bool) : list fbcall :=
  concat (imap (fun (i : nat) (gc : Z) => let gx := gc * TILE in
    Rect (gx + 1) 1 (TILE - 2) (TILE - 2) 1 ::
    (if (goals_filled !!! i : bool) then [FillRect (gx + 2) 2 (TILE - 4) (TILE - 4) 1] else [])) GOAL_COLS).

(** The body of [for row, lane in lanes.items()]. *)
Definition lane_calls (row : Z) (ln : lane) : list fbcall :=
  if (row =? ROW_GOALS) || (row =? ROW_HUD) || (row =? ROW_START) then [] else
  let y := row * TILE in
  (if bool_decide (l_type ln = River) then map (fun x => Pixel x (y + TILE - 2) 1) (zrange_step 0 WIDTH 4) else []) ++
  (if moving (l_type ln) then
     flat_map (fun '(ox, ow) => let x := obj_x ox in
       if bool_decide (l_type ln = Road) then [FillRect x (y + 2) ow (TILE - 4) 1]
       else [Rect x (y + 2) ow (TILE - 4) 1; HLine (x + 2) (y + 4) (Z.max 0 (ow - 4)) 1]) (l_objs ln)
   else []).

Definition frog_calls (frog_col frog_row : Z) : list fbcall :=
  let '(fx, fy) := frog_pixel_pos frog_col frog_row in draw_frog fx fy.

Definition draw_game (lanes : list (Z * lane)) (frog_col frog_row : Z) (goals_filled : list bool) (lives : Z)
    : list fbcall :=
  [Fill 0; HLine 0 (TILE - 1) WIDTH 1] ++ goal_calls goals_filled ++
  flat_map (fun '(row, ln) => lane_calls row ln) lanes ++
  (let hud_y := ROW_HUD * TILE + 1 in
   [HLine 0 (hud_y - 1) WIDTH 1; Text (String.append "L:" (pretty lives)) 0 hud_y 1]) ++
  frog_calls frog_col frog_row.

(** The frame a state of the loop draws. *)
Definition frame (s : fstate) : list fbcall :=
  draw_game (lanes s) (frog_col s) (frog_row s) (goals s) (lives s).

(** ** The frog and the cars *)

Lemma draw_frog_in x y p : p ∈ pixels_of (draw_frog x y) -> in_box (x, y, FROG_W, FROG_H) p.
Proof. revert p. apply calls_in. unfold draw_frog, FROG_W, FROG_H. call_in. Qed.

(** The frog's pixels are exactly its box: the eyes are pixels of it. *)
Lemma frog_calls_box c r p :
  p ∈ pixels_of (frog_calls c r) <-> in_box ((frog_pixel_pos c r).1, (frog_pixel_pos c r).2, FROG_W, FROG_H) p.
Proof.
  unfold frog_calls. destruct (frog_pixel_pos c r) as [fx fy]. simpl. split; [apply draw_frog_in|].
  intros Hp. unfold pixels_of. simpl. apply elem_of_app. left. destruct p. by apply elem_of_rect_pixels.
Qed.

(** On a road row that is drawn, the lane's pixels are those of its
    cars' boxes, the boxes [check_road_collision] tests. *)
Lemma road_lane_pixels r ln p :
  l_type ln = Road -> r <> ROW_GOALS -> r <> ROW_HUD -> r <> ROW_START ->
  p ∈ pixels_of (lane_calls r ln) <->
  exists ox ow, (ox, ow) ∈ l_objs ln /\ in_box (obj_x ox, r * TILE + 2, ow, TILE - 4) p.
Proof.
  intros Ht H0 H14 H15. unfold lane_calls, ROW_GOALS, ROW_HUD, ROW_START in *.
  replace ((r =? 0) || (r =? 14) || (r =? 15)) with false by (symmetry; zbool; lia).
  rewrite Ht. cbv zeta. rewrite bool_decide_false by done. simpl.
  rewrite pixels_of_flat_map. split.
  - intros ([ox ow] & Hin & Hp). exists ox, ow. split; [done|].
    unfold pixels_of in Hp. simpl in Hp. rewrite app_nil_r in Hp. destruct p. by apply elem_of_rect_pixels in Hp.
  - intros (ox & ow & Hin & Hp). exists (ox, ow). split; [done|].
    unfold pixels_of. simpl. rewrite app_nil_r. destruct p. by apply elem_of_rect_pixels.
Qed.

(** C36: On a drawn road row, with cars of positive width,
    [check_road_collision] reports a hit exactly when a car [draw_game]
    draws and the frog it draws share a pixel: what the player sees
    colliding is what the game counts. *)
Theorem road_hit_iff_drawn_overlap ln c r :
  l_type ln = Road -> r <> ROW_GOALS -> r <> ROW_HUD -> r <> ROW_START ->
  Forall (fun o => 0 < o.2) (l_objs ln) ->
  check_road_collision ln c r = true <->
  exists p, p ∈ pixels_of (lane_calls r ln) /\ p ∈ pixels_of (frog_calls c r).
Proof.
  intros Ht H0 H14 H15 Hw. rewrite check_road_collision_iff.
  setoid_rewrite road_lane_pixels; [|done..]. setoid_rewrite frog_calls_box.
  unfold frog_pixel_pos, in_box, FROG_W, FROG_H, TILE. change ((8 - 6) `div` 2) with 1. simpl. split.
  - intros (ox & ow & Hin & H1 & H2). pose proof (proj1 (Forall_forall _ _) Hw _ Hin) as Hp. simpl in Hp.
    exists (Z.max (obj_x ox) (c * 8 + 1), r * 8 + 2). simpl. split; [exists ox, ow|]; split_and!; try done; lia.
  - intros ([px py] & (ox & ow & Hin & Hb) & Hf). simpl in *. exists ox, ow. unfold TILE. split_and!; [done|lia|lia].
Qed.

Lemma road_hit_iff_drawn_overlap_witness :
  let ln := mkLane Road 5 1 1 200 0 [(40, 10)] in
  l_type ln = Road /\ 5 <> ROW_GOALS /\ 5 <> ROW_HUD /\ 5 <> ROW_START /\ Forall (fun o => 0 < o.2) (l_objs ln) /\
  check_road_collision ln 0 5 = true /\
  exists p, p ∈ pixels_of (lane_calls 5 ln) /\ p ∈ pixels_of (frog_calls 0 5).
Proof.
  cbv zeta. assert (Hw : Forall (fun o : Z * Z => 0 < o.2) (l_objs (mkLane Road 5 1 1 200 0 [(40, 10)])))
    by (repeat constructor; simpl; lia).
  assert (Hc : check_road_collision (mkLane Road 5 1 1 200 0 [(40, 10)]) 0 5 = true) by reflexivity.
  split_and!; [reflexivity|unfold ROW_GOALS; lia|unfold ROW_HUD; lia|unfold ROW_START; lia|exact Hw|exact Hc|].
  apply (road_hit_iff_drawn_overlap _ 0 5); [reflexivity|unfold ROW_GOALS; lia|unfold ROW_HUD; lia|unfold ROW_START; lia|exact Hw|exact Hc].
Defined.

(** Every frog a reachable state draws lies on the 64 x 128 screen. *)
Lemma reachable_frog_on_screen s p :
  freach s -> p ∈ pixels_of (frog_calls (frog_col s) (frog_row s)) -> in_box (0, 0, WIDTH, HEIGHT) p.
Proof.
  intros (_ & Hc & Hb & Hr & _)%freach_inv. rewrite frog_calls_box. destruct p as [px py].
  unfold frog_pixel_pos, in_box, COLS, ROW_START, FROG_W, FROG_H, TILE, WIDTH, HEIGHT in *.
  change (64 `div` 8) with 8 in *. change ((8 - 6) `div` 2) with 1. simpl. lia.
Qed.

End FroggerDraw.
