(* ===== verification/Splash.v ===== *)
(** * The title images of the sideways games ([blit_pbm], [show_title],
    [show_splash])

    Asteroids, Donkey Kong, Galaga and Frogger open with a P4 image:
    [blit_pbm(filename)] reads the magic line, skips comment lines, reads
    the size line [w h], takes the rest of the file as the raster, wraps
    it in a [w] x [h] MONO_HLSB [FrameBuffer] and turns it a quarter into
    the 64 x 128 portrait buffer, [(xx, yy)] to [(63 - yy, xx)].  The
    Asteroids, Donkey Kong and Galaga copies unpack [w, h = [int(x) for x
    in line.split()]]; Frogger's indexes [parts[0]] and [parts[1]]
    ([unpack]).  [show_title]/[show_splash] catch any exception and draw a
    text screen instead; [start_sequence] is the opening of [play_once]
    around it (wait for release, title, wait, UP or DOWN).  A file is its
    bytes, [None] when it is missing
    ([open] raises [OSError]); the byte helpers are the launcher's.  The
    [FrameBuffer] constructor raises [ValueError] on a size below 1 or
    above 65535 or a buffer shorter than [h * ((w + 7) // 8)] bytes
    (MicroPython's [framebuf], modelled from its documentation).

    The theorems show that the comment loop ends within the file, that
    the title screen of a file [pbm_encode] writes is the image turned a
    quarter (its [w] x [h] part that fits), and that the copies of
    [blit_pbm] disagree on size lines with other than two numbers. *)

From Stdlib Require Import String.
From stdpp Require Import list strings.
From S2P Require Import Prelude Framebuf Rotate Input Launcher Canvas TextScreens FroggerText.

Local Open Scope Z_scope.

Module Splash.
Import Launcher.

(** How the size line is taken apart. *)
Inductive unpack := Exact | Index.

(** [line.startswith(b"#")]. *)
Definition starts_hash (line : list Z) : bool :=
  match line with b :: _ => b =? 35 | [] => false end.

(** [while line.startswith(b"#"): line = f.readline()]: the first line
    that is no comment, and the rest of the file. *)
Fixpoint skip_comments (fuel : nat) (line f : list Z) : list Z * list Z :=
  match fuel with
  | O => (line, f)
  | S n => if starts_hash line then let '(l, f') := readline f in skip_comments n l f' else (line, f)
  end.

(** The size line's two numbers, or the exception. *)
Definition size_of (u : unpack) (parts : list (list Z)) : exc + Z * Z :=
  match u with
  | Exact =>
      (* [int(x)] of every token first, then the unpacking *)
      match mapM parse_int parts with
      | None => inl ValueError
      | Some [w; h] => inr (w, h)
      | Some _ => inl ValueError
      end
  | Index =>
      match parts with
      | [] => inl IndexError
      | p0 :: ps =>
          match parse_int p0 with
          | None => inl ValueError
          | Some w =>
              match ps with
              | [] => inl IndexError
              | p1 :: _ => match parse_int p1 with None => inl ValueError | Some h => inr (w, h) end
              end
          end
      end
  end.

(** [framebuf.FrameBuffer(data, w, h, framebuf.MONO_HLSB)]. *)
Definition framebuffer_hlsb (data : list Z) (w h : Z) : exc + HLSB :=
  if (w <? 1) || (h <? 1) || (65535 <? w) || (65535 <? h) || (Z.of_nat (length data) <? h * ((w + 7) `div` 8))
  then inl ValueError else inr (mkHLSB w h data).

(** [for xx in range(w): for yy in range(h): if fb.pixel(xx, yy):
    fb_rot.pixel(63 - yy, xx, 1)] into a cleared 64 x 128 buffer. *)
Definition rotate_pbm (fb : HLSB) : HLSB :=
  copy_pass (fun p => (63 - p.2, p.1)) (zrange2 0 (hl_w fb) 0 (hl_h fb)) fb fresh_portrait.

(** [blit_pbm(filename)]: the portrait buffer it blits to the display, or
    the exception it raises. *)
Definition blit_pbm (u : unpack) (file : option (list Z)) : exc + HLSB :=
  match file with
  | None => inl OSError
  | Some bytes =>
      let '(magic, f1) := readline bytes in
      if bool_decide (strip magic <> [80; 52]) then inl ValueError else
      let '(line0, f2) := readline f1 in
      let '(line, data) := skip_comments (S (length f2)) line0 f2 in
      match size_of u (split_ws line []) with
      | inl e => inl e
      | inr (w, h) =>
          match framebuffer_hlsb data w h with
          | inl e => inl e
          | inr fb => inr (rotate_pbm fb)
          end
      end
  end.

(** [try: blit_pbm(...) except Exception: <fallback>]: the image, or the
    fallback screen. *)
Definition title_screen {A} (u : unpack) (file : option (list Z)) (fallback : A) : HLSB + A :=
  match blit_pbm u file with
  | inr fb => inl fb
  | inl _ => inr fallback
  end.

Definition asteroids_title (file : option (list Z)) : HLSB + list fbcall :=
  title_screen Exact file
    [Fill 0; Text "ASTEROIDS" 0 34 1; Text "UP=THRUST" 0 52 1; Text "DN=FIRE" 0 62 1;
     Text "L/R=TURN" 0 72 1; Text "UP=START" 0 92 1; Text "DN=QUIT" 0 102 1].

Definition dk_title (file : option (list Z)) : HLSB + list fbcall :=
  title_screen Exact file
    [Fill 0; Text "DONKEY" 8 30 1; Text "KONG" 16 42 1; Text "UP:START" 4 70 1;
     Text "DN:QUIT" 4 82 1; Text "L/R MOVE" 4 102 1; Text "DN JUMP" 4 114 1].

Definition galaga_splash (file : option (list Z)) : HLSB + list fbcall :=
  title_screen Exact file (TextScreens.portrait_screen ["GALAGA"; "LITE"; ""; "UP=GO"; "DN=QT"]%string).

Definition frogger_splash (file : option (list Z)) : HLSB + list (list Z * Z * Z) :=
  title_screen Index file (FroggerText.portrait_calls FroggerText.splash_lines).

(** The start of [play_once]: [wait_for_all_released()], the title,
    [wait_for_all_released()], then UP starts the game ([true]) and DOWN
    calls [sys.exit()] ([false]), with the time after the 180 ms sleep. *)
Definition start_sequence {A} (env : Z -> levels) (title : A) (fuel : nat) (T : Z) : option (A * bool * Z) :=
  match wait_released env 60 fuel T with
  | None => None
  | Some T1 =>
      match wait_released env 60 fuel T1 with
      | None => None
      | Some T2 => match TextScreens.retry_loop env fuel T2 with None => None | Some (up, T3) => Some (title, up, T3) end
      end
  end.

(** ** The comment loop ends *)

(** With more fuel than the file has bytes the loop stops at a line that
    is no comment: every comment line it skips is read from the file. *)
Lemma skip_comments_done fuel line f :
  (length f < fuel)%nat -> starts_hash (skip_comments fuel line f).1 = false.
Proof.
  revert line f. induction fuel as [|n IH]; intros line f Hf; [lia|]. simpl.
  destruct (starts_hash line) eqn:E; [|done].
  pose proof (readline_length f) as [Hl Hn]. destruct (readline f) as [l f'] eqn:R. simpl in *.
  destruct l as [|b l].
  - rewrite (Hn eq_refl) in R. simpl in R. injection R as <-. destruct n; [done|]. apply IH. simpl. lia.
  - apply IH. simpl in Hl. lia.
Qed.

(** ** The image of a file [pbm_encode] writes *)

(** [b"12 34\n".split() == [b"12", b"34"]]. *)
Lemma split_ws_line d1 l1 d2 l2 :
  Forall (fun b => is_space b = false) (d1 :: l1) -> Forall (fun b => is_space b = false) (d2 :: l2) ->
  split_ws ((d1 :: l1) ++ 32 :: (d2 :: l2) ++ [10]) [] = [d1 :: l1; d2 :: l2].
Proof.
  intros H1 H2. rewrite split_ws_app, app_nil_r, split_ws_sep, reverse_involutive by (done || apply reverse_cons_ne).
  rewrite split_ws_app, app_nil_r by done. cbn [split_ws is_space Z.eqb Pos.eqb orb].
  destruct (reverse (d2 :: l2)) eqn:E; [by apply reverse_cons_ne in E|].
  by rewrite <- E, reverse_involutive.
Qed.

Lemma size_of_two u w h : size_of u [show_int w; show_int h] = inr (w, h) \/ w < 0 \/ h < 0.
Proof.
  destruct (decide (0 <= w)), (decide (0 <= h)); [left|right; lia..].
  destruct u; simpl; by rewrite !parse_int_show.
Qed.

(** [blit_pbm] of the P4 file [pbm_encode] writes for a [w] x [h] bitmap
    that [FrameBuffer] accepts turns that bitmap, whichever copy reads it. *)
Lemma blit_pbm_encode u w h data :
  1 <= w <= 65535 -> 1 <= h <= 65535 -> h * ((w + 7) `div` 8) <= Z.of_nat (length data) ->
  blit_pbm u (Some (pbm_encode w h data)) = inr (rotate_pbm (mkHLSB w h data)).
Proof.
  intros Hw Hh Hd.
  destruct (show_int_shape w ltac:(lia)) as (d1 & l1 & E1 & D1), (show_int_shape h ltac:(lia)) as (d2 & l2 & E2 & D2).
  unfold blit_pbm, pbm_encode. cbn [app readline Z.eqb Pos.eqb].
  rewrite bool_decide_eq_false_2 by (intros C; apply C; reflexivity).
  assert (Forall (fun b => b <> 10) (show_int w ++ 32 :: show_int h)) as Hn.
  { rewrite E1, E2. assert (forall b, is_digit b -> b <> 10) as Hd' by (unfold is_digit; lia).
    apply Forall_app; split; [|constructor; [lia|]]; eapply Forall_impl; [exact D1|exact Hd'|exact D2|exact Hd']. }
  replace (show_int w ++ 32 :: show_int h ++ 10 :: data) with ((show_int w ++ 32 :: show_int h) ++ 10 :: data)
    by (by rewrite <- app_assoc).
  rewrite readline_app by done. cbn [skip_comments]. rewrite <- !app_assoc, E1. cbn [starts_hash app].
  rewrite (proj2 (Z.eqb_neq d1 35)) by (apply Forall_cons in D1 as [D _]; unfold is_digit in D; lia).
  change (d1 :: l1 ++ 32 :: show_int h ++ [10]) with ((d1 :: l1) ++ 32 :: show_int h ++ [10]).
  rewrite E2, split_ws_line by (by apply digits_not_space). rewrite <- E1, <- E2.
  destruct (size_of_two u w h) as [-> | ?]; [|lia].
  unfold framebuffer_hlsb. replace ((w <? 1) || (h <? 1) || (65535 <? w) || (65535 <? h) || _) with false
    by (symmetry; zbool; lia). done.
Qed.

Lemma title_image {A} u (fallback : A) w h data px py :
  1 <= w <= 65535 -> 1 <= h <= 65535 -> h * ((w + 7) `div` 8) <= Z.of_nat (length data) ->
  0 <= px < 64 -> 0 <= py < 128 ->
  exists fb, title_screen u (Some (pbm_encode w h data)) fallback = inl fb /\
    hlsb_get fb px py = bool_decide (py < w /\ 63 - px < h) && hlsb_get (mkHLSB w h data) py (63 - px).
Proof.
  intros Hw Hh Hd Hx Hy. unfold title_screen. rewrite blit_pbm_encode by done.
  eexists; split; [done|]. apply landscape_pass_get. unfold Framebuf.in_box. lia.
Qed.

(** C37: The title screen of Asteroids, Donkey Kong, Galaga and Frogger,
    given the P4 file the launcher's [pbm_encode] writes for a [w] x [h]
    bitmap that [FrameBuffer] accepts, is the bitmap turned a quarter:
    portrait pixel [(px, py)] is lit exactly when the bitmap has pixel
    [(py, 63 - px)] and it is lit. *)
Theorem title_shows_image w h data px py :
  1 <= w <= 65535 -> 1 <= h <= 65535 -> h * ((w + 7) `div` 8) <= Z.of_nat (length data) ->
  0 <= px < 64 -> 0 <= py < 128 ->
  let lit := bool_decide (py < w /\ 63 - px < h) && hlsb_get (mkHLSB w h data) py (63 - px) in
  (exists fb, asteroids_title (Some (pbm_encode w h data)) = inl fb /\ hlsb_get fb px py = lit) /\
  (exists fb, dk_title (Some (pbm_encode w h data)) = inl fb /\ hlsb_get fb px py = lit) /\
  (exists fb, galaga_splash (Some (pbm_encode w h data)) = inl fb /\ hlsb_get fb px py = lit) /\
  (exists fb, frogger_splash (Some (pbm_encode w h data)) = inl fb /\ hlsb_get fb px py = lit).
Proof. intros. split_and!; by apply title_image. Qed.

Lemma title_shows_image_witness :
  bool_decide (0 < 8 /\ 63 - 63 < 1) && hlsb_get (mkHLSB 8 1 [255]) 0 (63 - 63) = true /\
  let lit := bool_decide (0 < 8 /\ 63 - 63 < 1) && hlsb_get (mkHLSB 8 1 [255]) 0 (63 - 63) in
  (exists fb, asteroids_title (Some (pbm_encode 8 1 [255])) = inl fb /\ hlsb_get fb 63 0 = lit) /\
  (exists fb, dk_title (Some (pbm_encode 8 1 [255])) = inl fb /\ hlsb_get fb 63 0 = lit) /\
  (exists fb, galaga_splash (Some (pbm_encode 8 1 [255])) = inl fb /\ hlsb_get fb 63 0 = lit) /\
  (exists fb, frogger_splash (Some (pbm_encode 8 1 [255])) = inl fb /\ hlsb_get fb 63 0 = lit).
Proof. split; [vm_compute; reflexivity|]. apply (title_shows_image 8 1 [255] 63 0); [lia|lia|vm_compute; discriminate|lia|lia]. Defined.

(** With every button up when the game starts, the title stays until the
    first poll that sees UP, which starts the game 180 ms later. *)
Lemma start_waits_for_up {A} env (title : A) fuel T k :
  any_pressed (env T) = false -> any_pressed (env (T + 60)) = false -> (k < fuel)%nat ->
  (forall j, (j < k)%nat ->
     pressed BUp (env (T + 120 + 20 * Z.of_nat j)) = false /\ pressed BDown (env (T + 120 + 20 * Z.of_nat j)) = false) ->
  pressed BUp (env (T + 120 + 20 * Z.of_nat k)) = true ->
  start_sequence env title fuel T = Some (title, true, T + 120 + 20 * Z.of_nat k + 180).
Proof.
  intros H0 H60 Hk Hb Hu. unfold start_sequence.
  rewrite (wait_released_returns env 60 fuel T 0) by (rewrite ?Z.add_0_r; done || lia || (intros; lia)).
  rewrite (wait_released_returns env 60 fuel (T + 10 * Z.of_nat 0 + 60) 0)
    by (simpl; rewrite ?Z.add_0_r; done || lia || (intros; lia)).
  cbn [Z.of_nat]. rewrite !Z.mul_0_r, !Z.add_0_r.
  replace (T + 60 + 60) with (T + 120) by lia.
  by rewrite (proj1 (TextScreens.retry_loop_first env fuel (T + 120) k Hk Hb) Hu).
Qed.

(** ** The copies disagree *)

(** A size line with a third number (["P4\n2 1 0\n"]) is read by the
    launcher and by Frogger's [blit_pbm], but the other copies raise
    [ValueError] ([too many values to unpack]); a size split over two lines
    (["P4\n2\n1\n"]), which the launcher reads, raises [ValueError] in
    those copies and [IndexError] in Frogger's: every such file falls back
    to the text title. *)
Example blit_pbm_copies_disagree :
  let extra := [80; 52; 10; 50; 32; 49; 32; 48; 10; 0] in
  let split := [80; 52; 10; 50; 10; 49; 10; 0] in
  read_pbm_p4 extra = Some (inr (2, 1, [0])) /\ blit_pbm Exact (Some extra) = inl ValueError /\
  (exists fb, blit_pbm Index (Some extra) = inr fb) /\
  read_pbm_p4 split = Some (inr (2, 1, [0])) /\ blit_pbm Exact (Some split) = inl ValueError /\
  blit_pbm Index (Some split) = inl IndexError.
Proof. cbv zeta. split_and!; try reflexivity. eexists. reflexivity. Qed.

End Splash.
