(* ===== verification/Asteroids.v ===== *)
(** * Asteroids ([src/asteroids.py]): fixed-point physics and the game loop

    Positions are fixed-point integers with [FP = 256] units a pixel, on a
    64 x 128 field that wraps around ([wrap_fp]); velocities are in the
    same units per tick.  The dicts of the bullets and the asteroids are
    the records [bullet] and [asteroid]; the lists [bullets] and
    [asteroids] keep the code's order.  The random draws are an argument
    [rnd : nat -> Z], the k-th raw draw, which [randint], [choice] and
    [getrandbits] of [Prelude] bring into their range, threaded as a counter
    ([draws]).  The clock is [Input]'s: [now = ticks_ms T].  One pass of
    the [while True] loop of [play_once] is [atick]; it takes the time [T]
    of its [time.ticks_ms()] and the time [T2] of the one after the
    next-wave banner.  [areach] are the states at the top of the loop.

    The collision pass keeps the code's aliasing: a bullet that hits is
    set to [ttl = 0] inside the list it is read from ([alter kill]), and
    stays in it until the pass is over, so later asteroids of the same
    pass still test it. *)

From stdpp Require Import list.
From S2P Require Import Prelude Input.

Local Open Scope Z_scope.

Module Asteroids.

(** ** Constants and helpers *)

Definition W : Z := 64.
Definition H : Z := 128.
Definition FP : Z := 256.

(** [wrap_fp(x_fp, max_px)]: one correction by the field size. *)
Definition wrap_fp (x_fp max_px : Z) : Z :=
  let max_fp := max_px * FP in
  if x_fp <? 0 then x_fp + max_fp
  else if max_fp <=? x_fp then x_fp - max_fp
  else x_fp.

(** The 16-direction table, [DIR[i]] for angle index [i]. *)
Definition DIR : list (Z * Z) :=
  [(0, -256); (98, -236); (181, -181); (236, -98); (256, 0); (236, 98); (181, 181); (98, 236);
   (0, 256); (-98, 236); (-181, 181); (-236, 98); (-256, 0); (-236, -98); (-181, -181); (-98, -236)].

Definition dir (i : Z) : Z * Z := DIR !!! Z.to_nat i.

Definition dist2 (x0 y0 x1 y1 : Z) : Z :=
  let dx := x0 - x1 in let dy := y0 - y1 in dx * dx + dy * dy.

(** ** Bullets and asteroids *)

(** A bullet dict [{x, y, vx, vy, ttl}]. *)
Record bullet := mkB { b_x : Z; b_y : Z; b_vx : Z; b_vy : Z; b_ttl : Z }.

(** An asteroid dict [{x, y, vx, vy, size, s, r2, pts}]. *)
Record asteroid := mkA {
  a_x : Z; a_y : Z; a_vx : Z; a_vy : Z; a_size : Z; a_s : Z; a_r2 : Z; a_pts : list (Z * Z) }.

(** The [shapes] of [rand_asteroid_shape]. *)
Definition shapes : list (list (Z * Z)) :=
  [[(-4, -1); (-2, -4); (1, -4); (4, -2); (3, 2); (1, 4); (-2, 3); (-4, 1)];
   [(-4, -2); (-1, -4); (2, -3); (4, -1); (3, 3); (0, 4); (-3, 2); (-2, 0)];
   [(-3, -4); (1, -4); (4, -1); (2, 1); (4, 4); (0, 3); (-4, 4); (-2, 0)]].

Definition rand_asteroid_shape (rnd : nat -> Z) (k : nat) : list (Z * Z) * nat := choice rnd k shapes.

(** The loop [for _ in range(20)] of [spawn_asteroid]: [tries + 1] draws
    of a position at most; it stops at the first one more than 22 pixels
    from [(avoid_x, avoid_y)] and otherwise keeps the last one drawn. *)
Fixpoint spawn_pos (rnd : nat -> Z) (k : nat) (tries : nat) (avoid_x avoid_y : Z) : Z * Z * nat :=
  let '(x, k1) := randint rnd k 0 (W - 1) in
  let '(y, k2) := randint rnd k1 10 (H - 1) in
  match tries with
  | O => (x, y, k2)
  | S t =>
      if (x - avoid_x) * (x - avoid_x) + (y - avoid_y) * (y - avoid_y) >? 22 * 22 then (x, y, k2)
      else spawn_pos rnd k2 t avoid_x avoid_y
  end.

(** [12 if size == 3 else (8 if size == 2 else 5)]. *)
Definition size_s (size : Z) : Z := if size =? 3 then 12 else if size =? 2 then 8 else 5.

(** [spawn_asteroid(size, avoid_x, avoid_y)], the dict's values in the
    order the literal evaluates them. *)
Definition spawn_asteroid (rnd : nat -> Z) (k : nat) (size avoid_x avoid_y : Z) : asteroid * nat :=
  let '(x, y, k1) := spawn_pos rnd k 19 avoid_x avoid_y in
  let '(g, k2) := getrandbits rnd k1 4 in
  let '(dx, dy) := dir (g .& 15) in
  let '(speed, k3) := randint rnd k2 40 90 in
  let s := size_s size in
  let '(pts, k4) := rand_asteroid_shape rnd k3 in
  (mkA (x * FP) (y * FP) ((dx * speed) `div` 256) ((dy * speed) `div` 256) size s (s ^ 2) pts, k4).

(** [spawn_wave(n_big, shipx, shipy)]. *)
Fixpoint spawn_wave (rnd : nat -> Z) (k : nat) (n_big : nat) (shipx shipy : Z) : list asteroid * nat :=
  match n_big with
  | O => ([], k)
  | S n =>
      let '(a, k1) := spawn_asteroid rnd k 3 shipx shipy in
      let '(rest, k2) := spawn_wave rnd k1 n shipx shipy in
      (a :: rest, k2)
  end.

(** ** The game state *)

(** The locals of [play_once] that live across passes of its loop. *)
Record astate := mkS {
  eb : EdgeButtons.t; score : Z; lives : Z; wave : Z;
  ship_x : Z; ship_y : Z; ship_vx : Z; ship_vy : Z; ang : Z; invuln_until : Z;
  bullets : list bullet; asteroids : list asteroid; last_fire_ms : Z; draws : nat }.

(** [return score, wave] ends the game. *)
Inductive aresult := ANext (s : astate) | AOver (final_score final_wave : Z).

(** [play_once] after the title: the state before the loop. *)
Definition astart (rnd : nat -> Z) (k : nat) : astate :=
  let '(ast, k') := spawn_wave rnd k 3 (W `div` 2) (H `div` 2) in
  mkS EdgeButtons.init 0 3 1 ((W `div` 2) * FP) ((H `div` 2) * FP) 0 0 0 0 [] ast 0 k'.

(** ** One pass of the loop, phase by phase *)

(** [if held_l: ang = (ang - 1) & 15] then [if held_r: ang = (ang + 1) & 15]. *)
Definition steer (held_l held_r : bool) (a : Z) : Z :=
  let a1 := if held_l then (a - 1) .& 15 else a in
  if held_r then (a1 + 1) .& 15 else a1.

(** [if held_u:] the thrust. *)
Definition thrust (held_u : bool) (a vx vy : Z) : Z * Z :=
  if held_u then let '(dx, dy) := dir a in (vx + (dx * 10) `div` 256, vy + (dy * 10) `div` 256)
  else (vx, vy).

(** [if pd: if time.ticks_diff(now, last_fire_ms) > 140:] a new bullet at
    the nose; returns the bullets and [last_fire_ms]. *)
Definition fire (pd : bool) (now a x y vx vy : Z) (bs : list bullet) (last_fire : Z) : list bullet * Z :=
  if pd && (ticks_diff now last_fire >? 140) then
    let '(dx, dy) := dir a in
    (bs ++ [mkB (x + dx * 7) (y + dy * 7) (vx + (dx * 180) `div` 256) (vy + (dy * 180) `div` 256) 38], now)
  else (bs, last_fire).

(** [ship_vx = (ship_vx * 245) // 256]. *)
Definition friction (v : Z) : Z := (v * 245) `div` 256.

(** [a["x"] = wrap_fp(a["x"] + a["vx"], W)] and the same for [y]. *)
Definition move_asteroid (a : asteroid) : asteroid :=
  mkA (wrap_fp (a_x a + a_vx a) W) (wrap_fp (a_y a + a_vy a) H) (a_vx a) (a_vy a)
      (a_size a) (a_s a) (a_r2 a) (a_pts a).

(** The body of [for b in bullets:] before the test on [ttl]. *)
Definition move_bullet (b : bullet) : bullet :=
  mkB (wrap_fp (b_x b + b_vx b) W) (wrap_fp (b_y b + b_vy b) H) (b_vx b) (b_vy b) (b_ttl b - 1).

Definition alive (b : bullet) : bool := 0 <? b_ttl b.

(** [bullets = nb], the moved bullets whose [ttl] is still positive. *)
Definition move_bullets (bs : list bullet) : list bullet := List.filter alive (map move_bullet bs).

(** [dist2(ax, ay, bx, by) <= a["r2"]] for the asteroid at pixel [(ax, ay)]. *)
Definition near (ax ay r2 : Z) (b : bullet) : bool :=
  dist2 ax ay (b_x b `div` FP) (b_y b `div` FP) <=? r2.

(** [b["ttl"] = 0]. *)
Definition kill (b : bullet) : bullet := mkB (b_x b) (b_y b) (b_vx b) (b_vy b) 0.

(** [score += 20 if a["size"] == 3 else (50 if a["size"] == 2 else 100)]. *)
Definition points (size : Z) : Z := if size =? 3 then 20 else if size =? 2 then 50 else 100.

(** One child of a split: a fresh asteroid one size down, moved onto its
    parent, its velocity tweaked by two more draws. *)
Definition split_child (rnd : nat -> Z) (k : nat) (a : asteroid) (ship_px ship_py : Z) : asteroid * nat :=
  let '(na, k1) := spawn_asteroid rnd k (a_size a - 1) ship_px ship_py in
  let '(dvx, k2) := randint rnd k1 (-35) 35 in
  let '(dvy, k3) := randint rnd k2 (-35) 35 in
  (mkA (a_x a) (a_y a) (a_vx na + dvx) (a_vy na + dvy) (a_size na) (a_s na) (a_r2 na) (a_pts na), k3).

(** The accumulator of the bullet-versus-asteroid pass: the bullets (as
    mutated so far), [new_asteroids], the score, [hit_any], the draws. *)
Definition hit_acc : Type := list bullet * list asteroid * Z * bool * nat.

(** The body of [for a in asteroids:] of the collision pass: the first
    bullet near it, if any, is killed in place. *)
Definition hit_step (rnd : nat -> Z) (ship_px ship_py : Z) (acc : hit_acc) (a : asteroid) : hit_acc :=
  let '(bs, na, sc, hit_any, k) := acc in
  match list_find (fun b => near (a_x a `div` FP) (a_y a `div` FP) (a_r2 a) b = true) bs with
  | Some (i, _) =>
      let bs' := alter kill i bs in
      let sc' := sc + points (a_size a) in
      if 1 <? a_size a then
        let '(c1, k1) := split_child rnd k a ship_px ship_py in
        let '(c2, k2) := split_child rnd k1 a ship_px ship_py in
        (bs', na ++ [c1; c2], sc', true, k2)
      else (bs', na, sc', true, k)
  | None => (bs, na ++ [a], sc, hit_any, k)
  end.

Definition collide (rnd : nat -> Z) (k : nat) (ship_px ship_py sc : Z) (bs : list bullet) (ast : list asteroid)
    : hit_acc :=
  foldl (hit_step rnd ship_px ship_py) (bs, [], sc, false, k) ast.

(** Some asteroid within [a["s"] + 4] pixels of the ship. *)
Definition ship_hit (px py : Z) (ast : list asteroid) : bool :=
  existsb (fun a => dist2 (a_x a `div` FP) (a_y a `div` FP) px py <=? (a_s a + 4) * (a_s a + 4)) ast.

(** [if not asteroids:] the next wave, [invuln_until] from the clock read
    at [T2], after the banner. *)
Definition next_wave (rnd : nat -> Z) (T2 : Z) (s : astate) : astate :=
  match asteroids s with
  | [] =>
      let w := wave s + 1 in
      let '(ast, k) := spawn_wave rnd (draws s) (Z.to_nat (Z.min 6 (2 + w))) (ship_x s `div` FP) (ship_y s `div` FP) in
      mkS (eb s) (score s) (lives s) w (ship_x s) (ship_y s) (ship_vx s) (ship_vy s) (ang s)
          (ticks_add (ticks_ms T2) 1200) (bullets s) ast (last_fire_ms s) k
  | _ :: _ => s
  end.

(** One pass of [while True] in [play_once], up to the drawing. *)
Definition atick (env : Z -> levels) (rnd : nat -> Z) (T T2 : Z) (s : astate) : aresult :=
  let now := ticks_ms T in
  let '(eb', (pu, pd, pl, pr, held_u, held_d, held_l, held_r)) := EdgeButtons.update8 (eb s) (env T) in
  let a := steer held_l held_r (ang s) in
  let '(vx0, vy0) := thrust held_u a (ship_vx s) (ship_vy s) in
  let '(bs0, lf) := fire pd now a (ship_x s) (ship_y s) vx0 vy0 (bullets s) (last_fire_ms s) in
  let vx := friction vx0 in
  let vy := friction vy0 in
  let x := wrap_fp (ship_x s + vx) W in
  let y := wrap_fp (ship_y s + vy) H in
  let ast0 := map move_asteroid (asteroids s) in
  let bs1 := move_bullets bs0 in
  let px := x `div` FP in
  let py := y `div` FP in
  let '(bs2, ast1, sc, hit_any, k1) := collide rnd (draws s) px py (score s) bs1 ast0 in
  let bs3 := if hit_any then List.filter alive bs2 else bs2 in
  if (0 <=? ticks_diff now (invuln_until s)) && ship_hit px py ast1 then
    if lives s - 1 <=? 0 then AOver sc (wave s)
    else ANext (next_wave rnd T2
      (mkS eb' sc (lives s - 1) (wave s) ((W `div` 2) * FP) ((H `div` 2) * FP) 0 0 0
           (ticks_add now 1800) [] ast1 lf k1))
  else ANext (next_wave rnd T2 (mkS eb' sc (lives s) (wave s) x y vx vy a (invuln_until s) bs3 ast1 lf k1)).

(** The states at the top of the loop. *)
Inductive areach : astate -> Prop :=
| areach_start rnd k : areach (astart rnd k)
| areach_step s env rnd T T2 s' : areach s -> atick env rnd T T2 s = ANext s' -> areach s'.

(** ** What the loop keeps *)

Definition in_field (x y : Z) : Prop := 0 <= x < W * FP /\ 0 <= y < H * FP.

(** A bullet at the top of the loop. *)
Definition bullet_ok (b : bullet) : Prop :=
  in_field (b_x b) (b_y b) /\ Z.abs (b_vx b) <= 446 /\ Z.abs (b_vy b) <= 446 /\ 0 < b_ttl b <= 37.

(** A bullet after [fire], before it moves: up to seven pixels off the
    field (the nose of the ship), one more tick to live. *)
Definition bullet_pre (b : bullet) : Prop :=
  - 2048 <= b_x b < W * FP + 2048 /\ - 2048 <= b_y b < H * FP + 2048 /\
  Z.abs (b_vx b) <= 446 /\ Z.abs (b_vy b) <= 446 /\ 0 < b_ttl b <= 38.

Definition asteroid_ok (a : asteroid) : Prop :=
  in_field (a_x a) (a_y a) /\ 1 <= a_size a <= 3 /\ a_s a = size_s (a_size a) /\ a_r2 a = a_s a ^ 2 /\
  Z.abs (a_vx a) <= 125 /\ Z.abs (a_vy a) <= 125.

(** The ship and everything in flight on the field, velocities bounded,
    the asteroid fields consistent with their size, the counters in range. *)
Definition ainv_pre (s : astate) : Prop :=
  0 <= ang s <= 15 /\ in_field (ship_x s) (ship_y s) /\ Z.abs (ship_vx s) <= 256 /\ Z.abs (ship_vy s) <= 256 /\
  Forall bullet_ok (bullets s) /\ Forall asteroid_ok (asteroids s) /\
  1 <= lives s <= 3 /\ 0 <= score s /\ 1 <= wave s.

(** The state at the top of the loop: the above, and a wave in play. *)
Definition ainv (s : astate) : Prop := ainv_pre s /\ asteroids s <> [].

(** What one pass guarantees: the invariant again, at most one life lost,
    the score never lower, at most one wave further; the game ends only on
    the last life, with the score reached. *)
Definition tick_post (s : astate) (r : aresult) : Prop :=
  match r with
  | ANext s' =>
      ainv s' /\ (lives s' = lives s \/ lives s' = lives s - 1) /\ score s <= score s' /\
      (wave s' = wave s \/ wave s' = wave s + 1)
  | AOver sc w => lives s = 1 /\ score s <= sc /\ w = wave s
  end.

(** ** Arithmetic of the fixed-point physics *)

Lemma wrap_fp_range x m : 0 < m -> - (m * FP) <= x < 2 * (m * FP) -> 0 <= wrap_fp x m < m * FP.
Proof. intros. unfold wrap_fp. cbv zeta. case_ifs; lia. Qed.

Lemma dir_bound a : Z.abs (dir a).1 <= 256 /\ Z.abs (dir a).2 <= 256.
Proof.
  unfold dir. apply (Forall_lookup_total (fun p : Z * Z => Z.abs p.1 <= 256 /\ Z.abs p.2 <= 256)).
  - repeat constructor; simpl; lia.
  - simpl. lia.
Qed.

(** [(d * k) // 256] for a direction component [d] and [0 <= k <= 256]. *)
Lemma scale_bound d k : Z.abs d <= 256 -> 0 <= k <= 256 -> Z.abs ((d * k) `div` 256) <= k.
Proof.
  intros Hd Hk. assert (Z.abs (d * k) <= 256 * k) by (rewrite Z.abs_mul; nia).
  Z.div_mod_to_equations. lia.
Qed.

Lemma land15_range z : 0 <= z .& 15 <= 15.
Proof.
  change 15 with (Z.ones 4). rewrite Z.land_ones by lia.
  pose proof (Z.mod_pos_bound z (2 ^ 4)). change (Z.ones 4) with 15. change (2 ^ 4) with 16 in *. lia.
Qed.

Lemma steer_range hl hr a : 0 <= a <= 15 -> 0 <= steer hl hr a <= 15.
Proof. intros. unfold steer. pose proof (land15_range (a - 1)). destruct hl, hr; auto using land15_range. Qed.

Lemma thrust_bound hu a vx vy :
  Z.abs vx <= 256 -> Z.abs vy <= 256 -> Z.abs (thrust hu a vx vy).1 <= 266 /\ Z.abs (thrust hu a vx vy).2 <= 266.
Proof.
  intros. unfold thrust. destruct hu; [|simpl; lia].
  pose proof (dir_bound a) as [Hx Hy]. destruct (dir a) as [dx dy]. simpl in *.
  pose proof (scale_bound dx 10). pose proof (scale_bound dy 10). lia.
Qed.

Lemma friction_bound v : Z.abs v <= 266 -> Z.abs (friction v) <= 256.
Proof. intros. unfold friction. Z.div_mod_to_equations. lia. Qed.

Lemma dir_eq_bound a dx dy : dir a = (dx, dy) -> Z.abs dx <= 256 /\ Z.abs dy <= 256.
Proof. intros E. pose proof (dir_bound a) as Hb. by rewrite E in Hb. Qed.

(** ** Spawning *)

(** [spawn_pos] returns the [j]-th pair of draws for some [j <= tries]:
    the first far one, or the last. *)
Lemma spawn_pos_spec rnd k tries ax ay :
  exists j, (j <= tries)%nat /\
    spawn_pos rnd k tries ax ay =
      ((randint rnd (k + 2 * j) 0 (W - 1)).1, (randint rnd (S (k + 2 * j)) 10 (H - 1)).1, (k + 2 * j + 2)%nat).
Proof.
  revert k. induction tries as [|t IH]; intros k.
  - exists 0%nat. split; [lia|].
    simpl. repeat f_equal; lia.
  - simpl. destruct (_ >? _).
    + exists 0%nat. split; [lia|].
      simpl. repeat f_equal; lia.
    + destruct (IH (S (S k))) as (j & Hj & ->). exists (S j). split; [lia|].
      simpl. repeat f_equal; lia.
Qed.

Lemma spawn_pos_in rnd k tries ax ay x y k' :
  spawn_pos rnd k tries ax ay = (x, y, k') -> 0 <= x <= W - 1 /\ 10 <= y <= H - 1.
Proof.
  destruct (spawn_pos_spec rnd k tries ax ay) as (j & _ & ->). intros E.
  destruct (randint_range rnd (k + 2 * j) 0 (W - 1)) as [Hx _]; [unfold W; lia|].
  destruct (randint_range rnd (S (k + 2 * j)) 10 (H - 1)) as [Hy _]; [unfold H; lia|].
  injection E as <- <- _. simpl in *. unfold W, H in *. lia.
Qed.

(** Collect the ranges of the draws and of the directions in the context. *)
Ltac draw_facts :=
  repeat match goal with
  | E : randint _ _ _ _ = (_, _) |- _ => apply randint_eq_range in E; [|unfold W, H; lia]
  | E : spawn_pos _ _ _ _ _ = (_, _, _) |- _ => apply spawn_pos_in in E
  | E : dir _ = (_, _) |- _ => apply dir_eq_bound in E
  end.

(** The fields of a fresh asteroid: on the field, of the size asked, its
    radius and squared radius from the size, at most 90 units a tick. *)
Lemma spawn_asteroid_spec rnd k size ax ay :
  let a := (spawn_asteroid rnd k size ax ay).1 in
  in_field (a_x a) (a_y a) /\ a_size a = size /\ a_s a = size_s size /\ a_r2 a = a_s a ^ 2 /\
  Z.abs (a_vx a) <= 90 /\ Z.abs (a_vy a) <= 90.
Proof.
  unfold spawn_asteroid.
  destruct (spawn_pos rnd k 19 ax ay) as [[x y] k1] eqn:E1.
  destruct (getrandbits rnd k1 4) as [g k2].
  destruct (dir (g .& 15)) as [dx dy] eqn:E2.
  destruct (randint rnd k2 40 90) as [sp k3] eqn:E3.
  destruct (rand_asteroid_shape rnd k3) as [pts k4]. simpl. draw_facts.
  pose proof (scale_bound dx sp). pose proof (scale_bound dy sp). unfold in_field, W, H, FP in *. lia.
Qed.

Lemma spawn_asteroid_ok rnd k size ax ay : 1 <= size <= 3 -> asteroid_ok (spawn_asteroid rnd k size ax ay).1.
Proof.
  intros. unfold asteroid_ok. pose proof (spawn_asteroid_spec rnd k size ax ay) as (? & -> & -> & ? & ? & ?).
  split_and!; auto; lia.
Qed.

Lemma spawn_wave_ok rnd k n ax ay :
  Forall asteroid_ok (spawn_wave rnd k n ax ay).1 /\ length (spawn_wave rnd k n ax ay).1 = n.
Proof.
  revert k. induction n as [|n IH]; intros k; simpl; [done|].
  destruct (spawn_asteroid rnd k 3 ax ay) as [a k1] eqn:E. destruct (IH k1) as [IH1 IH2].
  destruct (spawn_wave rnd k1 n ax ay) as [rest k2]. simpl in *.
  split; [|by rewrite IH2]. constructor; [|done].
  pose proof (spawn_asteroid_ok rnd k 3 ax ay) as Ha. rewrite E in Ha. apply Ha. lia.
Qed.

(** A child of a split: on its parent, one size down, at most
    [90 + 35] units a tick. *)
Lemma split_child_ok rnd k a px py : asteroid_ok a -> 1 < a_size a -> asteroid_ok (split_child rnd k a px py).1.
Proof.
  intros (Hf & Hs & _) Hgt. unfold split_child.
  destruct (spawn_asteroid rnd k (a_size a - 1) px py) as [na k1] eqn:E.
  pose proof (spawn_asteroid_spec rnd k (a_size a - 1) px py) as Hn. rewrite E in Hn. simpl in Hn.
  destruct (randint rnd k1 (-35) 35) as [dvx k2] eqn:E2.
  destruct (randint rnd k2 (-35) 35) as [dvy k3] eqn:E3. simpl. draw_facts.
  destruct Hn as (? & -> & -> & ? & ? & ?). unfold asteroid_ok. simpl. split_and!; auto; lia.
Qed.

(** ** Moving *)

Ltac wrap_in := apply wrap_fp_range; unfold W, H, FP in *; lia.

Lemma move_asteroid_ok a : asteroid_ok a -> asteroid_ok (move_asteroid a).
Proof.
  unfold asteroid_ok, in_field. intros (? & ? & ? & ? & ? & ?). simpl. split_and!; first [wrap_in | lia | auto].
Qed.

Lemma fire_pre pd now a x y vx vy bs lf :
  in_field x y -> Z.abs vx <= 266 -> Z.abs vy <= 266 -> Forall bullet_pre bs ->
  Forall bullet_pre (fire pd now a x y vx vy bs lf).1.
Proof.
  intros Hxy ? ? ?. unfold fire. destruct (pd && _); [|done].
  destruct (dir a) as [dx dy] eqn:E. draw_facts. simpl.
  apply Forall_app_2; [done|]. apply Forall_singleton.
  pose proof (scale_bound dx 180). pose proof (scale_bound dy 180).
  unfold bullet_pre, in_field, W, H, FP in *. simpl. lia.
Qed.

Lemma bullet_ok_pre b : bullet_ok b -> bullet_pre b.
Proof. unfold bullet_ok, bullet_pre, in_field, W, H, FP. lia. Qed.

Lemma move_bullets_ok bs : Forall bullet_pre bs -> Forall bullet_ok (move_bullets bs).
Proof.
  intros Hbs. unfold move_bullets. apply Forall_forall. intros b Hb.
  apply list_elem_of_In, filter_In in Hb as [Hb Ha]. apply in_map_iff in Hb as (b0 & <- & Hb0).
  apply list_elem_of_In in Hb0. eapply Forall_forall in Hbs; [|exact Hb0].
  unfold alive, bullet_ok, bullet_pre, in_field in *. simpl in *. zbool.
  split_and!; try wrap_in; lia.
Qed.

(** ** The collision pass *)

(** A bullet of the pass as the pass has left it: untouched or killed. *)
Definition killed (b b' : bullet) : Prop := b' = b \/ b' = kill b.

(** The points an asteroid scores in a pass that starts with the bullets
    [bs]: those of its size if one of [bs] is near it. *)
Definition hit_points (bs : list bullet) (a : asteroid) : Z :=
  if existsb (near (a_x a `div` FP) (a_y a `div` FP) (a_r2 a)) bs then points (a_size a) else 0.

Lemma killed_refl bs : Forall2 killed bs bs.
Proof. induction bs; constructor; [by left|done]. Qed.

Lemma killed_alter bs0 bs i : Forall2 killed bs0 bs -> Forall2 killed bs0 (alter kill i bs).
Proof.
  intros HF. revert i. induction HF as [|b0 b bs0 bs Hb HF IH]; intros [|i]; simpl; constructor; auto.
  - destruct Hb as [-> | ->]; by right.
  - apply IH.
Qed.

(** Killing a bullet does not move it: it is as near as before. *)
Lemma existsb_near_killed ax ay r2 bs0 bs :
  Forall2 killed bs0 bs -> existsb (near ax ay r2) bs = existsb (near ax ay r2) bs0.
Proof. induction 1 as [|b0 b ?? [-> | ->] _ IH]; simpl; rewrite ?IH; reflexivity. Qed.

Lemma list_find_near ax ay r2 bs :
  is_Some (list_find (fun b => near ax ay r2 b = true) bs) <-> existsb (near ax ay r2) bs = true.
Proof.
  induction bs as [|b bs IH]; simpl; [split; [by intros []|discriminate]|].
  case_decide as Hb; [rewrite Hb; split; eauto|].
  apply not_true_is_false in Hb. rewrite Hb, fmap_is_Some. done.
Qed.

(** The bullets the pass leaves alive are bullets it started with. *)
Lemma killed_filter_alive bs bs' :
  Forall2 killed bs bs' -> Forall bullet_ok bs -> Forall bullet_ok (List.filter alive bs').
Proof.
  induction 1 as [|b b' bs bs' [-> | ->] _ IH]; intros Hok; inversion Hok; subst; simpl; [constructor| |auto].
  destruct (alive b); [constructor|]; auto.
Qed.

Lemma points_nonneg size : 0 <= points size.
Proof. unfold points. case_ifs; lia. Qed.

Lemma hit_points_nonneg bs a : 0 <= hit_points bs a.
Proof. unfold hit_points. pose proof (points_nonneg (a_size a)). destruct existsb; lia. Qed.

(** One asteroid of the pass: the bullets stay killed-or-not copies of the
    ones the pass started with, the asteroid scores [hit_points], a
    [hit_any] still false means no bullet was touched, and the new
    asteroids are sound. *)
Lemma hit_step_spec rnd px py bs0 bs na sc hit k a bs' na' sc' hit' k' :
  Forall2 killed bs0 bs -> hit_step rnd px py (bs, na, sc, hit, k) a = (bs', na', sc', hit', k') ->
  Forall2 killed bs0 bs' /\ sc' = sc + hit_points bs0 a /\ (hit' = false -> hit = false /\ bs' = bs) /\
  (asteroid_ok a -> Forall asteroid_ok na -> Forall asteroid_ok na').
Proof.
  intros HF. unfold hit_step, hit_points. rewrite <- (existsb_near_killed _ _ _ _ _ HF).
  destruct (list_find _ bs) as [[i b]|] eqn:Ef.
  - rewrite (proj1 (list_find_near _ _ _ bs)) by (rewrite Ef; eauto).
    destruct (1 <? a_size a) eqn:Hs; zbool.
    + destruct (split_child rnd k a px py) as [c1 k1] eqn:E1.
      destruct (split_child rnd k1 a px py) as [c2 k2] eqn:E2.
      intros [= <- <- <- <- <-]. split_and!; auto using killed_alter; [discriminate|].
      intros Ha Hna. apply Forall_app_2; [done|]. pose proof (split_child_ok rnd k a px py Ha Hs) as H1.
      pose proof (split_child_ok rnd k1 a px py Ha Hs) as H2. rewrite E1 in H1. rewrite E2 in H2.
      constructor; [exact H1|]. constructor; [exact H2|constructor].
    + intros [= <- <- <- <- <-]. split_and!; auto using killed_alter; discriminate.
  - destruct (existsb _ bs) eqn:Ex; [apply list_find_near in Ex; rewrite Ef in Ex; by destruct Ex|].
    intros [= <- <- <- <- <-]. split_and!; auto; [lia|].
    intros Ha Hna. apply Forall_app_2; [done|]. by constructor.
Qed.

(** What [collide] keeps: after [if hit_any:] the bullets are sound, the
    asteroids are sound, the score only grows. *)
Lemma collide_ok rnd k px py sc bs ast :
  Forall bullet_ok bs -> Forall asteroid_ok ast ->
  let '(bs', ast', sc', hit, _) := collide rnd k px py sc bs ast in
  Forall bullet_ok (if hit then List.filter alive bs' else bs') /\ Forall asteroid_ok ast' /\ sc <= sc'.
Proof.
  intros Hb Ha. unfold collide.
  set (P := fun acc : hit_acc => let '(bs', na, sc', hit, _) := acc in
    Forall2 killed bs bs' /\ (hit = false -> bs' = bs) /\ Forall asteroid_ok na /\ sc <= sc').
  assert (P (foldl (hit_step rnd px py) (bs, [], sc, false, k) ast)) as HP.
  { apply foldl_inv; [|subst P; simpl; split_and!; auto using killed_refl; lia].
    intros [[[[bs' na] sc'] hit] k'] a Hin (HF & Hh & Hna & Hsc).
    destruct (hit_step rnd px py _ a) as [[[[bs'' na'] sc''] hit'] k''] eqn:E.
    destruct (hit_step_spec _ _ _ _ _ _ _ _ _ _ _ _ _ _ _ HF E) as (HF' & -> & Hh' & Hna').
    pose proof (hit_points_nonneg bs a). simpl. split_and!.
    + done.
    + intros Hf. destruct (Hh' Hf) as [? ->]. auto.
    + apply Hna'; [rewrite Forall_forall in Ha; auto|done].
    + lia. }
  destruct (foldl _ _ _) as [[[[bs' na] sc'] hit] k'].
  destruct HP as (HF & Hh & Hna & Hsc). split_and!; auto.
  destruct hit; [by apply (killed_filter_alive bs)|]. by rewrite Hh.
Qed.

(** ** The whole pass *)

Lemma next_wave_lives rnd T2 s : lives (next_wave rnd T2 s) = lives s.
Proof. unfold next_wave. destruct (asteroids s); [destruct spawn_wave|]; reflexivity. Qed.

(** [if not asteroids:] brings a new wave of [min(6, 2 + wave)] big
    asteroids, so a wave is always in play after it. *)
Lemma next_wave_ok rnd T2 s :
  ainv_pre s ->
  let s' := next_wave rnd T2 s in
  ainv s' /\ lives s' = lives s /\ score s' = score s /\ (wave s' = wave s \/ wave s' = wave s + 1).
Proof.
  intros Hs. unfold next_wave. destruct (asteroids s) as [|a ast] eqn:E.
  - destruct (spawn_wave _ _ _ _ _) as [ast' k] eqn:Ew.
    match type of Ew with spawn_wave ?r ?k0 ?n ?x ?y = _ => pose proof (spawn_wave_ok r k0 n x y) as [Hok Hlen] end.
    rewrite Ew in Hok, Hlen. simpl in *.
    destruct Hs as (? & ? & ? & ? & ? & ? & ? & ? & ?). unfold ainv, ainv_pre. simpl. split_and!; auto; try lia.
    intros ->. simpl in Hlen. lia.
  - simpl. split_and!; auto. split; [done|]. rewrite E. discriminate.
Qed.

Lemma astart_inv rnd k : ainv (astart rnd k).
Proof.
  unfold astart. destruct (spawn_wave rnd k 3 _ _) as [ast k'] eqn:Ew.
  pose proof (spawn_wave_ok rnd k 3 (W `div` 2) (H `div` 2)) as [Hok Hlen]. rewrite Ew in Hok, Hlen. simpl in *.
  unfold ainv, ainv_pre, in_field. simpl.
  change (W `div` 2 * FP) with 8192. change (H `div` 2 * FP) with 16384.
  change (W * FP) with 16384. change (H * FP) with 32768. split_and!; auto; try lia.
  intros ->. simpl in Hlen. lia.
Qed.

Lemma move_asteroids_ok ast : Forall asteroid_ok ast -> Forall asteroid_ok (map move_asteroid ast).
Proof. induction 1; simpl; constructor; auto using move_asteroid_ok. Qed.

(** One pass from a state of the invariant satisfies [tick_post]. *)
Lemma atick_post env rnd T T2 s : ainv s -> tick_post s (atick env rnd T T2 s).
Proof.
  intros [(Hang & [Hx Hy] & Hvx & Hvy & Hb & Ha & Hl & Hsc & Hw) _].
  unfold atick. cbv zeta.
  destruct (EdgeButtons.update8 _ _) as [eb' [[[[[[[pu pd] pl] pr] hu] hd] hl] hr]].
  pose proof (steer_range hl hr (ang s) Hang) as Hang'.
  pose proof (thrust_bound hu (steer hl hr (ang s)) _ _ Hvx Hvy) as [Ht1 Ht2].
  destruct (thrust _ _ _ _) as [vx0 vy0]. simpl in Ht1, Ht2.
  assert (Forall bullet_pre (bullets s)) as Hbp by (eapply Forall_impl; [exact Hb|exact bullet_ok_pre]).
  pose proof (fire_pre pd (ticks_ms T) (steer hl hr (ang s)) _ _ _ _ _ (last_fire_ms s) (conj Hx Hy) Ht1 Ht2 Hbp) as Hf.
  destruct (fire _ _ _ _ _ _ _ _ _) as [bs0 lf]. simpl in Hf.
  pose proof (friction_bound vx0 Ht1). pose proof (friction_bound vy0 Ht2).
  assert (in_field (wrap_fp (ship_x s + friction vx0) W) (wrap_fp (ship_y s + friction vy0) H)) as Hxy
    by (unfold in_field in *; split; wrap_in).
  match goal with |- context [collide ?r ?k ?px ?py ?sc0 ?bs ?ast] =>
    pose proof (collide_ok r k px py sc0 bs ast (move_bullets_ok _ Hf) (move_asteroids_ok _ Ha)) as Hc;
    destruct (collide r k px py sc0 bs ast) as [[[[bs2 ast1] sc] hit] k1] end.
  destruct Hc as (Hbs & Has & Hsc').
  destruct (_ && _).
  - destruct (lives s - 1 <=? 0) eqn:El; zbool; [simpl; lia|].
    match goal with |- context [next_wave ?r ?t ?st] =>
      assert (ainv_pre st) as Hp; [|pose proof (next_wave_ok r t st Hp) as (Hi & Hlv & Hsv & Hwv)] end.
    + unfold ainv_pre, in_field. simpl. change (W `div` 2 * FP) with 8192. change (H `div` 2 * FP) with 16384.
      change (W * FP) with 16384. change (H * FP) with 32768. split_and!; auto; lia.
    + unfold tick_post. rewrite Hlv, Hsv. simpl in *. split_and!; auto; lia.
  - match goal with |- context [next_wave ?r ?t ?st] =>
      assert (ainv_pre st) as Hp; [|pose proof (next_wave_ok r t st Hp) as (Hi & Hlv & Hsv & Hwv)] end.
    + unfold ainv_pre. simpl. split_and!; auto; lia.
    + unfold tick_post. rewrite Hlv, Hsv. simpl in *. split_and!; auto; lia.
Qed.


(** The score of the pass from any point of it on. *)
Lemma collide_fold_score rnd px py bs0 ast : forall bs na sc hit k,
  Forall2 killed bs0 bs ->
  (foldl (hit_step rnd px py) (bs, na, sc, hit, k) ast).1.1.2 = sc + zsum (map (hit_points bs0) ast).
Proof.
  induction ast as [|a ast IH]; intros bs na sc hit k HF; [simpl; lia|].
  cbn [foldl]. destruct (hit_step rnd px py _ a) as [[[[bs' na'] sc'] hit'] k'] eqn:E.
  destruct (hit_step_spec _ _ _ _ _ _ _ _ _ _ _ _ _ _ _ HF E) as (HF' & -> & _).
  rewrite (IH _ _ _ _ _ HF'). cbn [map]. rewrite zsum_cons. lia.
Qed.

Lemma areach_inv s : areach s -> ainv s.
Proof.
  induction 1 as [rnd k|s env rnd T T2 s' _ IH E]; [apply astart_inv|].
  pose proof (atick_post env rnd T T2 s IH) as Hp. rewrite E in Hp. apply Hp.
Qed.

(** ** Properties of the game *)

(** C14: Every pass of the loop from a reachable state either continues in a
    state of the invariant (ship, bullets and asteroids on the field,
    ship speed at most one pixel a tick, bullets at most 446 units a tick
    with 1 to 37 ticks to live, asteroids at most 125 units a tick with
    radius and squared radius matching their size, a wave in play, one to
    three lives), with at most one life lost, the score not lower and the
    wave at most one further, or ends the game on the last life with the
    score reached. *)
Theorem asteroids_reachable_safe s env rnd T T2 : areach s -> tick_post s (atick env rnd T T2 s).
Proof. intros Hs. apply atick_post, areach_inv, Hs. Qed.

Lemma asteroids_reachable_safe_witness :
  areach (astart (fun k => Z.of_nat k * 37 mod 101) 0) /\
  tick_post (astart (fun k => Z.of_nat k * 37 mod 101) 0)
    (atick (fun _ => mkLevels 1 0 1 1) (fun k => Z.of_nat k * 37 mod 101) 1000 1000
       (astart (fun k => Z.of_nat k * 37 mod 101) 0)).
Proof.
  assert (Hr : areach (astart (fun k => Z.of_nat k * 37 mod 101) 0)) by constructor.
  split; [exact Hr|exact (asteroids_reachable_safe _ _ _ _ _ Hr)].
Defined.

(** [wrap_fp] is the remainder by the field size for every position at
    most one field off it, which covers every move of the game (speeds
    are far below a field a tick). *)
Theorem wrap_fp_mod x m : 0 < m -> - (m * FP) <= x < 2 * (m * FP) -> wrap_fp x m = x mod (m * FP).
Proof.
  intros. unfold wrap_fp. cbv zeta. unfold FP in *. case_ifs.
  - apply Z.mod_unique with (q := -1); lia.
  - apply Z.mod_unique with (q := 1); lia.
  - apply Z.mod_unique with (q := 0); lia.
Qed.

Lemma wrap_fp_mod_witness : 0 < W /\ - (W * FP) <= -5 < 2 * (W * FP) /\ wrap_fp (-5) W = (-5) mod (W * FP).
Proof.
  assert (H1 : 0 < W) by (unfold W; lia).
  assert (H2 : - (W * FP) <= -5 < 2 * (W * FP)) by (unfold W, FP; lia).
  split; [exact H1|split; [exact H2|exact (wrap_fp_mod _ _ H1 H2)]].
Defined.

(** C23: The friction [(v * 245) // 256] leaves a velocity unchanged exactly
    when it is between -23 and 0: floor division rounds toward minus
    infinity, so a ship drifting left or up at up to 23 units a tick
    never stops, while any drift right or down dies out. *)
Theorem friction_fixed_iff v : friction v = v <-> -23 <= v <= 0.
Proof. unfold friction. split; intros; Z.div_mod_to_equations; lia. Qed.

(** C15: The score a collision pass adds is, for every asteroid, its points if
    any bullet the pass started with is near it: a bullet that has already
    hit (its [ttl] set to 0 but still in the list) goes on hitting the
    asteroids after it in the same pass. *)
Theorem collide_score rnd k px py sc bs ast :
  (collide rnd k px py sc bs ast).1.1.2 = sc + zsum (map (hit_points bs) ast).
Proof.
  unfold collide. apply collide_fold_score, killed_refl.
Qed.

(** The ship is protected while [ticks_diff(now, invuln_until) < 0].  At
    the start of a game [invuln_until] is 0, so when the 30-bit
    millisecond counter is in the second half of its period (after about
    6.2 days of uptime, and for the next 6.2 days) the ship of a new game
    cannot be hit until it is hit once or a wave is cleared. *)
Theorem invulnerable_second_half_period env rnd T T2 s :
  invuln_until s = 0 -> TICKS_PERIOD / 2 <= ticks_ms T ->
  exists s', atick env rnd T T2 s = ANext s' /\ lives s' = lives s.
Proof.
  intros Hi Ht. pose proof (ticks_diff_zero_neg T Ht) as Hd.
  unfold atick. cbv zeta. rewrite Hi.
  destruct (EdgeButtons.update8 _ _) as [eb' [[[[[[[pu pd] pl] pr] hu] hd] hl] hr]].
  destruct (thrust _ _ _ _) as [vx0 vy0]. destruct (fire _ _ _ _ _ _ _ _ _) as [bs0 lf].
  match goal with |- context [collide ?r ?k ?px ?py ?sc0 ?bs ?ast] =>
    destruct (collide r k px py sc0 bs ast) as [[[[bs2 ast1] sc] hit] k1] end.
  destruct (0 <=? _) eqn:E; [zbool; lia|]. simpl.
  eexists. split; [reflexivity|]. by rewrite next_wave_lives.
Qed.

Lemma invulnerable_second_half_period_witness :
  invuln_until (astart (fun _ => 1824) 0) = 0 /\ TICKS_PERIOD / 2 <= ticks_ms (2 ^ 29) /\
  exists s', atick (fun _ => mkLevels 1 1 1 1) (fun _ => 1824) (2 ^ 29) (2 ^ 29) (astart (fun _ => 1824) 0) = ANext s' /\
    lives s' = lives (astart (fun _ => 1824) 0).
Proof.
  assert (H1 : invuln_until (astart (fun _ => 1824) 0) = 0) by reflexivity.
  assert (H2 : TICKS_PERIOD / 2 <= ticks_ms (2 ^ 29)) by (vm_compute; discriminate).
  split; [exact H1|split; [exact H2|exact (invulnerable_second_half_period _ _ _ _ _ H1 H2)]].
Defined.

(** [spawn_asteroid] keeps the last of its 20 positions when none is far
    from the ship, and the game starts with [invuln_until = 0]: there are
    draws for which all three asteroids of the first wave start on the
    ship and the first pass of the loop, with no button pressed, costs a
    life. *)
Theorem first_wave_on_ship :
  exists rnd, match atick (fun _ => mkLevels 1 1 1 1) rnd 1000 1000 (astart rnd 0) with
              | ANext s' => lives s' = 2 /\ Forall (fun a => a_x a = ship_x (astart rnd 0) /\ a_y a = ship_y (astart rnd 0))
                                                    (asteroids (astart rnd 0))
              | AOver _ _ => False
              end.
Proof. exists (fun _ => 1824). vm_compute. repeat constructor. Qed.

End Asteroids.
