(* ===== verification/AsteroidsDraw.v ===== *)
(** * What Asteroids draws ([src/asteroids.py], [draw_ship],
    [draw_asteroid] and the draw block of [play_once])

    The ship is a triangle of three [oled.line] calls (nose and the two
    wings at a quarter turn, [DIR] scaled by 6 and 4 pixels), hidden on
    the blinking frames; an asteroid is the closed polygon of its template
    [pts] scaled from [-4..4] to its size [s] around its pixel centre.  The
    frame is the HUD ([L:%d] and the last six digits of the score), the
    asteroids, one pixel per bullet and the ship.  The lines are
    [Canvas]'s [Line] calls: their rasterisation is [framebuf]'s.

    The theorems show that every line of an asteroid's outline joins two
    of its scaled vertices, all in the square of side [2 s] around its
    centre, and that the corner of the
    third template lies outside the circle the bullet test uses: a bullet
    on that drawn corner does not hit. *)

From Stdlib Require Import String.
From stdpp Require Import list strings pretty sets.
From S2P Require Import Prelude Input Canvas Asteroids.

Local Open Scope Z_scope.

Module AsteroidsDraw.
Import Asteroids.

(** [draw_ship(x, y, ang_idx, blink)]. *)
Definition draw_ship (x y ang_idx : Z) (blink : bool) : list fbcall :=
  if blink then [] else
  let '(dx, dy) := dir ang_idx in
  let nx := x + (dx * 6) `div` FP in
  let ny := y + (dy * 6) `div` FP in
  let '(lx, ly) := dir ((ang_idx - 4) .& 15) in
  let '(rx, ry) := dir ((ang_idx + 4) .& 15) in
  let wx1 := x + (lx * 4) `div` FP in
  let wy1 := y + (ly * 4) `div` FP in
  let wx2 := x + (rx * 4) `div` FP in
  let wy2 := y + (ry * 4) `div` FP in
  [Line nx ny wx1 wy1 1; Line nx ny wx2 wy2 1; Line wx1 wy1 wx2 wy2 1].

(** A template point scaled to the asteroid: [(cx + (px * s) // 4,
    cy + (py * s) // 4)]. *)
Definition vertex (cx cy s : Z) (pt : Z * Z) : Z * Z :=
  (cx + (pt.1 * s) `div` 4, cy + (pt.2 * s) `div` 4).

(** The [else] branch of the loop: [line(last, (x, y))], then [last]. *)
Fixpoint chain (last : Z * Z) (vs : list (Z * Z)) : list fbcall * (Z * Z) :=
  match vs with
  | [] => ([], last)
  | v :: vs' => let '(ls, l) := chain v vs' in (Line last.1 last.2 v.1 v.2 1 :: ls, l)
  end.

(** [draw_asteroid(a)]: the chain from the first vertex, then
    [line(last, first)] when there is a first vertex. *)
Definition draw_asteroid (a : asteroid) : list fbcall :=
  match map (vertex (a_x a `div` FP) (a_y a `div` FP) (a_s a)) (a_pts a) with
  | [] => []
  | f :: vs => let '(ls, l) := chain f vs in ls ++ [Line l.1 l.2 f.1 f.2 1]
  end.

(** [sc = str(score)], its last six characters when longer. *)
Definition score_text (score : Z) : string :=
  let sc := pretty score in
  if 6 <? Z.of_nat (String.length sc) then substring (String.length sc - 6) 6 sc else sc.

Definition hud (lives score : Z) : list fbcall :=
  let sc := score_text score in
  [Text (String.append "L:" (pretty lives)) 0 0 1; Text sc (W - Z.of_nat (String.length sc) * 8) 0 1;
   HLine 0 9 W 1].

(** [blink = ((now // 120) & 1) == 0] while invulnerable. *)
Definition blink (now invuln_until : Z) : bool :=
  if ticks_diff now invuln_until <? 0 then (now `div` 120) .& 1 =? 0 else false.

(** [# --- draw ---] of a pass at time [now] on the state [s] it leaves,
    with the ship at the pixel [(ship_px, ship_py)] of its collision
    test. *)
Definition aframe (now ship_px ship_py : Z) (s : astate) : list fbcall :=
  [Fill 0] ++ hud (lives s) (score s) ++
  flat_map draw_asteroid (asteroids s) ++
  map (fun b => Pixel (b_x b `div` FP) (b_y b `div` FP) 1) (bullets s) ++
  draw_ship ship_px ship_py (ang s) (blink now (invuln_until s)).

(** ** The outline of an asteroid *)

(** Every line of the chain joins two of its vertices, and it ends at one. *)
Lemma chain_vertices f vs :
  (chain f vs).2 ∈ f :: vs /\
  forall x0 y0 x1 y1 c, Line x0 y0 x1 y1 c ∈ (chain f vs).1 -> (x0, y0) ∈ f :: vs /\ (x1, y1) ∈ f :: vs.
Proof.
  revert f. induction vs as [|v vs IH]; intros f; simpl.
  - split; [set_solver|]. intros ????? Hin. by apply elem_of_nil in Hin.
  - destruct (IH v) as [Hl Hc]. destruct (chain v vs) as [ls l] eqn:E. simpl in *. split; [set_solver|].
    intros x0 y0 x1 y1 c [Hin|Hin]%elem_of_cons.
    + injection Hin as -> -> -> -> ->. destruct f, v. set_solver.
    + destruct (Hc _ _ _ _ _ Hin). set_solver.
Qed.

(** Every line [draw_asteroid] draws joins two vertices of the scaled
    template. *)
Lemma draw_asteroid_vertices a x0 y0 x1 y1 c :
  Line x0 y0 x1 y1 c ∈ draw_asteroid a ->
  let vs := map (vertex (a_x a `div` FP) (a_y a `div` FP) (a_s a)) (a_pts a) in (x0, y0) ∈ vs /\ (x1, y1) ∈ vs.
Proof.
  unfold draw_asteroid. cbv zeta. destruct (map _ _) as [|f vs]; [by intros ?%elem_of_nil|].
  pose proof (chain_vertices f vs) as [Hl Hc]. destruct (chain f vs) as [ls l]. simpl in *.
  intros [Hin|Hin]%elem_of_app; [by apply Hc in Hin|].
  apply list_elem_of_singleton in Hin. injection Hin as -> -> -> -> ->. destruct l, f. set_solver.
Qed.

(** A template point in [-4..4] lands at most [s] pixels from the centre
    on each axis. *)
Lemma vertex_in_square cx cy s pt :
  0 <= s -> -4 <= pt.1 <= 4 -> -4 <= pt.2 <= 4 ->
  cx - s <= (vertex cx cy s pt).1 <= cx + s /\ cy - s <= (vertex cx cy s pt).2 <= cy + s.
Proof.
  intros Hs H1 H2. unfold vertex. simpl.
  assert (Hd : forall p, -4 <= p <= 4 -> - s <= (p * s) `div` 4 <= s).
  { intros p Hp. split; [apply Z.div_le_lower_bound|apply Z.div_le_upper_bound]; nia. }
  split; [specialize (Hd _ H1)|specialize (Hd _ H2)]; lia.
Qed.

Definition template_ok (pts : list (Z * Z)) : Prop := Forall (fun pt => -4 <= pt.1 <= 4 /\ -4 <= pt.2 <= 4) pts.

Lemma shapes_ok : Forall template_ok shapes.
Proof. unfold template_ok, shapes. repeat constructor; simpl; lia. Qed.

(** Every line of the outline [draw_asteroid] draws for an asteroid of the
    game (its template one of [shapes], its size radius non-negative) has
    both endpoints within [s] pixels of its centre [(x // FP, y // FP)] on
    each axis. *)
Theorem asteroid_outline_in_square a x0 y0 x1 y1 c :
  a_pts a ∈ shapes -> 0 <= a_s a ->
  Line x0 y0 x1 y1 c ∈ draw_asteroid a ->
  let cx := a_x a `div` FP in let cy := a_y a `div` FP in
  cx - a_s a <= x0 <= cx + a_s a /\ cy - a_s a <= y0 <= cy + a_s a /\
  cx - a_s a <= x1 <= cx + a_s a /\ cy - a_s a <= y1 <= cy + a_s a.
Proof.
  intros Hp Hs (H0 & H1)%draw_asteroid_vertices. cbv zeta in *.
  pose proof (proj1 (Forall_forall _ _) shapes_ok _ Hp) as Ht. unfold template_ok in Ht.
  apply list_elem_of_fmap in H0 as (p0 & E0 & Hp0), H1 as (p1 & E1 & Hp1).
  destruct (proj1 (Forall_forall _ _) Ht _ Hp0), (proj1 (Forall_forall _ _) Ht _ Hp1).
  destruct (vertex_in_square (a_x a `div` FP) (a_y a `div` FP) (a_s a) p0), (vertex_in_square (a_x a `div` FP) (a_y a `div` FP) (a_s a) p1);
    try done. rewrite <- E0, <- E1 in *. simpl in *. lia.
Qed.

(** C39: The third template has a vertex at [(4, 4)], drawn at [(cx + s, cy +
    s)], [sqrt 2 * s] from the centre, while a bullet hits only within
    [r2 = s ** 2]: a bullet on that drawn corner does not hit the
    asteroid. *)
Theorem drawn_corner_misses a b :
  asteroid_ok a -> a_pts a = shapes !!! 2%nat ->
  let cx := a_x a `div` FP in let cy := a_y a `div` FP in
  (exists x0 y0, Line x0 y0 (cx + a_s a) (cy + a_s a) 1 ∈ draw_asteroid a) /\
  (b_x b `div` FP = cx + a_s a -> b_y b `div` FP = cy + a_s a -> near cx cy (a_r2 a) b = false).
Proof.
  intros (_ & _ & Hs & Hr & _) Hp. cbv zeta. split.
  - set (v := vertex (a_x a `div` FP) (a_y a `div` FP) (a_s a) (2, 1)). exists v.1, v.2.
    unfold draw_asteroid. rewrite Hp. simpl. rewrite (Z.mul_comm 4), Z.div_mul by lia.
    rewrite !elem_of_cons. do 3 right. by left.
  - intros Hx Hy. unfold near, dist2. rewrite Hx, Hy, Hr. apply Z.leb_gt.
    assert (0 < a_s a) by (rewrite Hs; unfold size_s; case_ifs; lia). nia.
Qed.

Lemma drawn_corner_misses_witness :
  let a := mkA (32 * 256) (64 * 256) 0 0 3 12 144 (shapes !!! 2%nat) in
  let b := mkB (44 * 256) (76 * 256) 0 0 10 in
  asteroid_ok a /\ a_pts a = shapes !!! 2%nat /\
  b_x b `div` FP = a_x a `div` FP + a_s a /\ b_y b `div` FP = a_y a `div` FP + a_s a /\
  ((exists x0 y0, Line x0 y0 (a_x a `div` FP + a_s a) (a_y a `div` FP + a_s a) 1 ∈ draw_asteroid a) /\
   (b_x b `div` FP = a_x a `div` FP + a_s a -> b_y b `div` FP = a_y a `div` FP + a_s a ->
    near (a_x a `div` FP) (a_y a `div` FP) (a_r2 a) b = false)).
Proof.
  cbv zeta.
  assert (Ha : asteroid_ok (mkA (32 * 256) (64 * 256) 0 0 3 12 144 (shapes !!! 2%nat))).
  { unfold asteroid_ok, in_field, size_s, W, H, FP. simpl. lia. }
  split; [exact Ha|]. do 3 (split; [reflexivity|]).
  exact (drawn_corner_misses _ (mkB (44 * 256) (76 * 256) 0 0 10) Ha eq_refl).
Defined.

End AsteroidsDraw.
