(* ===== verification/DonkeyKong.v ===== *)
(** * Donkey Kong ([src/donkey_kong.py]): the barrels stage and its loop

    Mario's position is integer pixels on the 64 x 128 portrait surface;
    the five platforms [PLATS] and the eight [LADDERS] are the code's
    tables.  The barrel and hammer dicts are the records [barrel] and
    [hammer], the barrel's ["state"] string the enumeration [bstate].  The
    random draws are an argument [rnd : nat -> Z], the k-th raw draw, which
    [randint] of [Prelude] brings into its range, threaded as a counter
    ([draws]).  The clock is [Input]'s: [now = ticks_ms T].

    One pass of the inner [while True] loop of [play_once] is [dtick]; it
    takes the time [T] of its [time.ticks_ms()] and the time [T2] of the
    [time.ticks_ms()] of the next stage when this pass clears the stage
    (the outer loop starts the stage again after the banner).  [dreach] are
    the states at the top of the inner loop. *)

From stdpp Require Import list.
From S2P Require Import Prelude Input.

Local Open Scope Z_scope.

Module DonkeyKong.

(** ** Geometry *)

Definition W : Z := 64.
Definition H : Z := 128.
Definition PLATS : list Z := [24; 46; 68; 90; 112].
Definition PLAT_THICK : Z := 2.
Definition PLAT_DIR : list Z := [1; -1; 1; -1; 1].

(** [PLATS[i]]. *)
Definition plat (i : Z) : Z := PLATS !!! Z.to_nat i.

(** [(x, y_top, y_bot)] of each ladder. *)
Definition LADDERS : list (Z * Z * Z) :=
  [(12, plat 0, plat 1); (44, plat 0, plat 1); (20, plat 1, plat 2); (52, plat 1, plat 2);
   (10, plat 2, plat 3); (38, plat 2, plat 3); (26, plat 3, plat 4); (54, plat 3, plat 4)].

Definition DK_X : Z := 5.
Definition PAUL_X : Z := 50.
Definition PAUL_Y : Z := plat 0 - 16.
Definition PX_W : Z := 7.
Definition PX_H : Z := 9.

Definition clamp (v a b : Z) : Z := if v <? a then a else if b <? v then b else v.

Definition rects_overlap (ax ay aw ah bx by_ bw bh : Z) : bool :=
  (ax <? bx + bw) && (bx <? ax + aw) && (ay <? by_ + bh) && (by_ <? ay + ah).

(** [platform_index_for_feet]: the first platform nearest to the feet, if
    it is at most 2 pixels away. *)
Definition platform_index_for_feet (feet_y : Z) : option nat :=
  let '(best_i, best_d) :=
    foldl (fun (acc : option nat * Z) (ip : nat * Z) =>
             let d := Z.abs (feet_y - ip.2) in if d <? acc.2 then (Some ip.1, d) else acc)
          (None, 999) (imap pair PLATS) in
  if best_d <=? 2 then best_i else None.

(** [ladder_at(px, py)]: the first ladder within 3 pixels of Mario's
    centre whose span meets him. *)
Definition ladder_at (px py : Z) : option (Z * Z * Z) :=
  let cx := px + PX_W `div` 2 in
  List.find (fun '(lx, y_top, y_bot) => (Z.abs (cx - lx) <=? 3) && (y_top <=? py + PX_H) && (py <=? y_bot)) LADDERS.

(** ** Barrels *)

Inductive bstate := Roll | Fall | Exit.

#[export] Instance bstate_eq_dec : EqDecision bstate.
Proof. solve_decision. Defined.

(** A barrel dict [{x, y, plat, state, dir, vy, age}]. *)
Record barrel := mkBarrel { b_x : Z; b_y : Z; b_plat : Z; b_state : bstate; b_dir : Z; b_vy : Z; b_age : Z }.

Definition MAX_BARRELS : Z := 5.

Definition spawn_barrel : barrel := mkBarrel (DK_X + 15) (plat 0 - 7) 0 Roll (PLAT_DIR !!! 0%nat) 2 0.

Definition barrel_roll_speed (level : Z) : Z := if level <? 7 then 1 else 2.

(** [len(PLATS) - 1]. *)
Definition LAST : Z := Z.of_nat (length PLATS) - 1.

(** ["fall" if b["plat"] < len(PLATS) - 1 else "exit"]. *)
Definition edge_state (p : Z) : bstate := if p <? LAST then Fall else Exit.

(** The ladder test of the reduced-chance drop. *)
Definition over_ladder (p x : Z) : bool :=
  existsb (fun '(lx, y_top, _) => (y_top =? plat p) && (Z.abs ((x + 3) - lx) <=? 2)) LADDERS.

(** [update_barrel(b, level)]. *)
Definition update_barrel (rnd : nat -> Z) (k : nat) (b : barrel) (level : Z) : barrel * nat :=
  let age := b_age b + 1 in
  let spd := barrel_roll_speed level in
  match b_state b with
  | Roll =>
      let d := PLAT_DIR !!! Z.to_nat (b_plat b) in
      let x0 := b_x b + d * spd in
      let '(x, st) :=
        if (d =? 1) && (W - 7 <=? x0) then (W - 7, edge_state (b_plat b))
        else if (d =? -1) && (x0 <=? 0) then (0, edge_state (b_plat b))
        else (x0, Roll) in
      if b_plat b <? LAST then
        let '(r, k1) := randint rnd k 0 55 in
        let st' := if (r =? 0) && over_ladder (b_plat b) x then Fall else st in
        (mkBarrel x (b_y b) (b_plat b) st' d (b_vy b) age, k1)
      else (mkBarrel x (b_y b) (b_plat b) st d (b_vy b) age, k)
  | Fall =>
      let y := b_y b + b_vy b in
      let nxt := b_plat b + 1 in
      if (nxt <? Z.of_nat (length PLATS)) && (plat nxt <=? y + 7) then
        (mkBarrel (b_x b) (plat nxt - 7) nxt Roll (b_dir b) (b_vy b) age, k)
      else (mkBarrel (b_x b) y (b_plat b) Fall (b_dir b) (b_vy b) age, k)
  | Exit => (mkBarrel (b_x b + b_dir b * 3) (b_y b) (b_plat b) Exit (b_dir b) (b_vy b) age, k)
  end.

(** The three [continue]s of the barrel loop: a barrel is kept unless it
    has left the screen sideways, is too old, or has fallen off the
    bottom. *)
Definition keep_barrel (b : barrel) : bool :=
  negb (bool_decide (b_state b = Exit) && ((b_x b <? -10) || (W + 10 <? b_x b))) &&
  negb (1700 <? b_age b) && negb (H + 10 <? b_y b).

(** [for b in barrels: update_barrel(b, level); ...; nb.append(b)]. *)
Fixpoint update_barrels (rnd : nat -> Z) (k : nat) (level : Z) (bs : list barrel) : list barrel * nat :=
  match bs with
  | [] => ([], k)
  | b :: bs' =>
      let '(b', k1) := update_barrel rnd k b level in
      let '(rest, k2) := update_barrels rnd k1 level bs' in
      (if keep_barrel b' then b' :: rest else rest, k2)
  end.

(** [next_spawn_delay_ms(level)]. *)
Definition next_spawn_delay_ms (rnd : nat -> Z) (k : nat) (level : Z) : Z * nat :=
  let tighten := (level - 1) * 60 in
  let lo := Z.max 800 (1050 - tighten) in
  let hi := Z.max (lo + 350) (2400 - tighten) in
  let '(r, k1) := randint rnd k 0 11 in
  if r =? 0 then randint rnd k1 hi (hi + 900) else randint rnd k1 lo hi.

(** ** Hammers *)

Definition HAMMER_DURATION_MS : Z := 7500.
Definition HAMMER_SCORE : Z := 90.
Definition HAMMER_SPAWNS : list (Z * Z) := [(6, 3); (52, 1)].

(** A hammer dict [{x, y, taken}]. *)
Record hammer := mkHammer { h_x : Z; h_y : Z; h_taken : bool }.

Definition init_hammers : list hammer := map (fun '(hx, pi) => mkHammer hx (plat pi - 7) false) HAMMER_SPAWNS.

(** ** Physics *)

Definition GRAV : Z := 1.
Definition JUMP_V : Z := -6.

Definition is_some {A} (o : option A) : bool := match o with Some _ => true | None => false end.

(** The [else] branch of the movement: gravity, then the first platform
    the feet reach falling, else the floor. *)
Definition gravity_step (py vy : Z) (jumping : bool) : Z * Z * bool :=
  let vy := vy + GRAV in
  let py := py + vy in
  let feet := py + PX_H in
  match List.find (fun pyy => (pyy <=? feet) && (feet <=? pyy + 4) && (0 <=? vy)) PLATS with
  | Some pyy => (pyy - PX_H, 0, false)
  | None => if H - PX_H <? py then (H - PX_H, 0, false) else (py, vy, jumping)
  end.

(** The climbing branch: snap to the ladder when not walking, one pixel
    up or down, kept on the ladder's span. *)
Definition climb_step (lad : Z * Z * Z) (vx px py : Z) (held_u held_d : bool) : Z * Z :=
  let '(lx, y_top, y_bot) := lad in
  let px := if (vx =? 0) && (Z.abs ((px + PX_W `div` 2) - lx) <=? 3) then clamp (lx - PX_W `div` 2) 0 (W - PX_W) else px in
  let py := if held_u && negb held_d then py - 1 else if held_d && negb held_u then py + 1 else py in
  (px, clamp py (y_top - PX_H) y_bot).

(** ** The game state *)

(** The locals of [play_once] that live across passes of its loop. *)
Record dstate := mkD {
  eb : EdgeButtons.t; score : Z; lives : Z; level : Z;
  px : Z; py : Z; vy : Z; jumping : bool; climbing : bool; invuln_until : Z;
  barrels : list barrel; next_spawn : Z; hammer_active_until : Z; hammers : list hammer; draws : nat }.

Inductive dresult := DNext (s : dstate) | DOver (final_score final_level : Z).

(** The top of the outer [while True]: a stage starts with the clock at [now]. *)
Definition new_stage (now : Z) (e : EdgeButtons.t) (sc lv lev : Z) (k : nat) : dstate :=
  mkD e sc lv lev 4 (PLATS !!! (length PLATS - 1)%nat - PX_H) 0 false false 0 [] (ticks_add now 1400) 0 init_hammers k.

(** [play_once] after the title, the first stage started at [T0]. *)
Definition dstart (k : nat) (T0 : Z) : dstate := new_stage (ticks_ms T0) EdgeButtons.init 0 3 1 k.

(** ** One pass of the loop, phase by phase *)

(** The movement block: from the edges and levels to Mario's new [px],
    [py], [vy], [jumping], [climbing]; also [pi], the platform of the feet
    before moving, which the spawn control reads later. *)
Definition player_move (pd held_u held_d held_l held_r : bool) (s : dstate)
    : Z * Z * Z * bool * bool * option nat :=
  let vx := if held_l then -1 else if held_r then 1 else 0 in
  let lad0 := ladder_at (px s) (py s) in
  let pi := platform_index_for_feet (py s + PX_H) in
  let '(climbing0, vy0, py0, lad) :=
    match lad0, pi with
    | Some _, Some i =>
        if negb (vx =? 0) && negb (jumping s) then (false, 0, PLATS !!! i - PX_H, None)
        else (climbing s, vy s, py s, lad0)
    | _, _ => (climbing s, vy s, py s, lad0)
    end in
  let climbing1 := if is_some lad && (held_u || held_d) && negb (jumping s) then true else climbing0 in
  let climbing2 := if climbing1 && negb (is_some lad) then false else climbing1 in
  let '(jumping1, vy1) :=
    if pd && negb (jumping s) && negb climbing2 && negb (is_some lad) && is_some pi then (true, JUMP_V)
    else (jumping s, vy0) in
  let px1 := clamp (px s + vx) 0 (W - PX_W) in
  match lad with
  | Some l =>
      if climbing2 then let '(px2, py2) := climb_step l vx px1 py0 held_u held_d in (px2, py2, 0, false, climbing2, pi)
      else let '(py2, vy2, j2) := gravity_step py0 vy1 jumping1 in (px1, py2, vy2, j2, climbing2, pi)
  | None => let '(py2, vy2, j2) := gravity_step py0 vy1 jumping1 in (px1, py2, vy2, j2, climbing2, pi)
  end.

(** [if not hammer_active:] the first hammer not taken under Mario is
    taken; returns the hammers and [hammer_active_until]. *)
Definition hammer_pickup (now mx my hau : Z) (hs : list hammer) : list hammer * Z :=
  if ticks_diff now hau <? 0 then (hs, hau)
  else match list_find (fun h => negb (h_taken h) && rects_overlap mx my PX_W PX_H (h_x h) (h_y h) 7 7 = true) hs with
       | Some (i, _) => (alter (fun h => mkHammer (h_x h) (h_y h) true) i hs, ticks_add now HAMMER_DURATION_MS)
       | None => (hs, hau)
       end.

(** The barrel spawn control, paused near the goal. *)
Definition spawn_control (rnd : nat -> Z) (k : nat) (now lev : Z) (pi : option nat) (mx my : Z)
    (bs : list barrel) (ns : Z) : list barrel * Z * nat :=
  let on_top := bool_decide (pi = Some 0%nat) && (my <=? plat 0 - PX_H + 1) in
  let near_goal := on_top && (40 <=? mx) in
  let allow_spawn := negb near_goal in
  if allow_spawn && (0 <=? ticks_diff now ns) then
    let '(bs', k1) :=
      if Z.of_nat (length bs) <? MAX_BARRELS then
        let '(r, k1) := randint rnd k 0 11 in (if negb (r =? 0) then bs ++ [spawn_barrel] else bs, k1)
      else (bs, k) in
    let '(d, k2) := next_spawn_delay_ms rnd k1 lev in
    (bs', ticks_add now d, k2)
  else if negb allow_spawn then (bs, ticks_add now 750, k)
  else (bs, ns, k).

(** [b["state"] != "exit" and rects_overlap(px, py, PX_W, PX_H, b["x"], b["y"], 7, 7)]. *)
Definition barrel_hits (mx my : Z) (b : barrel) : bool :=
  negb (bool_decide (b_state b = Exit)) && rects_overlap mx my PX_W PX_H (b_x b) (b_y b) 7 7.

(** [[idx for idx, b in enumerate(barrels, i) if ...]]. *)
Fixpoint killed_from (mx my : Z) (i : nat) (bs : list barrel) : list nat :=
  match bs with
  | [] => []
  | b :: bs' => (if barrel_hits mx my b then [i] else []) ++ killed_from mx my (S i) bs'
  end.

(** [killed = [idx for idx, b in enumerate(barrels) if ...]]. *)
Definition killed_indices (mx my : Z) (bs : list barrel) : list nat := killed_from mx my 0 bs.

(** The hammer smash: [barrels.pop(idx)] for the killed indices in
    reverse order, and their points. *)
Definition hammer_smash (mx my : Z) (bs : list barrel) (sc : Z) : list barrel * Z :=
  match killed_indices mx my bs with
  | [] => (bs, sc)
  | killed => (foldl (fun bs i => delete i bs) bs (reverse killed), sc + HAMMER_SCORE * Z.of_nat (length killed))
  end.

(** [if rects_overlap(px, py, PX_W, PX_H, PAUL_X, PAUL_Y, 10, 14):] the
    stage is cleared and the next one starts with the clock at [T2]. *)
Definition win_check (T2 : Z) (s : dstate) : dstate :=
  if rects_overlap (px s) (py s) PX_W PX_H PAUL_X PAUL_Y 10 14
  then new_stage (ticks_ms T2) (eb s) (score s + 200) (lives s) (level s + 1) (draws s)
  else s.

(** One pass of the inner [while True] of [play_once], up to the drawing. *)
Definition dtick (env : Z -> levels) (rnd : nat -> Z) (T T2 : Z) (s : dstate) : dresult :=
  let now := ticks_ms T in
  let '(eb', (pu, pd, pl, pr, held_u, held_d, held_l, held_r)) := EdgeButtons.update8 (eb s) (env T) in
  let '(mx, my, vy1, jumping1, climbing1, pi) := player_move pd held_u held_d held_l held_r s in
  let '(hs, hau) := hammer_pickup now mx my (hammer_active_until s) (hammers s) in
  let hammer_active := ticks_diff now hau <? 0 in
  let '(bs0, ns, k1) := spawn_control rnd (draws s) now (level s) pi mx my (barrels s) (next_spawn s) in
  let '(bs1, k2) := update_barrels rnd k1 (level s) bs0 in
  let '(bs2, sc) := if hammer_active then hammer_smash mx my bs1 (score s) else (bs1, score s) in
  if negb hammer_active && (0 <=? ticks_diff now (invuln_until s)) && existsb (barrel_hits mx my) bs2 then
    if lives s - 1 <=? 0 then DOver sc (level s)
    else DNext (win_check T2 (mkD eb' sc (lives s - 1) (level s) 4 (PLATS !!! (length PLATS - 1)%nat - PX_H) 0 false false
                                (ticks_add now 1600) bs2 ns hau hs k2))
  else DNext (win_check T2 (mkD eb' sc (lives s) (level s) mx my vy1 jumping1 climbing1 (invuln_until s) bs2 ns hau hs k2)).

(** The states at the top of the inner loop. *)
Inductive dreach : dstate -> Prop :=
| dreach_start k T0 : dreach (dstart k T0)
| dreach_step s env rnd T T2 s' : dreach s -> dtick env rnd T T2 s = DNext s' -> dreach s'.

(** Passes at the times [Ts], the next stage (if any) starting at the
    time of the pass. *)
Fixpoint drun (env : Z -> levels) (rnd : nat -> Z) (Ts : list Z) (s : dstate) : option dstate :=
  match Ts with
  | [] => Some s
  | T :: Ts' => match dtick env rnd T T s with DNext s' => drun env rnd Ts' s' | DOver _ _ => None end
  end.

(** ** What the loop keeps *)

(** A barrel on a platform index, never below the bottom platform's
    rolling height, falling only above the last platform. *)
Definition barrel_ok (b : barrel) : Prop :=
  0 <= b_plat b <= LAST /\ b_y b <= plat LAST - 7 /\ (b_state b = Fall -> b_plat b < LAST).

(** The state at the top of the inner loop. *)
Definition dinv (s : dstate) : Prop :=
  0 <= px s <= W - PX_W /\ py s <= H - PX_H /\ 1 <= lives s <= 3 /\ 0 <= score s /\ 1 <= level s /\
  Forall barrel_ok (barrels s) /\ Z.of_nat (length (barrels s)) <= MAX_BARRELS /\
  Forall (fun h => h_y h <= plat 3 - 7) (hammers s).

(** What one pass guarantees. *)
Definition tick_post (s : dstate) (r : dresult) : Prop :=
  match r with
  | DNext s' =>
      dinv s' /\ (lives s' = lives s \/ lives s' = lives s - 1) /\ score s <= score s' /\
      (level s' = level s \/ level s' = level s + 1)
  | DOver sc lv => lives s = 1 /\ score s <= sc /\ lv = level s
  end.

(** Mario under the bottom platform, standing on the bottom edge of the
    screen. *)
Definition stuck (s : dstate) : Prop := py s = H - PX_H /\ vy s = 0.

(** ** Geometry lemmas *)

Lemma clamp_range v a b : a <= b -> a <= clamp v a b <= b.
Proof. intros. unfold clamp. case_ifs; lia. Qed.

Lemma plat_le p : plat p <= 112.
Proof. unfold plat. apply (Forall_lookup_total (fun z => z <= 112)); [repeat constructor; lia|simpl; lia]. Qed.

Lemma plat_hammer : plat 1 - 7 <= plat 3 - 7.
Proof. vm_compute. discriminate. Qed.

Lemma ladders_span l : In l LADDERS -> l.1.2 - PX_H <= l.2 <= 112.
Proof. simpl. intros Hl. repeat destruct Hl as [<-|Hl]; [..|done]; vm_compute; split; discriminate. Qed.

Lemma ladder_at_span px py l : ladder_at px py = Some l -> l.1.2 - PX_H <= l.2 <= 112.
Proof. unfold ladder_at. intros E. apply find_some in E as [Hin _]. by apply ladders_span. Qed.

Lemma gravity_step_below py vy j : (gravity_step py vy j).1.1 <= H - PX_H.
Proof.
  unfold gravity_step. destruct (List.find _ PLATS) as [pyy|] eqn:E.
  - apply find_some in E as [Hin _]. simpl in Hin. unfold H, PX_H. simpl.
    repeat destruct Hin as [<-|Hin]; [..|done]; lia.
  - case_ifs; simpl; unfold H, PX_H, GRAV in *; lia.
Qed.

Lemma climb_step_range l vx px0 py0 hu hd :
  l.1.2 - PX_H <= l.2 <= 112 -> 0 <= px0 <= W - PX_W ->
  0 <= (climb_step l vx px0 py0 hu hd).1 <= W - PX_W /\ (climb_step l vx px0 py0 hu hd).2 <= H - PX_H.
Proof.
  destruct l as [[lx yt] yb]. simpl. intros Hl Hp.
  pose proof (clamp_range (lx - PX_W `div` 2) 0 (W - PX_W)). unfold W, PX_W, H, PX_H in *.
  split; [destruct (_ && _); simpl; lia|].
  pose proof (clamp_range (if hu && negb hd then py0 - 1 else if hd && negb hu then py0 + 1 else py0) (yt - 9) yb). lia.
Qed.

(** Mario stays on the screen's width and above its bottom edge. *)
Lemma player_move_range pd hu hd hl hr s :
  0 <= px s <= W - PX_W ->
  let '(mx, my, _, _, _, _) := player_move pd hu hd hl hr s in 0 <= mx <= W - PX_W /\ my <= H - PX_H.
Proof.
  intros Hp. unfold player_move. cbv zeta.
  set (vx := if hl then -1 else if hr then 1 else 0).
  pose proof (clamp_range (px s + vx) 0 (W - PX_W)) as Hc.
  destruct (ladder_at (px s) (py s)) as [l0|] eqn:El0; destruct (platform_index_for_feet _) as [i|];
    repeat case_match; simplify_eq/=;
    repeat match goal with
    | E : climb_step ?l ?v ?a ?b ?u ?d = (_, _) |- _ =>
        let Hs := fresh in pose proof (climb_step_range l v a b u d) as Hs; rewrite E in Hs; simpl in Hs;
        clear E; destruct Hs as [? ?]; [eapply ladder_at_span; eassumption|unfold W, PX_W in *; lia|]
    | E : gravity_step ?a ?b ?c = (_, _, _) |- _ =>
        let Hs := fresh in pose proof (gravity_step_below a b c) as Hs; rewrite E in Hs; simpl in Hs; clear E
    end; unfold W, PX_W in *; lia.
Qed.

(** ** Barrels *)

Lemma LAST_eq : LAST = 4.
Proof. reflexivity. Qed.

Lemma plat_LAST : plat LAST = 112.
Proof. reflexivity. Qed.

Lemma update_barrel_ok rnd k b lev : barrel_ok b -> barrel_ok (update_barrel rnd k b lev).1.
Proof.
  unfold barrel_ok, update_barrel, edge_state. rewrite plat_LAST, LAST_eq.
  intros (Hp & Hy & Hf). pose proof (plat_le (b_plat b + 1)).
  destruct (b_state b); repeat case_match; simplify_eq/=; zbools; split_and?; try lia; intros; try discriminate.
  all: try specialize (Hf eq_refl); lia.
Qed.

Lemma update_barrels_ok rnd k lev bs :
  Forall barrel_ok bs ->
  Forall barrel_ok (update_barrels rnd k lev bs).1 /\ (length (update_barrels rnd k lev bs).1 <= length bs)%nat.
Proof.
  revert k. induction bs as [|b bs IH]; intros k Hbs; simpl; [done|]. inversion Hbs; subst.
  destruct (update_barrel rnd k b lev) as [b' k1] eqn:E.
  pose proof (update_barrel_ok rnd k b lev) as Hb. rewrite E in Hb. simpl in Hb.
  destruct (IH k1) as [IH1 IH2]; [done|]. destruct (update_barrels rnd k1 lev bs) as [rest k2]. simpl in *.
  destruct (keep_barrel b'); simpl; split; auto; lia.
Qed.

Lemma spawn_control_ok rnd k now lev pi mx my bs ns :
  Forall barrel_ok bs -> Z.of_nat (length bs) <= MAX_BARRELS ->
  let r := (spawn_control rnd k now lev pi mx my bs ns).1.1 in Forall barrel_ok r /\ Z.of_nat (length r) <= MAX_BARRELS.
Proof.
  intros Hbs Hl. unfold spawn_control.
  assert (barrel_ok spawn_barrel) by (vm_compute; split_and!; try discriminate; done).
  repeat case_match; simplify_eq/=; zbools; auto.
  all: rewrite length_app; split; [apply Forall_app_2; auto|simpl; unfold MAX_BARRELS in *; lia].
Qed.

(** ** The hammer smash *)

Lemma killed_from_S mx my i bs : killed_from mx my (S i) bs = map S (killed_from mx my i bs).
Proof.
  revert i. induction bs as [|b bs IH]; intros i; simpl; [done|].
  rewrite IH, map_app. by destruct (barrel_hits mx my b).
Qed.

Lemma killed_from_length mx my i bs : length (killed_from mx my i bs) = length (List.filter (barrel_hits mx my) bs).
Proof.
  revert i. induction bs as [|b bs IH]; intros i; simpl; [done|].
  destruct (barrel_hits mx my b); simpl; by rewrite IH.
Qed.

Lemma foldl_delete_S (b : barrel) bs ks :
  foldl (fun l i => delete i l) (b :: bs) (map S ks) = b :: foldl (fun l i => delete i l) bs ks.
Proof. revert bs. induction ks as [|i ks IH]; intros bs; simpl; [done|]. apply IH. Qed.

Lemma reverse_map {A B} (f : A -> B) l : reverse (map f l) = map f (reverse l).
Proof. induction l as [|x l IH]; [done|]. simpl. rewrite !reverse_cons, map_app, IH. done. Qed.

(** Popping the killed indices from the last to the first removes
    exactly the barrels hit. *)
Lemma smash_fold mx my bs :
  foldl (fun l i => delete i l) bs (reverse (killed_indices mx my bs)) =
  List.filter (fun b => negb (barrel_hits mx my b)) bs.
Proof.
  unfold killed_indices. induction bs as [|b bs IH]; [done|]. simpl.
  rewrite killed_from_S, reverse_app, foldl_app, reverse_map, foldl_delete_S, IH.
  by destruct (barrel_hits mx my b).
Qed.

(** C24: The hammer smash removes exactly the barrels Mario touches that have
    not left the stage, and scores [HAMMER_SCORE] for each: popping the
    killed indices in reverse order is a filter. *)
Theorem hammer_smash_spec mx my bs sc :
  hammer_smash mx my bs sc =
  (List.filter (fun b => negb (barrel_hits mx my b)) bs,
   sc + HAMMER_SCORE * Z.of_nat (length (List.filter (barrel_hits mx my) bs))).
Proof.
  pose proof (smash_fold mx my bs) as Hf. pose proof (killed_from_length mx my 0 bs) as Hl.
  unfold hammer_smash. fold (killed_indices mx my bs) in Hl. destruct (killed_indices mx my bs) as [|i ks].
  - simpl in Hf, Hl. rewrite <- Hf, <- Hl. f_equal. lia.
  - by rewrite Hf, Hl.
Qed.

Lemma hammer_smash_ok mx my bs sc :
  Forall barrel_ok bs -> Z.of_nat (length bs) <= MAX_BARRELS ->
  let r := hammer_smash mx my bs sc in
  Forall barrel_ok r.1 /\ Z.of_nat (length r.1) <= MAX_BARRELS /\ sc <= r.2.
Proof.
  intros Hbs Hl. rewrite hammer_smash_spec. simpl. split_and!.
  - apply Forall_forall. intros b Hb. apply list_elem_of_In, filter_In in Hb as [Hb _].
    rewrite Forall_forall in Hbs. apply Hbs, list_elem_of_In, Hb.
  - pose proof (filter_length_le (fun b => negb (barrel_hits mx my b)) bs). lia.
  - unfold HAMMER_SCORE. lia.
Qed.

(** ** Hammers and stages *)

Lemma hammer_pickup_ok now mx my hau hs :
  Forall (fun h => h_y h <= plat 3 - 7) hs -> Forall (fun h => h_y h <= plat 3 - 7) (hammer_pickup now mx my hau hs).1.
Proof.
  intros Hhs. unfold hammer_pickup. repeat case_match; simplify_eq/=; auto.
  apply Forall_alter; auto.
Qed.

Lemma new_stage_inv now e sc lv lev k :
  0 <= sc -> 1 <= lv <= 3 -> 1 <= lev -> dinv (new_stage now e sc lv lev k).
Proof.
  intros. unfold dinv, new_stage. simpl. split_and!; try (vm_compute; discriminate); auto; try lia.
  unfold init_hammers. simpl. repeat constructor; simpl; [reflexivity|apply plat_hammer].
Qed.

Lemma win_check_post T2 s :
  dinv s ->
  let s' := win_check T2 s in
  dinv s' /\ lives s' = lives s /\ score s <= score s' /\ (level s' = level s \/ level s' = level s + 1).
Proof.
  intros Hs. unfold win_check. destruct (rects_overlap _ _ _ _ _ _ _ _); [|split_and!; auto; lia].
  destruct Hs as (_ & _ & ? & ? & ? & _). simpl. split_and!; try lia. apply new_stage_inv; lia.
Qed.

(** ** The whole pass *)

(** Close a pass that goes on through [win_check]. *)
Ltac finish_win :=
  match goal with |- tick_post _ (DNext (win_check ?t ?st)) =>
    let Hst := fresh in
    assert (dinv st) as Hst;
    [unfold dinv; simpl; split_and!; auto; unfold W, PX_W, H, PX_H in *; simpl; lia
    |pose proof (win_check_post t st Hst) as (? & ? & ? & ?); unfold tick_post; simpl in *; split_and!; auto; lia]
  end.

(** One pass from a state of the invariant satisfies [tick_post]. *)
Lemma dtick_post env rnd T T2 s : dinv s -> tick_post s (dtick env rnd T T2 s).
Proof.
  intros (Hpx & Hpy & Hl & Hsc & Hlev & Hbs & Hlen & Hhs).
  unfold dtick. cbv zeta.
  destruct (EdgeButtons.update8 _ _) as [eb' [[[[[[[pu pd] pl] pr] hu] hd] hl] hr]].
  pose proof (player_move_range pd hu hd hl hr s Hpx) as Hm.
  destruct (player_move _ _ _ _ _ _) as [[[[[mx my] vy1] j1] c1] pi]. destruct Hm as [Hmx Hmy].
  pose proof (hammer_pickup_ok (ticks_ms T) mx my (hammer_active_until s) (hammers s) Hhs) as Hh.
  destruct (hammer_pickup _ _ _ _ _) as [hs hau]. simpl in Hh.
  pose proof (spawn_control_ok rnd (draws s) (ticks_ms T) (level s) pi mx my (barrels s) (next_spawn s) Hbs Hlen)
    as [Hb0 Hl0].
  destruct (spawn_control _ _ _ _ _ _ _ _ _) as [[bs0 ns] k1]. simpl in Hb0, Hl0.
  pose proof (update_barrels_ok rnd k1 (level s) bs0 Hb0) as [Hb1 Hl1].
  destruct (update_barrels _ _ _ _) as [bs1 k2]. simpl in Hb1, Hl1.
  assert (Z.of_nat (length bs1) <= MAX_BARRELS) as Hl1' by lia.
  destruct (ticks_diff (ticks_ms T) hau <? 0) eqn:Ha.
  - pose proof (hammer_smash_ok mx my bs1 (score s) Hb1 Hl1') as (Hb2 & Hl2 & Hsc2).
    destruct (hammer_smash mx my bs1 (score s)) as [bs2 sc]. simpl in Hb2, Hl2, Hsc2. cbn [negb andb]. finish_win.
  - cbn [negb andb]. destruct (_ && _); [destruct (lives s - 1 <=? 0) eqn:El; zbool; [simpl; lia|]|]; finish_win.
Qed.

Lemma dstart_inv k T0 : dinv (dstart k T0).
Proof. apply new_stage_inv; lia. Qed.

Lemma dreach_inv s : dreach s -> dinv s.
Proof.
  induction 1 as [k T0|s env rnd T T2 s' _ IH E]; [apply dstart_inv|].
  pose proof (dtick_post env rnd T T2 s IH) as Hp. rewrite E in Hp. apply Hp.
Qed.

(** ** Under the bottom platform *)

Lemma rects_overlap_above ax ay aw ah bx by_ bw bh :
  by_ + bh <= ay -> rects_overlap ax ay aw ah bx by_ bw bh = false.
Proof.
  intros. unfold rects_overlap. replace (ay <? by_ + bh) with false by (symmetry; apply Z.ltb_ge; lia).
  by rewrite andb_false_r.
Qed.

Lemma ladder_at_bottom px : ladder_at px (H - PX_H) = None.
Proof. unfold ladder_at. simpl. rewrite !andb_false_r. reflexivity. Qed.

(** Standing on the bottom edge, Mario has no ladder and no platform: he
    can only walk, and gravity puts him back on the edge. *)
Lemma player_move_stuck pd hu hd hl hr s :
  stuck s -> let '(_, my, vy', _, _, pi) := player_move pd hu hd hl hr s in my = H - PX_H /\ vy' = 0 /\ pi = None.
Proof.
  intros [Hpy Hvy]. unfold player_move. rewrite Hpy, Hvy, ladder_at_bottom.
  replace (platform_index_for_feet (H - PX_H + PX_H)) with (@None nat) by reflexivity.
  cbv zeta. destruct (climbing s), (jumping s), pd, hu, hd; simpl; auto.
Qed.

Lemma barrel_ok_below mx b : barrel_ok b -> barrel_hits mx (H - PX_H) b = false.
Proof.
  intros (_ & Hy & _). unfold barrel_hits. rewrite plat_LAST in Hy.
  rewrite rects_overlap_above; [apply andb_false_r|unfold H, PX_H; lia].
Qed.

Lemma filter_all_true {A} (f : A -> bool) l : Forall (fun x => f x = true) l -> List.filter f l = l.
Proof. induction 1 as [|x l Hx _ IH]; simpl; [done|]. by rewrite Hx, IH. Qed.

Lemma filter_all_false {A} (f : A -> bool) l : Forall (fun x => f x = false) l -> List.filter f l = [] /\ existsb f l = false.
Proof. induction 1 as [|x l Hx _ [IH1 IH2]]; simpl; [done|]. by rewrite Hx, IH1, IH2. Qed.

Lemma win_check_lives T2 s : lives (win_check T2 s) = lives s.
Proof. unfold win_check. by destruct (rects_overlap _ _ _ _ _ _ _ _). Qed.

Lemma drun_reach env rnd Ts s s' : dreach s -> drun env rnd Ts s = Some s' -> dreach s'.
Proof.
  revert s. induction Ts as [|T Ts IH]; intros s Hs E; simpl in E; [by simplify_eq|].
  destruct (dtick env rnd T T s) as [s1|] eqn:E1; [|done]. eapply IH; [|exact E]. econstructor; eauto.
Qed.

(** ** Properties of the game *)

(** C16: Every pass of the Donkey Kong loop from a reachable state either
    continues in a state of the invariant (Mario within the screen's
    width and above its bottom edge, at most five barrels, each on a
    platform index, never lower than the bottom platform and falling only
    above it, hammers on their platforms, one to three lives) with at most
    one life lost, the score not lower and the level at most one further,
    or ends the game on the last life with the score reached. *)
Theorem dk_reachable_safe s env rnd T T2 : dreach s -> tick_post s (dtick env rnd T T2 s).
Proof. intros Hs. apply dtick_post, dreach_inv, Hs. Qed.

Lemma dk_reachable_safe_witness :
  dreach (dstart 0 0) /\ tick_post (dstart 0 0) (dtick (fun _ => mkLevels 1 1 1 0) (fun k => Z.of_nat k * 37 mod 101) 500 500 (dstart 0 0)).
Proof.
  assert (Hr : dreach (dstart 0 0)) by constructor.
  split; [exact Hr|exact (dk_reachable_safe _ _ _ _ _ Hr)].
Defined.

(** C17: Once Mario stands on the bottom edge of the screen, under the bottom
    platform, the game is stuck: whatever the buttons, the times and the
    draws, the next pass leaves him there, with the same lives, score and
    level (no ladder reaches him, he cannot jump, and no barrel, hammer or
    Pauline is low enough to meet him).  He gets there by leaving a ladder
    with his feet 16 pixels above a platform: falling from rest he covers
    15 pixels, then 21, and the 5-pixel landing window is missed. *)
Theorem reachable_stuck_forever s env rnd T T2 :
  dreach s -> stuck s ->
  exists s', dtick env rnd T T2 s = DNext s' /\ stuck s' /\ lives s' = lives s /\ score s' = score s /\ level s' = level s.
Proof.
  intros Hr Hst. pose proof (dreach_inv s Hr) as (Hpx & Hpy & Hl & Hsc & Hlev & Hbs & Hlen & Hhs).
  unfold dtick. cbv zeta.
  destruct (EdgeButtons.update8 _ _) as [eb' [[[[[[[pu pd] pl] pr] hu] hd] hl] hr]].
  pose proof (player_move_stuck pd hu hd hl hr s Hst) as Hm.
  destruct (player_move _ _ _ _ _ _) as [[[[[mx my] vy1] j1] c1] pi]. destruct Hm as (-> & -> & ->).
  destruct (hammer_pickup _ _ _ _ _) as [hs hau].
  pose proof (spawn_control_ok rnd (draws s) (ticks_ms T) (level s) None mx (H - PX_H) (barrels s) (next_spawn s) Hbs Hlen)
    as [Hb0 _].
  destruct (spawn_control _ _ _ _ _ _ _ _ _) as [[bs0 ns] k1]. simpl in Hb0.
  pose proof (update_barrels_ok rnd k1 (level s) bs0 Hb0) as [Hb1 _].
  destruct (update_barrels _ _ _ _) as [bs1 k2]. simpl in Hb1.
  assert (Forall (fun b => barrel_hits mx (H - PX_H) b = false) bs1) as Hn
    by (eapply Forall_impl; [exact Hb1|intros; by apply barrel_ok_below]).
  pose proof (filter_all_false _ _ Hn) as [Hf Hex].
  assert (Forall (fun b => negb (barrel_hits mx (H - PX_H) b) = true) bs1) as Hn'
    by (eapply Forall_impl; [exact Hn|intros b ->; done]).
  destruct (ticks_diff (ticks_ms T) hau <? 0);
    [rewrite hammer_smash_spec, filter_all_true, Hf by exact Hn'|]; cbn [negb andb]; rewrite ?Hex, ?andb_false_r;
    unfold win_check; rewrite rects_overlap_above by (vm_compute; discriminate);
    eexists; (split; [reflexivity|]); unfold stuck; simpl; split_and!; auto; lia.
Qed.

Lemma reachable_stuck_forever_witness :
  let env := fun T => if T <? 1160 then mkLevels 1 1 1 0 else if T <? 1320 then mkLevels 0 1 1 1
                      else if T <? 1370 then mkLevels 1 1 1 0 else mkLevels 1 1 1 1 in
  let s := default (dstart 0 0) (drun env (fun _ => 7) (map (fun i => 1000 + 10 * Z.of_nat i) (seq 0 45)) (dstart 0 0)) in
  dreach s /\ stuck s /\
  exists s', dtick (fun _ => mkLevels 0 0 0 0) (fun _ => 7) 2000 2000 s = DNext s' /\ stuck s' /\
    lives s' = lives s /\ score s' = score s /\ level s' = level s.
Proof.
  intros env s.
  assert (Hr : dreach s).
  { apply (drun_reach env (fun _ => 7) (map (fun i => 1000 + 10 * Z.of_nat i) (seq 0 45)) (dstart 0 0));
      [constructor|vm_compute; reflexivity]. }
  assert (Hs : stuck s) by (split; vm_compute; reflexivity).
  split; [exact Hr|split; [exact Hs|exact (reachable_stuck_forever _ _ _ _ _ Hr Hs)]].
Defined.

(** C29: [hammer_active_until] starts at 0 every stage and the hammer is
    active while [ticks_diff(now, hammer_active_until) < 0]: when a stage
    starts with [ticks_ms()] in the second half of its 2^30 period, Mario
    holds the hammer from the start (barrels he touches are smashed for
    points) and no barrel can cost him a life while the clock stays in
    that half. *)
Theorem hammer_active_second_half env rnd T T2 s :
  hammer_active_until s = 0 -> TICKS_PERIOD / 2 <= ticks_ms T ->
  exists s', dtick env rnd T T2 s = DNext s' /\ lives s' = lives s.
Proof.
  intros Hh Ht. pose proof (ticks_diff_zero_neg T Ht) as Hd.
  unfold dtick. cbv zeta. rewrite Hh.
  destruct (EdgeButtons.update8 _ _) as [eb' [[[[[[[pu pd] pl] pr] hu] hd] hl] hr]].
  destruct (player_move _ _ _ _ _ _) as [[[[[mx my] vy1] j1] c1] pi].
  unfold hammer_pickup at 1. apply Z.ltb_lt in Hd. rewrite Hd.
  destruct (spawn_control _ _ _ _ _ _ _ _ _) as [[bs0 ns] k1].
  destruct (update_barrels _ _ _ _) as [bs1 k2].
  destruct (hammer_smash _ _ _ _) as [bs2 sc]. rewrite Hd. cbn [negb andb].
  eexists. split; [reflexivity|]. by rewrite win_check_lives.
Qed.

Lemma hammer_active_second_half_witness :
  hammer_active_until (dstart 0 (2 ^ 29)) = 0 /\ TICKS_PERIOD / 2 <= ticks_ms (2 ^ 29) /\
  exists s', dtick (fun _ => mkLevels 1 1 1 1) (fun _ => 0) (2 ^ 29) (2 ^ 29) (dstart 0 (2 ^ 29)) = DNext s' /\
    lives s' = lives (dstart 0 (2 ^ 29)).
Proof.
  assert (H1 : hammer_active_until (dstart 0 (2 ^ 29)) = 0) by reflexivity.
  assert (H2 : TICKS_PERIOD / 2 <= ticks_ms (2 ^ 29)) by (vm_compute; discriminate).
  split; [exact H1|split; [exact H2|exact (hammer_active_second_half _ _ _ _ _ H1 H2)]].
Defined.

End DonkeyKong.
