(* ===== verification/DonkeyKongDraw.v ===== *)
(** * What Donkey Kong draws ([src/donkey_kong.py], sprites and frame)

    The sprites of Donkey Kong ([draw_mario], [draw_dk_side_profile],
    [draw_pauline], [draw_barrel] through [_blit7], [draw_hammer]) and
    [draw_platforms_and_ladders], as the [Canvas] calls they make on the
    portrait driver, and the frame the loop of [play_once] draws at the end
    of a pass that does not clear the stage.  The ladder rungs are a
    [while] loop, run on fuel that [rungs_fuel] shows is enough.  The
    theorems place each sprite in the box its collision test uses, and show
    that the hammer Mario holds is drawn outside the box the smash tests. *)

From Stdlib Require Import String.
From stdpp Require Import list strings pretty.
From S2P Require Import Prelude Input Canvas DonkeyKong.

Local Open Scope Z_scope.

Module DonkeyKongDraw.
Import DonkeyKong.

Definition DK_Y : Z := plat 0 - 16.

(** [if hammer:] the hammer Mario holds, right of his body. *)
Definition mario_hammer (x y : Z) : list fbcall := [HLine (x + 7) (y + 2) 3 1; VLine (x + 9) (y + 2) 4 1].

Definition draw_mario (x y : Z) (jumping blink hammer : bool) : list fbcall :=
  if blink then [] else
  [HLine (x + 1) y 5 1; HLine x (y + 1) 7 1;
   Pixel (x + 1) (y + 2) 1; Pixel (x + 2) (y + 2) 1; Pixel (x + 4) (y + 2) 1; Pixel (x + 5) (y + 2) 1;
   HLine (x + 2) (y + 3) 3 1;
   FillRect (x + 2) (y + 4) 3 3 1; Pixel (x + 1) (y + 5) 1; Pixel (x + 5) (y + 5) 1;
   HLine (x + 1) (y + 8) 2 1; HLine (x + 4) (y + 8) 2 1] ++
  (if jumping then [Pixel (x + 3) (y + 7) 0] else []) ++
  (if hammer then mario_hammer x y else []).

Definition draw_dk_side_profile : list fbcall :=
  let x := DK_X in let y := DK_Y in
  [FillRect (x + 3) (y + 3) 9 3 1; FillRect (x + 2) (y + 5) 11 4 1;
   FillRect (x + 4) (y + 8) 9 5 1;
   FillRect (x + 10) (y + 4) 5 5 1;
   FillRect (x + 13) (y + 7) 3 2 1;
   Pixel (x + 12) (y + 5) 0; Pixel (x + 14) (y + 5) 0; HLine (x + 12) (y + 6) 3 0; Pixel (x + 14) (y + 6) 0;
   Pixel (x + 15) (y + 6) 1;
   FillRect (x + 12) (y + 10) 4 3 1; FillRect (x + 14) (y + 12) 2 3 1;
   FillRect (x + 2) (y + 9) 3 4 1;
   FillRect (x + 5) (y + 13) 6 2 1;
   FillRect (x + 7) (y + 10) 3 2 0; Pixel (x + 6) (y + 11) 0; Pixel (x + 10) (y + 11) 0].

Definition draw_pauline (x y : Z) : list fbcall :=
  [FillRect (x + 1) y 8 3 1; FillRect x (y + 2) 10 2 1;
   Pixel x (y + 4) 1; Pixel (x + 9) (y + 4) 1;
   FillRect (x + 2) (y + 4) 6 4 1;
   Pixel (x + 3) (y + 5) 0; Pixel (x + 6) (y + 5) 0;
   FillRect (x + 3) (y + 8) 4 6 1;
   HLine (x + 2) (y + 13) 6 1;
   Pixel (x + 2) (y + 9) 1; Pixel (x + 7) (y + 9) 1].

(** [_blit7(x, y, rows)]: the set bits of seven 7-bit rows, MSB left. *)
Definition blit7 (x y : Z) (rows : list Z) : list fbcall :=
  bitmap x y 7 7 1 (fun xx yy => (rows !!! Z.to_nat yy .>> (6 - xx)) .& 1 =? 1).

Definition BARREL_BASE : list Z := [28; 62; 127; 119; 127; 62; 28].

Definition draw_barrel (bx by_ age : Z) : list fbcall :=
  let frame := (age `div` 6) .& 1 in
  blit7 bx by_ BARREL_BASE ++
  flat_map (fun yy => map (fun xx => Pixel (bx + xx) (by_ + yy) 0) (zrange 2 5)) (zrange 2 5) ++
  (if frame =? 0 then [HLine (bx + 1) (by_ + 2) 5 1; HLine (bx + 1) (by_ + 4) 5 1]
   else [HLine (bx + 1) (by_ + 3) 5 1]) ++
  [Pixel (bx + 2) (by_ + 1) 1; Pixel (bx + 4) (by_ + 5) 1].

Definition draw_hammer (hx hy : Z) : list fbcall :=
  [HLine hx (hy + 1) 5 1; HLine hx (hy + 2) 5 1; VLine (hx + 4) (hy + 2) 5 1].

(** [while yy < y_bot - 1: oled.hline(lx-1, yy, 3, 1); yy += 5] on fuel. *)
Fixpoint rungs (fuel : nat) (lx yy y_bot : Z) : list fbcall :=
  match fuel with
  | O => []
  | S fuel' => if yy <? y_bot - 1 then HLine (lx - 1) yy 3 1 :: rungs fuel' lx (yy + 5) y_bot else []
  end.

Definition draw_ladder (l : Z * Z * Z) : list fbcall :=
  let '(lx, y_top, y_bot) := l in
  [VLine (lx - 2) y_top (y_bot - y_top) 1; VLine (lx + 2) y_top (y_bot - y_top) 1] ++
  rungs (Z.to_nat (y_bot - y_top)) lx (y_top + 2) y_bot.

Definition draw_platforms_and_ladders : list fbcall :=
  flat_map (fun py => FillRect 0 py W PLAT_THICK 1 ::
              flat_map (fun gx => [Pixel (gx + 2) (py + 1) 0; Pixel (gx + 6) (py + 1) 0]) (zrange_step 0 W 8))
    PLATS ++
  flat_map draw_ladder LADDERS.

(** [s = str(score); if len(s) > 6: s = s[-6:]]. *)
Definition score_text (score : Z) : string :=
  let s := pretty score in
  if 6 <? Z.of_nat (String.length s) then substring (String.length s - 6) 6 s else s.

(** [# draw] of a pass of [play_once], at the clock [now]. *)
Definition dk_frame (now : Z) (s : dstate) : list fbcall :=
  let hammer_active := ticks_diff now (hammer_active_until s) <? 0 in
  let st := score_text (score s) in
  let blink := (ticks_diff now (invuln_until s) <? 0) && (((now `div` 120) .& 1) =? 0) in
  [Fill 0; Text (String.append "L:" (pretty (lives s))) 0 0 1;
   Text st (W - Z.of_nat (String.length st) * 8) 0 1; HLine 0 9 W 1] ++
  (if hammer_active then [Text "H" 28 0 1] else []) ++
  draw_platforms_and_ladders ++ draw_dk_side_profile ++ draw_pauline PAUL_X PAUL_Y ++
  flat_map (fun hm => if h_taken hm then [] else draw_hammer (h_x hm) (h_y hm)) (hammers s) ++
  flat_map (fun b => if bool_decide (b_state b = Exit) then [] else draw_barrel (b_x b) (b_y b) (b_age b)) (barrels s) ++
  draw_mario (px s) (py s) (jumping s) blink hammer_active.

(** ** The rung loop stops within its fuel *)

(** The loop runs out of rungs before it runs out of fuel: one more turn
    of fuel changes nothing once it is at least [y_bot - yy]. *)
Lemma rungs_fuel fuel lx yy y_bot :
  (Z.to_nat (y_bot - yy) <= fuel)%nat -> rungs (S fuel) lx yy y_bot = rungs fuel lx yy y_bot.
Proof.
  revert yy. induction fuel as [|f IH]; intros yy Hf.
  - simpl. replace (yy <? y_bot - 1) with false by (symmetry; apply Z.ltb_ge; lia). done.
  - cbn [rungs]. destruct (yy <? y_bot - 1) eqn:Hy; [|done]. zbool. f_equal. apply IH. lia.
Qed.

(** ** Sprites and boxes *)

Lemma hollow_in bx by_ p :
  p ∈ pixels_of (flat_map (fun yy => map (fun xx => Pixel (bx + xx) (by_ + yy) 0) (zrange 2 5)) (zrange 2 5)) ->
  in_box (bx, by_, 7, 7) p.
Proof.
  unfold pixels_of. rewrite elem_of_flat_map. intros (c & Hc & Hp).
  apply elem_of_flat_map in Hc as (yy & Hyy%elem_of_zrange & Hc).
  apply list_elem_of_fmap in Hc as (xx & -> & Hxx%elem_of_zrange).
  destruct p as [px py]. simpl in Hp. call_pixel Hp. simpl. lia.
Qed.

(** Every pixel of a barrel lies in its 7 x 7 collision box. *)
Lemma draw_barrel_in bx by_ age p : p ∈ pixels_of (draw_barrel bx by_ age) -> in_box (bx, by_, 7, 7) p.
Proof.
  unfold draw_barrel. cbv zeta. rewrite !pixels_of_app.
  intros [Hp|[Hp|[Hp|Hp]]]; [by apply bitmap_in in Hp|by apply hollow_in in Hp| |];
    revert p Hp; apply calls_in; [destruct (_ =? 0)|]; call_in.
Qed.

(** Every pixel a barrel, a hammer, Pauline and Mario without the
    hammer draw lies in the box their collision tests use ([7 x 7],
    [7 x 7], [10 x 14], [PX_W x PX_H]); every pixel of the hammer Mario
    holds lies outside his box, the one the smash tests. *)
Theorem dk_sprites_in_boxes x y age jumping blink p :
  (p ∈ pixels_of (draw_barrel x y age) -> in_box (x, y, 7, 7) p) /\
  (p ∈ pixels_of (draw_hammer x y) -> in_box (x, y, 7, 7) p) /\
  (p ∈ pixels_of (draw_pauline x y) -> in_box (x, y, 10, 14) p) /\
  (p ∈ pixels_of (draw_mario x y jumping blink false) -> in_box (x, y, PX_W, PX_H) p) /\
  (p ∈ pixels_of (mario_hammer x y) -> ~ in_box (x, y, PX_W, PX_H) p).
Proof.
  split_and!; [apply draw_barrel_in| | | |].
  - revert p. apply calls_in. call_in.
  - revert p. apply calls_in. call_in.
  - revert p. apply calls_in. unfold draw_mario. destruct blink; [constructor|].
    destruct jumping; rewrite ?app_nil_r; unfold PX_W, PX_H; call_in.
  - revert p. apply (calls_in (fun p => ~ in_box (x, y, PX_W, PX_H) p)).
    unfold PX_W, PX_H. cbn [fst snd app]. apply Forall_forall. intros ? Hc.
    repeat (apply elem_of_cons in Hc as [-> | Hc]); [..|by apply elem_of_nil in Hc];
    intros [px py] Hp; simpl in Hp; call_pixel Hp; simpl in *; lia.
Qed.

(** C38: The hammer Mario holds is drawn right of his body, but the smash
    tests his body's box: a barrel just right of Mario, whose box holds a
    pixel of the drawn hammer head, is not hit and the smash leaves it and
    the score alone. *)
Theorem hammer_head_never_smashes mx my b sc :
  b_x b = mx + PX_W -> my - 4 <= b_y b <= my + 2 ->
  (exists p, p ∈ pixels_of (mario_hammer mx my) /\ in_box (b_x b, b_y b, 7, 7) p) /\
  barrel_hits mx my b = false /\ hammer_smash mx my [b] sc = ([b], sc).
Proof.
  intros Hx Hy.
  assert (Hb : barrel_hits mx my b = false).
  { unfold barrel_hits, rects_overlap. rewrite Hx. unfold PX_W.
    replace (mx + 7 <? mx + 7) with false by (symmetry; apply Z.ltb_ge; lia). by rewrite !andb_false_r. }
  split_and!; [|exact Hb|].
  - exists (mx + 7, my + 2). split; [|simpl; unfold PX_W in Hx; lia].
    apply elem_of_flat_map. exists (HLine (mx + 7) (my + 2) 3 1). split; [left|].
    apply elem_of_rect_pixels. simpl. lia.
  - unfold hammer_smash, killed_indices. simpl. by rewrite Hb.
Qed.

Lemma hammer_head_never_smashes_witness :
  let b := mkBarrel 27 99 3 Roll (-1) 0 12 in
  b_x b = 20 + PX_W /\ 97 - 4 <= b_y b <= 97 + 2 /\
  ((exists p, p ∈ pixels_of (mario_hammer 20 97) /\ in_box (b_x b, b_y b, 7, 7) p) /\
   barrel_hits 20 97 b = false /\ hammer_smash 20 97 [b] 150 = ([b], 150)).
Proof.
  cbv zeta. assert (H1 : b_x (mkBarrel 27 99 3 Roll (-1) 0 12) = 20 + PX_W) by reflexivity.
  assert (H2 : 97 - 4 <= b_y (mkBarrel 27 99 3 Roll (-1) 0 12) <= 97 + 2) by (simpl; lia).
  split; [exact H1|split; [exact H2|exact (hammer_head_never_smashes 20 97 _ 150 H1 H2)]].
Defined.

End DonkeyKongDraw.
