(* ===== verification/Galaga.v ===== *)
(** * Galaga ([src/galaga.py]): the formation, the divers and the game loop

    The enemy dicts of [make_wave] are the record [enemy], their ["state"]
    string the enumeration [estate]; player and enemy bullets are their
    [(x, y)] pairs.  The random draws are an argument [rnd : nat -> Z], the
    k-th raw draw, which [randint], [choice] and [getrandbits] of [Prelude]
    bring into their range, threaded as a counter ([draws]).  The clock is
    [Input]'s: [now = ticks_ms T].

    One pass of the [while True] loop of [play_once] is [gtick]; it takes
    the time [T] of its [time.ticks_ms()] (the buttons are read then too)
    and the time [T2] of the [time.ticks_ms()] calls of [make_wave] when
    the pass starts a new level, after the banners.  [greach] are the
    states at the top of the loop.

    [ginv] is what every reachable state keeps ([gtick_post],
    [greach_inv]); the enemy conditions are [enemy_ok].  The dead hover,
    the dead enemy-collision block, the bullet cap overrun and the
    invulnerability in the second half of the tick period are theorems
    at the end of the file. *)

From stdpp Require Import list.
From S2P Require Import Prelude Input.

Local Open Scope Z_scope.

Module Galaga.

(** ** Constants *)

Definition W : Z := 64.
Definition H : Z := 128.
Definition SHIP_W : Z := 9.
Definition SHIP_H : Z := 7.
Definition EN_W : Z := 9.
Definition EN_H : Z := 7.
Definition PB_W : Z := 1.
Definition PB_H : Z := 4.
Definition EB_W : Z := 1.
Definition EB_H : Z := 3.
Definition PLAY_TOP : Z := 12.
Definition SHIP_Y : Z := H - SHIP_H - 3.
Definition FORMATION_COLS : Z := 6.
Definition FORMATION_ROWS : Z := 3.
Definition SP_X : Z := 2.
Definition SP_Y : Z := 8.
Definition FORM_W : Z := FORMATION_COLS * EN_W + (FORMATION_COLS - 1) * SP_X.
Definition FORM_H : Z := FORMATION_ROWS * EN_H + (FORMATION_ROWS - 1) * SP_Y.

Definition clamp (v lo hi : Z) : Z := if v <? lo then lo else if hi <? v then hi else v.

Definition aabb (ax ay aw ah bx by_ bw bh : Z) : bool :=
  (ax <? bx + bw) && (bx <? ax + aw) && (ay <? by_ + bh) && (by_ <? ay + ah).

(** ** Enemies *)

Inductive estate := EForm | EDive | EReturn | EBeam.

#[export] Instance estate_eq_dec : EqDecision estate.
Proof. solve_decision. Defined.

(** An enemy dict of [make_wave]. *)
Record enemy := mkE {
  e_r : Z; e_c : Z; e_alive : bool; e_type : Z; e_hp : Z; e_state : estate;
  e_x : Z; e_y : Z; e_vx : Z; e_vy : Z; e_home_x : Z; e_home_y : Z;
  e_phase : Z; e_next_shot : Z; e_beam_t : Z; e_script : Z }.

(** A default enemy, for [random.choice] on a list the code never leaves
    empty. *)
#[export] Instance enemy_inhabited : Inhabited enemy := populate (mkE 0 0 false 0 0 EForm 0 0 0 0 0 0 0 0 0 0).

(** The assignments the code makes to an enemy dict. *)
Definition set_xy (e : enemy) (x y : Z) : enemy :=
  mkE (e_r e) (e_c e) (e_alive e) (e_type e) (e_hp e) (e_state e) x y (e_vx e) (e_vy e)
      (e_home_x e) (e_home_y e) (e_phase e) (e_next_shot e) (e_beam_t e) (e_script e).
Definition set_state (e : enemy) (st : estate) : enemy :=
  mkE (e_r e) (e_c e) (e_alive e) (e_type e) (e_hp e) st (e_x e) (e_y e) (e_vx e) (e_vy e)
      (e_home_x e) (e_home_y e) (e_phase e) (e_next_shot e) (e_beam_t e) (e_script e).
Definition set_v (e : enemy) (vx vy : Z) : enemy :=
  mkE (e_r e) (e_c e) (e_alive e) (e_type e) (e_hp e) (e_state e) (e_x e) (e_y e) vx vy
      (e_home_x e) (e_home_y e) (e_phase e) (e_next_shot e) (e_beam_t e) (e_script e).
Definition set_home (e : enemy) (hx hy : Z) : enemy :=
  mkE (e_r e) (e_c e) (e_alive e) (e_type e) (e_hp e) (e_state e) (e_x e) (e_y e) (e_vx e) (e_vy e)
      hx hy (e_phase e) (e_next_shot e) (e_beam_t e) (e_script e).
Definition set_beam_t (e : enemy) (b : Z) : enemy :=
  mkE (e_r e) (e_c e) (e_alive e) (e_type e) (e_hp e) (e_state e) (e_x e) (e_y e) (e_vx e) (e_vy e)
      (e_home_x e) (e_home_y e) (e_phase e) (e_next_shot e) b (e_script e).
Definition set_next_shot (e : enemy) (t : Z) : enemy :=
  mkE (e_r e) (e_c e) (e_alive e) (e_type e) (e_hp e) (e_state e) (e_x e) (e_y e) (e_vx e) (e_vy e)
      (e_home_x e) (e_home_y e) (e_phase e) t (e_beam_t e) (e_script e).
Definition set_script (e : enemy) (n : Z) : enemy :=
  mkE (e_r e) (e_c e) (e_alive e) (e_type e) (e_hp e) (e_state e) (e_x e) (e_y e) (e_vx e) (e_vy e)
      (e_home_x e) (e_home_y e) (e_phase e) (e_next_shot e) (e_beam_t e) n.
Definition set_hp (e : enemy) (hp : Z) (alive : bool) : enemy :=
  mkE (e_r e) (e_c e) alive (e_type e) hp (e_state e) (e_x e) (e_y e) (e_vx e) (e_vy e)
      (e_home_x e) (e_home_y e) (e_phase e) (e_next_shot e) (e_beam_t e) (e_script e).

(** The enemy of row [r], column [c] of [make_wave]: its two draws, the
    phase first, as the dict literal evaluates them. *)
Definition make_enemy (rnd : nat -> Z) (k : nat) (now level r c : Z) : enemy * nat :=
  let '(etype, hp) := if (3 <=? level) && (r =? 0) && (c mod 2 =? 0) then (1, 2) else (0, 1) in
  let '(phase, k1) := randint rnd k 0 255 in
  let '(d, k2) := randint rnd k1 400 1200 in
  (mkE r c true etype hp EForm 0 0 0 0 0 0 phase (now + d) 0 0, k2).

(** [make_wave(level)], [time.ticks_ms()] reading [now] throughout. *)
Definition make_wave (rnd : nat -> Z) (k : nat) (now level : Z) : list enemy * nat :=
  foldl (fun '(es, k) '(r, c) => let '(e, k') := make_enemy rnd k now level r c in (es ++ [e], k'))
        ([], k) (zrange2 0 FORMATION_ROWS 0 FORMATION_COLS).

Definition compute_home (form_x form_y : Z) (e : enemy) : Z * Z :=
  (form_x + e_c e * (EN_W + SP_X), form_y + e_r e * (EN_H + SP_Y)).

Definition max_divers (level : Z) : Z := if level <=? 2 then 1 else if level <=? 5 then 2 else 3.
Definition dive_interval_ms (level : Z) : Z := Z.max 750 (1700 - level * 120).
Definition form_step_ms (level : Z) : Z := Z.max 70 (130 - level * 5).

(** [cands.sort(key=lambda z: z["r"])]: a stable sort, by insertion. *)
Fixpoint insert_by_r (i : nat) (e : enemy) (l : list (nat * enemy)) : list (nat * enemy) :=
  match l with
  | [] => [(i, e)]
  | (j, e') :: l' => if e_r e <? e_r e' then (i, e) :: l else (j, e') :: insert_by_r i e l'
  end.

Definition sort_by_r (l : list (nat * enemy)) : list (nat * enemy) :=
  foldr (fun '(i, e) acc => insert_by_r i e acc) [] l.

Definition in_formation (e : enemy) : bool := e_alive e && bool_decide (e_state e = EForm).

(** [pick_diver(enemies)]: the index in [enemies] of the enemy chosen
    among the first ten formation enemies by row, if any. *)
Definition pick_diver (rnd : nat -> Z) (k : nat) (es : list enemy) : option nat * nat :=
  let cands := List.filter (fun ie => in_formation ie.2) (imap pair es) in
  match cands with
  | [] => (None, k)
  | _ :: _ =>
      let sorted := sort_by_r cands in
      let pool := take (Nat.min 10 (length sorted)) sorted in
      let '(choice_ie, k1) := choice rnd k pool in
      (Some choice_ie.1, k1)
  end.

(** [start_dive(e, ship_x)]. *)
Definition start_dive (e : enemy) (ship_x : Z) : enemy :=
  let target_x := ship_x + SHIP_W `div` 2 in
  let dx := target_x - (e_home_x e + EN_W `div` 2) in
  let vx0 := clamp (dx `div` 10) (-3) 3 in
  let vx := if (vx0 =? 0) && negb (dx =? 0) then (if 0 <? dx then 1 else -1) else vx0 in
  set_beam_t (set_v (set_state e EDive) vx 2) 0.

(** [step_diver(e, tick, level)]. *)
Definition step_diver (e : enemy) (tick level : Z) : enemy :=
  let wob := (tick + e_phase e) .& 31 in
  let x0 := if wob <? 8 then e_x e + (e_vx e + 1) else if wob <? 16 then e_x e + e_vx e
            else if wob <? 24 then e_x e + (e_vx e - 1) else e_x e + e_vx e in
  let y := e_y e + (e_vy e + (if 6 <=? level then 1 else 0)) in
  let '(x, vx) := if x0 <? -3 then (-3, Z.abs (e_vx e))
                  else if W - EN_W + 3 <? x0 then (W - EN_W + 3, - Z.abs (e_vx e))
                  else (x0, e_vx e) in
  let e' := set_v (set_xy e x y) vx (e_vy e) in
  if H - 26 <=? y then set_state e' EReturn else e'.

(** [step_return(e)]. *)
Definition step_return (e : enemy) : enemy :=
  let hx := e_home_x e in
  let hy := e_home_y e in
  let dx := hx - e_x e in
  let dy := hy - e_y e in
  let x := if 0 <? dx then e_x e + 1 else if dx <? 0 then e_x e - 1 else e_x e in
  let y := if 0 <? dy then e_y e + 2 else if dy <? 0 then e_y e - 2 else e_y e in
  if (Z.abs dx <=? 1) && (Z.abs dy <=? 2) then set_state (set_xy e hx hy) EForm
  else set_xy e x y.

Definition enemy_shot_interval_ms (level etype : Z) (diving : bool) : Z :=
  let base := if diving then 900 else 1400 in
  let base := if etype =? 1 then base - 220 else base in
  Z.max 350 (base - level * 40).

Definition can_enemy_shoot (e : enemy) (ship_x : Z) : bool :=
  let ex := e_x e + EN_W `div` 2 in
  let px := ship_x + SHIP_W `div` 2 in
  let dx := Z.abs (px - ex) in
  if bool_decide (e_state e = EForm) then dx <=? 4 else dx <=? 10.

(** ** The challenge stage *)

Definition is_challenge_stage (level : Z) : bool := level mod 3 =? 0.

(** [init_challenge(enemies)]: the alive enemies numbered in order. *)
Fixpoint init_challenge_from (order : Z) (es : list enemy) : list enemy :=
  match es with
  | [] => []
  | e :: es' =>
      if e_alive e then set_script e order :: init_challenge_from (order + 1) es'
      else e :: init_challenge_from order es'
  end.

Definition init_challenge (es : list enemy) : list enemy := init_challenge_from 0 es.

Definition challenge_should_launch (e : enemy) (t_ms : Z) : bool :=
  (e_script e * 350 <=? t_ms) && bool_decide (e_state e = EForm).

(** [step_challenge_dive(e, tick)]. *)
Definition step_challenge_dive (e : enemy) (tick : Z) : enemy :=
  let wob := (tick + e_phase e) .& 31 in
  let x := if wob <? 8 then e_x e + 2 else if wob <? 16 then e_x e + 1
           else if wob <? 24 then e_x e - 1 else e_x e - 2 in
  let e' := set_xy e x (e_y e + 2) in
  if H - 22 <=? e_y e' then set_state e' EReturn else e'.

(** ** The game state *)

(** The locals of [play_once] that live across passes of its loop. *)
Record gstate := mkG {
  g_eb : EdgeButtons.t; g_score : Z; g_level : Z; g_lives : Z; g_bombs : Z; g_double : bool;
  g_ship_x : Z; g_pbs : list (Z * Z); g_ebs : list (Z * Z); g_enemies : list enemy;
  g_form_x : Z; g_form_y : Z; g_dir_x : Z;
  g_last_lr : Z; g_last_form : Z; g_last_dive : Z; g_last_anim : Z; g_anim : Z; g_tick : Z;
  g_invuln : Z; g_challenge : bool; g_ch_start : Z; g_ch_perfect : bool; g_draws : nat }.

(** [break] out of the loop ends the game. *)
Inductive gresult := GNext (s : gstate) | GOver (final_score final_level : Z).

(** [play_once] after the title: [make_wave(1)] and the four clock
    readings at [T0]. *)
Definition gstart (rnd : nat -> Z) (k : nat) (T0 : Z) : gstate :=
  let now := ticks_ms T0 in
  let '(es, k') := make_wave rnd k now 1 in
  mkG EdgeButtons.init 0 1 3 2 false ((W - SHIP_W) `div` 2) [] [] es ((W - FORM_W) `div` 2) PLAY_TOP 1
      now now now now 0 0 0 false 0 false k'.

(** ** One pass of the loop, phase by phase *)

Definition lr_cd : Z := 45.

(** [# ship move]: held buttons read directly, every [lr_cd()] ms. *)
Definition ship_move (n : levels) (now ship_x last_lr : Z) : Z * Z :=
  if ticks_diff now last_lr >? lr_cd then
    if lv_l n =? 0 then (ship_x - 2, now)
    else if lv_r n =? 0 then (ship_x + 2, now)
    else (ship_x, last_lr)
  else (ship_x, last_lr).

Definition bullets_cap (double_shot : bool) : Z := if double_shot then 4 else 2.

(** [# fire (tap)]. *)
Definition fire (double_shot : bool) (ship_x : Z) (pbs : list (Z * Z)) : list (Z * Z) :=
  if Z.of_nat (length pbs) <? bullets_cap double_shot then
    let cx := ship_x + SHIP_W `div` 2 in
    if double_shot then
      let pbs' := pbs ++ [(cx - 2, SHIP_Y - 2)] in
      if Z.of_nat (length pbs') <? bullets_cap double_shot then pbs' ++ [(cx + 2, SHIP_Y - 2)] else pbs'
    else pbs ++ [(cx, SHIP_Y - 2)]
  else pbs.

(** [e["state"] in ("dive", "return", "beam")]. *)
Definition diving_state (st : estate) : bool := negb (bool_decide (st = EForm)).

(** Back to the formation: state, position and beam timer. *)
Definition snap (e : enemy) : enemy := set_beam_t (set_xy (set_state e EForm) (e_home_x e) (e_home_y e)) 0.

(** The bomb's loop over the enemies. *)
Definition bomb_enemies (es : list enemy) : list enemy :=
  map (fun e => if e_alive e && diving_state (e_state e) then snap e else e) es.

(** The loop over the enemies after a lost life. *)
Definition reset_enemies (es : list enemy) : list enemy := map (fun e => if e_alive e then snap e else e) es.

(** [# formation hover]. *)
Definition hover (now level form_x dir_x last_form : Z) : Z * Z * Z :=
  if ticks_diff now last_form >? form_step_ms level then
    let fx := form_x + dir_x in
    if fx <? 0 then (0, 1, now)
    else if W - FORM_W <? fx then (W - FORM_W, -1, now)
    else (fx, dir_x, now)
  else (form_x, dir_x, last_form).

(** [# update homes + snap form enemies]. *)
Definition update_homes (form_x form_y : Z) (es : list enemy) : list enemy :=
  map (fun e => if e_alive e then
                  let '(hx, hy) := compute_home form_x form_y e in
                  let e' := set_home e hx hy in
                  if bool_decide (e_state e = EForm) then set_xy e' hx hy else e'
                else e) es.

(** [# start dives]: the challenge launches, or one [pick_diver] when
    fewer than [max_divers] dive and the interval has passed. *)
Definition start_dives (rnd : nat -> Z) (k : nat) (now level : Z) (challenge : bool) (ch_start ship_x last_dive : Z)
    (es : list enemy) : list enemy * Z * nat :=
  if challenge then
    let tms := ticks_diff now ch_start in
    (map (fun e => if e_alive e && challenge_should_launch e tms
                   then set_xy (set_state e EDive) (e_home_x e) (e_home_y e) else e) es, last_dive, k)
  else
    let diving_now := length (List.filter (fun e => e_alive e && diving_state (e_state e)) es) in
    if (Z.of_nat diving_now <? max_divers level) && (ticks_diff now last_dive >? dive_interval_ms level) then
      let '(d, k1) := pick_diver rnd k es in
      (match d with Some i => alter (fun e => start_dive e ship_x) i es | None => es end, now, k1)
    else (es, last_dive, k).

(** [# move bullets]: the [while]/[pop] loops keep the moved bullets still
    on the screen. *)
Definition move_player_bullets (pbs : list (Z * Z)) : list (Z * Z) :=
  List.filter (fun b => 0 <=? b.2) (map (fun b => (b.1, b.2 - 3)) pbs).

Definition move_enemy_bullets (level : Z) (ebs : list (Z * Z)) : list (Z * Z) :=
  List.filter (fun b => b.2 <=? H) (map (fun b => (b.1, b.2 + (2 + (if 7 <=? level then 1 else 0)))) ebs).

(** [# boss capture-lite]: a boss diving through rows 69-91 under the
    ship switches to its beam with probability 1/8. *)
Definition try_beam (rnd : nat -> Z) (k : nat) (ship_x : Z) (e : enemy) : enemy * nat :=
  if (e_type e =? 1) && (e_beam_t e =? 0) && (68 <? e_y e) && (e_y e <? 92) then
    let ex := e_x e + EN_W `div` 2 in
    let px := ship_x + SHIP_W `div` 2 in
    if Z.abs (px - ex) <=? 3 then
      let '(g, k1) := getrandbits rnd k 3 in
      (if g =? 0 then set_beam_t (set_state e EBeam) 18 else e, k1)
    else (e, k)
  else (e, k).

(** The body of [# move enemies] for one enemy. *)
Definition move_enemy (rnd : nat -> Z) (k : nat) (tick level : Z) (challenge : bool) (ship_x : Z) (e : enemy)
    : enemy * nat :=
  if negb (e_alive e) then (e, k)
  else if challenge then
    match e_state e with
    | EDive => (step_challenge_dive e tick, k)
    | EReturn => (step_return e, k)
    | _ => (e, k)
    end
  else
    match e_state e with
    | EDive =>
        let '(e1, k1) := try_beam rnd k ship_x e in
        if bool_decide (e_state e1 = EDive) then (step_diver e1 tick level, k1) else (e1, k1)
    | EBeam =>
        let b := e_beam_t e - 1 in
        if b <=? 0 then (set_state (set_beam_t e 0) EReturn, k) else (set_beam_t e b, k)
    | EReturn => (step_return e, k)
    | EForm => (e, k)
    end.

Fixpoint move_enemies (rnd : nat -> Z) (k : nat) (tick level : Z) (challenge : bool) (ship_x : Z) (es : list enemy)
    : list enemy * nat :=
  match es with
  | [] => ([], k)
  | e :: es' =>
      let '(e', k1) := move_enemy rnd k tick level challenge ship_x e in
      let '(rest, k2) := move_enemies rnd k1 tick level challenge ship_x es' in
      (e' :: rest, k2)
  end.

(** The body of [# enemy shooting] for one enemy. *)
Definition enemy_shoot (rnd : nat -> Z) (now level ship_x : Z) (acc : list enemy * list (Z * Z) * nat) (e : enemy)
    : list enemy * list (Z * Z) * nat :=
  let '(es, ebs, k) := acc in
  if e_alive e && negb (bool_decide (e_state e = EBeam)) && (0 <=? ticks_diff now (e_next_shot e)) then
    let diving := negb (bool_decide (e_state e = EForm)) in
    let ebs' := if can_enemy_shoot e ship_x then ebs ++ [(e_x e + EN_W `div` 2, e_y e + EN_H)] else ebs in
    let '(d, k1) := randint rnd k 0 250 in
    (es ++ [set_next_shot e (ticks_add now (enemy_shot_interval_ms level (e_type e) diving + d))], ebs', k1)
  else (es ++ [e], ebs, k).

(** [# enemy shooting (disabled during challenge)]: the bullet cap is
    tested once, before the loop. *)
Definition enemy_shooting (rnd : nat -> Z) (k : nat) (now level : Z) (challenge : bool) (ship_x : Z)
    (es : list enemy) (ebs : list (Z * Z)) : list enemy * list (Z * Z) * nat :=
  if negb challenge && (Z.of_nat (length ebs) <? 4 + level `div` 3)
  then foldl (enemy_shoot rnd now level ship_x) ([], ebs, k) es
  else (es, ebs, k).

(** A player bullet against an alive enemy. *)
Definition bullet_hits (b : Z * Z) (e : enemy) : bool :=
  e_alive e && aabb b.1 b.2 PB_W PB_H (e_x e) (e_y e) EN_W EN_H.

(** The hit enemy loses one hp, and dies at 0. *)
Definition hit_enemy (e : enemy) : enemy :=
  let hp := e_hp e - 1 in set_hp e hp (negb (hp <=? 0)).

Definition hit_points (e : enemy) : Z :=
  if e_hp e - 1 <=? 0 then (if e_type e =? 1 then 25 else 10) else 5.

(** [# player bullets hit enemies]: each bullet, in order, against the
    first enemy it touches; a bullet that hits is popped. *)
Fixpoint bullets_hit (pbs : list (Z * Z)) (es : list enemy) (score : Z) : list (Z * Z) * list enemy * Z :=
  match pbs with
  | [] => ([], es, score)
  | b :: pbs' =>
      match list_find (fun e => bullet_hits b e = true) es with
      | Some (i, e) => bullets_hit pbs' (alter hit_enemy i es) (score + hit_points e)
      | None => let '(rest, es', sc) := bullets_hit pbs' es score in (b :: rest, es', sc)
      end
  end.

(** The boss beam reaches the ship. *)
Definition beam_captures (ship_x : Z) (e : enemy) : bool :=
  e_alive e && bool_decide (e_state e = EBeam) && (0 <? e_beam_t e) &&
  (ship_x <=? e_x e + EN_W `div` 2) && (e_x e + EN_W `div` 2 <=? ship_x + SHIP_W - 1) &&
  (e_y e + EN_H <? SHIP_Y + SHIP_H).

Definition bullet_hits_ship (ship_x : Z) (b : Z * Z) : bool := aabb ship_x SHIP_Y SHIP_W SHIP_H b.1 b.2 EB_W EB_H.

Definition enemy_hits_ship (ship_x : Z) (e : enemy) : bool :=
  e_alive e && diving_state (e_state e) && aabb ship_x SHIP_Y SHIP_W SHIP_H (e_x e) (e_y e) EN_W EN_H.

(** [all((not e["alive"]) for e in enemies)]. *)
Definition all_dead (es : list enemy) : bool := forallb (fun e => negb (e_alive e)) es.

(** A new level: the bonus bomb, [make_wave] at the clock [now2], the
    bullets cleared, the formation recentred, the challenge over. *)
Definition next_level (rnd : nat -> Z) (now2 : Z) (s : gstate) : gstate :=
  let level := g_level s + 1 in
  let '(es, k) := make_wave rnd (g_draws s) now2 level in
  mkG (g_eb s) (g_score s) level (g_lives s) (if g_bombs s <? 3 then g_bombs s + 1 else g_bombs s) (g_double s)
      (g_ship_x s) [] [] es ((W - FORM_W) `div` 2) (g_form_y s) 1
      (g_last_lr s) (g_last_form s) (g_last_dive s) (g_last_anim s) (g_anim s) (g_tick s)
      (g_invuln s) false (g_ch_start s) (g_ch_perfect s) k.

Definition add_score (s : gstate) (d : Z) : gstate :=
  mkG (g_eb s) (g_score s + d) (g_level s) (g_lives s) (g_bombs s) (g_double s)
      (g_ship_x s) (g_pbs s) (g_ebs s) (g_enemies s) (g_form_x s) (g_form_y s) (g_dir_x s)
      (g_last_lr s) (g_last_form s) (g_last_dive s) (g_last_anim s) (g_anim s) (g_tick s)
      (g_invuln s) (g_challenge s) (g_ch_start s) (g_ch_perfect s) (g_draws s).

(** [# end of challenge stage] and [# normal wave clear]. *)
Definition level_end (rnd : nat -> Z) (now now2 : Z) (s : gstate) : gstate :=
  if g_challenge s then
    if all_dead (g_enemies s) then next_level rnd now2 (add_score s (200 + g_level s * 30))
    else if ticks_diff now (g_ch_start s) >? 12000 then next_level rnd now2 s
    else s
  else if all_dead (g_enemies s) then next_level rnd now2 s
  else s.

(** What the three collision blocks read and write. *)
Record fight := mkF {
  f_lives : Z; f_double : bool; f_pbs : list (Z * Z); f_ebs : list (Z * Z); f_es : list enemy;
  f_invuln : Z; f_ship_x : Z }.

(** [time.ticks_diff(invuln_until, now) < 0]. *)
Definition vulnerable (now : Z) (f : fight) : bool := ticks_diff (f_invuln f) now <? 0.

(** A lost life: [double_shot] as the block sets it, bullets cleared,
    enemies back home, 1.2 s of invulnerability, ship recentred. *)
Definition lose_life (now : Z) (double_shot : bool) (f : fight) : fight :=
  mkF (f_lives f - 1) double_shot [] [] (reset_enemies (f_es f)) (ticks_add now 1200) ((W - SHIP_W) `div` 2).

(** [if time.ticks_diff(now, last_anim) > 160:] the animation phase. *)
Definition anim_step (now last_anim anim : Z) : Z * Z :=
  if ticks_diff now last_anim >? 160 then (now, Z.lxor anim 1) else (last_anim, anim).

(** [# bomb (tap)]: returns the bombs, the two bullet lists and the enemies. *)
Definition bomb (pd : bool) (bombs : Z) (pbs ebs : list (Z * Z)) (es : list enemy)
    : Z * list (Z * Z) * list (Z * Z) * list enemy :=
  if pd && (0 <? bombs) then (bombs - 1, [], [], bomb_enemies es) else (bombs, pbs, ebs, es).

(** [# enter challenge stage]. *)
Definition enter_challenge (now level : Z) (challenge : bool) (ch_start : Z) (ch_perfect : bool)
    (es : list enemy) (pbs ebs : list (Z * Z))
    : bool * Z * bool * list enemy * list (Z * Z) * list (Z * Z) :=
  if negb challenge && is_challenge_stage level then (true, now, true, init_challenge es, [], [])
  else (challenge, ch_start, ch_perfect, es, pbs, ebs).

(** [# capture-lite beam hits player (boss only)]: whether a beam
    captures the ship. *)
Definition captured (now : Z) (challenge : bool) (f : fight) : bool :=
  negb challenge && vulnerable now f && existsb (beam_captures (f_ship_x f)) (f_es f).

(** [# enemy bullets hit player]. *)
Definition bullet_check (now : Z) (f : fight) : fight :=
  if vulnerable now f && existsb (bullet_hits_ship (f_ship_x f)) (f_ebs f) then lose_life now false f else f.

(** [# enemy collides with player]. *)
Definition enemy_collision (now : Z) (f : fight) : fight :=
  if vulnerable now f && existsb (enemy_hits_ship (f_ship_x f)) (f_es f) then lose_life now false f else f.

(** One pass of the [while True] loop of [play_once], up to the drawing,
    with the [# enemy collides with player] block as the argument [coll]
    ([gtick] below passes [enemy_collision]). *)
Definition gtick_with (coll : Z -> fight -> fight) (env : Z -> levels) (rnd : nat -> Z) (T T2 : Z) (s : gstate)
    : gresult :=
  let now := ticks_ms T in
  let tick := (g_tick s + 1) .& 65535 in
  let '(last_anim, anim) := anim_step now (g_last_anim s) (g_anim s) in
  let '(eb', (pu, pd, _, _)) := EdgeButtons.update (g_eb s) (env T) in
  let '(ship_x0, last_lr) := ship_move (env T) now (g_ship_x s) (g_last_lr s) in
  let ship_x := clamp ship_x0 0 (W - SHIP_W) in
  let pbs0 := if pu then fire (g_double s) ship_x (g_pbs s) else g_pbs s in
  let '(bombs, pbs1, ebs1, es1) := bomb pd (g_bombs s) pbs0 (g_ebs s) (g_enemies s) in
  let '(form_x, dir_x, last_form) := hover now (g_level s) (g_form_x s) (g_dir_x s) (g_last_form s) in
  let es2 := update_homes form_x (g_form_y s) es1 in
  let '(challenge, ch_start, ch_perfect, es3, pbs2, ebs2) :=
    enter_challenge now (g_level s) (g_challenge s) (g_ch_start s) (g_ch_perfect s) es2 pbs1 ebs1 in
  let '(es4, last_dive, k1) := start_dives rnd (g_draws s) now (g_level s) challenge ch_start ship_x (g_last_dive s) es3 in
  let pbs3 := move_player_bullets pbs2 in
  let ebs3 := move_enemy_bullets (g_level s) ebs2 in
  let '(es5, k2) := move_enemies rnd k1 tick (g_level s) challenge ship_x es4 in
  let '(es6, ebs4, k3) := enemy_shooting rnd k2 now (g_level s) challenge ship_x es5 ebs3 in
  let '(pbs4, es7, score) := bullets_hit pbs3 es6 (g_score s) in
  let f0 := mkF (g_lives s) (g_double s) pbs4 ebs4 es7 (g_invuln s) ship_x in
  let cap := captured now challenge f0 in
  let f1 := if cap then lose_life now true f0 else f0 in
  if cap && (f_lives f1 <=? 0) then GOver score (g_level s) else
  let f3 := coll now (bullet_check now f1) in
  if f_lives f3 <=? 0 then GOver score (g_level s) else
  GNext (level_end rnd now (ticks_ms T2)
    (mkG eb' score (g_level s) (f_lives f3) bombs (f_double f3) (f_ship_x f3) (f_pbs f3) (f_ebs f3) (f_es f3)
         form_x (g_form_y s) dir_x last_lr last_form last_dive last_anim anim tick (f_invuln f3)
         challenge ch_start ch_perfect k3)).

Definition gtick : (Z -> levels) -> (nat -> Z) -> Z -> Z -> gstate -> gresult := gtick_with enemy_collision.

(** The states at the top of the loop. *)
Inductive greach : gstate -> Prop :=
| greach_start rnd k T0 : greach (gstart rnd k T0)
| greach_step s env rnd T T2 s' : greach s -> gtick env rnd T T2 s = GNext s' -> greach s'.

(** ** What the loop keeps *)

(** An enemy in a row of the formation, its home in the formation's
    rows, never below row 108; in the formation it is at most at row 42; a
    diver is above the row where it turns back (and, outside the challenge
    stage, dives at [vy = 2]). *)
Definition enemy_ok (challenge : bool) (e : enemy) : Prop :=
  0 <= e_r e <= 2 /\ e_home_y e <= 42 /\ e_y e <= 108 /\ (e_state e = EForm -> e_y e <= 42) /\
  (e_state e = EDive -> e_y e < (if challenge then H - 22 else H - 26) /\ (challenge = false -> e_vy e = 2)).

(** The state at the top of the loop. *)
Definition ginv (s : gstate) : Prop :=
  0 <= g_ship_x s <= W - SHIP_W /\ g_form_x s = 0 /\ g_form_y s = PLAY_TOP /\ (g_dir_x s = 1 \/ g_dir_x s = -1) /\
  Z.of_nat (length (g_pbs s)) <= bullets_cap (g_double s) /\
  1 <= g_lives s <= 3 /\ 0 <= g_bombs s <= 3 /\ 0 <= g_score s /\ 1 <= g_level s /\
  Forall (enemy_ok (g_challenge s)) (g_enemies s).

(** What one pass guarantees. *)
Definition tick_post (s : gstate) (r : gresult) : Prop :=
  match r with
  | GNext s' =>
      ginv s' /\ (g_lives s' = g_lives s \/ g_lives s' = g_lives s - 1) /\ g_score s <= g_score s' /\
      (g_level s' = g_level s \/ g_level s' = g_level s + 1)
  | GOver sc lv => g_lives s = 1 /\ g_score s <= sc /\ lv = g_level s
  end.

(** ** The enemies *)

Lemma enemy_ok_challenge e : enemy_ok false e -> enemy_ok true e.
Proof.
  unfold enemy_ok, H. intros (? & ? & ? & ? & Hd). do 4 (split; [done|]).
  intros Hs. destruct (Hd Hs). split; [lia|done].
Qed.

Lemma snap_ok ch e : enemy_ok ch e -> enemy_ok ch (snap e).
Proof. unfold enemy_ok, snap. simpl. intros (? & ? & ? & ? & ?). split_and!; auto; intros; try discriminate; lia. Qed.

Lemma reset_enemies_ok ch es : Forall (enemy_ok ch) es -> Forall (enemy_ok ch) (reset_enemies es).
Proof. apply Forall_map_impl. intros e ?. destruct (e_alive e); auto using snap_ok. Qed.

Lemma bomb_enemies_ok ch es : Forall (enemy_ok ch) es -> Forall (enemy_ok ch) (bomb_enemies es).
Proof. apply Forall_map_impl. intros e ?. destruct (_ && _); auto using snap_ok. Qed.

Lemma update_homes_ok ch es :
  Forall (enemy_ok ch) es -> Forall (enemy_ok ch) (update_homes 0 PLAY_TOP es).
Proof.
  apply Forall_map_impl. intros e He. destruct (e_alive e); [|exact He]. destruct He as (? & ? & ? & Hf & Hd).
  cbn. case_bool_decide as Hs; unfold enemy_ok; simpl; unfold PLAY_TOP, EN_H, SP_Y in *;
    split_and!; try lia; auto; intros; congruence.
Qed.

Lemma init_challenge_from_ok ch n es : Forall (enemy_ok ch) es -> Forall (enemy_ok ch) (init_challenge_from n es).
Proof. intros Hes. revert n. induction Hes as [|e es He _ IH]; intros n; simpl; [done|]. destruct (e_alive e); constructor; auto. Qed.

Lemma make_enemy_ok rnd k now level r c ch : 0 <= r <= 2 -> enemy_ok ch (make_enemy rnd k now level r c).1.
Proof.
  intros. unfold make_enemy. destruct (if _ && _ && _ then _ else _) as [et hp].
  destruct (randint rnd k 0 255) as [ph k1]. destruct (randint rnd k1 400 1200) as [d k2].
  unfold enemy_ok. simpl. split_and!; try lia; discriminate.
Qed.

Lemma make_wave_ok rnd k now level ch : Forall (enemy_ok ch) (make_wave rnd k now level).1.
Proof.
  unfold make_wave.
  apply (foldl_inv (fun acc : list enemy * nat => Forall (enemy_ok ch) acc.1)); [|by constructor].
  intros [es k'] [r c] Hin Hes. apply elem_of_zrange2 in Hin. simpl in Hes. cbv beta iota.
  pose proof (make_enemy_ok rnd k' now level r c ch) as He.
  destruct (make_enemy rnd k' now level r c) as [e k2]. simpl in *.
  apply Forall_app_2; [done|]. apply Forall_singleton, He. unfold FORMATION_ROWS in Hin. lia.
Qed.

Lemma insert_by_r_perm i e l : insert_by_r i e l ≡ₚ (i, e) :: l.
Proof.
  induction l as [|[j e'] l IH]; simpl; [done|]. destruct (_ <? _); [done|].
  rewrite IH. by constructor.
Qed.

Lemma sort_by_r_perm l : sort_by_r l ≡ₚ l.
Proof. induction l as [|[i e] l IH]; simpl; [done|]. by rewrite insert_by_r_perm, IH. Qed.

(** [pick_diver] picks an enemy of the list that is in the formation. *)
Lemma pick_diver_form rnd k es i k' :
  pick_diver rnd k es = (Some i, k') -> exists e, es !! i = Some e /\ in_formation e = true.
Proof.
  unfold pick_diver. destruct (List.filter _ _) as [|c cs] eqn:Ec; [done|]. cbv zeta.
  set (sorted := sort_by_r (c :: cs)). set (pool := take _ sorted).
  assert (pool <> []) as Hne.
  { assert (length sorted = S (length cs)) as Hl
      by (exact (Permutation_length (sort_by_r_perm (c :: cs)))).
    intros Hp. apply (f_equal length) in Hp. subst pool. rewrite length_take, Hl in Hp. simpl in Hp. lia. }
  pose proof (choice_elem rnd k pool Hne) as Hin. destruct (choice rnd k pool) as [[j e] k1]. intros [= <- _].
  simpl in Hin. subst pool. apply elem_of_take in Hin as (n & Hn & _).
  apply list_elem_of_lookup_2 in Hn. subst sorted. rewrite sort_by_r_perm, <- Ec in Hn.
  apply list_elem_of_In, filter_In in Hn as [Hn Hf]. apply list_elem_of_In, list_elem_of_lookup in Hn as [m Hm].
  apply list_lookup_imap_Some in Hm as (e' & He' & [= -> ->]). eauto.
Qed.

(** Close the fields of [enemy_ok] after a case analysis. *)
Ltac ok_close := simpl in *; repeat split; auto; intros; try discriminate; try congruence; try lia.

Lemma start_dive_ok e sx : enemy_ok false e -> e_state e = EForm -> enemy_ok false (start_dive e sx).
Proof.
  unfold enemy_ok, start_dive, H. intros (? & ? & ? & Hf & _) Hs. specialize (Hf Hs).
  simpl. split_and!; auto; intros; try discriminate; lia.
Qed.

Lemma start_dives_ok rnd k now level ch ch_start sx ld es :
  Forall (enemy_ok ch) es -> Forall (enemy_ok ch) (start_dives rnd k now level ch ch_start sx ld es).1.1.
Proof.
  intros Hes. unfold start_dives. destruct ch.
  - simpl. apply (Forall_map_impl (enemy_ok true)); [|done].
    intros e He. destruct (_ && _); [|done]. destruct He as (? & ? & ? & _).
    unfold enemy_ok, H. simpl. split_and!; auto; intros; try discriminate; lia.
  - cbv zeta. destruct (_ && _); [|done]. destruct (pick_diver rnd k es) as [[i|] k1] eqn:Ep; [|done].
    apply pick_diver_form in Ep as (e & He & Hf). simpl. apply Forall_alter; [done|].
    intros x Hx Hok. rewrite He in Hx. injection Hx as <-.
    unfold in_formation in Hf. apply andb_true_iff in Hf as [_ Hf]. apply bool_decide_eq_true in Hf.
    by apply start_dive_ok.
Qed.

Lemma step_return_ok ch e : enemy_ok ch e -> e_state e = EReturn -> enemy_ok ch (step_return e).
Proof.
  unfold enemy_ok, step_return. intros (? & ? & ? & _ & _) Hs. cbv zeta.
  case_ifs; ok_close.
Qed.

Lemma step_diver_ok e tick level : enemy_ok false e -> e_state e = EDive -> enemy_ok false (step_diver e tick level).
Proof.
  unfold enemy_ok, step_diver, H. intros (? & ? & ? & _ & Hd) Hs. destruct (Hd Hs) as [Hy Hv]. specialize (Hv eq_refl).
  cbv zeta. case_ifs; ok_close.
Qed.

Lemma step_challenge_dive_ok e tick : enemy_ok true e -> e_state e = EDive -> enemy_ok true (step_challenge_dive e tick).
Proof.
  unfold enemy_ok, step_challenge_dive, H. intros (? & ? & ? & _ & Hd) Hs. destruct (Hd Hs) as [Hy _].
  cbv zeta. case_ifs; ok_close.
Qed.

Lemma move_enemy_ok rnd k tick level ch sx e : enemy_ok ch e -> enemy_ok ch (move_enemy rnd k tick level ch sx e).1.
Proof.
  intros He. unfold move_enemy. destruct (e_alive e); [|done]. simpl.
  destruct ch; destruct (e_state e) eqn:Hs; simpl; auto using step_challenge_dive_ok, step_return_ok.
  - destruct (try_beam rnd k sx e) as [e1 k1] eqn:E1.
    assert (enemy_ok false e1 /\ (e_state e1 = EDive -> e1 = e)) as [Hok1 He1].
    { revert E1. unfold try_beam. repeat case_match; intros [= <- _]; split; auto.
      - destruct He as (? & ? & ? & _ & _). unfold enemy_ok. ok_close.
      - simpl. discriminate. }
    simpl. case_bool_decide as Hd; [|done]. rewrite (He1 Hd). by apply step_diver_ok.
  - destruct He as (? & ? & ? & _ & _). case_ifs; unfold enemy_ok; ok_close.
Qed.

Lemma move_enemies_ok rnd k tick level ch sx es :
  Forall (enemy_ok ch) es -> Forall (enemy_ok ch) (move_enemies rnd k tick level ch sx es).1 /\
  length (move_enemies rnd k tick level ch sx es).1 = length es.
Proof.
  intros Hes. revert k. induction Hes as [|e es He _ IH]; intros k; simpl; [done|].
  pose proof (move_enemy_ok rnd k tick level ch sx e He) as He'.
  destruct (move_enemy rnd k tick level ch sx e) as [e' k1]. destruct (IH k1) as [IH1 IH2].
  destruct (move_enemies rnd k1 tick level ch sx es) as [rest k2]. simpl in *. split; [by constructor|lia].
Qed.

Lemma enemy_shooting_ok rnd k now level c sx es ebs ch :
  Forall (enemy_ok ch) es -> Forall (enemy_ok ch) (enemy_shooting rnd k now level c sx es ebs).1.1.
Proof.
  intros Hes. unfold enemy_shooting. destruct (negb c && _); [|done].
  apply (foldl_inv (fun acc : list enemy * list (Z * Z) * nat => Forall (enemy_ok ch) acc.1.1)); [|by constructor].
  intros [[es' ebs'] k'] e Hin Hacc. rewrite Forall_forall in Hes. specialize (Hes e Hin). simpl in Hacc.
  unfold enemy_shoot. destruct (_ && _ && _); [|simpl; apply Forall_app_2; auto].
  destruct (randint rnd k' 0 250) as [d k1]. simpl. apply Forall_app_2; [done|]. by constructor.
Qed.

Lemma enemy_points_nonneg e : 0 <= hit_points e.
Proof. unfold hit_points. case_ifs; lia. Qed.

(** The bullet pass keeps the enemies sound, drops bullets only, and
    raises the score. *)
Lemma bullets_hit_ok pbs es sc ch :
  Forall (enemy_ok ch) es ->
  let '(pbs', es', sc') := bullets_hit pbs es sc in
  Forall (enemy_ok ch) es' /\ (length pbs' <= length pbs)%nat /\ sc <= sc'.
Proof.
  revert es sc. induction pbs as [|b pbs IH]; intros es sc Hes; simpl; [split_and!; auto; lia|].
  destruct (list_find _ es) as [[i e]|].
  - assert (Forall (enemy_ok ch) (alter hit_enemy i es)) as Ha.
    { apply Forall_alter; [done|]. intros x _ Hx. exact Hx. }
    pose proof (IH _ (sc + hit_points e) Ha) as Hr. pose proof (enemy_points_nonneg e).
    destruct (bullets_hit pbs _ _) as [[pbs' es'] sc']. destruct Hr as (? & ? & ?). split_and!; auto; lia.
  - pose proof (IH es sc Hes) as Hr. destruct (bullets_hit pbs es sc) as [[pbs' es'] sc'].
    destruct Hr as (? & ? & ?). simpl. split_and!; auto; lia.
Qed.

(** ** The phases of one pass *)

Lemma clamp_bounds v lo hi : lo <= hi -> lo <= clamp v lo hi <= hi.
Proof. unfold clamp. intros. case_ifs; lia. Qed.

Lemma fire_cap d sx pbs :
  Z.of_nat (length pbs) <= bullets_cap d -> Z.of_nat (length (fire d sx pbs)) <= bullets_cap d.
Proof. unfold fire. intros. case_ifs; rewrite ?length_app in *; simpl in *; lia. Qed.

Lemma move_player_bullets_length pbs : (length (move_player_bullets pbs) <= length pbs)%nat.
Proof. unfold move_player_bullets. etransitivity; [apply filter_length_le|]. by rewrite length_map. Qed.

(** With [FORM_W = W] the hover clamps the formation back to column 0
    on every step. *)
Lemma hover_fixed now level dir lf :
  dir = 1 \/ dir = -1 ->
  let '(fx, d, _) := hover now level 0 dir lf in fx = 0 /\ (d = 1 \/ d = -1).
Proof. unfold hover, W, FORM_W, FORMATION_COLS, EN_W, SP_X. intros. case_ifs; lia. Qed.

(** What the collision blocks keep. *)
Definition fight_ok (ch : bool) (f : fight) : Prop :=
  0 <= f_ship_x f <= W - SHIP_W /\ Z.of_nat (length (f_pbs f)) <= bullets_cap (f_double f) /\
  Forall (enemy_ok ch) (f_es f).

Lemma lose_life_ok ch now d f : fight_ok ch f -> fight_ok ch (lose_life now d f).
Proof.
  intros (_ & _ & Hes). unfold fight_ok, lose_life, bullets_cap, W, SHIP_W. simpl.
  split_and!; [vm_compute; done|vm_compute; done|destruct d; simpl; lia|by apply reset_enemies_ok].
Qed.

(** A lost life starts 1.2 s of invulnerability: the next blocks of the
    same pass see the ship invulnerable. *)
Lemma lose_life_invulnerable T d f : vulnerable (ticks_ms T) (lose_life (ticks_ms T) d f) = false.
Proof.
  unfold vulnerable, lose_life. simpl. rewrite ticks_diff_add by (vm_compute; split; congruence). done.
Qed.

Lemma bullet_check_inv T f : vulnerable (ticks_ms T) f = false -> bullet_check (ticks_ms T) f = f.
Proof. unfold bullet_check. by intros ->. Qed.

Lemma enemy_collision_inv T f : vulnerable (ticks_ms T) f = false -> enemy_collision (ticks_ms T) f = f.
Proof. unfold enemy_collision. by intros ->. Qed.

(** The two blocks after the capture cost at most one life together. *)
Lemma hit_blocks T f :
  let f' := enemy_collision (ticks_ms T) (bullet_check (ticks_ms T) f) in
  f' = f \/ f' = lose_life (ticks_ms T) false f.
Proof.
  cbv zeta. unfold bullet_check. destruct (_ && _).
  - right. apply enemy_collision_inv, lose_life_invulnerable.
  - unfold enemy_collision. destruct (_ && _); auto.
Qed.

(** ** The level end *)

Lemma next_level_ok rnd now2 s : ginv s -> ginv (next_level rnd now2 s).
Proof.
  unfold next_level. destruct (make_wave rnd (g_draws s) now2 (g_level s + 1)) as [es k] eqn:Ew.
  pose proof (make_wave_ok rnd (g_draws s) now2 (g_level s + 1) false) as Hok. rewrite Ew in Hok.
  unfold ginv, bullets_cap. simpl. intros (? & _ & ? & _ & _ & ? & ? & ? & ? & _).
  split_and!; auto; try lia; try reflexivity; try (destruct (g_double s); simpl; lia); case_ifs; lia.
Qed.

Lemma level_end_post rnd now now2 s :
  ginv s -> let s' := level_end rnd now now2 s in
  ginv s' /\ g_lives s' = g_lives s /\ g_score s <= g_score s' /\ (g_level s' = g_level s \/ g_level s' = g_level s + 1).
Proof.
  intros Hs. cbv zeta. unfold level_end.
  assert (forall s0, ginv s0 -> g_score s <= g_score s0 -> g_lives s0 = g_lives s -> g_level s0 = g_level s ->
            let s' := next_level rnd now2 s0 in
            ginv s' /\ g_lives s' = g_lives s /\ g_score s <= g_score s' /\
            (g_level s' = g_level s \/ g_level s' = g_level s + 1)) as Hn.
  { intros s0 H0 ???. cbv zeta. pose proof (next_level_ok rnd now2 s0 H0). unfold next_level in *.
    destruct (make_wave _ _ _ _). simpl. split_and!; auto; lia. }
  destruct (g_challenge s); [destruct (all_dead _); [|destruct (_ >? _)]|destruct (all_dead _)];
    try (split_and!; auto; lia); apply Hn; auto; simpl; try lia.
  all: destruct Hs as (? & ? & ? & ? & ? & ? & ? & ? & ? & ?); unfold ginv; simpl; split_and?; auto; lia.
Qed.

Lemma bomb_ok ch pd b pbs ebs es :
  0 <= b <= 3 -> Forall (enemy_ok ch) es ->
  let '(b', pbs', _, es') := bomb pd b pbs ebs es in
  0 <= b' <= 3 /\ (length pbs' <= length pbs)%nat /\ Forall (enemy_ok ch) es'.
Proof.
  intros ? Hes. unfold bomb. destruct (_ && _) eqn:Hp; zbools; simpl; split_and!; auto; try lia.
  by apply bomb_enemies_ok.
Qed.

Lemma enter_challenge_ok now level ch cs cp es pbs ebs :
  Forall (enemy_ok ch) es ->
  let '(ch', _, _, es', pbs', _) := enter_challenge now level ch cs cp es pbs ebs in
  Forall (enemy_ok ch') es' /\ (length pbs' <= length pbs)%nat.
Proof.
  intros Hes. unfold enter_challenge. destruct ch; simpl; [split; auto|].
  destruct (is_challenge_stage level); simpl; split; auto; [|lia].
  apply init_challenge_from_ok. eapply Forall_impl; [exact Hes|]. apply enemy_ok_challenge.
Qed.

(** The end of a pass in which the player lives: the state handed to
    the level end is sound, and so is the level end's result. *)
Lemma gnext_post s rnd now now2 eb' sc b' ch cs cp d llr lf ld la an tk k f :
  ginv s -> fight_ok ch f -> 1 <= f_lives f -> (f_lives f = g_lives s \/ f_lives f = g_lives s - 1) ->
  g_score s <= sc -> 0 <= b' <= 3 -> (d = 1 \/ d = -1) ->
  tick_post s (GNext (level_end rnd now now2 (mkG eb' sc (g_level s) (f_lives f) b' (f_double f) (f_ship_x f)
    (f_pbs f) (f_ebs f) (f_es f) 0 PLAY_TOP d llr lf ld la an tk (f_invuln f) ch cs cp k))).
Proof.
  intros (_ & _ & _ & _ & _ & Hl & _ & Hsc & Hlev & _) (Hsx & Hpb & Hes) ? Hf ? ? ?.
  match goal with |- context [level_end _ _ _ ?s0] => assert (ginv s0) as Hs0 end.
  { unfold ginv. simpl. split_and!; auto; lia. }
  destruct (level_end_post rnd now now2 _ Hs0) as (? & Hl' & ? & ?). simpl in *. split_and!; auto; lia.
Qed.

(** One pass keeps [ginv], costs at most one life, never lowers the
    score, and moves at most one level on. *)
Lemma gtick_post env rnd T T2 s : ginv s -> tick_post s (gtick env rnd T T2 s).
Proof.
  intros Hs. pose proof Hs as (Hsx & Hfx & Hfy & Hdir & Hpb & Hl & Hb & Hsc & Hlev & Hes).
  unfold gtick, gtick_with. cbv zeta.
  destruct (anim_step _ _ _) as [la an]. destruct (EdgeButtons.update _ _) as [eb' [[[pu pd] ?] ?]].
  destruct (ship_move _ _ _ _) as [sx0 llr].
  assert (0 <= clamp sx0 0 (W - SHIP_W) <= W - SHIP_W) as Hsx' by (apply clamp_bounds; done).
  set (sx := clamp sx0 0 (W - SHIP_W)) in *.
  set (pbs0 := if pu then fire (g_double s) sx (g_pbs s) else g_pbs s).
  assert (Z.of_nat (length pbs0) <= bullets_cap (g_double s)) by (subst pbs0; destruct pu; auto using fire_cap).
  pose proof (bomb_ok _ pd _ pbs0 (g_ebs s) _ Hb Hes) as Hbomb.
  destruct (bomb _ _ _ _ _) as [[[b' pbs1] ebs1] es1]. destruct Hbomb as (Hb' & Hp1 & He1).
  pose proof (hover_fixed (ticks_ms T) (g_level s) _ (g_last_form s) Hdir) as Hh. rewrite Hfx.
  destruct (hover _ _ _ _ _) as [[fx d] lf]. destruct Hh as [-> Hd]. rewrite Hfy.
  pose proof (enter_challenge_ok (ticks_ms T) (g_level s) _ (g_ch_start s) (g_ch_perfect s) _ pbs1 ebs1
    (update_homes_ok _ _ He1)) as Hc.
  destruct (enter_challenge _ _ _ _ _ _ _ _) as [[[[[ch cs] cp] es3] pbs2] ebs2]. destruct Hc as [He3 Hp2].
  pose proof (start_dives_ok rnd (g_draws s) (ticks_ms T) (g_level s) ch cs sx (g_last_dive s) es3 He3) as He4.
  destruct (start_dives _ _ _ _ _ _ _ _ _) as [[es4 ld] k1]. simpl in He4.
  pose proof (move_player_bullets_length pbs2).
  destruct (move_enemies_ok rnd k1 ((g_tick s + 1) .& 65535) (g_level s) ch sx es4 He4) as [He5 _].
  destruct (move_enemies _ _ _ _ _ _ _) as [es5 k2]. simpl in He5.
  pose proof (enemy_shooting_ok rnd k2 (ticks_ms T) (g_level s) ch sx es5
    (move_enemy_bullets (g_level s) ebs2) ch He5) as He6.
  destruct (enemy_shooting _ _ _ _ _ _ _ _) as [[es6 ebs4] k3]. simpl in He6.
  pose proof (bullets_hit_ok (move_player_bullets pbs2) es6 (g_score s) ch He6) as Hbh.
  destruct (bullets_hit _ _ _) as [[pbs4 es7] sc]. destruct Hbh as (He7 & Hp4 & Hsc').
  set (f0 := mkF (g_lives s) (g_double s) pbs4 ebs4 es7 (g_invuln s) sx).
  assert (fight_ok ch f0) as Hf0 by (unfold fight_ok; simpl; split_and!; auto; lia).
  destruct (captured (ticks_ms T) ch f0); simpl.
  - destruct (g_lives s - 1 <=? 0) eqn:Hz; [zbools; simpl; split_and!; auto; lia|].
    rewrite bullet_check_inv, enemy_collision_inv by apply lose_life_invulnerable.
    simpl. rewrite Hz. zbools. apply gnext_post with (f := lose_life (ticks_ms T) true f0);
      auto using lose_life_ok; simpl; lia.
  - destruct (hit_blocks T f0) as [-> | ->]; simpl.
    + destruct (g_lives s <=? 0) eqn:Hz; zbools; [lia|]. apply gnext_post with (f := f0); auto; simpl; lia.
    + destruct (g_lives s - 1 <=? 0) eqn:Hz; zbools; [simpl; split_and!; auto; lia|].
      apply gnext_post with (f := lose_life (ticks_ms T) false f0); auto using lose_life_ok; simpl; lia.
Qed.

Lemma gstart_inv rnd k T0 : ginv (gstart rnd k T0).
Proof.
  unfold gstart. pose proof (make_wave_ok rnd k (ticks_ms T0) 1 false) as Hok.
  destruct (make_wave _ _ _ _) as [es k']. unfold ginv. simpl in *.
  split_and!; auto; try lia; try reflexivity; vm_compute; congruence.
Qed.

Lemma greach_inv s : greach s -> ginv s.
Proof.
  induction 1 as [rnd k T0|s env rnd T T2 s' _ IH E]; [apply gstart_inv|].
  pose proof (gtick_post env rnd T T2 s IH) as Hp. rewrite E in Hp. apply Hp.
Qed.

(** [invuln_until] starts at 0: at a clock reading in the second half of
    the tick period the ship is invulnerable, and stays so as long as the
    clock stays in that half (no life can be lost to set a new deadline). *)
Lemma invulnerable_second_half T f :
  f_invuln f = 0 -> TICKS_PERIOD / 2 < ticks_ms T -> vulnerable (ticks_ms T) f = false.
Proof.
  intros Hi Ht. unfold vulnerable. rewrite Hi. apply Z.ltb_ge.
  pose proof (ticks_diff_zero_pos T Ht). lia.
Qed.

(** ** Dead code *)

(** An enemy at most at row 108 reaches down to row 115, above the ship's
    row [SHIP_Y = 118]. *)
Lemma enemy_hits_ship_low x e : e_y e <= 108 -> enemy_hits_ship x e = false.
Proof.
  intros Hy. unfold enemy_hits_ship, aabb, SHIP_Y, SHIP_H, EN_H, H.
  apply not_true_iff_false. intros Hh. zbools. lia.
Qed.

(** ** Properties *)

(** C18: Every pass of the loop from a reachable state keeps the invariant
    (ship on the screen, formation at column 0 with direction one step,
    at most [bullets_cap] player bullets, one to three lives, at most three
    bombs, every enemy in a formation row and at most at row 108, divers
    above their turning rows) with at most one life lost, even when a
    capture, an enemy bullet and an enemy collision fall in the same pass;
    the score never drops and the level moves at most one on; or it ends
    the game on the last life. *)
Theorem galaga_reachable_safe s env rnd T T2 : greach s -> tick_post s (gtick env rnd T T2 s).
Proof. intros Hs. apply gtick_post, greach_inv, Hs. Qed.

Lemma galaga_reachable_safe_witness :
  greach (gstart (fun k => Z.of_nat k * 37 mod 101) 0 0) /\
  tick_post (gstart (fun k => Z.of_nat k * 37 mod 101) 0 0)
    (gtick (fun _ => mkLevels 0 1 1 1) (fun k => Z.of_nat k * 37 mod 101) 2000 2000
       (gstart (fun k => Z.of_nat k * 37 mod 101) 0 0)).
Proof.
  assert (Hr : greach (gstart (fun k => Z.of_nat k * 37 mod 101) 0 0)) by constructor.
  split; [exact Hr|exact (galaga_reachable_safe _ _ _ _ _ Hr)].
Defined.

(** C30: The formation never hovers: [FORM_W = 6 * 9 + 5 * 2 = 64 = W],
    so in every reachable state the formation is at column 0, and the
    hover step puts it back at column 0 whatever the clock. *)
Theorem formation_never_moves s now lf :
  greach s -> g_form_x s = 0 /\ (hover now (g_level s) (g_form_x s) (g_dir_x s) lf).1.1 = 0.
Proof.
  intros Hs. destruct (greach_inv s Hs) as (_ & Hfx & _ & Hdir & _). split; [done|].
  rewrite Hfx. pose proof (hover_fixed now (g_level s) _ lf Hdir) as Hh.
  destruct (hover _ _ _ _ _) as [[fx d] ?]. apply Hh.
Qed.

Lemma formation_never_moves_witness :
  greach (gstart (fun _ => 0) 0 0) /\
  g_form_x (gstart (fun _ => 0) 0 0) = 0 /\
  (hover 500 (g_level (gstart (fun _ => 0) 0 0)) (g_form_x (gstart (fun _ => 0) 0 0))
     (g_dir_x (gstart (fun _ => 0) 0 0)) 0).1.1 = 0.
Proof.
  assert (Hr : greach (gstart (fun _ => 0) 0 0)) by constructor.
  split; [exact Hr|exact (formation_never_moves _ 500 0 Hr)].
Defined.

(** On a sound fight the enemy-collision block changes nothing: every
    enemy is at most at row 108, so none overlaps the ship at row 118. *)
Lemma fight_enemy_collision_inert ch now f : fight_ok ch f -> enemy_collision now f = f.
Proof.
  intros (_ & _ & Hes). unfold enemy_collision.
  replace (existsb (enemy_hits_ship (f_ship_x f)) (f_es f)) with false; [by rewrite andb_false_r|].
  symmetry. apply not_true_iff_false. intros (e & Hin & He)%existsb_exists.
  rewrite Forall_forall in Hes. destruct (Hes e (proj2 (list_elem_of_In _ _) Hin)) as (_ & _ & Hy & _).
  by rewrite enemy_hits_ship_low in He.
Qed.

(** Two collision blocks that agree on sound fights give the same pass
    from a state with [ginv]. *)
Lemma gtick_with_ext coll1 coll2 env rnd T T2 s :
  ginv s -> (forall ch f, fight_ok ch f -> coll1 (ticks_ms T) f = coll2 (ticks_ms T) f) ->
  gtick_with coll1 env rnd T T2 s = gtick_with coll2 env rnd T T2 s.
Proof.
  intros Hs Hco. pose proof Hs as (Hsx & Hfx & Hfy & Hdir & Hpb & Hl & Hb & Hsc & Hlev & Hes).
  unfold gtick_with. cbv zeta.
  destruct (anim_step _ _ _) as [la an]. destruct (EdgeButtons.update _ _) as [eb' [[[pu pd] ?] ?]].
  destruct (ship_move _ _ _ _) as [sx0 llr].
  assert (0 <= clamp sx0 0 (W - SHIP_W) <= W - SHIP_W) as Hsx' by (apply clamp_bounds; done).
  set (sx := clamp sx0 0 (W - SHIP_W)) in *.
  set (pbs0 := if pu then fire (g_double s) sx (g_pbs s) else g_pbs s).
  assert (Z.of_nat (length pbs0) <= bullets_cap (g_double s)) by (subst pbs0; destruct pu; auto using fire_cap).
  pose proof (bomb_ok _ pd _ pbs0 (g_ebs s) _ Hb Hes) as Hbomb.
  destruct (bomb _ _ _ _ _) as [[[b' pbs1] ebs1] es1]. destruct Hbomb as (Hb' & Hp1 & He1).
  pose proof (hover_fixed (ticks_ms T) (g_level s) _ (g_last_form s) Hdir) as Hh. rewrite Hfx.
  destruct (hover _ _ _ _ _) as [[fx d] lf]. destruct Hh as [-> Hd]. rewrite Hfy.
  pose proof (enter_challenge_ok (ticks_ms T) (g_level s) _ (g_ch_start s) (g_ch_perfect s) _ pbs1 ebs1
    (update_homes_ok _ _ He1)) as Hc.
  destruct (enter_challenge _ _ _ _ _ _ _ _) as [[[[[ch cs] cp] es3] pbs2] ebs2]. destruct Hc as [He3 Hp2].
  pose proof (start_dives_ok rnd (g_draws s) (ticks_ms T) (g_level s) ch cs sx (g_last_dive s) es3 He3) as He4.
  destruct (start_dives _ _ _ _ _ _ _ _ _) as [[es4 ld] k1]. simpl in He4.
  pose proof (move_player_bullets_length pbs2).
  destruct (move_enemies_ok rnd k1 ((g_tick s + 1) .& 65535) (g_level s) ch sx es4 He4) as [He5 _].
  destruct (move_enemies _ _ _ _ _ _ _) as [es5 k2]. simpl in He5.
  pose proof (enemy_shooting_ok rnd k2 (ticks_ms T) (g_level s) ch sx es5
    (move_enemy_bullets (g_level s) ebs2) ch He5) as He6.
  destruct (enemy_shooting _ _ _ _ _ _ _ _) as [[es6 ebs4] k3]. simpl in He6.
  pose proof (bullets_hit_ok (move_player_bullets pbs2) es6 (g_score s) ch He6) as Hbh.
  destruct (bullets_hit _ _ _) as [[pbs4 es7] sc]. destruct Hbh as (He7 & Hp4 & Hsc').
  set (f0 := mkF (g_lives s) (g_double s) pbs4 ebs4 es7 (g_invuln s) sx).
  assert (fight_ok ch f0) as Hf0 by (unfold fight_ok; simpl; split_and!; auto; lia).
  destruct (captured (ticks_ms T) ch f0); simpl.
  - destruct (_ <=? 0); [done|]. rewrite bullet_check_inv by apply lose_life_invulnerable.
    rewrite (Hco ch); [done|by apply lose_life_ok].
  - rewrite (Hco ch); [done|]. unfold bullet_check. destruct (_ && _); [by apply lose_life_ok|done].
Qed.

(** C31: In every pass of the Galaga loop from a reachable state, the
    [# enemy collides with player] block is dead code: the pass gives the
    same result as the pass without it, because every enemy the block sees
    is at most at row 108 and the ship is at row 118. *)
Theorem enemy_collision_inert s env rnd T T2 :
  greach s -> gtick env rnd T T2 s = gtick_with (fun _ f => f) env rnd T T2 s.
Proof.
  intros Hr. apply gtick_with_ext; [by apply greach_inv|]. intros ch f. apply fight_enemy_collision_inert.
Qed.

Lemma enemy_collision_inert_witness :
  greach (gstart (fun _ => 0) 0 0) /\
  gtick (fun _ => mkLevels 1 1 1 1) (fun _ => 0) 1000 1000 (gstart (fun _ => 0) 0 0) =
  gtick_with (fun _ f => f) (fun _ => mkLevels 1 1 1 1) (fun _ => 0) 1000 1000 (gstart (fun _ => 0) 0 0).
Proof.
  assert (Hr : greach (gstart (fun _ => 0) 0 0)) by constructor.
  split; [exact Hr|exact (enemy_collision_inert _ _ _ 1000 1000 Hr)].
Defined.

(** The enemy bullet cap [4 + level // 3] is tested once, before the
    loop over the enemies, so one pass can take the enemy bullets past it:
    at level 1 (cap 4) with three bullets on the screen, three formation
    enemies above the ship whose shot timers have run out all fire, and
    six bullets are on the screen. *)
Example enemy_bullet_cap_overrun :
  let e y := mkE 0 0 true 0 1 EForm 27 y 0 0 27 y 0 0 0 0 in
  let '(_, ebs, _) := enemy_shooting (fun _ => 0) 0 100 1 false 27 [e 12; e 27; e 42] [(0, 50); (5, 60); (9, 70)] in
  length ebs = 6%nat /\ 4 + 1 `div` 3 < Z.of_nat (length ebs).
Proof. vm_compute. split; [reflexivity|congruence]. Qed.

End Galaga.
