(* ===== verification/GalagaDraw.v ===== *)
(** * What Galaga draws ([src/galaga.py], sprites and frame)

    Galaga draws straight on the portrait driver ([sh1106] with
    [rotate=90]): [draw_ship], the 9 x 7 bitmaps of [_draw_sprite_9x7]
    ([BEE_A], [BEE_B], [BOSS_A], [BOSS_B]) through [draw_enemy], the bullets
    and the boss beam, and the HUD [L:%d B:%d] cut at 8 characters.  The
    frame is the [# draw] block of [play_once] on the state a pass leaves
    (passes that end a challenge stage [continue] before it).  The theorems
    place the ship and the enemies in the boxes [aabb] tests, and show that
    in every reachable state the HUD is never cut. *)

From Stdlib Require Import String.
From stdpp Require Import list strings pretty.
From S2P Require Import Prelude Input Canvas Font Galaga.

Local Open Scope Z_scope.

Module GalagaDraw.
Import Galaga.

Definition draw_ship (x y : Z) : list fbcall :=
  [FillRect (x + 3) y 3 2 1; FillRect (x + 1) (y + 2) 7 3 1; FillRect x (y + 5) 9 2 1;
   Pixel (x + 2) (y + 6) 0; Pixel (x + 6) (y + 6) 0].

(** [_draw_sprite_9x7(x, y, rows)]: bit [8 - rx] of row [ry]. *)
Definition draw_sprite_9x7 (x y : Z) (rows : list Z) : list fbcall :=
  bitmap x y 9 7 1 (fun rx ry => negb (Z.land (rows !!! Z.to_nat ry) (Z.shiftl 1 (8 - rx)) =? 0)).

Definition BEE_A : list Z := [124; 198; 495; 254; 92; 186; 257].
Definition BEE_B : list Z := [124; 387; 495; 254; 186; 92; 257].
Definition BOSS_A : list Z := [254; 455; 511; 254; 443; 387; 130].
Definition BOSS_B : list Z := [254; 455; 511; 254; 387; 443; 130].

Definition draw_enemy (x y etype anim_phase : Z) : list fbcall :=
  let rows := if etype =? 1 then (if anim_phase =? 0 then BOSS_A else BOSS_B)
              else (if anim_phase =? 0 then BEE_A else BEE_B) in
  draw_sprite_9x7 x y rows.

Definition draw_player_bullet (x y : Z) : fbcall := VLine x y PB_H 1.
Definition draw_enemy_bullet (x y : Z) : fbcall := VLine x y EB_H 1.

Definition draw_beam (x_center y_top y_bottom : Z) : list fbcall :=
  [VLine x_center y_top (Z.max 1 (y_bottom - y_top)) 1;
   VLine (x_center - 1) (y_top + 3) (Z.max 1 (y_bottom - y_top - 6)) 1].

(** [hud = "L:%d B:%d" % (lives, bombs)], or [L:%d DS] with the double
    shot. *)
Definition hud_text (s : gstate) : string :=
  if g_double s then String.append "L:" (String.append (pretty (g_lives s)) " DS")
  else String.append "L:" (String.append (pretty (g_lives s)) (String.append " B:" (pretty (g_bombs s)))).

(** [# draw] at the clock [now]. *)
Definition galaga_frame (now : Z) (s : gstate) : list fbcall :=
  [Fill 0; HLine 0 9 W 1; Text (substring 0 8 (hud_text s)) 0 0 1] ++
  flat_map (fun e =>
    if e_alive e then
      draw_enemy (e_x e) (e_y e) (e_type e) (g_anim s) ++
      (if bool_decide (e_state e = EBeam) && (0 <? e_beam_t e)
       then draw_beam (e_x e + EN_W `div` 2) (e_y e + EN_H) (SHIP_Y + SHIP_H) else [])
    else []) (g_enemies s) ++
  map (fun b => draw_player_bullet b.1 b.2) (g_pbs s) ++
  (if g_challenge s then [] else map (fun b => draw_enemy_bullet b.1 b.2) (g_ebs s)) ++
  (if (ticks_diff (g_invuln s) now <? 0) || (Z.land (g_tick s) 2 =? 0) then draw_ship (g_ship_x s) SHIP_Y else []).

(** ** The sprites and the HUD *)

Lemma draw_ship_in x y p : p ∈ pixels_of (draw_ship x y) -> in_box (x, y, SHIP_W, SHIP_H) p.
Proof. revert p. apply calls_in. unfold draw_ship, SHIP_W, SHIP_H. call_in. Qed.

(** With one to three lives and at most three bombs the HUD has at most
    seven characters. *)
Lemma hud_text_short s :
  1 <= g_lives s <= 3 -> 0 <= g_bombs s <= 3 -> (String.length (hud_text s) <= 7)%nat.
Proof.
  unfold hud_text. intros Hl Hb.
  assert (g_lives s = 1 \/ g_lives s = 2 \/ g_lives s = 3) as [-> | [-> | ->]] by lia;
  (assert (g_bombs s = 0 \/ g_bombs s = 1 \/ g_bombs s = 2 \/ g_bombs s = 3) as [-> | [-> | [-> | ->]]] by lia);
  destruct (g_double s); vm_compute; lia.
Qed.

(** C34: In every state the Galaga loop reaches, the HUD ["L:%d B:%d"] (or
    ["L:%d DS"]) has at most seven characters, so the frame's
    [oled.text(hud[:8], 0, 0, 1)] draws it whole; the ship the frame draws
    at [(ship_x, SHIP_Y)] lies in its 9 x 7 collision box and on the
    64 x 128 screen, and every enemy sprite lies in the box [aabb] tests. *)
Theorem galaga_hud_and_sprites now s p :
  greach s ->
  Text (hud_text s) 0 0 1 ∈ galaga_frame now s /\ (String.length (hud_text s) <= 7)%nat /\
  (p ∈ pixels_of (draw_ship (g_ship_x s) SHIP_Y) ->
     in_box (g_ship_x s, SHIP_Y, SHIP_W, SHIP_H) p /\ in_box (0, 0, W, H) p) /\
  (forall e a, p ∈ pixels_of (draw_enemy (e_x e) (e_y e) (e_type e) a) -> in_box (e_x e, e_y e, EN_W, EN_H) p).
Proof.
  intros (Hx & _ & _ & _ & _ & Hl & Hb & _)%greach_inv.
  pose proof (hud_text_short s Hl Hb) as Hs. split_and!; [|done| |].
  - unfold galaga_frame. rewrite substring_0_full by lia. apply elem_of_app. left. rewrite !elem_of_cons. auto.
  - intros Hp%draw_ship_in. revert Hp. destruct p. unfold in_box, SHIP_Y, SHIP_W, SHIP_H, H, W in *. simpl. lia.
  - intros e a. apply bitmap_in.
Qed.

Lemma galaga_hud_and_sprites_witness :
  let s := gstart (fun _ => 0) 0 0 in
  greach s /\ hud_text s = "L:3 B:2"%string /\
  Text "L:3 B:2" 0 0 1 ∈ galaga_frame 0 s.
Proof.
  cbv zeta. assert (Hr : greach (gstart (fun _ => 0) 0 0)) by constructor.
  split_and!; [exact Hr|reflexivity|].
  destruct (galaga_hud_and_sprites 0 _ (0, 0) Hr) as [Hm _]. exact Hm.
Defined.

End GalagaDraw.
