(* ===== verification/Dino.v ===== *)
(** * Dino ([src/dino.py]): the runner, its obstacles and its float physics

    Dino is the one game whose state holds Python floats.  Its arithmetic is
    written over the class [PyFloat] of the operations the code uses
    ([float(n)], the literals, [+ - * /], [<], [<=] and [int()], which
    raises on an infinity or a NaN); [binary32] is the instance of the Pico
    port, IEEE single precision with rounding to nearest even, computed by
    the Standard Library's [SpecFloat].  A Python number that is an [int] at
    some times and a [float] at others ([dino_y], [next_spawn_dist]) is a
    [num], with Python's mixed arithmetic.

    The sprites are the lists of [framebuf] calls they make on [vbuf];
    [draw_cactus] and [draw_ptero] return their box as in the code.  The
    game is a step function [dstep] over three modes, one per loop of
    [play_game]: the title loop, one pass of the [while True] game loop,
    and the game-over loop; [dreach] are the states its passes reach. *)

From Stdlib Require Import SpecFloat String.
From stdpp Require Import list strings pretty.
From S2P Require Import Prelude Input Rotate Canvas.

Local Open Scope Z_scope.

Module Dino.

(** ** Python floats *)

(** The float operations of the code.  [float_lit m k] is the literal
    [m * 10^-k]; Python's [a > b] is [flt b a]. *)
Class PyFloat (F : Type) := {
  float_of_int : Z -> F;
  float_lit : Z -> Z -> F;
  fadd : F -> F -> F;
  fsub : F -> F -> F;
  fmul : F -> F -> F;
  fdiv : F -> F -> F;
  flt : F -> F -> bool;
  fle : F -> F -> bool;
  float_to_int : F -> option Z }.

(** [int(x)] of a binary float: truncation toward zero; [OverflowError]
    or [ValueError] on an infinity or a NaN. *)
Definition sf_trunc (x : spec_float) : option Z :=
  match x with
  | S754_zero _ => Some 0
  | S754_finite s m e =>
      let a := if 0 <=? e then Z.pos m * 2 ^ e else Z.pos m `div` 2 ^ (- e) in
      Some (if s then - a else a)
  | _ => None
  end.

Definition prec32 : Z := 24.
Definition emax32 : Z := 128.

Definition sf32_of_int (z : Z) : spec_float := binary_normalize prec32 emax32 z 0 false.

(** MicroPython's single-precision floats: every operation rounds to
    nearest even; a literal is the rounded quotient of two exact integers. *)
#[export] Instance binary32 : PyFloat spec_float := {|
  float_of_int := sf32_of_int;
  float_lit m k := SFdiv prec32 emax32 (sf32_of_int m) (sf32_of_int (10 ^ k));
  fadd := SFadd prec32 emax32;
  fsub := SFsub prec32 emax32;
  fmul := SFmul prec32 emax32;
  fdiv := SFdiv prec32 emax32;
  flt := SFltb;
  fle := SFleb;
  float_to_int := sf_trunc |}.

(** ** Geometry and the sprites *)

Definition GROUND_Y : Z := 112.
Definition DINO_X : Z := 10.
Definition JUMP_HOLD_FRAMES : Z := 8.
Definition GAP_MIN_START : Z := 22.
Definition GAP_MAX_START : Z := 46.
Definition BIRD_SCORE_START : Z := 180.

Definition rects_overlap (a b : box) : bool :=
  let '(ax, ay, aw, ah) := a in
  let '(bx, by_, bw, bh) := b in
  negb ((ax + aw <=? bx) || (bx + bw <=? ax) || (ay + ah <=? by_) || (by_ + bh <=? ay)).

Definition draw_dino (x y : Z) (ducking : bool) : list fbcall :=
  if ducking then
    [FillRect (x + 1) (y + 6) 10 4 1; FillRect (x + 8) (y + 5) 5 3 1; Pixel (x + 12) (y + 6) 1;
     FillRect (x + 2) (y + 10) 3 2 1; FillRect (x + 6) (y + 10) 3 2 1]
  else
    [FillRect (x + 2) (y + 7) 8 8 1; FillRect (x + 8) (y + 4) 6 4 1; Pixel (x + 13) (y + 6) 1;
     FillRect (x + 3) (y + 15) 2 3 1; FillRect (x + 6) (y + 15) 2 3 1;
     Pixel (x + 1) (y + 10) 1; Pixel x (y + 11) 1].

Definition dino_hitbox (x y : Z) (ducking : bool) : box :=
  if ducking then (x + 1, y + 5, 12, 9) else (x + 1, y + 4, 13, 14).

Definition draw_cactus (x base_y variant : Z) : list fbcall * box :=
  if variant =? 0 then
    ([FillRect x (base_y - 10) 3 10 1; FillRect (x - 2) (base_y - 8) 2 2 1; FillRect (x + 3) (base_y - 6) 2 2 1],
     (x - 2, base_y - 10, 7, 10))
  else if variant =? 1 then
    ([FillRect x (base_y - 14) 4 14 1; FillRect (x - 3) (base_y - 10) 3 3 1; FillRect (x + 4) (base_y - 8) 3 3 1],
     (x - 3, base_y - 14, 10, 14))
  else
    ([FillRect x (base_y - 9) 2 9 1; FillRect (x + 3) (base_y - 12) 2 12 1; FillRect (x + 6) (base_y - 10) 2 10 1],
     (x, base_y - 12, 8, 12)).

Definition draw_ptero (x y flap : Z) : list fbcall * box :=
  let wings :=
    if flap =? 0 then
      [Pixel x (y + 2) 1; Pixel (x + 1) (y + 1) 1; Pixel (x + 2) y 1; Pixel (x + 3) (y + 1) 1; Pixel (x + 4) (y + 2) 1;
       Pixel (x + 5) (y + 1) 1; Pixel (x + 6) y 1; Pixel (x + 7) (y + 1) 1; Pixel (x + 8) (y + 2) 1]
    else
      [Pixel x (y + 1) 1; Pixel (x + 1) y 1; Pixel (x + 2) (y + 1) 1; Pixel (x + 3) y 1; Pixel (x + 4) (y + 1) 1;
       Pixel (x + 5) y 1; Pixel (x + 6) (y + 1) 1; Pixel (x + 7) y 1; Pixel (x + 8) (y + 1) 1] in
  (wings ++ [Pixel (x + 4) (y + 2) 1], (x, y, 9, 3)).

Definition ground_dash (x y w : Z) : fbcall := FillRect x y w 1 1.

(** [draw_text_center(y, text)] with the 8-pixel [framebuf] font. *)
Definition draw_text_center (y : Z) (text : string) : fbcall :=
  Text text (Z.max 0 ((VW - Z.of_nat (String.length text) * 8) `div` 2)) y 1.

(** ** Random helpers *)

Definition rand_range (rnd : nat -> Z) (k : nat) (lo hi : Z) : Z * nat :=
  if hi <=? lo then (lo, k)
  else let '(r, k') := getrandbits rnd k 16 in (lo + r mod (hi - lo + 1), k').

Definition choice3 (rnd : nat -> Z) (k : nat) (a b c : Z) : Z * nat :=
  let '(r, k') := getrandbits rnd k 2 in (if r =? 0 then a else if r =? 1 then b else c, k').

(** ** The game, over any float implementation *)

Section Game.
Context {F : Type} `{PyFloat F}.

(** A Python number that is an [int] or a [float]. *)
Inductive num := NInt (z : Z) | NFloat (f : F).

Definition to_float (n : num) : F := match n with NInt z => float_of_int z | NFloat f => f end.

(** [n + f] and [n - f] with [f] a float: always a float. *)
Definition num_add_f (n : num) (f : F) : num := NFloat (fadd (to_float n) f).
Definition num_sub_f (n : num) (f : F) : num := NFloat (fsub (to_float n) f).

(** [a <= b] and [a < b]: exact on two ints, in floats otherwise. *)
Definition num_le (a b : num) : bool :=
  match a, b with NInt x, NInt y => x <=? y | _, _ => fle (to_float a) (to_float b) end.
Definition num_lt (a b : num) : bool :=
  match a, b with NInt x, NInt y => x <? y | _, _ => flt (to_float a) (to_float b) end.

(** [int(n)]. *)
Definition num_int (n : num) : option Z :=
  match n with NInt z => Some z | NFloat f => float_to_int f end.

Definition JUMP_V0 : F := float_lit (-46) 1.
Definition GRAVITY : F := float_lit 34 2.
Definition GRAVITY_RELEASE : F := float_lit 52 2.
Definition GRAVITY_FASTFALL : F := float_lit 60 2.
Definition MAX_FALL : F := float_lit 65 1.
Definition HOLD_GRAVITY : F := float_lit 22 2.
Definition SPEED_START : F := float_lit 155 2.
Definition SPEED_MAX : F := float_lit 410 2.
Definition SPEED_RAMP_PER_TICK : F := float_lit 9 4.
Definition ZERO : F := float_lit 0 1.
Definition ONE : F := float_lit 10 1.

(** [clamp(v, lo, hi)] on floats. *)
Definition fclamp (v lo hi : F) : F := if flt v lo then lo else if flt hi v then hi else v.

(** [class Obstacle]: kind 0 is a cactus, 1 a pterodactyl. *)
Record obstacle := mkO { o_kind : Z; o_x : F; o_speed : F; o_variant : Z; o_flap : Z; o_y : Z }.

(** [Obstacle(kind, x, speed, score)] with [x] an int. *)
Definition make_obstacle (rnd : nat -> Z) (k : nat) (kind x : Z) (speed : F) : obstacle * nat :=
  let '(variant, k1) := getrandbits rnd k 2 in
  if kind =? 1 then
    let '(y, k2) := choice3 rnd k1 78 88 98 in (mkO kind (float_of_int x) speed variant 0 y, k2)
  else (mkO kind (float_of_int x) speed variant 0 0, k1).

(** [o.speed = speed; o.step()]. *)
Definition obstacle_step (speed : F) (o : obstacle) : obstacle :=
  mkO (o_kind o) (fsub (o_x o) speed) speed (o_variant o)
      (if o_kind o =? 1 then Z.lxor (o_flap o) 1 else o_flap o) (o_y o).

(** [o.draw_and_box()]; [int(self.y)] of an int is the int. *)
Definition draw_and_box (o : obstacle) : option (list fbcall * box) :=
  x ← float_to_int (o_x o);
  Some (if o_kind o =? 0 then draw_cactus x GROUND_Y (o_variant o `mod` 3) else draw_ptero x (o_y o) (o_flap o)).

(** The loop a pass is in: the title screen, the game, the game-over
    screen. *)
Inductive mode := Title | Run | Over.

(** The locals of [play_game]. *)
Record dstate := mkD {
  d_mode : mode; dino_y : num; vy : F; on_ground : bool; ducking : bool; jump_prev : bool; jump_hold : Z;
  obstacles : list obstacle; score : Z; best : Z; speed : F; ground_phase : Z; next_spawn_dist : num;
  d_draws : nat }.

(** [reset_round()], the mode and [best] given. *)
Definition reset_round (m : mode) (best : Z) (k : nat) : dstate :=
  mkD m (NInt (GROUND_Y - 18)) ZERO true false false 0 [] 0 best SPEED_START 0 (NInt 28) k.

(** [play_game()] is entered at the title screen. *)
Definition dinit (k : nat) : dstate := reset_round Title 0 k.

(** [compute_gap()]. *)
Definition compute_gap (speed : F) : option (Z * Z) :=
  let t := fdiv (fsub speed SPEED_START) (fsub SPEED_MAX SPEED_START) in
  let t := fclamp t ZERO ONE in
  gmin ← float_to_int (fsub (float_of_int GAP_MIN_START) (fmul (float_of_int 6) t));
  gmax ← float_to_int (fsub (float_of_int GAP_MAX_START) (fmul (float_of_int 10) t));
  Some (gmin, gmax).

(** The outcome of a pass: the next state and the calls it made on
    [vbuf] before [show_virtual()]; the return to the menu; an exception
    of [int()]. *)
Inductive dresult := DNext (s : dstate) (frame : list fbcall) | DMenu | DRaise.

(** [# Gravity rules (Chrome-ish)]; [vy < 0] compares with the int 0. *)
Definition gravity (on_ground up_now down_now : bool) (jump_hold : Z) (vy : F) : F :=
  if on_ground then GRAVITY
  else if down_now then GRAVITY_FASTFALL
  else
    let g := if up_now && (0 <? jump_hold) && flt vy (float_of_int 0) then HOLD_GRAVITY else GRAVITY in
    if negb up_now && flt vy (float_of_int 0) then (if flt g GRAVITY_RELEASE then GRAVITY_RELEASE else g) else g.

(** [# Apply physics]: returns [dino_y], [vy], [on_ground], [jump_hold]. *)
Definition physics (on_ground : bool) (g : F) (dino_y : num) (vy : F) (jump_hold : Z) : num * F * bool * Z :=
  if on_ground then (dino_y, vy, on_ground, jump_hold) else
  let vy1 := fadd vy g in
  let vy2 := if flt MAX_FALL vy1 then MAX_FALL else vy1 in
  let y1 := num_add_f dino_y vy2 in
  let jh := if 0 <? jump_hold then jump_hold - 1 else jump_hold in
  if num_le (NInt (GROUND_Y - 18)) y1 then (NInt (GROUND_Y - 18), ZERO, true, jh) else (y1, vy2, false, jh).

(** [# Speed ramp (smooth)]: [min(SPEED_MAX, ...)]. *)
Definition speed_ramp (speed : F) (score : Z) : F :=
  let x := fadd speed (fmul SPEED_RAMP_PER_TICK (fadd ONE (fmul (float_of_int score) (float_lit 6 4)))) in
  if flt x SPEED_MAX then x else SPEED_MAX.

(** [kind = 0], a bird with [getrandbits(8) < 90] once the score reaches
    [BIRD_SCORE_START]. *)
Definition spawn_kind (rnd : nat -> Z) (k : nat) (score : Z) : Z * nat :=
  if BIRD_SCORE_START <=? score then let '(r, k') := getrandbits rnd k 8 in (if r <? 90 then 1 else 0, k')
  else (0, k).

(** [# Spawn logic (distance-based)]. *)
Definition spawn (rnd : nat -> Z) (k : nat) (score : Z) (speed : F) (nsd : num) (obs : list obstacle)
    : option (list obstacle * num * nat) :=
  let nsd := num_sub_f nsd speed in
  let last_x := match last obs with Some o => NFloat (o_x o) | None => NInt (-9999) end in
  let empty := match obs with [] => true | _ :: _ => false end in
  if num_le nsd (NInt 0) && (empty || num_lt last_x (NInt (VW - 10))) then
    let '(kind, k1) := spawn_kind rnd k score in
    let '(o, k2) := make_obstacle rnd k1 kind (VW + 8) speed in
    '(gmin, gmax) ← compute_gap speed;
    let '(d, k3) := rand_range rnd k2 gmin gmax in
    Some (obs ++ [o], NInt d, k3)
  else Some (obs, nsd, k).

(** [# Step obstacles]: move them, keep those with [o.x > -20]. *)
Definition step_obstacles (speed : F) (obs : list obstacle) : list obstacle :=
  List.filter (fun o => num_lt (NInt (-20)) (NFloat (o_x o))) (map (obstacle_step speed) obs).

(** [# Ground dashes]: [for x in range(0, VW, 6)]. *)
Definition ground_dashes (ground_phase : Z) : list fbcall :=
  flat_map (fun x => if ((x + ground_phase) `div` 6) mod 2 =? 0 then [ground_dash x GROUND_Y 4] else [])
    (zrange_step 0 VW 6).

(** [# Obstacles + collision]: the calls of every obstacle and [hit]. *)
Fixpoint draw_obstacles (dhb : box) (obs : list obstacle) : option (list fbcall * bool) :=
  match obs with
  | [] => Some ([], false)
  | o :: obs' =>
      '(calls, b) ← draw_and_box o;
      '(rest, hit) ← draw_obstacles dhb obs';
      Some (calls ++ rest, rects_overlap dhb b || hit)
  end.

(** One pass of the game loop, from reading the buttons to [score += 1];
    a hit enters the game-over loop with the score of the pass. *)
Definition run_frame (rnd : nat -> Z) (n : levels) (s : dstate) : dresult :=
  let up_now := pressed BUp n in
  let down_now := pressed BDown n in
  let jump_click := up_now && negb (jump_prev s) in
  let duck := down_now && on_ground s in
  let '(vy0, og0, jh0) :=
    if jump_click && on_ground s then (JUMP_V0, false, JUMP_HOLD_FRAMES) else (vy s, on_ground s, jump_hold s) in
  let g := gravity og0 up_now down_now jh0 vy0 in
  let '(y1, vy1, og1, jh1) := physics og0 g (dino_y s) vy0 jh0 in
  let sp := speed_ramp (speed s) (score s) in
  match spawn rnd (d_draws s) (score s) sp (next_spawn_dist s) (obstacles s) with
  | None => DRaise
  | Some (obs1, nsd, k) =>
      let obs2 := step_obstacles sp obs1 in
      match float_to_int sp, num_int y1 with
      | Some isp, Some iy =>
          let dhb := dino_hitbox DINO_X iy duck in
          match draw_obstacles dhb obs2 with
          | None => DRaise
          | Some (ocalls, hit) =>
              let frame := [Fill 0] ++ ground_dashes (ground_phase s) ++ draw_dino DINO_X iy duck ++ ocalls ++
                           [Text (pretty (score s)) 0 0 1] in
              DNext (mkD (if hit then Over else Run) y1 vy1 og1 duck up_now jh1 obs2
                         (if hit then score s else score s + 1)
                         (if hit && (best s <? score s) then score s else best s)
                         sp ((ground_phase s + isp) mod 12) nsd k) frame
          end
      | _, _ => DRaise
      end
  end.

Definition title_screen : list fbcall :=
  [Fill 0; draw_text_center 14 "DINO RUN"; draw_text_center 38 "UP START"; draw_text_center 50 "DN MENU"].

Definition over_screen (score best : Z) : list fbcall :=
  [Fill 0; draw_text_center 24 "GAME OVER"; draw_text_center 44 (String.append "SCORE " (pretty score));
   draw_text_center 56 (String.append "BEST  " (pretty best)); draw_text_center 96 "UP AGAIN";
   draw_text_center 108 "DN MENU"].

(** One pass of the loop the game is in.  The title starts a round with
    [best = 0]; [UP AGAIN] calls [reset_round()], breaks, and the game
    loop's [score += 1] follows. *)
Definition dstep (rnd : nat -> Z) (n : levels) (s : dstate) : dresult :=
  match d_mode s with
  | Title =>
      if pressed BUp n then DNext (reset_round Run 0 (d_draws s)) title_screen
      else if pressed BDown n then DMenu else DNext s title_screen
  | Run => run_frame rnd n s
  | Over =>
      let scr := over_screen (score s) (best s) in
      if pressed BUp n then
        let r := reset_round Run (best s) (d_draws s) in
        DNext (mkD Run (dino_y r) (vy r) (on_ground r) (ducking r) (jump_prev r) (jump_hold r) (obstacles r)
                   (score r + 1) (best r) (speed r) (ground_phase r) (next_spawn_dist r) (d_draws r)) scr
      else if pressed BDown n then DMenu else DNext s scr
  end.

(** The states at the top of a pass. *)
Inductive dreach : dstate -> Prop :=
| dreach_init k : dreach (dinit k)
| dreach_step rnd n s s' fr : dreach s -> dstep rnd n s = DNext s' fr -> dreach s'.

End Game.

Arguments num F : clear implicits.
Arguments obstacle F : clear implicits.
Arguments dstate F : clear implicits.
Arguments dresult F : clear implicits.
Arguments dreach {F _} _.

(** ** What every pass keeps *)

Section Props.
Context {F : Type} `{PyFloat F}.

(** An obstacle as the constructor makes it: a cactus at [y = 0] or a bird
    at one of its three heights, a 2-bit variant, a flap of 0 or 1. *)
Definition obstacle_ok (o : obstacle F) : Prop :=
  (o_kind o = 0 /\ o_y o = 0 \/ o_kind o = 1 /\ (o_y o = 78 \/ o_y o = 88 \/ o_y o = 98)) /\
  0 <= o_variant o <= 3 /\ (o_flap o = 0 \/ o_flap o = 1).

(** The state at the top of a pass: on the ground the dino is at row 94,
    the int [GROUND_Y - 18], with [vy = 0.0]; in the air the landing test
    [dino_y >= GROUND_Y - 18] failed; the jump hold is within its 8 frames;
    the obstacles are well formed; the ground phase is in [0, 12); on the
    game-over screen [best] is at least [score]. *)
Definition dwf (s : dstate F) : Prop :=
  0 <= jump_hold s <= JUMP_HOLD_FRAMES /\
  (on_ground s = true -> dino_y s = NInt (GROUND_Y - 18) /\ vy s = ZERO) /\
  (on_ground s = false -> num_le (NInt (GROUND_Y - 18)) (dino_y s) = false) /\
  Forall obstacle_ok (obstacles s) /\
  0 <= ground_phase s < 12 /\ 0 <= score s /\ 0 <= best s /\
  (d_mode s = Over -> score s <= best s).

Lemma spawn_kind_01 rnd k sc : (spawn_kind rnd k sc).1 = 0 \/ (spawn_kind rnd k sc).1 = 1.
Proof. unfold spawn_kind. destruct (_ <=? _); [destruct (getrandbits _ _ _); simpl; destruct (_ <? _)|]; auto. Qed.

Lemma make_obstacle_ok rnd k kind x sp : kind = 0 \/ kind = 1 -> obstacle_ok (make_obstacle rnd k kind x sp).1.
Proof.
  intros Hk. unfold make_obstacle. pose proof (getrandbits_range rnd k 2) as Hv.
  destruct (getrandbits rnd k 2) as [v k1]. simpl in Hv. change (2 ^ 2) with 4 in Hv.
  destruct (kind =? 1) eqn:E; zbool.
  - unfold choice3. destruct (getrandbits rnd k1 2) as [r k2]. unfold obstacle_ok. simpl.
    split_and!; [right; split; [done|]; case_ifs; auto|lia|lia|auto].
  - unfold obstacle_ok. simpl. split_and!; [left; split; [lia|done]|lia|lia|auto].
Qed.

Lemma spawn_ok rnd k sc sp nsd obs obs' nsd' k' :
  Forall obstacle_ok obs -> spawn rnd k sc sp nsd obs = Some (obs', nsd', k') -> Forall obstacle_ok obs'.
Proof.
  intros Hobs. unfold spawn. cbv zeta. destruct (_ && _); [|by intros [= <- _ _]].
  pose proof (spawn_kind_01 rnd k sc) as Hk. destruct (spawn_kind rnd k sc) as [kind k1].
  pose proof (make_obstacle_ok rnd k1 kind (VW + 8) sp Hk) as Ho. destruct (make_obstacle _ _ _ _ _) as [o k2].
  destruct (compute_gap sp) as [[gmin gmax]|]; [|done]. simpl. destruct (rand_range _ _ _ _).
  intros [= <- _ _]. apply Forall_app_2; [done|]. by apply Forall_singleton.
Qed.

Lemma step_obstacles_ok sp obs : Forall obstacle_ok obs -> Forall obstacle_ok (step_obstacles sp obs).
Proof.
  intros Hobs. unfold step_obstacles. apply Forall_list_filter, (Forall_map_impl obstacle_ok); [|done].
  intros o (Hk & Hv & Hf). unfold obstacle_ok, obstacle_step. simpl. split_and!; [done|lia|lia|].
  destruct (_ =? 1); [|done]. destruct Hf as [-> | ->]; auto.
Qed.

(** The physics step lands the dino at row 94 with [vy = 0.0], or leaves
    it where the landing test failed. *)
Lemma physics_ok og g y v jh :
  0 <= jh <= JUMP_HOLD_FRAMES -> (og = true -> y = NInt (GROUND_Y - 18) /\ v = ZERO) ->
  let '(y', v', og', jh') := physics og g y v jh in
  0 <= jh' <= JUMP_HOLD_FRAMES /\ (og' = true -> y' = NInt (GROUND_Y - 18) /\ v' = ZERO) /\
  (og' = false -> num_le (NInt (GROUND_Y - 18)) y' = false).
Proof.
  intros Hj Hg. unfold physics. destruct og; [split_and!; auto; try lia; discriminate|]. cbv zeta.
  destruct (num_le _ _) eqn:Hl; cbv beta iota; (split; [unfold JUMP_HOLD_FRAMES in *; case_ifs; lia|]);
    split; auto; discriminate.
Qed.

Lemma reset_round_wf m b k : 0 <= b -> dwf (reset_round m b k).
Proof. intros. unfold dwf, reset_round, JUMP_HOLD_FRAMES. simpl. split_and!; auto; lia || discriminate. Qed.

Lemma run_frame_wf rnd n s s' fr : dwf s -> run_frame rnd n s = DNext s' fr -> dwf s'.
Proof.
  intros (Hj & Hg & Ha & Hobs & Hgp & Hsc & Hb & _). unfold run_frame. cbv zeta.
  assert (forall b, let '(v0, og0, jh0) := if b && on_ground s then (JUMP_V0, false, JUMP_HOLD_FRAMES)
                                           else (vy s, on_ground s, jump_hold s) in
          0 <= jh0 <= JUMP_HOLD_FRAMES /\ (og0 = true -> dino_y s = NInt (GROUND_Y - 18) /\ v0 = ZERO)) as Hjump.
  { intros b. destruct (b && on_ground s); [unfold JUMP_HOLD_FRAMES; split; [lia|discriminate]|auto]. }
  specialize (Hjump (pressed BUp n && negb (jump_prev s))).
  destruct (if _ && on_ground s then _ else _) as [[v0 og0] jh0]. destruct Hjump as [Hj0 Hg0].
  pose proof (physics_ok og0 (gravity og0 (pressed BUp n) (pressed BDown n) jh0 v0) (dino_y s) v0 jh0 Hj0 Hg0) as Hp.
  destruct (physics _ _ _ _ _) as [[[y1 v1] og1] jh1]. destruct Hp as (Hj1 & Hg1 & Ha1).
  destruct (spawn _ _ _ _ _ _) as [[[obs1 nsd] k]|] eqn:Es; [|done].
  apply spawn_ok in Es; [|done]. apply (step_obstacles_ok (speed_ramp (speed s) (score s))) in Es.
  destruct (float_to_int _) as [isp|], (num_int y1) as [iy|]; try done.
  destruct (draw_obstacles _ _) as [[oc hit]|]; [|done]. intros [= <- _].
  unfold dwf. simpl. pose proof (Z.mod_pos_bound (ground_phase s + isp) 12).
  split_and!; auto; try lia;
    [destruct hit; simpl; lia|destruct hit; simpl; case_ifs; lia|destruct hit; simpl; [intros _; case_ifs; lia|discriminate]].
Qed.

Lemma dstep_wf rnd n s s' fr : dwf s -> dstep rnd n s = DNext s' fr -> dwf s'.
Proof.
  intros Hs. unfold dstep. destruct (d_mode s) eqn:Hm.
  - destruct (pressed BUp n); [intros [= <- _]; apply reset_round_wf; lia|].
    destruct (pressed BDown n); [done|]. by intros [= <- _].
  - by apply run_frame_wf.
  - pose proof Hs as (_ & _ & _ & _ & _ & Hsc & Hb & _). cbv zeta. destruct (pressed BUp n).
    + intros [= <- _]. unfold dwf, JUMP_HOLD_FRAMES. simpl. split_and!; auto; lia || discriminate.
    + destruct (pressed BDown n); [done|]. by intros [= <- _].
Qed.
End Props.

Lemma dinit_wf {F} `{PyFloat F} k : dwf (@dinit F _ k).
Proof. apply reset_round_wf. lia. Qed.

(** ** Sprites and boxes *)

(** ** Properties *)

(** C19: Every state the game reaches is well formed: a dino on the ground
    stands at row 94 ([GROUND_Y - 18], an int) with [vy = 0.0], a dino in
    the air is where the landing test failed, the jump hold stays within
    its 8 frames, every obstacle is a cactus or a bird at row 78, 88 or 98
    with a 2-bit variant and a flap of 0 or 1, the ground phase is in
    [0, 12), and the game-over screen shows a best at least the score; for
    every float implementation. *)
Theorem dino_reachable_wf {F} `{PyFloat F} (s : dstate F) : dreach s -> dwf s.
Proof.
  induction 1 as [k|rnd n s s' fr _ IH E]; [apply dinit_wf|]. exact (dstep_wf rnd n s s' fr IH E).
Qed.

Lemma dino_reachable_wf_witness :
  let s := match @dstep spec_float _ (fun _ => 0) (mkLevels 0 1 1 1) (dinit 0) with DNext s _ => s | _ => dinit 0 end in
  dreach s /\ dwf s.
Proof.
  cbv zeta. assert (Hr : dreach (match @dstep spec_float _ (fun _ => 0) (mkLevels 0 1 1 1) (dinit 0) with
                                 DNext s _ => s | _ => dinit 0 end)).
  { eapply (dreach_step (fun _ => 0) (mkLevels 0 1 1 1)); [apply dreach_init|]. vm_compute. reflexivity. }
  split; [exact Hr|exact (dino_reachable_wf _ Hr)].
Defined.

(** C32: Against the dino on the ground (row 94, as [dino_reachable_wf]
    places it), the bird at row 78 and the one at row 88 never collide,
    standing or ducking; the bird at row 98 collides with the ducking dino
    whenever its column is in [3, 22], and with the standing one in
    [3, 23]: ducking saves one column, never a whole pass under the bird. *)
Theorem grounded_bird_overlap x flap ducking :
  rects_overlap (dino_hitbox DINO_X (GROUND_Y - 18) ducking) (draw_ptero x 78 flap).2 = false /\
  rects_overlap (dino_hitbox DINO_X (GROUND_Y - 18) ducking) (draw_ptero x 88 flap).2 = false /\
  rects_overlap (dino_hitbox DINO_X (GROUND_Y - 18) ducking) (draw_ptero x 98 flap).2 =
    (3 <=? x) && (x <=? if ducking then 22 else 23).
Proof.
  unfold dino_hitbox, draw_ptero, rects_overlap, DINO_X, GROUND_Y.
  destruct ducking; simpl; split_and!; apply Bool.eq_iff_eq_true;
    rewrite ?negb_true_iff, ?orb_false_iff, ?andb_true_iff, ?Z.leb_gt, ?Z.leb_le; lia.
Qed.

(** C33: Every pixel a cactus or a bird draws lies in the box it returns,
    and every pixel of the dino lies in its hitbox but the tail tip
    [(x, y + 11)] of the standing sprite, which the hitbox leaves out. *)
Theorem sprites_in_boxes x y v f d p :
  (p ∈ pixels_of (draw_cactus x y v).1 -> in_box (draw_cactus x y v).2 p) /\
  (p ∈ pixels_of (draw_ptero x y f).1 -> in_box (draw_ptero x y f).2 p) /\
  (p ∈ pixels_of (draw_dino x y d) -> in_box (dino_hitbox x y d) p \/ (d = false /\ p = (x, y + 11))) /\
  ~ in_box (dino_hitbox x y false) (x, y + 11).
Proof.
  split_and!.
  - apply calls_in. unfold draw_cactus. case_ifs; call_in.
  - apply calls_in. unfold draw_ptero. cbv zeta. case_ifs; call_in.
  - intros Hp. destruct d.
    + left. revert p Hp. apply calls_in. call_in.
    + destruct (decide (p = (x, y + 11))) as [->|Hne]; [by right|left].
      apply elem_of_flat_map in Hp as (c & Hc & Hp). repeat (apply elem_of_cons in Hc as [-> | Hc]);
        [..|by apply elem_of_nil in Hc]; destruct p as [px py]; simpl in Hp; call_pixel Hp;
        simpl in *; try lia; congruence.
  - simpl. lia.
Qed.

Lemma sprites_in_boxes_witness :
  ((10, 84) ∈ pixels_of (draw_cactus 10 94 0).1 /\ in_box (draw_cactus 10 94 0).2 (10, 84)) /\
  ((10, 96) ∈ pixels_of (draw_ptero 10 94 0).1 /\ in_box (draw_ptero 10 94 0).2 (10, 96)) /\
  ((10, 105) ∈ pixels_of (draw_dino 10 94 false) /\
   (in_box (dino_hitbox 10 94 false) (10, 105) \/ (false = false /\ (10, 105) = (10, 94 + 11))) /\
   ~ in_box (dino_hitbox 10 94 false) (10, 94 + 11)).
Proof.
  assert (H1 : (10, 84) ∈ pixels_of (draw_cactus 10 94 0).1)
    by (apply (bool_decide_unpack _); vm_compute; reflexivity).
  assert (H2 : (10, 96) ∈ pixels_of (draw_ptero 10 94 0).1)
    by (apply (bool_decide_unpack _); vm_compute; reflexivity).
  assert (H3 : (10, 105) ∈ pixels_of (draw_dino 10 94 false))
    by (apply (bool_decide_unpack _); vm_compute; reflexivity).
  split_and!; [exact H1|exact (proj1 (sprites_in_boxes 10 94 0 0 false (10, 84)) H1)
              |exact H2|exact (proj1 (proj2 (sprites_in_boxes 10 94 0 0 false (10, 96))) H2)
              |exact H3|exact (proj1 (proj2 (proj2 (sprites_in_boxes 10 94 0 0 false (10, 105)))) H3)
              |exact (proj2 (proj2 (proj2 (sprites_in_boxes 10 94 0 0 false (10, 105)))))].
Defined.

(** UP on the title screen starts a round at score 0; UP AGAIN on the
    game-over screen starts one at score 1, because the game loop's
    [score += 1] follows [reset_round()] and the [break]; [best] is kept
    across rounds and reset only by the title. *)
Theorem round_start_score {F} `{PyFloat F} rnd n (s : dstate F) :
  pressed BUp n = true -> d_mode s <> Run ->
  exists s' fr, dstep rnd n s = DNext s' fr /\ d_mode s' = Run /\ obstacles s' = [] /\
    score s' = match d_mode s with Over => 1 | _ => 0 end /\
    best s' = match d_mode s with Over => best s | _ => 0 end.
Proof. intros Hu Hm. unfold dstep. destruct (d_mode s); [|done|]; rewrite Hu; simpl; eauto 10. Qed.

Lemma round_start_score_witness :
  let s := mkD Over (NInt 94) ZERO true false false 0 [] 57 120 SPEED_START 3 (NInt 10) 5 in
  pressed BUp (mkLevels 0 1 1 1) = true /\ d_mode s <> Run /\
  exists s' fr, @dstep spec_float _ (fun _ => 0) (mkLevels 0 1 1 1) s = DNext s' fr /\ d_mode s' = Run /\
    obstacles s' = [] /\ score s' = 1 /\ best s' = 120.
Proof.
  cbv zeta. assert (Hu : pressed BUp (mkLevels 0 1 1 1) = true) by reflexivity.
  assert (Hm : d_mode (@mkD spec_float Over (NInt 94) ZERO true false false 0 [] 57 120 SPEED_START 3 (NInt 10) 5) <> Run)
    by discriminate.
  split; [exact Hu|split; [exact Hm|exact (round_start_score (fun _ => 0) _ _ Hu Hm)]].
Defined.

(** ** The jump in the Pico's arithmetic *)

(** The rows [int(dino_y)] after [n] passes of the game loop, UP held on
    the passes [ups] selects, with no draws needed. *)
Fixpoint run_rows {F} `{PyFloat F} (n i : nat) (ups : nat -> bool) (s : dstate F) : list Z :=
  match n with
  | O => []
  | S n' =>
      match dstep (fun _ => 0) (mkLevels (if ups i then 0 else 1) 1 1 1) s with
      | DNext s' _ => default (-1) (num_int (dino_y s')) :: run_rows n' (S i) ups s'
      | _ => []
      end
  end.

(** A tap of UP in single precision: the dino rises 21 rows to row 73 and
    is back on the ground on the 20th pass; for 16 passes its hitbox
    (rows [y + 4] to [y + 17]) covers rows 88 to 90, the row of the middle
    bird. *)
Example tap_jump_rows :
  @run_rows spec_float _ 21 0 (fun i => Nat.eqb i 0) (reset_round Run 0 0) =
    [89; 85; 82; 79; 77; 75; 74; 73; 73; 73; 74; 75; 76; 78; 80; 82; 85; 88; 91; 94; 94].
Proof. vm_compute. reflexivity. Qed.

(** UP and DOWN pressed together on the ground start a jump in a pass that
    also sets [ducking]: [ducking = down_now and on_ground] is evaluated
    before the jump leaves the ground, so the dino is in the air with the
    ducking sprite and hitbox for that pass. *)
Example duck_jump :
  match @dstep spec_float _ (fun _ => 0) (mkLevels 0 0 1 1) (reset_round Run 0 0) with
  | DNext s _ => ducking s = true /\ on_ground s = false
  | _ => False
  end.
Proof. vm_compute. split; reflexivity. Qed.

End Dino.
